(* ===== verification/_CoqProject ===== *)
-Q . S2P
Prelude.v
AgentStruct.v
Mac.v
Tools.v
Policy.v
Permissions.v
Namespaces.v
Cgroups.v
CgroupInv.v
Gate.v
GateInv.v
GateReg.v
GateStats.v
Cfs.v
Pool.v
TurnAdmission.v
LlmSched.v
ContextPaging.v
InitSystem.v
BootOrder.v
Restart.v
Scheduler.v
Ipc.v
QuotaLedger.v
QuotaInv.v
QuotaHistory.v
RateLimit.v
RateInv.v
RateHistory.v
Budget.v
BudgetInv.v
Connector.v
ConnectorInv.v
Authority.v
AuthorityCheck.v
AuthorityToy.v
AuthorityValid.v
AuthorityApply.v
AuthorityJoin.v
AuthorityInv.v
AuthorityLease.v
RaftStore.v
RaftApply.v
RaftLog.v
RaftOpen.v
