(* ===== verification/Prelude.v ===== *)
(** * AI Agent OS kernel: a verification library

    Header to be completed at the end of the sitting. *)

From stdpp Require Export base gmap strings list sets fin_maps sorting.
From Stdlib Require Export ZArith Lia.
From Stdlib Require Import Ascii.

#[export] Set Default Goal Selector "!".
#[local] Open Scope Z_scope.

(** ** Machine integers

    A [u64], [u32], [i8] or [usize] of the source is a [Z]; every operation whose width is
    visible is written with one of the functions below.  [usize] is 64 bits wide. *)

Definition u8_max : Z := 255.
Definition u32_max : Z := 4294967295.
Definition u64_max : Z := 18446744073709551615.
Definition usize_max : Z := u64_max.

(** Wrapping arithmetic modulo [2^64]: [AtomicU64::fetch_add], [wrapping_add] and the plain
    operators of a build without overflow checks. *)
Definition wrap64 (z : Z) : Z := z mod (u64_max + 1).

Definition wrap32 (z : Z) : Z := z mod (u32_max + 1).

Definition is_u64 (z : Z) : Prop := 0 <= z <= u64_max.
Definition is_u32 (z : Z) : Prop := 0 <= z <= u32_max.

(** [a.checked_add(b)]. *)
Definition checked_add64 (a b : Z) : option Z := if a + b <=? u64_max then Some (a + b) else None.

Definition sat_add64 (a b : Z) : Z := Z.min u64_max (a + b).
Definition sat_add32 (a b : Z) : Z := Z.min u32_max (a + b).
Definition sat_sub (a b : Z) : Z := Z.max 0 (a - b).
Definition sat_mul_usize (a b : Z) : Z := Z.min usize_max (a * b).

(** Saturating subtraction on [i8]. *)
Definition sat_sub_i8 (a b : Z) : Z := Z.max (-128) (Z.min 127 (a - b)).

(** [x.clamp(lo, hi)]. *)
Definition clamp (lo hi x : Z) : Z := if x <? lo then lo else if hi <? x then hi else x.

Lemma wrap64_small (z : Z) : 0 <= z <= u64_max → wrap64 z = z.
Proof. intros H. unfold wrap64, u64_max in *. apply Z.mod_small. lia. Qed.

Lemma wrap64_range (z : Z) : 0 <= wrap64 z <= u64_max.
Proof. unfold wrap64. pose proof (Z.mod_pos_bound z (u64_max + 1) eq_refl). lia. Qed.

Lemma sat_sub_0_l (b : Z) : 0 <= b → sat_sub 0 b = 0.
Proof. unfold sat_sub. lia. Qed.

(** ** Results

    A fallible operation returns [result E A], the source's [Result<A, E>]; [?] is the bind. *)

Inductive result (E A : Type) : Type :=
| Ok (a : A)
| Err (e : E).
Arguments Ok {E A} a.
Arguments Err {E A} e.

#[global] Instance result_eq_dec `{EqDecision E, EqDecision A} : EqDecision (result E A).
Proof. solve_decision. Defined.

#[global] Instance result_ret {E} : MRet (result E) := λ A a, Ok a.
#[global] Instance result_bind {E} : MBind (result E) := λ A B f m,
  match m with Ok a => f a | Err e => Err e end.

Definition is_ok {E A} (r : result E A) : bool :=
  match r with Ok _ => true | Err _ => false end.

Definition ok_or {E A} (e : E) (o : option A) : result E A :=
  match o with Some a => Ok a | None => Err e end.

Definition map_err {E E' A} (f : E → E') (r : result E A) : result E' A :=
  match r with Ok a => Ok a | Err e => Err (f e) end.

(** [if !b { return Err(e) }]. *)
Definition ensure {E} (b : bool) (e : E) : result E unit := if b then Ok tt else Err e.

(** A fallible operation on a state returns its result with the state it leaves.  [let? x := e
    orelse s in k] is [let x = e?;]: on an error the operation returns it, leaving state [s]. *)
Declare Scope kernel_scope.
Delimit Scope kernel_scope with kernel.
Notation "'let?' x ':=' e 'orelse' s 'in' k" :=
  (match e with Ok x => k | Err err => (Err err, s) end)
  (at level 10, x name, e at level 200, s at level 200, k at level 200) : kernel_scope.

Section result_lemmas.
Context {E A B : Type}.

Lemma bind_Ok (m : result E A) (f : A → result E B) (b : B) :
  m ≫= f = Ok b ↔ ∃ a, m = Ok a ∧ f a = Ok b.
Proof. destruct m; simpl; naive_solver. Qed.

Lemma bind_Err (m : result E A) (f : A → result E B) (e : E) :
  m ≫= f = Err e ↔ m = Err e ∨ ∃ a, m = Ok a ∧ f a = Err e.
Proof. destruct m; simpl; naive_solver. Qed.

Lemma ok_or_Ok (e : E) (o : option A) (a : A) : ok_or e o = Ok a ↔ o = Some a.
Proof. destruct o; simpl; naive_solver. Qed.

Lemma ok_or_Err (e e' : E) (o : option A) :
  ok_or e o = Err e' ↔ o = None ∧ e = e'.
Proof. destruct o; simpl; naive_solver. Qed.
End result_lemmas.

Lemma ensure_Ok {E} (b : bool) (e : E) (u : unit) : ensure b e = Ok u ↔ b = true.
Proof. destruct b, u; simpl; naive_solver. Qed.

Lemma ensure_Err {E} (b : bool) (e e' : E) : ensure b e = Err e' ↔ b = false ∧ e = e'.
Proof. destruct b; simpl; naive_solver. Qed.

Lemma bind_unit {E} (m k : result E unit) : (m ≫= λ _, k) = Ok tt ↔ m = Ok tt ∧ k = Ok tt.
Proof. destruct m as [[]|]; cbn; naive_solver. Qed.

(** Splits a hypothesis [m = Ok _] about a chain of binds into its successful steps. *)
Ltac res_inv :=
  repeat match goal with
  | H : _ ≫= _ = Ok _ |- _ =>
      apply bind_Ok in H; destruct H as (? & ? & ?)
  | H : ensure _ _ = Ok _ |- _ => apply ensure_Ok in H
  | H : ok_or _ _ = Ok _ |- _ => apply ok_or_Ok in H
  | H : Ok _ = Ok _ |- _ => injection H as H; subst
  | H : Err _ = Ok _ |- _ => discriminate H
  | H : Ok _ = Err _ |- _ => discriminate H
  | H : mret _ = Ok _ |- _ => unfold mret, result_ret in H
  | H : negb _ = true |- _ => apply negb_true_iff in H
  | H : negb _ = false |- _ => apply negb_false_iff in H
  end.

(** A loop whose body may fail. *)
Fixpoint try_fold {E S A : Type} (f : S → A → result E S) (xs : list A) (s : S) : result E S :=
  match xs with
  | [] => Ok s
  | x :: xs => s' ← f s x; try_fold f xs s'
  end.

Lemma try_fold_app {E S A} (f : S → A → result E S) xs ys s :
  try_fold f (xs ++ ys) s = s' ← try_fold f xs s; try_fold f ys s'.
Proof. revert s. induction xs as [|x xs IH]; intros s; cbn; [done|]. destruct (f s x); cbn; [apply IH|done]. Qed.

Lemma try_fold_unit {E A} (f : A → result E unit) xs :
  try_fold (λ _ x, f x) xs tt = Ok tt ↔ Forall (λ x, f x = Ok tt) xs.
Proof.
  induction xs as [|x xs IH]; cbn; [by split|]. rewrite Forall_cons, <- IH.
  destruct (f x) as [[]|]; cbn; naive_solver.
Qed.

(** ** Vectors

    [Vec] is a list; the functions below are the [Vec] and iterator operations the sources use,
    with the source's behaviour at the edges written out. *)

(** [iter().position(f)]: the index of the first element satisfying [f]. *)
Fixpoint position {A} (f : A → bool) (l : list A) : option nat :=
  match l with
  | [] => None
  | x :: l' => if f x then Some O else S <$> position f l'
  end.

(** [iter().find(f)]. *)
Fixpoint find_first {A} (f : A → bool) (l : list A) : option A :=
  match l with
  | [] => None
  | x :: l' => if f x then Some x else find_first f l'
  end.

(** [retain(f)] and [iter().filter(f)]. *)
Fixpoint retain {A} (f : A → bool) (l : list A) : list A :=
  match l with
  | [] => []
  | x :: l' => if f x then x :: retain f l' else retain f l'
  end.

(** [Vec::remove(i)] for an index in range. *)
Fixpoint remove_at {A} (i : nat) (l : list A) : list A :=
  match i, l with
  | _, [] => []
  | O, _ :: l' => l'
  | S i', x :: l' => x :: remove_at i' l'
  end.

(** [Vec::swap_remove(i)] for an index in range: the last element takes the place of the removed
    one. *)
Definition swap_remove {A} (i : nat) (l : list A) : list A :=
  match last l with
  | None => []
  | Some x => take (length l - 1) (<[i := x]> l)
  end.

(** [iter().filter(f).count()]. *)
Definition count_if {A} (f : A → bool) (l : list A) : nat := length (retain f l).

(** [contains(&x)] on a vector of integers. *)
Definition zmem (x : Z) (l : list Z) : bool := existsb (Z.eqb x) l.

(** [iter().min()] on integers. *)
Fixpoint zmin_list (l : list Z) : option Z :=
  match l with
  | [] => None
  | x :: l' => Some (match zmin_list l' with None => x | Some y => Z.min x y end)
  end.

Fixpoint zsum (l : list Z) : Z :=
  match l with [] => 0 | x :: l' => x + zsum l' end.

Section vectors.
Context {A : Type}.
Implicit Types (f : A → bool) (l : list A).

Lemma position_Some f l i :
  position f l = Some i →
  ∃ l1 x l2, l = l1 ++ x :: l2 ∧ i = length l1 ∧ f x = true ∧
    Forall (λ y, f y = false) l1.
Proof.
  revert i. induction l as [|x l IH]; intros i; simpl; [done|].
  destruct (f x) eqn:Hx.
  - intros [= <-]. by exists [], x, l.
  - destruct (position f l) as [j|] eqn:Hp; simpl; [|done]. intros [= <-].
    destruct (IH j eq_refl) as (l1 & y & l2 & -> & -> & Hy & Hall).
    exists (x :: l1), y, l2. auto.
Qed.

Lemma position_None f l : position f l = None ↔ Forall (λ y, f y = false) l.
Proof.
  induction l as [|x l IH]; simpl; [by split|].
  rewrite Forall_cons. destruct (f x) eqn:Hx; [naive_solver|].
  destruct (position f l) eqn:Hp; simpl; naive_solver.
Qed.

Lemma find_first_Some f l x :
  find_first f l = Some x →
  ∃ l1 l2, l = l1 ++ x :: l2 ∧ f x = true ∧ Forall (λ y, f y = false) l1.
Proof.
  induction l as [|y l IH]; simpl; [done|].
  destruct (f y) eqn:Hy.
  - intros [= <-]. by exists [], l.
  - intros (l1 & l2 & -> & Hx & Hall)%IH. exists (y :: l1), l2. auto.
Qed.

Lemma find_first_None f l : find_first f l = None ↔ Forall (λ y, f y = false) l.
Proof.
  induction l as [|x l IH]; simpl; [by split|].
  rewrite Forall_cons. destruct (f x) eqn:Hx; naive_solver.
Qed.

Lemma find_first_elem f l x : find_first f l = Some x → x ∈ l ∧ f x = true.
Proof.
  intros (l1 & l2 & -> & Hx & _)%find_first_Some. split; [|done].
  apply elem_of_app. right. left.
Qed.

Lemma elem_of_retain f l x : x ∈ retain f l ↔ x ∈ l ∧ f x = true.
Proof.
  induction l as [|y l IH]; simpl.
  { set_solver. }
  destruct (f y) eqn:Hy; rewrite ?elem_of_cons, IH; naive_solver congruence.
Qed.

Lemma NoDup_retain f l : NoDup l → NoDup (retain f l).
Proof.
  induction 1 as [|x l Hx Hl IH]; simpl; [constructor|].
  destruct (f x); [|done]. constructor; [|done]. rewrite elem_of_retain. naive_solver.
Qed.

Lemma retain_all f l : Forall (λ x, f x = true) l → retain f l = l.
Proof. induction 1 as [|x l Hx _ IH]; simpl; [done|]. by rewrite Hx, IH. Qed.

Lemma retain_none f l : Forall (λ x, f x = false) l → retain f l = [].
Proof. induction 1 as [|x l Hx _ IH]; simpl; [done|]. by rewrite Hx, IH. Qed.

Lemma retain_app f l1 l2 : retain f (l1 ++ l2) = retain f l1 ++ retain f l2.
Proof. induction l1 as [|x l IH]; simpl; [done|]. destruct (f x); simpl; by rewrite IH. Qed.

Lemma retain_length f l : (length (retain f l) <= length l)%nat.
Proof. induction l as [|x l IH]; simpl; [lia|]. destruct (f x); simpl; lia. Qed.

Lemma retain_sublist f l : retain f l `sublist_of` l.
Proof. induction l as [|x l IH]; simpl; [done|]. destruct (f x); by constructor. Qed.

Lemma remove_at_app l1 x l2 : remove_at (length l1) (l1 ++ x :: l2) = l1 ++ l2.
Proof. induction l1 as [|y l1 IH]; simpl; [done|]. by rewrite IH. Qed.

Lemma remove_at_perm i l x : l !! i = Some x → l ≡ₚ x :: remove_at i l.
Proof.
  revert i. induction l as [|y l IH]; intros [|i]; simpl; [done..| |].
  - by intros [= ->].
  - intros Hi. rewrite (IH i Hi) at 1. constructor.
Qed.

Lemma count_cons f x l : count_if f (x :: l) = ((if f x then 1 else 0) + count_if f l)%nat.
Proof. unfold count_if. cbn [retain]. by destruct (f x). Qed.

Lemma count_app f l1 l2 : count_if f (l1 ++ l2) = (count_if f l1 + count_if f l2)%nat.
Proof. unfold count_if. by rewrite retain_app, length_app. Qed.

#[global] Instance count_proper f : Proper ((≡ₚ) ==> (=)) (count_if f).
Proof. intros l1 l2 H. induction H; rewrite ?count_cons; lia. Qed.

Lemma count_ext f1 f2 l : (∀ x, x ∈ l → f1 x = f2 x) → count_if f1 l = count_if f2 l.
Proof.
  induction l as [|x l IH]; intros H; [done|].
  rewrite !count_cons, (H x), IH by set_solver. done.
Qed.

Lemma count_zero f l : count_if f l = O ↔ ∀ x, x ∈ l → f x = false.
Proof.
  induction l as [|x l IH]; [by split; [intros _ x ?%elem_of_nil|]|].
  rewrite count_cons. setoid_rewrite elem_of_cons. destruct (f x) eqn:Hx; [|naive_solver].
  split; [lia|]. intros H. specialize (H x ltac:(by left)). congruence.
Qed.

Lemma count_le_length f l : (count_if f l <= length l)%nat.
Proof. apply retain_length. Qed.

(** Counting splits along a second test. *)
Lemma count_split f h l :
  count_if f l = (count_if (λ x, f x && h x) l + count_if (λ x, f x && negb (h x)) l)%nat.
Proof.
  induction l as [|x l IH]; [done|]. rewrite !count_cons, IH.
  destruct (f x), (h x); simpl; lia.
Qed.

Lemma swap_remove_perm i l x : l !! i = Some x → l ≡ₚ x :: swap_remove i l.
Proof.
  intros Hi. unfold swap_remove.
  destruct (decide (l = [])) as [->|Hne]; [done|].
  destruct (exists_last Hne) as (l0 & z & ->).
  rewrite last_snoc, length_app. simpl. rewrite Nat.add_sub.
  destruct (decide (i < length l0)%nat) as [Hlt|Hge].
  - rewrite lookup_app_l in Hi by done.
    rewrite insert_app_l by done. rewrite take_app_length' by (by rewrite length_insert).
    rewrite Permutation_app_comm. simpl.
    rewrite <- (take_drop_middle l0 i x Hi) at 1.
    rewrite (insert_take_drop l0 i z) by done. solve_Permutation.
  - assert (i = length l0) as ->.
    { apply lookup_lt_Some in Hi. rewrite length_app in Hi. simpl in Hi. lia. }
    rewrite list_lookup_middle in Hi by done. injection Hi as ->.
    rewrite insert_app_r_alt by lia. rewrite Nat.sub_diag. simpl.
    rewrite take_app_length. by rewrite Permutation_app_comm.
Qed.
End vectors.

Lemma retain_fmap {A B} (f : A → B) (p : B → bool) (l : list A) :
  f <$> retain (λ x, p (f x)) l = retain p (f <$> l).
Proof. induction l as [|x l IH]; cbn; [done|]. by destruct (p (f x)); cbn; rewrite IH. Qed.

Lemma remove_at_fmap {A B} (f : A → B) i (l : list A) : f <$> remove_at i l = remove_at i (f <$> l).
Proof. revert i. induction l as [|x l IH]; intros [|i]; cbn; [done..|]. by rewrite IH. Qed.

Lemma position_fmap {A B} (f : A → B) (p : B → bool) (l : list A) :
  position p (f <$> l) = position (λ x, p (f x)) l.
Proof. induction l as [|x l IH]; cbn; [done|]. destruct (p (f x)); [done|]. by rewrite IH. Qed.

Lemma zmem_spec (x : Z) (l : list Z) : zmem x l = true ↔ x ∈ l.
Proof.
  unfold zmem. rewrite existsb_exists, list_elem_of_In. split.
  - intros (y & Hy & ->%Z.eqb_eq). done.
  - intros H. exists x. by rewrite Z.eqb_refl.
Qed.

Lemma zmem_false (x : Z) (l : list Z) : zmem x l = false ↔ x ∉ l.
Proof. rewrite <- zmem_spec. destruct (zmem x l); naive_solver. Qed.

Lemma zmem_reverse (x : Z) (l : list Z) : zmem x (reverse l) = zmem x l.
Proof. apply eq_true_iff_eq. by rewrite !zmem_spec, elem_of_reverse. Qed.

Lemma position_zeqb (x : Z) (l : list Z) i :
  position (λ y, y =? x) l = Some i → l !! i = Some x.
Proof.
  intros (l1 & y & l2 & -> & -> & Hy%Z.eqb_eq & _)%position_Some. subst.
  by apply list_lookup_middle.
Qed.

Lemma position_zeqb_is_Some (x : Z) (l : list Z) :
  x ∈ l → is_Some (position (λ y, y =? x) l).
Proof.
  intros Hx. destruct (position _ l) eqn:Hp; [eauto|].
  apply position_None in Hp. rewrite Forall_forall in Hp.
  specialize (Hp x Hx). simpl in Hp. lia.
Qed.

Lemma zmin_list_spec (l : list Z) m :
  zmin_list l = Some m ↔ m ∈ l ∧ ∀ y, y ∈ l → m <= y.
Proof.
  revert m. induction l as [|x l IH]; intros m; simpl.
  { split; [done|]. intros [H _]. by apply not_elem_of_nil in H. }
  destruct (zmin_list l) as [y|] eqn:Hy.
  - destruct (proj1 (IH y) eq_refl) as [Hin Hle]. split.
    + intros [= <-]. split.
      * destruct (Z.min_spec x y) as [[_ ->]|[_ ->]]; set_solver.
      * intros z [->|Hz]%elem_of_cons; [lia|]. specialize (Hle z Hz). lia.
    + intros [Hm Hall]. f_equal.
      pose proof (Hall x ltac:(set_solver)). pose proof (Hall y ltac:(set_solver)).
      apply elem_of_cons in Hm as [->|Hm]; [lia|]. specialize (Hle m Hm). lia.
  - assert (l = []) as ->. { destruct l; [done|simpl in Hy; done]. }
    split; [intros [= <-]; set_solver|]. intros [Hm _]. set_solver.
Qed.

Lemma zmin_list_is_Some (l : list Z) : l ≠ [] → is_Some (zmin_list l).
Proof. destruct l; [done|]. simpl. eauto. Qed.

Lemma zsum_app (l1 l2 : list Z) : zsum (l1 ++ l2) = zsum l1 + zsum l2.
Proof. induction l1; simpl; lia. Qed.

#[global] Instance zsum_proper : Proper ((≡ₚ) ==> (=)) zsum.
Proof. intros l1 l2 H. induction H; simpl; lia. Qed.

(** [if let Some(x) = l.iter_mut().find(f) { *x = g(x) }]. *)
Fixpoint update_first {A} (f : A → bool) (g : A → A) (l : list A) : list A :=
  match l with
  | [] => []
  | x :: l => if f x then g x :: l else x :: update_first f g l
  end.

(** An update leaves a projection that it does not touch. *)
Lemma update_first_fmap {A B} (h : A → B) (f : A → bool) (g : A → A) (l : list A) :
  (∀ x, h (g x) = h x) → h <$> update_first f g l = h <$> l.
Proof. intros Hg. induction l as [|x l IH]; cbn; [done|]. destruct (f x); cbn; by rewrite ?Hg, ?IH. Qed.

(** With unique keys, updating the first entry of a key is updating every entry of the key. *)
Lemma update_first_key {A} (h : A → Z) (k : Z) (g : A → A) (l : list A) :
  NoDup (h <$> l) →
  update_first (λ x, h x =? k) g l = (λ x, if h x =? k then g x else x) <$> l.
Proof.
  induction l as [|x l IH]; cbn; [done|]. intros [Hni Hnd]%NoDup_cons.
  destruct (Z.eqb_spec (h x) k) as [<-|]; [|by rewrite IH].
  f_equal. rewrite <- (list_fmap_id l) at 1. apply list_fmap_ext. intros i y Hy.
  destruct (Z.eqb_spec (h y) (h x)) as [Heq|]; [|done].
  destruct Hni. rewrite <- Heq. apply list_elem_of_fmap_2. by eapply list_elem_of_lookup_2.
Qed.

(** ** Sums over finite maps *)

Section msum.
Context {K A : Type} `{Countable K}.
Implicit Types (f : A → Z) (m : gmap K A).

Definition msum f m : Z := zsum (f <$> (map_to_list m).*2).

Lemma msum_empty f : msum f ∅ = 0.
Proof. unfold msum. by rewrite map_to_list_empty. Qed.

Lemma msum_insert f m k x : m !! k = None → msum f (<[k := x]> m) = f x + msum f m.
Proof. intros Hk. unfold msum. by rewrite map_to_list_insert. Qed.

Lemma msum_delete f m k x : m !! k = Some x → msum f m = f x + msum f (delete k m).
Proof. intros Hk. rewrite <- (insert_delete_id m k x Hk) at 1. apply msum_insert, lookup_delete_eq. Qed.

Lemma msum_update f m k x y : m !! k = Some x → msum f (<[k := y]> m) = msum f m - f x + f y.
Proof.
  intros Hk. rewrite <- insert_delete_eq, msum_insert by apply lookup_delete_eq.
  rewrite (msum_delete f m k x Hk). lia.
Qed.

Lemma msum_nonneg f m : (∀ k x, m !! k = Some x → 0 <= f x) → 0 <= msum f m.
Proof.
  revert m. refine (map_ind _ _ _); [by rewrite msum_empty|]. intros k x m Hk IH Hf.
  rewrite msum_insert by done. assert (0 <= f x) by (eapply Hf, lookup_insert_eq).
  assert (0 <= msum f m); [|lia]. apply IH. intros j y Hj. apply (Hf j).
  rewrite lookup_insert_ne; [done|]. intros ->. congruence.
Qed.

Lemma msum_zero f m : (∀ k x, m !! k = Some x → f x = 0) → msum f m = 0.
Proof.
  revert m. refine (map_ind _ _ _); [by rewrite msum_empty|]. intros k x m Hk IH Hf.
  rewrite msum_insert by done. rewrite (Hf k x) by apply lookup_insert_eq. rewrite IH; [done|].
  intros j y Hj. apply (Hf j). rewrite lookup_insert_ne; [done|]. intros ->. congruence.
Qed.

Lemma msum_le f f' m : (∀ k x, m !! k = Some x → f x <= f' x) → msum f m <= msum f' m.
Proof.
  revert m. refine (map_ind _ _ _); [by rewrite !msum_empty|]. intros k x m Hk IH Hf.
  rewrite !msum_insert by done. assert (f x <= f' x) by (eapply Hf, lookup_insert_eq).
  assert (msum f m <= msum f' m); [|lia]. apply IH. intros j y Hj. apply (Hf j).
  rewrite lookup_insert_ne; [done|]. intros ->. congruence.
Qed.
Lemma msum_ext f f' m : (∀ k x, m !! k = Some x → f x = f' x) → msum f m = msum f' m.
Proof. intros Hf. apply Z.le_antisymm; apply msum_le; intros k x Hk; by rewrite (Hf k x Hk). Qed.

Lemma msum_omap f (g : A → option A) m :
  msum f (omap g m) = msum (λ x, match g x with Some y => f y | None => 0 end) m.
Proof.
  revert m. refine (map_ind _ _ _); [by rewrite omap_empty|]. intros k x m Hk IH.
  rewrite msum_insert, <- IH by done. destruct (g x) as [y|] eqn:Hg.
  - rewrite (omap_insert_Some g m k x y Hg). apply msum_insert. by rewrite lookup_omap, Hk.
  - rewrite (omap_insert_None g m k x Hg), delete_id; [done|]. by rewrite lookup_omap, Hk.
Qed.

Lemma msum_fmap f (g : A → A) m : msum f (g <$> m) = msum (λ x, f (g x)) m.
Proof.
  revert m. refine (map_ind _ _ _); [by rewrite fmap_empty|]. intros k x m Hk IH.
  rewrite fmap_insert, !msum_insert, IH; [done|done|]. by rewrite lookup_fmap, Hk.
Qed.

Lemma msum_filter f (P : K * A → Prop) `{∀ p, Decision (P p)} m :
  (∀ k x, m !! k = Some x → ¬ P (k, x) → f x = 0) → msum f (filter P m) = msum f m.
Proof.
  revert m. refine (map_ind _ _ _); [by rewrite map_filter_empty|]. intros k x m Hk IH Hf.
  assert (msum f (filter P m) = msum f m) as Hm.
  { apply IH. intros j y Hj. apply (Hf j). rewrite lookup_insert_ne; [done|]. intros ->. congruence. }
  rewrite (msum_insert f m) by done. destruct (decide (P (k, x))) as [HP|HP].
  - rewrite map_filter_insert_True, msum_insert, Hm; [done| |done]. apply map_lookup_filter_None. by left.
  - rewrite map_filter_insert_False, delete_id, Hm, (Hf k x); [lia|apply lookup_insert_eq|done|done|done].
Qed.
Lemma msum_plus f f' m : msum (λ x, f x + f' x) m = msum f m + msum f' m.
Proof.
  revert m. refine (map_ind _ _ _); [by rewrite !msum_empty|]. intros k x m Hk IH.
  rewrite !msum_insert, IH by done. lia.
Qed.
End msum.

(** ** Strings *)

(** [s.contains(c)] for a character. *)
Fixpoint string_contains (c : ascii) (s : string) : bool :=
  match s with
  | EmptyString => false
  | String c' s' => Ascii.eqb c' c || string_contains c s'
  end.

(** [str::starts_with] and [str::ends_with]. *)
Fixpoint starts_with (pre s : string) : bool :=
  match pre, s with
  | EmptyString, _ => true
  | String c pre', String c' s' => Ascii.eqb c c' && starts_with pre' s'
  | String _ _, EmptyString => false
  end.

Fixpoint ends_with (suf s : string) : bool :=
  bool_decide (s = suf) ||
  match s with EmptyString => false | String _ s' => ends_with suf s' end.

Lemma app_cons_string c (s u : string) : String c s +:+ u = String c (s +:+ u).
Proof. done. Qed.

Lemma app_empty_string (u : string) : EmptyString +:+ u = u.
Proof. done. Qed.

Lemma empty_app_inv (s u : string) : EmptyString = s +:+ u → s = EmptyString ∧ u = EmptyString.
Proof. destruct s; [done|]. by rewrite app_cons_string. Qed.

Lemma cons_app_inv c v (s u : string) :
  String c v = s +:+ u →
  (s = EmptyString ∧ u = String c v) ∨ ∃ s', s = String c s' ∧ v = s' +:+ u.
Proof.
  destruct s as [|c' s']; [by left|]. rewrite app_cons_string. intros [= -> ->]. right. eauto.
Qed.

Lemma starts_with_spec pre s : starts_with pre s = true ↔ ∃ r, s = pre +:+ r.
Proof.
  revert s. induction pre as [|c pre IH]; intros s; cbn [starts_with].
  { split; [intros _; by exists s|done]. }
  destruct s as [|c' s]; [split; [done|by intros [? ?]]|].
  rewrite andb_true_iff, Ascii.eqb_eq, IH. split.
  - intros [-> [r ->]]. by exists r.
  - intros [r Hr]. rewrite app_cons_string in Hr. injection Hr as -> ->. eauto.
Qed.

Lemma ends_with_spec suf s : ends_with suf s = true ↔ ∃ r, s = r +:+ suf.
Proof.
  induction s as [|c s IH]; cbn [ends_with]; rewrite orb_true_iff, bool_decide_eq_true.
  { split; [intros [<-|?]; [by exists EmptyString|done]|]. intros [r Hr]. left.
    by destruct (empty_app_inv r suf) as [-> ->]. }
  rewrite IH. split.
  - intros [<-|[r ->]]; [by exists EmptyString|]. by exists (String c r).
  - intros [[|c' r] Hr]; [by left|]. right. rewrite app_cons_string in Hr.
    injection Hr as _ ->. by exists r.
Qed.

(** ** Ordered maps

    A [BTreeMap] with string keys is a [gmap]; [entries] lists it in the byte order of its keys. *)

Definition entries {A : Type} (m : gmap string A) : list (string * A) :=
  merge_sort (λ a b : string * A, String.le a.1 b.1) (map_to_list m).

Lemma entries_perm {A} (m : gmap string A) : entries m ≡ₚ map_to_list m.
Proof. unfold entries. by rewrite merge_sort_Permutation. Qed.

Lemma elem_of_entries {A} (m : gmap string A) k x : (k, x) ∈ entries m ↔ m !! k = Some x.
Proof. rewrite entries_perm. apply elem_of_map_to_list. Qed.

Lemma entries_Forall {A} (P : string → A → Prop) (m : gmap string A) :
  Forall (λ p, P p.1 p.2) (entries m) ↔ ∀ k x, m !! k = Some x → P k x.
Proof.
  rewrite Forall_forall. split.
  - intros H k x Hx. by apply (H (k, x)), elem_of_entries.
  - intros H [k x] Hx. by apply H, elem_of_entries.
Qed.

(** ** Blank strings

    [s.trim().is_empty()]: every character of the UTF-8 string is Unicode white space.  The byte
    sequences are those of the [White_Space] code points: ASCII 9 to 13 and 32, U+0085, U+00A0,
    U+1680, U+2000 to U+200A, U+2028, U+2029, U+202F, U+205F and U+3000. *)

Definition ascii_space (n : N) : bool := ((9 <=? n) && (n <=? 13) || (n =? 32))%N.

Definition wide_space (b1 b2 b3 : N) : bool :=
  ((b1 =? 225) && (b2 =? 154) && (b3 =? 128)
   || (b1 =? 226) && (b2 =? 128) &&
      ((128 <=? b3) && (b3 <=? 138) || (b3 =? 168) || (b3 =? 169) || (b3 =? 175))
   || (b1 =? 226) && (b2 =? 129) && (b3 =? 159)
   || (b1 =? 227) && (b2 =? 128) && (b3 =? 128))%N.

Fixpoint is_blank (s : string) : bool :=
  match s with
  | EmptyString => true
  | String c1 s1 =>
      if ascii_space (N_of_ascii c1) then is_blank s1
      else
        match s1 with
        | EmptyString => false
        | String c2 s2 =>
            if ((N_of_ascii c1 =? 194) && ((N_of_ascii c2 =? 133) || (N_of_ascii c2 =? 160)))%N
            then is_blank s2
            else
              match s2 with
              | EmptyString => false
              | String c3 s3 =>
                  wide_space (N_of_ascii c1) (N_of_ascii c2) (N_of_ascii c3) && is_blank s3
              end
        end
  end.

(** [s.trim_start()], the same sequences dropped from the front. *)
Fixpoint trim_start (s : string) : string :=
  match s with
  | EmptyString => EmptyString
  | String c1 s1 =>
      if ascii_space (N_of_ascii c1) then trim_start s1
      else
        match s1 with
        | EmptyString => s
        | String c2 s2 =>
            if ((N_of_ascii c1 =? 194) && ((N_of_ascii c2 =? 133) || (N_of_ascii c2 =? 160)))%N
            then trim_start s2
            else
              match s2 with
              | EmptyString => s
              | String c3 s3 =>
                  if wide_space (N_of_ascii c1) (N_of_ascii c2) (N_of_ascii c3) then trim_start s3 else s
              end
        end
  end.

(** [s.trim_end()]: the longest blank suffix is dropped.  No sequence above begins with a continuation
    byte, so a blank suffix of a UTF-8 string begins at a character. *)
Fixpoint trim_end (s : string) : string :=
  if is_blank s then EmptyString
  else match s with EmptyString => EmptyString | String c r => String c (trim_end r) end.

Definition trim (s : string) : string := trim_end (trim_start s).

(** [s.split_once(c)]. *)
Fixpoint split_once (c : ascii) (s : string) : option (string * string) :=
  match s with
  | EmptyString => None
  | String d r =>
      if bool_decide (d = c) then Some (EmptyString, r)
      else (λ p, (String d p.1, p.2)) <$> split_once c r
  end.

(** [s.parse::<u64>()]: an optional plus sign and at least one decimal digit, no overflow. *)
Definition digit_of (c : ascii) : option Z :=
  let n := Z.of_N (N_of_ascii c) in if (48 <=? n) && (n <=? 57) then Some (n - 48) else None.

Fixpoint parse_digits (acc : Z) (s : string) : option Z :=
  match s with
  | EmptyString => Some acc
  | String c r =>
      match digit_of c with
      | None => None
      | Some d => if acc * 10 + d <=? u64_max then parse_digits (acc * 10 + d) r else None
      end
  end.

Definition parse_u64 (s : string) : option Z :=
  match s with
  | EmptyString => None
  | String c r =>
      if bool_decide (c = "+"%char) then
        match r with EmptyString => None | _ => parse_digits 0 r end
      else parse_digits 0 s
  end.

(** ** Hints and tactics shared by the components *)

Create HintDb kernel.
#[export] Hint Resolve wrap64_range NoDup_retain : kernel.

(** Turns boolean tests in the context into propositions. *)
Ltac bool_hyps :=
  repeat match goal with
  | H : _ && _ = true |- _ => apply andb_true_iff in H; destruct H
  | H : _ || _ = false |- _ => apply orb_false_iff in H; destruct H
  | H : negb _ = true |- _ => apply negb_true_iff in H
  | H : negb _ = false |- _ => apply negb_false_iff in H
  | H : zmem _ _ = true |- _ => apply zmem_spec in H
  | H : zmem _ _ = false |- _ => apply zmem_false in H
  | H : bool_decide _ = true |- _ => apply bool_decide_eq_true in H
  | H : bool_decide _ = false |- _ => apply bool_decide_eq_false in H
  end.
