(* ===== verification/AgentStruct.v ===== *)
(** * Agent descriptors: capability sets, signals and the agent table

    Models [crates/kernel/src/agent_struct.rs].  Timestamps are the [Z] the caller's clock gives;
    the static [NEXT_AGENT_ID] is an argument and a result of [agent_new]. *)

From S2P Require Import Prelude.
#[local] Open Scope Z_scope.

(** OS-level numeric agent identifier. *)
Abbreviation AgentId := Z (only parsing).

Definition INIT_AGENT_ID : AgentId := 1.
Definition KERNEL_AGENT_ID : AgentId := 0.

(** ** Agent states *)

Inductive BlockReason := ToolCall | IpcWait | SignalWait | Sleep | ChildWait.

Inductive AgentState :=
| Created | Ready | Running | Blocked (r : BlockReason) | Stopped | Zombie | Dead.

#[global] Instance block_reason_eq_dec : EqDecision BlockReason.
Proof. solve_decision. Defined.
#[global] Instance agent_state_eq_dec : EqDecision AgentState.
Proof. solve_decision. Defined.

(** ** Capability sets: a 64-bit mask *)

Record CapabilitySet := mkCaps { bits : Z }.

#[global] Instance capability_set_eq_dec : EqDecision CapabilitySet.
Proof. solve_decision. Defined.

(** [1 << n] at [u64]; a shift count of 64 or more is reduced modulo 64, as in a build without
    overflow checks. *)
Definition shl1 (n : Z) : Z := Z.shiftl 1 (n mod 64).
(** [!x] at [u64]. *)
Definition lnot64 (x : Z) : Z := Z.lxor u64_max x.

Definition CAP_TOOL_MOUNT : Z := shl1 0.
Definition CAP_AGENT_CREATE : Z := shl1 1.
Definition CAP_AGENT_KILL : Z := shl1 2.
Definition CAP_NET_ACCESS : Z := shl1 3.
Definition CAP_FILE_WRITE : Z := shl1 4.
Definition CAP_FILE_DELETE : Z := shl1 5.
Definition CAP_EXEC : Z := shl1 6.
Definition CAP_ADMIN : Z := shl1 7.
Definition CAP_SYS_RESOURCE : Z := shl1 8.

Definition caps_new (b : Z) : CapabilitySet := mkCaps b.
Definition caps_all : CapabilitySet := mkCaps u64_max.
Definition caps_none : CapabilitySet := mkCaps 0.
Definition caps_has (c : CapabilitySet) (cap : Z) : bool := negb (Z.land (bits c) cap =? 0).
Definition caps_grant (c : CapabilitySet) (cap : Z) : CapabilitySet :=
  mkCaps (Z.lor (bits c) cap).
Definition caps_revoke (c : CapabilitySet) (cap : Z) : CapabilitySet :=
  mkCaps (Z.land (bits c) (lnot64 cap)).
Definition caps_drop (c : CapabilitySet) (cap : Z) : CapabilitySet := caps_revoke c cap.

(** ** Descriptor records *)

Record AgentCredentials := mkCreds {
  uid : Z; gid : Z; cred_groups : list Z; capabilities : CapabilitySet }.

Inductive SchedClass := RealTime | Normal | Background | Deadline (deadline_ms : Z).

#[global] Instance sched_class_eq_dec : EqDecision SchedClass.
Proof. solve_decision. Defined.

Record SchedInfo := mkSched {
  si_nice : Z; si_vruntime : Z; si_class : SchedClass;
  tokens_this_slice : Z; tokens_total : Z; tool_calls_total : Z }.

(** A custom handler is a closure the runtime calls; no operation of this file calls it. *)
Inductive SignalHandler := HDefault | HIgnore | HCustom (f : Z → unit).

Record SignalInfo := mkSignals {
  pending : Z; mask : Z; handlers : gmap Z SignalHandler }.

Definition SIGSTOP : Z := 1.
Definition SIGCONT : Z := 2.
Definition SIGKILL : Z := 3.
Definition SIGTERM : Z := 4.
Definition SIGUSR1 : Z := 5.
Definition SIGUSR2 : Z := 6.
Definition SIGCHLD : Z := 7.
Definition SIGALRM : Z := 8.

Record ResourcePointers := mkPointers {
  context_ns : Z; tool_ns : Z; agent_ns : Z; net_ns : Z; res_cgroup : Z }.

Record ExitInfo := mkExit { exit_code : Z; exit_signal : option Z; exited_at : Z }.

Record AgentStruct := mkAgent {
  agent_id : AgentId; agent_name : string; parent_agent : AgentId;
  agent_children : list AgentId; pgid : AgentId; sid : AgentId;
  state : AgentState; exit_info : option ExitInfo;
  creds : AgentCredentials; resources : ResourcePointers; sched : SchedInfo;
  signals : SignalInfo;
  created_at : Z; started_at : option Z; last_active_at : Z }.

Definition with_state (s : AgentState) (a : AgentStruct) : AgentStruct :=
  mkAgent (agent_id a) (agent_name a) (parent_agent a) (agent_children a) (pgid a) (sid a)
    s (exit_info a) (creds a) (resources a) (sched a) (signals a)
    (created_at a) (started_at a) (last_active_at a).

Definition with_pending (p : Z) (a : AgentStruct) : AgentStruct :=
  mkAgent (agent_id a) (agent_name a) (parent_agent a) (agent_children a) (pgid a) (sid a)
    (state a) (exit_info a) (creds a) (resources a) (sched a)
    (mkSignals p (mask (signals a)) (handlers (signals a)))
    (created_at a) (started_at a) (last_active_at a).

(** [AgentStruct::new]: takes the counter [NEXT_AGENT_ID], returns it advanced. *)
Definition agent_new (next : Z) (now : Z) (name : string) (parent : AgentId) : AgentStruct * Z :=
  let id := next in
  (mkAgent id name parent [] id id Created None
     (mkCreds 1000 1000 [1000] caps_none)
     (mkPointers 0 0 0 0 0)
     (mkSched 0 0 Normal 0 0 0)
     (mkSignals 0 0 ∅)
     now None now,
   wrap64 (next + 1)).

Definition has_cap (a : AgentStruct) (cap : Z) : bool := caps_has (capabilities (creds a)) cap.

Definition is_alive (a : AgentStruct) : bool :=
  match state a with Zombie | Dead => false | _ => true end.

(** ** Signals *)

Definition pending_signal (sig : Z) (a : AgentStruct) : AgentStruct :=
  with_pending (Z.lor (pending (signals a)) (shl1 sig)) a.

Definition send_signal (sig : Z) (a : AgentStruct) : AgentStruct :=
  if (sig =? SIGKILL) || (sig =? SIGSTOP) then pending_signal sig a
  else if negb (Z.land (mask (signals a)) (shl1 sig) =? 0) then a
  else pending_signal sig a.

(** The body of [deliver_signals]'s [for sig in 0..64u8]; the [SIGKILL] and [SIGSTOP] arms return
    from the function, leaving later signals pending. *)
Fixpoint deliver_loop (sigs : list Z) (a : AgentStruct) : AgentStruct :=
  match sigs with
  | [] => a
  | sig :: sigs' =>
      if Z.land (pending (signals a)) (shl1 sig) =? 0 then deliver_loop sigs' a
      else
        let a := with_pending (Z.land (pending (signals a)) (lnot64 (shl1 sig))) a in
        if sig =? SIGKILL then with_state Dead a
        else if sig =? SIGSTOP then with_state Stopped a
        else if (sig =? SIGCONT) && bool_decide (state a = Stopped) then
          deliver_loop sigs' (with_state Ready a)
        else if sig =? SIGTERM then
          match handlers (signals a) !! sig with
          | Some HIgnore | Some (HCustom _) => deliver_loop sigs' a
          | _ => deliver_loop sigs' (with_state Dead a)
          end
        else deliver_loop sigs' a
  end.

Definition deliver_signals (a : AgentStruct) : AgentStruct :=
  if pending (signals a) =? 0 then a else deliver_loop (seqZ 0 64) a.

(** ** The agent table *)

Record AgentTable := mkTable { agents : gmap AgentId AgentStruct }.

Definition table_new : AgentTable := mkTable ∅.
Definition table_insert (a : AgentStruct) (t : AgentTable) : AgentTable * AgentId :=
  (mkTable (<[agent_id a := a]> (agents t)), agent_id a).
Definition table_get (id : AgentId) (t : AgentTable) : option AgentStruct := agents t !! id.
Definition table_remove (id : AgentId) (t : AgentTable) : AgentTable * bool :=
  (mkTable (delete id (agents t)), bool_decide (is_Some (agents t !! id))).
Definition table_count (t : AgentTable) : nat := size (agents t).
Definition table_list_ids (t : AgentTable) : list AgentId := (map_to_list (agents t)).*1.

(** ** Bit-level lemmas *)

Lemma testbit_shl1 n m : 0 <= n < 64 → 0 <= m → Z.testbit (shl1 n) m = (m =? n).
Proof.
  intros Hn Hm. unfold shl1. rewrite Z.mod_small by lia. rewrite Z.shiftl_spec by lia.
  destruct (Z.eqb_spec m n) as [->|Hne]; [by rewrite Z.sub_diag|].
  destruct (decide (m < n)).
  - apply Z.testbit_neg_r. lia.
  - replace (m - n) with (Z.succ (m - n - 1)) by lia.
    rewrite (Z.testbit_succ_r 0 true) by lia. apply Z.bits_0.
Qed.

Lemma land_shl1_eq0 p n : 0 <= n < 64 → (Z.land p (shl1 n) =? 0) = negb (Z.testbit p n).
Proof.
  intros Hn. destruct (Z.testbit p n) eqn:Hp; simpl.
  - apply Z.eqb_neq. intros H. apply (f_equal (λ z, Z.testbit z n)) in H.
    rewrite Z.land_spec, testbit_shl1, Z.eqb_refl, Hp, Z.bits_0 in H by lia. done.
  - apply Z.eqb_eq. apply Z.bits_inj'. intros m Hm.
    rewrite Z.land_spec, testbit_shl1, Z.bits_0 by lia.
    destruct (Z.eqb_spec m n) as [->|]; [by rewrite Hp|]. apply andb_false_r.
Qed.

Lemma testbit_u64_max m : 0 <= m → Z.testbit u64_max m = (m <? 64).
Proof.
  intros Hm. change u64_max with (Z.ones 64).
  destruct (Z.ltb_spec m 64); [apply Z.ones_spec_low|apply Z.ones_spec_high]; lia.
Qed.

Lemma testbit_lnot64 x m : 0 <= m < 64 → Z.testbit (lnot64 x) m = negb (Z.testbit x m).
Proof.
  intros Hm. unfold lnot64. rewrite Z.lxor_spec, testbit_u64_max by lia.
  replace (m <? 64) with true by lia. done.
Qed.

Lemma u64_testbit_high p m : is_u64 p → 64 <= m → Z.testbit p m = false.
Proof.
  intros [Hp1 Hp2] Hm. destruct (decide (p = 0)) as [->|Hne]; [apply Z.bits_0|].
  apply Z.bits_above_log2; [done|].
  apply Z.lt_le_trans with 64; [|done].
  apply Z.log2_lt_pow2; [lia|]. unfold u64_max in Hp2. lia.
Qed.

(** One bit taken out of a pending mask. *)
Definition clear_bit (p n : Z) : Z := Z.land p (lnot64 (shl1 n)).

Lemma testbit_clear_bit p n m :
  is_u64 p → 0 <= n < 64 → 0 <= m →
  Z.testbit (clear_bit p n) m = Z.testbit p m && negb (m =? n).
Proof.
  intros Hp Hn Hm. unfold clear_bit. rewrite Z.land_spec.
  destruct (decide (m < 64)).
  - by rewrite testbit_lnot64, testbit_shl1 by lia.
  - by rewrite u64_testbit_high by (done || lia).
Qed.

Lemma clear_bit_u64 p n : is_u64 p → 0 <= n < 64 → is_u64 (clear_bit p n).
Proof.
  intros Hp Hn. assert (0 <= clear_bit p n) as H0.
  { unfold clear_bit. apply Z.land_nonneg. left. by destruct Hp. }
  split; [done|]. unfold u64_max.
  enough (clear_bit p n < 2 ^ 64) by lia.
  destruct (decide (clear_bit p n = 0)) as [->|Hne]; [done|].
  apply Z.log2_lt_pow2; [lia|].
  destruct (decide (Z.log2 (clear_bit p n) < 64)) as [|Hge]; [done|].
  assert (Z.testbit (clear_bit p n) (Z.log2 (clear_bit p n)) = true) as Hb.
  { apply Z.bit_log2. lia. }
  rewrite testbit_clear_bit, u64_testbit_high in Hb by (done || lia). done.
Qed.

Lemma clear_bit_id p n : is_u64 p → 0 <= n < 64 → Z.testbit p n = false → clear_bit p n = p.
Proof.
  intros Hp Hn Hb. apply Z.bits_inj'. intros m Hm. rewrite testbit_clear_bit by done.
  destruct (Z.eqb_spec m n) as [->|]; [by rewrite Hb|]. apply andb_true_r.
Qed.

Lemma foldl_clear_u64 sigs p :
  is_u64 p → Forall (λ s, 0 <= s < 64) sigs → is_u64 (foldl clear_bit p sigs).
Proof.
  revert p. induction sigs as [|s sigs IH]; intros p Hp; simpl; [done|].
  intros [Hs Hsigs]%Forall_cons. apply IH; [|done]. by apply clear_bit_u64.
Qed.

Lemma testbit_foldl_clear sigs p m :
  is_u64 p → Forall (λ s, 0 <= s < 64) sigs → 0 <= m →
  Z.testbit (foldl clear_bit p sigs) m = Z.testbit p m && negb (zmem m sigs).
Proof.
  revert p. induction sigs as [|s sigs IH]; intros p Hp; simpl.
  { intros _ _. by rewrite andb_true_r. }
  intros [Hs Hsigs]%Forall_cons Hm. rewrite IH by (done || by apply clear_bit_u64).
  rewrite testbit_clear_bit by done. unfold zmem. simpl. rewrite negb_orb. by rewrite andb_assoc.
Qed.

(** ** Capability sets *)

Lemma caps_has_testbit c n : 0 <= n < 64 → caps_has c (shl1 n) = Z.testbit (bits c) n.
Proof. intros Hn. unfold caps_has. rewrite land_shl1_eq0 by done. apply negb_involutive. Qed.

(** Granting and revoking one capability changes exactly that capability: the bit map a set
    denotes is updated at the granted (revoked) index and nowhere else. *)
Theorem caps_grant_revoke_spec (c : CapabilitySet) (n m : Z) :
  is_u64 (bits c) → 0 <= n < 64 → 0 <= m < 64 →
  caps_has (caps_grant c (shl1 n)) (shl1 m) = (m =? n) || caps_has c (shl1 m) ∧
  caps_has (caps_revoke c (shl1 n)) (shl1 m) = negb (m =? n) && caps_has c (shl1 m).
Proof.
  intros Hc Hn Hm. rewrite !caps_has_testbit by done. simpl. split.
  - by rewrite Z.lor_spec, testbit_shl1, orb_comm by lia.
  - fold (clear_bit (bits c) n). by rewrite testbit_clear_bit, andb_comm by (done || lia).
Qed.

(** ** Signal delivery *)

(** Whether [SIGTERM] takes its default action, termination. *)
Definition term_terminates (a : AgentStruct) : bool :=
  match handlers (signals a) !! SIGTERM with
  | Some HIgnore | Some (HCustom _) => false
  | _ => true
  end.

(** What one call of [deliver_signals] amounts to: a pending [SIGSTOP] wins over everything and
    leaves the higher signals pending; otherwise [SIGKILL] kills; otherwise [SIGCONT] resumes a
    stopped agent and then [SIGTERM] takes its default action, and no signal stays pending. *)
Definition deliver_spec (a : AgentStruct) : AgentStruct :=
  let p := pending (signals a) in
  let below k := foldl clear_bit p (seqZ 0 k) in
  if Z.testbit p SIGSTOP then with_state Stopped (with_pending (below 2) a)
  else if Z.testbit p SIGKILL then with_state Dead (with_pending (below 4) a)
  else
    let resumed :=
      if Z.testbit p SIGCONT && bool_decide (state a = Stopped) then Ready else state a in
    let final := if Z.testbit p SIGTERM && term_terminates a then Dead else resumed in
    with_state final (with_pending 0 a).

Lemma foldl_clear_all p : is_u64 p → foldl clear_bit p (seqZ 0 64) = 0.
Proof.
  intros Hp. apply Z.bits_inj'. intros m Hm. rewrite Z.bits_0.
  rewrite testbit_foldl_clear; [|done| |done].
  2:{ apply Forall_forall. intros s ?%elem_of_seqZ. lia. }
  destruct (decide (m < 64)).
  - assert (zmem m (seqZ 0 64) = true) as ->.
    { apply zmem_spec, elem_of_seqZ. lia. }
    apply andb_false_r.
  - by rewrite u64_testbit_high by (done || lia).
Qed.

(** The loop's intermediate states: the descriptor with its state and pending mask replaced. *)
Definition at_state (s : AgentState) (q : Z) (a : AgentStruct) : AgentStruct :=
  with_state s (with_pending q a).

Lemma at_state_id a : at_state (state a) (pending (signals a)) a = a.
Proof. by destruct a as [? ? ? ? ? ? ? ? ? ? ? [] ? ? ?]. Qed.

(** One round of the loop, with the pending mask cleared whether or not the bit was set. *)
Lemma deliver_loop_cons sig sigs s q a :
  is_u64 q → 0 <= sig < 64 →
  deliver_loop (sig :: sigs) (at_state s q a) =
  (let q' := clear_bit q sig in
   if negb (Z.testbit q sig) then deliver_loop sigs (at_state s q' a)
   else if sig =? SIGKILL then at_state Dead q' a
   else if sig =? SIGSTOP then at_state Stopped q' a
   else if (sig =? SIGCONT) && bool_decide (s = Stopped)
     then deliver_loop sigs (at_state Ready q' a)
   else if (sig =? SIGTERM) && term_terminates a
     then deliver_loop sigs (at_state Dead q' a)
   else deliver_loop sigs (at_state s q' a)).
Proof.
  intros Hp Hs. cbn [deliver_loop]. cbn [at_state with_state with_pending signals pending].
  rewrite land_shl1_eq0 by done. cbv zeta.
  destruct (Z.testbit _ sig) eqn:Hb; cbn [negb].
  2:{ by rewrite clear_bit_id. }
  fold (clear_bit q sig).
  destruct (sig =? SIGKILL); [done|]. destruct (sig =? SIGSTOP); [done|].
  cbn [state]. destruct ((sig =? SIGCONT) && _); [done|].
  destruct (Z.eqb_spec sig SIGTERM) as [->|]; [|done].
  unfold term_terminates. cbn [handlers].
  by destruct (handlers (signals a) !! SIGTERM) as [[]|].
Qed.

Lemma deliver_loop_inert sigs s q a :
  is_u64 q → Forall (λ s, 5 <= s < 64) sigs →
  deliver_loop sigs (at_state s q a) = at_state s (foldl clear_bit q sigs) a.
Proof.
  revert q. induction sigs as [|sig sigs IH]; intros q Hp; [done|].
  intros [Hs Hsigs]%Forall_cons. rewrite deliver_loop_cons by (done || lia). cbv zeta.
  replace (sig =? SIGKILL) with false by (unfold SIGKILL; lia).
  replace (sig =? SIGSTOP) with false by (unfold SIGSTOP; lia).
  replace (sig =? SIGCONT) with false by (unfold SIGCONT; lia).
  replace (sig =? SIGTERM) with false by (unfold SIGTERM; lia).
  cbn [andb foldl]. rewrite IH; [by destruct (negb _)| |done].
  apply clear_bit_u64; [done|lia].
Qed.

Lemma deliver_loop_spec rest a :
  let p := pending (signals a) in
  is_u64 p → Forall (λ s, 5 <= s < 64) rest →
  foldl clear_bit p ([0; 1; 2; 3; 4] ++ rest) = 0 →
  deliver_loop ([0; 1; 2; 3; 4] ++ rest) a = deliver_spec a.
Proof.
  intros p Hp Hrest. rewrite foldl_app. cbn [foldl app]. intros Hall.
  assert (∀ n m q, 0 <= n < 64 → 0 <= m → m ≠ n → is_u64 q →
    Z.testbit (clear_bit q n) m = Z.testbit q m) as Hother.
  { intros n m q Hn Hm Hne Hq. rewrite testbit_clear_bit by done.
    replace (m =? n) with false by lia. apply andb_true_r. }
  pose proof (clear_bit_u64 p 0 Hp ltac:(lia)) as Hu0.
  pose proof (clear_bit_u64 _ 1 Hu0 ltac:(lia)) as Hu1.
  pose proof (clear_bit_u64 _ 2 Hu1 ltac:(lia)) as Hu2.
  pose proof (clear_bit_u64 _ 3 Hu2 ltac:(lia)) as Hu3.
  pose proof (clear_bit_u64 _ 4 Hu3 ltac:(lia)) as Hu4.
  transitivity (deliver_loop (0 :: 1 :: 2 :: 3 :: 4 :: rest) (at_state (state a) p a)).
  { apply (f_equal (deliver_loop _)). symmetry. apply at_state_id. }
  unfold deliver_spec. cbv zeta. fold p. fold (at_state Stopped (foldl clear_bit p (seqZ 0 2)) a).
  change (seqZ 0 2) with [0; 1]. change (seqZ 0 4) with [0; 1; 2; 3]. cbn [foldl].
  rewrite deliver_loop_cons by (done || lia). cbv zeta. cbn [Z.eqb SIGKILL SIGSTOP SIGCONT SIGTERM andb].
  replace (if negb (Z.testbit p 0) then _ else _)
    with (deliver_loop (1 :: 2 :: 3 :: 4 :: rest) (at_state (state a) (clear_bit p 0) a))
    by (by destruct (negb _)).
  rewrite deliver_loop_cons by (done || lia). cbv zeta.
  rewrite !Hother by (done || lia). unfold SIGSTOP, SIGKILL, SIGCONT, SIGTERM.
  cbn [Z.eqb Pos.eqb]. destruct (Z.testbit p 1) eqn:H1; cbn [negb]; [done|].
  rewrite deliver_loop_cons by (done || lia). cbv zeta. rewrite !Hother by (done || lia).
  unfold SIGSTOP, SIGKILL, SIGCONT, SIGTERM. cbn [Z.eqb Pos.eqb andb].
  set (s2 := if Z.testbit p 2 && bool_decide (state a = Stopped) then Ready else state a).
  replace (if negb (Z.testbit p 2) then _ else _)
    with (deliver_loop (3 :: 4 :: rest)
            (at_state s2 (clear_bit (clear_bit (clear_bit p 0) 1) 2) a))
    by (unfold s2; by destruct (Z.testbit p 2), (bool_decide _)).
  rewrite deliver_loop_cons by (done || lia). cbv zeta. rewrite !Hother by (done || lia).
  unfold SIGSTOP, SIGKILL, SIGCONT, SIGTERM. cbn [Z.eqb Pos.eqb andb].
  destruct (Z.testbit p 3) eqn:H3; cbn [negb]; [done|].
  rewrite deliver_loop_cons by (done || lia). cbv zeta. rewrite !Hother by (done || lia).
  unfold SIGSTOP, SIGKILL, SIGCONT, SIGTERM. cbn [Z.eqb Pos.eqb andb].
  destruct (Z.testbit p 4), (term_terminates a); cbn [negb andb];
    by rewrite deliver_loop_inert, Hall by done.
Qed.

Lemma deliver_signals_eq (a : AgentStruct) :
  is_u64 (pending (signals a)) → deliver_signals a = deliver_spec a.
Proof.
  intros Hp. unfold deliver_signals.
  destruct (Z.eqb_spec (pending (signals a)) 0) as [H0|_].
  { unfold deliver_spec. rewrite H0. cbn. rewrite <- H0. symmetry. apply at_state_id. }
  change (seqZ 0 64) with ([0; 1; 2; 3; 4] ++ seqZ 5 59).
  apply deliver_loop_spec; [done| |].
  - apply Forall_forall. intros s ?%elem_of_seqZ. lia.
  - change ([0; 1; 2; 3; 4] ++ seqZ 5 59) with (seqZ 0 64). by apply foldl_clear_all.
Qed.

(** One call of [deliver_signals] computes [deliver_spec], for every pending mask. *)
Theorem deliver_signals_spec (a : AgentStruct) :
  is_u64 (pending (signals a)) → deliver_signals a = deliver_spec a.
Proof. apply deliver_signals_eq. Qed.

Lemma pending_signal_u64 sig a :
  is_u64 (pending (signals a)) → 0 <= sig < 64 →
  is_u64 (pending (signals (pending_signal sig a))).
Proof.
  intros Hp Hs. cbn [pending_signal with_pending signals pending].
  assert (0 <= Z.lor (pending (signals a)) (shl1 sig)) as H0.
  { apply Z.lor_nonneg. split; [by destruct Hp|]. unfold shl1. apply Z.shiftl_nonneg. lia. }
  split; [done|]. enough (Z.lor (pending (signals a)) (shl1 sig) < 2 ^ 64) by (unfold u64_max; lia).
  destruct (decide (Z.lor (pending (signals a)) (shl1 sig) = 0)) as [->|Hne]; [done|].
  apply Z.log2_lt_pow2; [lia|]. set (x := Z.lor _ _) in *.
  destruct (decide (Z.log2 x < 64)) as [|Hge]; [done|].
  pose proof (Z.bit_log2 x ltac:(lia)) as Hb. unfold x in Hb at 1.
  rewrite Z.lor_spec, u64_testbit_high, testbit_shl1 in Hb by (done || lia). simpl in Hb. lia.
Qed.

Lemma testbit_pending_signal sig a m :
  0 <= sig < 64 → 0 <= m →
  Z.testbit (pending (signals (pending_signal sig a))) m =
  Z.testbit (pending (signals a)) m || (m =? sig).
Proof.
  intros Hs Hm. cbn [pending_signal with_pending signals pending].
  by rewrite Z.lor_spec, testbit_shl1.
Qed.

Lemma deliver_pending_u64 a :
  is_u64 (pending (signals a)) → is_u64 (pending (signals (deliver_signals a))).
Proof.
  intros Hp. rewrite deliver_signals_eq by done. unfold deliver_spec. cbv zeta.
  destruct (Z.testbit _ SIGSTOP); [|destruct (Z.testbit _ SIGKILL); [|by cbn]];
    cbn [with_state with_pending signals pending];
    (apply foldl_clear_u64; [done|]; apply Forall_forall; intros s ?%elem_of_seqZ; lia).
Qed.

(** [SIGKILL] cannot be blocked: whatever the agent's mask, handlers, state and pending
    signals, two deliveries after it was sent leave the agent [Dead] (one delivery suffices unless
    a [SIGSTOP] is pending, which is delivered first). *)
Theorem sigkill_certain (a : AgentStruct) :
  is_u64 (pending (signals a)) →
  state (deliver_signals (deliver_signals (send_signal SIGKILL a))) = Dead ∧
  (Z.testbit (pending (signals a)) SIGSTOP = false →
   state (deliver_signals (send_signal SIGKILL a)) = Dead).
Proof.
  intros Hp. change (send_signal SIGKILL a) with (pending_signal SIGKILL a).
  set (b := pending_signal SIGKILL a).
  assert (is_u64 (pending (signals b))) as Hb by (by apply pending_signal_u64).
  assert (Z.testbit (pending (signals b)) SIGKILL = true) as Hk.
  { unfold b. rewrite testbit_pending_signal, Z.eqb_refl by done. apply orb_true_r. }
  assert (Z.testbit (pending (signals b)) SIGSTOP = Z.testbit (pending (signals a)) SIGSTOP) as Hs.
  { unfold b. rewrite testbit_pending_signal by done. apply orb_false_r. }
  pose proof (deliver_pending_u64 b Hb) as Hb'. split.
  - rewrite (deliver_signals_eq (deliver_signals b)) by done. revert Hb'.
    rewrite (deliver_signals_eq b) by done. intros Hb'.
    destruct (Z.testbit (pending (signals b)) SIGSTOP) eqn:Hstop.
    + assert (pending (signals (deliver_spec b)) =
        foldl clear_bit (pending (signals b)) (seqZ 0 2)) as Hpend.
      { unfold deliver_spec. by rewrite Hstop. }
      unfold deliver_spec at 1. cbv zeta. rewrite Hpend.
      assert (Forall (λ s, 0 <= s < 64) (seqZ 0 2)).
      { apply Forall_forall. intros s ?%elem_of_seqZ. lia. }
      rewrite !testbit_foldl_clear by done. by rewrite Hstop, Hk.
    + assert (state (deliver_spec b) = Dead ∧ pending (signals (deliver_spec b)) =
        foldl clear_bit (pending (signals b)) (seqZ 0 4)) as [Hdead Hpend].
      { unfold deliver_spec. by rewrite Hstop, Hk. }
      unfold deliver_spec at 1. cbv zeta. rewrite Hpend, Hdead.
      assert (Forall (λ s, 0 <= s < 64) (seqZ 0 4)).
      { apply Forall_forall. intros s ?%elem_of_seqZ. lia. }
      rewrite !testbit_foldl_clear by done. rewrite Hstop, Hk. cbn [zmem existsb andb].
      simpl negb. rewrite !andb_false_r. cbn. by destruct (_ && _).
  - intros Hstop. rewrite deliver_signals_eq by done. unfold deliver_spec. by rewrite Hs, Hstop, Hk.
Qed.

(** The mask does not protect a dead agent either: the delivery loop has no liveness test, so
    [SIGSTOP] followed by [SIGCONT] takes any [Dead] agent back to [Ready]. *)
Theorem dead_agent_revived (a : AgentStruct) :
  state a = Dead → pending (signals a) = 0 → Z.testbit (mask (signals a)) SIGCONT = false →
  state (deliver_signals (send_signal SIGCONT (deliver_signals (send_signal SIGSTOP a)))) = Ready.
Proof.
  intros Hs Hp Hm.
  assert (deliver_signals (send_signal SIGSTOP a) = with_state Stopped (with_pending 0 a)) as ->.
  { unfold send_signal. cbn [Z.eqb SIGKILL SIGSTOP Pos.eqb orb].
    rewrite deliver_signals_eq.
    - unfold deliver_spec, pending_signal. cbn. by rewrite Hp.
    - apply pending_signal_u64; [by rewrite Hp|done]. }
  unfold send_signal. cbn [Z.eqb SIGKILL SIGSTOP SIGCONT Pos.eqb orb].
  cbn [with_state with_pending signals mask]. rewrite land_shl1_eq0 by done. rewrite Hm. cbn [negb].
  rewrite deliver_signals_eq by (by apply pending_signal_u64). reflexivity.
Qed.

(** ** Concrete instances *)

Lemma caps_grant_revoke_spec_witness :
  caps_has (caps_grant (mkCaps CAP_EXEC) (shl1 7)) (shl1 7) = true ∧
  caps_has (caps_revoke (mkCaps CAP_EXEC) (shl1 6)) (shl1 6) = false.
Proof.
  split.
  - apply (caps_grant_revoke_spec (mkCaps CAP_EXEC) 7 7); (lia || (split; vm_compute; discriminate)).
  - apply (caps_grant_revoke_spec (mkCaps CAP_EXEC) 6 6); (lia || (split; vm_compute; discriminate)).
Defined.

(** A fresh agent with [SIGSTOP] and [SIGTERM] pending. *)
Definition signalled_agent : AgentStruct :=
  send_signal SIGTERM (send_signal SIGSTOP (agent_new 5 0 "worker" INIT_AGENT_ID).1).

Lemma deliver_signals_spec_witness :
  deliver_signals signalled_agent = deliver_spec signalled_agent ∧
  state (deliver_signals signalled_agent) = Stopped.
Proof.
  split; [|vm_compute; reflexivity]. apply (deliver_signals_spec signalled_agent).
  split; vm_compute; discriminate.
Defined.

Lemma sigkill_certain_witness :
  state (deliver_signals (deliver_signals (send_signal SIGKILL signalled_agent))) = Dead.
Proof. apply (sigkill_certain signalled_agent). split; vm_compute; discriminate. Defined.
