(* ===== verification/Mac.v ===== *)
(** * Mandatory access control: labels, rules and the glob matcher

    Models [crates/kernel/src/mac.rs].  Strings are byte strings; [HashMap]s are [gmap]s.  The TOML
    parser of [load_policy_toml] is a parameter. *)

From S2P Require Import Prelude AgentStruct.
From Stdlib Require Import Ascii.
#[local] Open Scope Z_scope.

Inductive MacDecision := MacAllow | MacDeny | MacAudit.

#[global] Instance mac_decision_eq_dec : EqDecision MacDecision.
Proof. solve_decision. Defined.

Record PolicyRule := mkRule {
  subject : string; action : string; object : string; decision : string }.

#[global] Instance policy_rule_eq_dec : EqDecision PolicyRule.
Proof. solve_decision. Defined.

Record MacEngine := mkMac {
  labels : gmap AgentId string;
  resource_labels : gmap string string;
  rules : list PolicyRule;
  default : MacDecision;
  enforcing : bool }.

#[global] Instance mac_engine_eq_dec : EqDecision MacEngine.
Proof. solve_decision. Defined.

Definition mac_new (enf : bool) : MacEngine := mkMac ∅ ∅ [] MacDeny enf.

Definition label_agent (id : AgentId) (l : string) (e : MacEngine) : MacEngine :=
  mkMac (<[id := l]> (labels e)) (resource_labels e) (rules e) (default e) (enforcing e).

Definition label_resource (path l : string) (e : MacEngine) : MacEngine :=
  mkMac (labels e) (<[path := l]> (resource_labels e)) (rules e) (default e) (enforcing e).

Definition load_policy (rs : list PolicyRule) (e : MacEngine) : MacEngine :=
  mkMac (labels e) (resource_labels e) rs (default e) (enforcing e).

Definition set_enforcing (b : bool) (e : MacEngine) : MacEngine :=
  mkMac (labels e) (resource_labels e) (rules e) (default e) b.

Definition is_enforcing (e : MacEngine) : bool := enforcing e.
Definition get_label (id : AgentId) (e : MacEngine) : option string := labels e !! id.

(** [load_policy_toml]: [parse] is [toml::from_str] into the [rule] array, with the error already
    rendered.  A malformed document leaves the engine unchanged. *)
Definition load_policy_toml (parse : string → result string (list PolicyRule))
    (src : string) (e : MacEngine) : MacEngine * result string unit :=
  match parse src with
  | Ok rs => (load_policy rs e, Ok tt)
  | Err msg => (e, Err msg)
  end.

(** ** Matching *)

(** Label matching: the bare [*] and exact equality. *)
Definition matches (pattern value : string) : bool :=
  bool_decide (pattern = "*"%string) || bool_decide (pattern = value).

(** The [**] arm: some suffix of the value, itself included, is accepted by [k]. *)
Fixpoint any_suffix (k : string → bool) (v : string) : bool :=
  k v || match v with EmptyString => false | String _ v' => any_suffix k v' end.

(** The [*] arm: the skipped prefix stops at a separator. *)
Fixpoint segment_suffix (k : string → bool) (v : string) : bool :=
  k v ||
  match v with
  | EmptyString => false
  | String c v' => negb (Ascii.eqb c "/"%char) && segment_suffix k v'
  end.

Fixpoint glob_match (pattern value : string) {struct pattern} : bool :=
  match pattern with
  | EmptyString => match value with EmptyString => true | String _ _ => false end
  | String pc rest =>
      if Ascii.eqb pc "*"%char then
        match rest with
        | String pc2 rest2 =>
            if Ascii.eqb pc2 "*"%char then any_suffix (glob_match rest2) value
            else segment_suffix (glob_match rest) value
        | EmptyString => segment_suffix (glob_match rest) value
        end
      else if Ascii.eqb pc "?"%char then
        match value with
        | String c v' => negb (Ascii.eqb c "/"%char) && glob_match rest v'
        | EmptyString => false
        end
      else
        match value with
        | String vc v' => Ascii.eqb vc pc && glob_match rest v'
        | EmptyString => false
        end
  end.

Definition object_matches (pattern object_label resource : string) : bool :=
  matches pattern object_label || glob_match pattern resource.

(** ** Evaluation *)

Definition parse_decision (d : string) : MacDecision :=
  if bool_decide (d = "allow"%string) then MacAllow
  else if bool_decide (d = "deny"%string) then MacDeny
  else if bool_decide (d = "audit"%string) then MacAudit
  else MacDeny.

Definition rule_matches (r : PolicyRule) (subject_label act object_label resource : string) : bool :=
  matches (subject r) subject_label && matches (action r) act &&
  object_matches (object r) object_label resource.

(** The rule loop, counting indices from [idx]; [None] when it falls through. *)
Fixpoint evaluate_from (idx : nat) (rs : list PolicyRule) (enf : bool)
    (subject_label act object_label resource : string) : option (MacDecision * nat) :=
  match rs with
  | [] => None
  | r :: rs' =>
      if rule_matches r subject_label act object_label resource
      then Some (if enf then parse_decision (decision r) else MacAllow, idx)
      else evaluate_from (S idx) rs' enf subject_label act object_label resource
  end.

Definition evaluate (e : MacEngine) (subject_label act object_label resource : string)
    : MacDecision * option nat :=
  match evaluate_from O (rules e) (enforcing e) subject_label act object_label resource with
  | Some (d, i) => (d, Some i)
  | None => (if enforcing e then default e else MacAllow, None)
  end.

Definition mac_check (e : MacEngine) (id : AgentId) (act resource : string) : MacDecision :=
  let subject_label := from_option (λ s, s) "unconfined"%string (labels e !! id) in
  let object_label := from_option (λ s, s) "unconfined"%string (resource_labels e !! resource) in
  (evaluate e subject_label act object_label resource).1.

(** ** The matcher as a language

    A pattern is a sequence of tokens; a token denotes a set of strings; a pattern denotes the
    concatenation of its tokens' sets. *)

Inductive token := AnyPath | AnySegment | OneChar | Literal (c : Ascii.ascii).

Fixpoint tokenize (p : string) : list token :=
  match p with
  | EmptyString => []
  | String pc rest =>
      if Ascii.eqb pc "*"%char then
        match rest with
        | String pc2 rest2 =>
            if Ascii.eqb pc2 "*"%char then AnyPath :: tokenize rest2 else AnySegment :: tokenize rest
        | EmptyString => [AnySegment]
        end
      else if Ascii.eqb pc "?"%char then OneChar :: tokenize rest
      else Literal pc :: tokenize rest
  end.

Fixpoint no_slash (s : string) : Prop :=
  match s with EmptyString => True | String c s' => c ≠ "/"%char ∧ no_slash s' end.

Definition token_lang (t : token) (s : string) : Prop :=
  match t with
  | AnyPath => True
  | AnySegment => no_slash s
  | OneChar => ∃ c, s = String c EmptyString ∧ c ≠ "/"%char
  | Literal c => s = String c EmptyString
  end.

Inductive glob_lang : list token → string → Prop :=
| glob_nil : glob_lang [] EmptyString
| glob_cons t ts s v : token_lang t s → glob_lang ts v → glob_lang (t :: ts) (s +:+ v).

(** ** Correctness of the matcher *)

Lemma any_suffix_spec k v : any_suffix k v = true ↔ ∃ s u, v = s +:+ u ∧ k u = true.
Proof.
  induction v as [|c v IH]; cbn [any_suffix].
  - rewrite orb_false_r. split; [intros H; by exists EmptyString, EmptyString|].
    intros (s & u & [-> ->]%empty_app_inv & H). done.
  - rewrite orb_true_iff, IH. split.
    + intros [H|(s & u & -> & H)]; [by exists EmptyString, (String c v)|].
      by exists (String c s), u.
    + intros (s & u & [[-> ->]|(s' & -> & ->)]%cons_app_inv & H); [by left|]. right. eauto.
Qed.

Lemma segment_suffix_spec k v :
  segment_suffix k v = true ↔ ∃ s u, v = s +:+ u ∧ no_slash s ∧ k u = true.
Proof.
  induction v as [|c v IH]; cbn [segment_suffix].
  - rewrite orb_false_r. split; [intros H; by exists EmptyString, EmptyString|].
    intros (s & u & [-> ->]%empty_app_inv & Hs & H). done.
  - rewrite orb_true_iff, andb_true_iff, negb_true_iff, IH, Ascii.eqb_neq. split.
    + intros [H|[Hc (s & u & -> & Hs & H)]]; [by exists EmptyString, (String c v)|].
      by exists (String c s), u.
    + intros (s & u & [[-> ->]|(s' & -> & ->)]%cons_app_inv & Hs & H); [by left|].
      right. destruct Hs. eauto 6.
Qed.

Lemma glob_lang_cons t ts v :
  glob_lang (t :: ts) v ↔ ∃ s u, v = s +:+ u ∧ token_lang t s ∧ glob_lang ts u.
Proof.
  split.
  - inversion 1; subst. eauto.
  - intros (s & u & -> & Ht & Hu). by constructor.
Qed.

Lemma glob_lang_nil v : glob_lang [] v ↔ v = EmptyString.
Proof. split; [by inversion 1|]. intros ->. constructor. Qed.

(** Strong induction on pattern length. *)
Lemma string_len_ind (P : string → Prop) :
  (∀ p, (∀ q, (String.length q < String.length p)%nat → P q) → P p) → ∀ p, P p.
Proof.
  intros H p. remember (String.length p) as n eqn:Hn.
  revert p Hn. induction n as [n IH] using lt_wf_ind. intros p ->.
  apply H. intros q Hq. by apply (IH (String.length q)).
Qed.

Lemma glob_match_lang (p v : string) :
  glob_match p v = true ↔ glob_lang (tokenize p) v.
Proof.
  revert v. induction p as [p IH] using string_len_ind. intros v.
  destruct p as [|pc rest]; cbn [glob_match tokenize].
  { rewrite glob_lang_nil. destruct v; naive_solver. }
  destruct (Ascii.eqb_spec pc "*"%char) as [->|Hstar].
  - destruct rest as [|pc2 rest2].
    + rewrite segment_suffix_spec, glob_lang_cons. f_equiv; intros s. f_equiv; intros u.
      cbn [glob_match]. rewrite glob_lang_nil. destruct u; naive_solver.
    + destruct (Ascii.eqb_spec pc2 "*"%char) as [->|Hne].
      * rewrite any_suffix_spec, glob_lang_cons. f_equiv; intros s. f_equiv; intros u.
        rewrite IH by (simpl; lia). naive_solver.
      * rewrite segment_suffix_spec, glob_lang_cons. f_equiv; intros s. f_equiv; intros u.
        rewrite IH by (simpl; lia). done.
  - destruct (Ascii.eqb_spec pc "?"%char) as [->|Hq]; rewrite glob_lang_cons.
    + destruct v as [|c v].
      { split; [done|]. intros (s & u & Heq & (c & -> & _) & _). done. }
      rewrite andb_true_iff, negb_true_iff, Ascii.eqb_neq, IH by (simpl; lia). split.
      * intros [Hc Hv]. exists (String c EmptyString), v. naive_solver.
      * intros (s & u & Heq & (c' & -> & Hc') & Hu). by injection Heq as -> ->.
    + destruct v as [|c v].
      { split; [done|]. intros (s & u & Heq & -> & _). done. }
      rewrite andb_true_iff, Ascii.eqb_eq, IH by (simpl; lia). split.
      * intros [-> Hv]. exists (String pc EmptyString), v. naive_solver.
      * intros (s & u & Heq & -> & Hu). by injection Heq as -> ->.
Qed.


Fixpoint slashes (s : string) : nat :=
  match s with
  | EmptyString => O
  | String c s' => ((if Ascii.eqb c "/"%char then 1 else 0) + slashes s')%nat
  end.

Lemma slashes_app (s u : string) : slashes (s +:+ u) = (slashes s + slashes u)%nat.
Proof. induction s as [|c s IH]; [done|]. rewrite app_cons_string. simpl. lia. Qed.

Lemma no_slash_slashes s : no_slash s ↔ slashes s = O.
Proof.
  induction s as [|c s IH]; simpl; [done|]. rewrite IH.
  destruct (Ascii.eqb_spec c "/"%char); naive_solver lia.
Qed.

Definition token_slash (t : token) : nat :=
  match t with Literal c => if Ascii.eqb c "/"%char then 1 else 0 | _ => 0 end.

Lemma glob_lang_slashes ts v :
  AnyPath ∉ ts → glob_lang ts v → slashes v = sum_list_with token_slash ts.
Proof.
  intros Hts Hv. induction Hv as [|t ts s v Ht Hv IH]; [done|].
  rewrite slashes_app, IH by set_solver. simpl. f_equal.
  destruct t; simpl in *; [set_solver|by apply no_slash_slashes| |].
  - destruct Ht as (c & -> & Hc). simpl. by destruct (Ascii.eqb_spec c "/"%char).
  - subst. simpl. lia.
Qed.

Lemma tokenize_slashes p : sum_list_with token_slash (tokenize p) = slashes p.
Proof.
  induction p as [p IH] using string_len_ind. destruct p as [|c rest]; [done|].
  cbn [tokenize]. destruct (Ascii.eqb_spec c "*"%char) as [->|].
  - destruct rest as [|c2 rest2]; [done|].
    destruct (Ascii.eqb_spec c2 "*"%char) as [->|];
      cbn [sum_list_with token_slash]; by rewrite IH by (simpl; lia).
  - destruct (Ascii.eqb_spec c "?"%char) as [->|];
      cbn [sum_list_with token_slash]; by rewrite IH by (simpl; lia).
Qed.

(** A pattern without [**] never spans a path separator: everything it matches has
    exactly the separators the pattern spells out ([/etc/*] does not match [/etc/ssl/key]). *)
Theorem glob_no_double_star_segments (p v : string) :
  AnyPath ∉ tokenize p → glob_match p v = true → slashes v = slashes p.
Proof.
  intros Hp Hv%glob_match_lang. by rewrite (glob_lang_slashes _ _ Hp Hv), tokenize_slashes.
Qed.

(** A pattern of literal characters only. *)
Definition is_literal (p : string) : bool :=
  forallb (λ t, match t with Literal _ => true | _ => false end) (tokenize p).

Lemma glob_literal (p v : string) :
  is_literal p = true → glob_match p v = true ↔ v = p.
Proof.
  unfold is_literal. revert v. induction p as [|c p IH]; intros v; cbn [glob_match tokenize].
  { intros _. destruct v; naive_solver. }
  destruct (Ascii.eqb_spec c "*"%char) as [->|].
  { destruct p as [|c2 p2]; [done|]. by destruct (Ascii.eqb_spec c2 "*"%char). }
  destruct (Ascii.eqb_spec c "?"%char) as [->|]; [done|].
  simpl. intros Hp. destruct v as [|c' v]; [naive_solver|].
  rewrite andb_true_iff, Ascii.eqb_eq, IH by done. naive_solver.
Qed.

Lemma glob_double_star v : glob_match "**" v = true.
Proof.
  change (glob_match "**" v) with (any_suffix (glob_match EmptyString) v).
  apply any_suffix_spec. exists v, EmptyString. split; [|done].
  induction v as [|c v IH]; [done|]. rewrite app_cons_string. by rewrite <- IH.
Qed.

(** ** First match wins *)

Lemma evaluate_from_spec idx rs enf s a o r :
  match evaluate_from idx rs enf s a o r with
  | Some (d, i) => ∃ j rule, i = (idx + j)%nat ∧ rs !! j = Some rule ∧
      rule_matches rule s a o r = true ∧
      (∀ k rule', (k < j)%nat → rs !! k = Some rule' → rule_matches rule' s a o r = false) ∧
      d = (if enf then parse_decision (decision rule) else MacAllow)
  | None => ∀ k rule', rs !! k = Some rule' → rule_matches rule' s a o r = false
  end.
Proof.
  revert idx. induction rs as [|r0 rs IH]; intros idx; cbn [evaluate_from]; [done|].
  destruct (rule_matches r0 s a o r) eqn:Hr.
  { exists O, r0. split_and!; [lia|done..| |done]. intros k rule' Hk. lia. }
  specialize (IH (S idx)). destruct (evaluate_from _ _ _ _ _ _ _) as [[d i]|].
  - destruct IH as (j & rule & -> & Hj & Hm & Hbefore & ->). exists (S j), rule.
    split_and!; [lia|done..| |done]. intros [|k] rule' Hk; simpl; [naive_solver|].
    apply Hbefore. lia.
  - intros [|k] rule'; simpl; naive_solver.
Qed.

Lemma evaluate_cases (e : MacEngine) (s a o r : string) :
  match evaluate e s a o r with
  | (d, Some i) => ∃ rule, rules e !! i = Some rule ∧ rule_matches rule s a o r = true ∧
      (∀ k rule', (k < i)%nat → rules e !! k = Some rule' →
        rule_matches rule' s a o r = false) ∧
      d = (if enforcing e then parse_decision (decision rule) else MacAllow)
  | (d, None) => (∀ k rule', rules e !! k = Some rule' → rule_matches rule' s a o r = false) ∧
      d = (if enforcing e then default e else MacAllow)
  end.
Proof.
  unfold evaluate. pose proof (evaluate_from_spec O (rules e) (enforcing e) s a o r) as H.
  destruct (evaluate_from _ _ _ _ _ _ _) as [[d i]|]; [|done].
  destruct H as (j & rule & -> & H). eauto.
Qed.

(** [evaluate] is first-match: the index it reports is the first rule whose subject,
    action and object all match, and its decision is that rule's (or [MacAllow] in permissive
    mode); it reports no index exactly when no rule matches, and then decides by the engine's
    default. *)
Theorem evaluate_first_match (e : MacEngine) (s a o r : string) :
  match evaluate e s a o r with
  | (d, Some i) => ∃ rule, rules e !! i = Some rule ∧ rule_matches rule s a o r = true ∧
      (∀ k rule', (k < i)%nat → rules e !! k = Some rule' →
        rule_matches rule' s a o r = false) ∧
      d = (if enforcing e then parse_decision (decision rule) else MacAllow)
  | (d, None) => (∀ k rule', rules e !! k = Some rule' → rule_matches rule' s a o r = false) ∧
      d = (if enforcing e then default e else MacAllow)
  end.
Proof. apply evaluate_cases. Qed.

(** ** Updates of a live engine *)

Inductive MacUpdate :=
| ULoadPolicy (rs : list PolicyRule)
| ULabelAgent (id : AgentId) (l : string)
| ULabelResource (path l : string)
| USetEnforcing (b : bool).

Definition apply_update (u : MacUpdate) (e : MacEngine) : MacEngine :=
  match u with
  | ULoadPolicy rs => load_policy rs e
  | ULabelAgent id l => label_agent id l e
  | ULabelResource path l => label_resource path l e
  | USetEnforcing b => set_enforcing b e
  end.

(** No update touches the default: an engine built by [mac_new] denies, for ever, what
    no rule matches while it is enforcing, and allows everything while it is permissive. *)
Theorem mac_default_deny (enf : bool) (us : list MacUpdate) (id : AgentId) (act resource : string) :
  let e := foldr apply_update (mac_new enf) us in
  (enforcing e = false → mac_check e id act resource = MacAllow) ∧
  (enforcing e = true →
   Forall (λ rule, ∀ s o, rule_matches rule s act o resource = false) (rules e) →
   mac_check e id act resource = MacDeny).
Proof.
  cbv zeta. set (e := foldr _ _ us).
  assert (default e = MacDeny) as Hd.
  { unfold e. induction us as [|[] us IH]; simpl; done. }
  unfold mac_check.
  set (s := from_option _ _ (labels e !! id)). set (o := from_option _ _ (_ !! resource)).
  pose proof (evaluate_cases e s act o resource) as H.
  destruct (evaluate e s act o resource) as [d [i|]]; simpl.
  - destruct H as (rule & Hi & Hm & _ & ->). split; intros ->; [done|].
    rewrite Forall_lookup. intros Hall. by rewrite (Hall i rule Hi) in Hm.
  - destruct H as [_ ->]. split; intros ->; done.
Qed.

Lemma glob_no_double_star_segments_witness : slashes "/etc/hosts" = slashes "/etc/*".
Proof.
  apply (glob_no_double_star_segments "/etc/*" "/etc/hosts"); [|vm_compute; reflexivity].
  vm_compute. set_solver.
Defined.
