(* ===== verification/Tools.v ===== *)
(** * Tool declarations: security contracts, their validation and the registry

    Models the declaration half of [crates/kernel/src/tools.rs] and the resource tables of
    [crates/kernel/src/resources.rs] it shares with the broker.  JSON values are an inductive type;
    an object is its list of entries in map order. *)

From S2P Require Import Prelude AgentStruct.
From Stdlib Require Import Ascii.
#[local] Open Scope Z_scope.

(** ** JSON values, as far as declarations inspect them *)

Inductive json :=
| JNull
| JBool (b : bool)
| JNumber (repr : string)
| JString (s : string)
| JArray (l : list json)
| JObject (l : list (string * json)).

Definition json_as_str (j : json) : option string :=
  match j with JString s => Some s | _ => None end.
Definition json_as_array (j : json) : option (list json) :=
  match j with JArray l => Some l | _ => None end.
Definition json_as_object (j : json) : option (list (string * json)) :=
  match j with JObject l => Some l | _ => None end.

Fixpoint assoc_get (k : string) (l : list (string * json)) : option json :=
  match l with
  | [] => None
  | (k', v) :: l' => if bool_decide (k' = k) then Some v else assoc_get k l'
  end.

(** [Value::get(key)]: [None] unless the value is an object. *)
Definition json_get (k : string) (j : json) : option json :=
  match j with JObject l => assoc_get k l | _ => None end.

(** ** Resource types and security actions *)

Inductive ResourceType :=
| Filesystem | Application | Browser | Peripheral | Network | Ipc | Memory.

#[global] Instance resource_type_eq_dec : EqDecision ResourceType.
Proof. solve_decision. Defined.

Inductive SecurityAction :=
| SRead | SWrite | SDelete | SNetwork | SExecute | SIpc
| SBrowserAutomation | SCredentialAccess | SPackageInstall.

#[global] Instance security_action_eq_dec : EqDecision SecurityAction.
Proof. solve_decision. Defined.

Definition ALL_ACTIONS : list SecurityAction :=
  [SRead; SWrite; SDelete; SNetwork; SExecute; SIpc;
   SBrowserAutomation; SCredentialAccess; SPackageInstall].

Definition action_as_str (a : SecurityAction) : string :=
  match a with
  | SRead => "read" | SWrite => "write" | SDelete => "delete" | SNetwork => "net"
  | SExecute => "exec" | SIpc => "ipc" | SBrowserAutomation => "browser"
  | SCredentialAccess => "credential" | SPackageInstall => "package-install"
  end.

Definition mandatory_capabilities (a : SecurityAction) : list Z :=
  match a with
  | SRead | SIpc => []
  | SWrite => [CAP_FILE_WRITE]
  | SDelete => [CAP_FILE_DELETE]
  | SNetwork | SBrowserAutomation => [CAP_NET_ACCESS]
  | SExecute => [CAP_EXEC]
  | SCredentialAccess => [CAP_ADMIN]
  | SPackageInstall => [CAP_EXEC; CAP_ADMIN]
  end.

Definition supports_resource (a : SecurityAction) (rt : ResourceType) : bool :=
  match rt, a with
  | Filesystem, (SRead | SWrite | SDelete) => true
  | Network, SNetwork => true
  | Browser, SBrowserAutomation => true
  | Application, (SExecute | SCredentialAccess | SPackageInstall) => true
  | Ipc, SIpc => true
  | Memory, (SRead | SWrite) => true
  | Peripheral, (SRead | SWrite | SCredentialAccess) => true
  | _, _ => false
  end.

(** [matches!(op, "a" | "b" | ...)]. *)
Definition one_of (op : string) (l : list string) : bool := existsb (String.eqb op) l.

Definition for_provider_operation (rt : ResourceType) (op : string) : option SecurityAction :=
  match rt with
  | Filesystem =>
      if one_of op ["read"; "read_bytes"; "list"; "stat"] then Some SRead
      else if one_of op ["write"; "write_bytes"; "create"; "create_dir"; "edit"] then Some SWrite
      else if one_of op ["delete"] then Some SDelete
      else None
  | Memory =>
      if one_of op ["query"; "stat"; "kv_get"; "kv_list"; "kv_dir_stat"; "kv_stat"] then Some SRead
      else if one_of op ["store"; "kv_put"] then Some SWrite
      else None
  | Network =>
      if one_of op ["get"; "post"; "put"; "delete"; "browse"] then Some SNetwork else None
  | Application =>
      if one_of op ["launch"; "close"; "send_input"; "read_output"] then Some SExecute
      else if one_of op ["install"; "uninstall"] then Some SPackageInstall
      else if one_of op ["credential"; "credential_access"; "read_credential"]
        then Some SCredentialAccess
      else None
  | Browser =>
      if one_of op ["navigate"; "click"; "type"; "read"] then Some SBrowserAutomation else None
  | Ipc =>
      if one_of op ["send"; "receive"; "stat"; "delegate"; "delegation_status";
                    "complete_delegation"; "discover"] then Some SIpc
      else None
  | Peripheral =>
      if one_of op ["capture_image"; "record_audio"] then Some SRead
      else if one_of op ["play_audio"; "print"] then Some SWrite
      else if one_of op ["credential"; "credential_access"; "read_credential"]
        then Some SCredentialAccess
      else None
  end.

Inductive ProviderTargetSpec := TargetArgument (a : string) | TargetConstant (t : string).

Definition provider_target_spec (rt : ResourceType) (op : string) : option ProviderTargetSpec :=
  match rt with
  | Filesystem =>
      if one_of op ["read"; "read_bytes"; "write"; "write_bytes"; "create"; "create_dir"; "edit";
                    "delete"; "list"; "stat"] then Some (TargetArgument "path")
      else None
  | Network =>
      if one_of op ["get"; "post"; "put"; "delete"; "browse"] then Some (TargetArgument "url")
      else None
  | Browser =>
      if one_of op ["navigate"; "click"; "type"; "read"] then Some (TargetArgument "url") else None
  | Application =>
      if one_of op ["launch"] then Some (TargetArgument "command")
      else if one_of op ["install"; "uninstall"] then Some (TargetArgument "package")
      else if one_of op ["credential"; "credential_access"; "read_credential"]
        then Some (TargetArgument "credential")
      else None
  | Ipc =>
      if one_of op ["send"; "delegate"] then Some (TargetArgument "to")
      else if one_of op ["delegation_status"; "complete_delegation"]
        then Some (TargetArgument "task_id")
      else if one_of op ["receive"; "stat"] then Some (TargetConstant "ipc:self")
      else if one_of op ["discover"] then Some (TargetConstant "ipc:namespace")
      else None
  | Memory =>
      if one_of op ["store"; "query"; "stat"] then Some (TargetConstant "memory:self")
      else if one_of op ["kv_get"; "kv_put"; "kv_stat"] then Some (TargetArgument "key")
      else if one_of op ["kv_list"; "kv_dir_stat"] then Some (TargetConstant "kv:self")
      else None
  | Peripheral =>
      if one_of op ["capture_image"; "record_audio"; "play_audio"]
        then Some (TargetArgument "device")
      else if one_of op ["print"] then Some (TargetArgument "printer")
      else if one_of op ["credential"; "credential_access"; "read_credential"]
        then Some (TargetArgument "credential")
      else None
  end.

(** ** Security contracts *)

Inductive ResourceExtractor := ExtractArgument (name : string) | ExtractConstant (value : string).
Inductive NamespaceVisibility := VGlobal | VCallerNamespace.
Inductive ApprovalPolicy := ApprovalNone | ApprovalUser | ApprovalAdministrator.
Inductive SandboxRequirement := NotRequired | Required.

#[global] Instance resource_extractor_eq_dec : EqDecision ResourceExtractor.
Proof. solve_decision. Defined.
#[global] Instance namespace_visibility_eq_dec : EqDecision NamespaceVisibility.
Proof. solve_decision. Defined.
#[global] Instance approval_policy_eq_dec : EqDecision ApprovalPolicy.
Proof. solve_decision. Defined.
#[global] Instance sandbox_requirement_eq_dec : EqDecision SandboxRequirement.
Proof. solve_decision. Defined.

(** [ApprovalPolicy::satisfies]: does a grant of strength [self] satisfy [required]? *)
Definition satisfies (self required : ApprovalPolicy) : bool :=
  match self, required with
  | ApprovalAdministrator, (ApprovalAdministrator | ApprovalUser) => true
  | ApprovalUser, ApprovalUser => true
  | _, ApprovalNone => true
  | _, _ => false
  end.

Record ToolSecurity := mkSecurity {
  sec_action : SecurityAction;
  required_capabilities : list Z;
  resource_extractor : ResourceExtractor;
  namespace_visibility : NamespaceVisibility;
  approval_policy : ApprovalPolicy;
  sandbox_requirement : SandboxRequirement }.

#[global] Instance tool_security_eq_dec : EqDecision ToolSecurity.
Proof. solve_decision. Defined.

Definition security_new (a : SecurityAction) (x : ResourceExtractor) : ToolSecurity :=
  mkSecurity a (mandatory_capabilities a) x VGlobal ApprovalNone NotRequired.
Definition security_argument (a : SecurityAction) (arg : string) : ToolSecurity :=
  security_new a (ExtractArgument arg).
Definition security_constant (a : SecurityAction) (res : string) : ToolSecurity :=
  security_new a (ExtractConstant res).
Definition with_approval (p : ApprovalPolicy) (s : ToolSecurity) : ToolSecurity :=
  mkSecurity (sec_action s) (required_capabilities s) (resource_extractor s)
    (namespace_visibility s) p (sandbox_requirement s).
Definition with_capability (c : Z) (s : ToolSecurity) : ToolSecurity :=
  if zmem c (required_capabilities s) then s
  else mkSecurity (sec_action s) (required_capabilities s ++ [c]) (resource_extractor s)
         (namespace_visibility s) (approval_policy s) (sandbox_requirement s).
Definition sandboxed (s : ToolSecurity) : ToolSecurity :=
  mkSecurity (sec_action s) (required_capabilities s) (resource_extractor s)
    (namespace_visibility s) (approval_policy s) Required.
Definition caller_namespace (s : ToolSecurity) : ToolSecurity :=
  mkSecurity (sec_action s) (required_capabilities s) (resource_extractor s)
    VCallerNamespace (approval_policy s) (sandbox_requirement s).

(** [extract_resource]: the MAC resource of an untrusted call. *)
Definition extract_resource (s : ToolSecurity) (arguments : json) : result string string :=
  match resource_extractor s with
  | ExtractConstant v => if is_blank v then Err "constant resource cannot be empty" else Ok v
  | ExtractArgument name =>
      match json_get name arguments ≫= json_as_str with
      | Some v =>
          if is_blank v
          then Err ("resource argument '" +:+ name +:+ "' must be a non-empty string")
          else Ok v
      | None => Err ("resource argument '" +:+ name +:+ "' must be a non-empty string")
      end
  end.

(** ** Validation of a binding *)

(** [TPanic] is not an error value of the source: it marks the panic of the [expect] on the action
    table, shown unreachable below. *)
Inductive ToolRegistrationError :=
| TMissingIdentity
| TDuplicateName (n : string)
| TInvalidSchema
| TMissingOperation
| TUnsupportedOperation (rt : ResourceType) (op : string)
| TOperationActionMismatch (rt : ResourceType) (op expected actual : string)
| TProviderTargetMismatch (rt : ResourceType) (op expected : string)
| TMissingResourceArgument (a : string)
| TInvalidResourceArgument (a : string)
| TEmptyConstantResource
| TInvalidCapability (c : Z)
| TResourceActionMismatch (a : string) (rt : ResourceType)
| TUnboundNamespace
| TMissingCapability (a : string) (c : Z)
| TMissingApproval (a : string)
| TMissingAdministratorApproval (a : string)
| TMissingSandbox (a : string)
| TInvalidCommandTemplate
| TCommandTemplateBindingMismatch
| TDuplicateCommandTemplate (n : string)
| TPanic.

Record ToolBinding := mkBinding {
  tb_name : string;
  tb_description : string;
  tb_parameters_schema : json;
  tb_resource_type : ResourceType;
  tb_operation : string;
  tb_security : ToolSecurity }.

Definition known_capabilities : list Z :=
  [CAP_TOOL_MOUNT; CAP_AGENT_CREATE; CAP_AGENT_KILL; CAP_NET_ACCESS; CAP_FILE_WRITE;
   CAP_FILE_DELETE; CAP_EXEC; CAP_ADMIN; CAP_SYS_RESOURCE].

(** The loop over required capabilities, [seen] being the set of those already met. *)
Fixpoint check_capabilities (seen caps : list Z) : result ToolRegistrationError unit :=
  match caps with
  | [] => Ok tt
  | c :: caps' =>
      if negb (zmem c known_capabilities) || zmem c seen then Err (TInvalidCapability c)
      else check_capabilities (c :: seen) caps'
  end.

Fixpoint check_mandatory (a : SecurityAction) (declared mandatory : list Z)
    : result ToolRegistrationError unit :=
  match mandatory with
  | [] => Ok tt
  | c :: rest =>
      if zmem c declared then check_mandatory a declared rest
      else Err (TMissingCapability (action_as_str a) c)
  end.

Definition extractor_matches_target (fixed : option string) (expected : ProviderTargetSpec)
    (x : ResourceExtractor) : bool :=
  match fixed, expected, x with
  | Some f, TargetArgument a, ExtractConstant actual =>
      bool_decide (a = "command") && bool_decide (actual = f)
  | None, TargetArgument e, ExtractArgument actual => bool_decide (actual = e)
  | None, TargetConstant e, ExtractConstant actual => bool_decide (actual = e)
  | _, _, _ => false
  end.

Definition expected_target_text (fixed : option string) (expected : ProviderTargetSpec) : string :=
  match fixed, expected with
  | Some t, _ => "constant '" +:+ t +:+ "'"
  | None, TargetArgument a => "required string argument '" +:+ a +:+ "'"
  | None, TargetConstant t => "constant '" +:+ t +:+ "'"
  end.

(** The schema half of the validation: the parameter schema is an object schema that declares the
    extractor's argument as a required string property. *)
Definition check_schema (schema_json : json) (x : ResourceExtractor)
    : result ToolRegistrationError unit :=
  schema ← ok_or TInvalidSchema
    (s ← json_as_object schema_json;
     if bool_decide ((assoc_get "type" s ≫= json_as_str) = Some "object") then Some s else None);
  properties ← ok_or TInvalidSchema (assoc_get "properties" schema ≫= json_as_object);
  match x with
  | ExtractArgument argument =>
      match assoc_get argument properties with
      | None => Err (TMissingResourceArgument argument)
      | Some property =>
          let required :=
            match assoc_get "required" schema ≫= json_as_array with
            | Some l => existsb (λ v, bool_decide (json_as_str v = Some argument)) l
            | None => false
            end in
          if is_blank argument
             || negb (bool_decide ((json_get "type" property ≫= json_as_str) = Some "string"))
             || negb required
          then Err (TInvalidResourceArgument argument)
          else Ok tt
      end
  | ExtractConstant resource =>
      if is_blank resource then Err TEmptyConstantResource else Ok tt
  end.

Definition is_peripheral (rt : ResourceType) : bool := bool_decide (rt = Peripheral).

(** The approval and sandbox floor of an action. *)
Definition check_floor (a : SecurityAction) (rt : ResourceType) (s : ToolSecurity)
    : result ToolRegistrationError unit :=
  if bool_decide (a ∈ [SCredentialAccess; SPackageInstall])
     && negb (bool_decide (approval_policy s = ApprovalAdministrator))
  then Err (TMissingAdministratorApproval (action_as_str a))
  else if (bool_decide (a ∈ [SDelete; SBrowserAutomation]) || is_peripheral rt)
     && bool_decide (approval_policy s = ApprovalNone)
  then Err (TMissingApproval (action_as_str a))
  else if (bool_decide
             (a ∈ [SExecute; SDelete; SPackageInstall; SBrowserAutomation; SCredentialAccess])
           || is_peripheral rt)
     && negb (bool_decide (sandbox_requirement s = Required))
  then Err (TMissingSandbox (action_as_str a))
  else Ok tt.

Definition validate_binding_with_scope (b : ToolBinding) (has_concrete_namespace : bool)
    (fixed_provider_target : option string) : result ToolRegistrationError unit :=
  let s := tb_security b in
  let rt := tb_resource_type b in
  let op := tb_operation b in
  _ ← ensure (negb (is_blank (tb_name b) || is_blank (tb_description b))) TMissingIdentity;
  _ ← ensure (negb (is_blank op)) TMissingOperation;
  expected_target ← ok_or (TUnsupportedOperation rt op) (provider_target_spec rt op);
  _ ← ensure (extractor_matches_target fixed_provider_target expected_target (resource_extractor s))
        (TProviderTargetMismatch rt op (expected_target_text fixed_provider_target expected_target));
  _ ← check_schema (tb_parameters_schema b) (resource_extractor s);
  _ ← ensure (supports_resource (sec_action s) rt)
        (TResourceActionMismatch (action_as_str (sec_action s)) rt);
  expected_action ← ok_or TPanic (for_provider_operation rt op);
  _ ← ensure (bool_decide (sec_action s = expected_action))
        (TOperationActionMismatch rt op (action_as_str expected_action)
           (action_as_str (sec_action s)));
  _ ← ensure (negb (bool_decide (namespace_visibility s = VCallerNamespace)
                    && negb (bool_decide (rt = Ipc)) && negb has_concrete_namespace))
        TUnboundNamespace;
  _ ← check_capabilities [] (required_capabilities s);
  _ ← check_mandatory (sec_action s) (required_capabilities s)
        (mandatory_capabilities (sec_action s));
  check_floor (sec_action s) rt s.

Definition validate_binding (b : ToolBinding) : result ToolRegistrationError unit :=
  validate_binding_with_scope b false None.

(** ** The registry

    [uuid::Uuid::new_v4()] is the argument [fresh]. *)

Abbreviation uuid := Z (only parsing).

Record ToolRegistry := mkRegistry {
  tools : gmap string ToolBinding;
  binding_ids : gmap string uuid;
  command_templates : gmap string (string * list string) }.

Definition register_locked (fresh : uuid) (b : ToolBinding) (has_concrete_namespace : bool)
    (fixed : option string) (r : ToolRegistry) : ToolRegistry * result ToolRegistrationError unit :=
  match validate_binding_with_scope b has_concrete_namespace fixed with
  | Err e => (r, Err e)
  | Ok _ =>
      let name := tb_name b in
      match tools r !! name with
      | None =>
          (mkRegistry (<[name := b]> (tools r)) (<[name := fresh]> (binding_ids r))
             (command_templates r), Ok tt)
      | Some _ => (r, Err (TDuplicateName name))
      end
  end.

Definition register (fresh : uuid) (b : ToolBinding) (r : ToolRegistry)
    : ToolRegistry * result ToolRegistrationError unit :=
  register_locked fresh b false None r.

Definition register_namespace_scoped (fresh : uuid) (b : ToolBinding) (r : ToolRegistry)
    : ToolRegistry * result ToolRegistrationError unit :=
  register_locked fresh b true None r.

Definition unregister_locked (name : string) (r : ToolRegistry) : ToolRegistry :=
  mkRegistry (delete name (tools r)) (delete name (binding_ids r))
    (delete name (command_templates r)).

Definition unregister (name : string) (r : ToolRegistry) : ToolRegistry :=
  unregister_locked name r.

Definition validate_command_template_binding (b : ToolBinding) (command : string)
    : result ToolRegistrationError unit :=
  if is_blank command then Err TInvalidCommandTemplate
  else if negb (bool_decide (tb_resource_type b = Application))
          || negb (bool_decide (tb_operation b = "launch"))
          || negb (bool_decide (sec_action (tb_security b) = SExecute))
          || negb (zmem CAP_EXEC (required_capabilities (tb_security b)))
          || negb (bool_decide (sandbox_requirement (tb_security b) = Required))
          || negb (bool_decide (resource_extractor (tb_security b) = ExtractConstant command))
  then Err TCommandTemplateBindingMismatch
  else Ok tt.

Definition try_register_command_template_locked (fresh : uuid) (name command : string)
    (args : list string) (r : ToolRegistry) : ToolRegistry * result ToolRegistrationError unit :=
  match tools r !! name with
  | None => (r, Err TCommandTemplateBindingMismatch)
  | Some b =>
      match validate_command_template_binding b command with
      | Err e => (r, Err e)
      | Ok _ =>
          match command_templates r !! name with
          | None =>
              (mkRegistry (tools r) (<[name := fresh]> (binding_ids r))
                 (<[name := (command, args)]> (command_templates r)), Ok tt)
          | Some _ => (r, Err (TDuplicateCommandTemplate name))
          end
      end
  end.

(** A rejected template is only logged. *)
Definition register_command_template (fresh : uuid) (name command : string) (args : list string)
    (r : ToolRegistry) : ToolRegistry :=
  (try_register_command_template_locked fresh name command args r).1.

Definition register_command_tool (fresh1 fresh2 : uuid) (b : ToolBinding) (command : string)
    (args : list string) (r : ToolRegistry) : ToolRegistry * result ToolRegistrationError unit :=
  match validate_binding_with_scope b false (Some command) with
  | Err e => (r, Err e)
  | Ok _ =>
      match validate_command_template_binding b command with
      | Err e => (r, Err e)
      | Ok _ =>
          let name := tb_name b in
          match register_locked fresh1 b false (Some command) r with
          | (r1, Err e) => (r1, Err e)
          | (r1, Ok _) =>
              match try_register_command_template_locked fresh2 name command args r1 with
              | (r2, Err e) =>
                  (mkRegistry (delete name (tools r2)) (delete name (binding_ids r2))
                     (command_templates r2), Err e)
              | (r2, Ok _) => (r2, Ok tt)
              end
          end
      end
  end.

(** ** Properties of validation *)

Lemma one_of_elem op l : one_of op l = true ↔ op ∈ l.
Proof.
  unfold one_of. rewrite existsb_exists, list_elem_of_In. split.
  - intros (x & Hx & ->%String.eqb_eq). done.
  - intros H. exists op. by rewrite String.eqb_refl.
Qed.

(** Runs through the operation names of a table once one of its tests is known to hold. *)
Ltac table_cases :=
  repeat match goal with
  | H : (if one_of ?op ?l then _ else _) = Some _ |- _ =>
      let E := fresh "E" in destruct (one_of op l) eqn:E; [apply one_of_elem in E|]
  | H : None = Some _ |- _ => discriminate H
  | H : _ ∈ _ :: _ |- _ => apply elem_of_cons in H as [->|H]
  | H : _ ∈ [] |- _ => by apply not_elem_of_nil in H
  end.

Lemma tables_cover_same_operations (rt : ResourceType) (op : string) (t : ProviderTargetSpec) :
  provider_target_spec rt op = Some t → is_Some (for_provider_operation rt op).
Proof. intros H. destruct rt; cbn [provider_target_spec] in H; table_cases; eexists; reflexivity. Qed.

Lemma table_action_supported rt op a :
  for_provider_operation rt op = Some a → supports_resource a rt = true.
Proof. intros H. destruct rt; cbn [for_provider_operation] in H; table_cases; by injection H as <-. Qed.

Lemma check_capabilities_Ok seen caps :
  check_capabilities seen caps = Ok tt →
  Forall (λ c, c ∈ known_capabilities) caps ∧ NoDup caps ∧ (∀ c, c ∈ caps → c ∉ seen).
Proof.
  revert seen. induction caps as [|c caps IH]; intros seen; cbn [check_capabilities].
  { intros _. split_and!; [done|constructor|set_solver]. }
  destruct (negb _ || _) eqn:Hc; [done|]. bool_hyps. intros (Hk & Hnd & Hseen)%IH.
  split_and!; [by constructor| |].
  - constructor; [|done]. intros Hin. apply (Hseen c); set_solver.
  - intros c' [->|Hc']%elem_of_cons; [done|]. specialize (Hseen c' Hc'). set_solver.
Qed.

Lemma check_mandatory_Ok a declared mandatory :
  check_mandatory a declared mandatory = Ok tt → Forall (λ c, c ∈ declared) mandatory.
Proof.
  induction mandatory as [|c rest IH]; cbn [check_mandatory]; [done|].
  destruct (zmem c declared) eqn:Hc; [|done]. bool_hyps. intros. constructor; auto.
Qed.

Lemma check_schema_no_panic j x : check_schema j x ≠ Err TPanic.
Proof.
  unfold check_schema. intros [H|(s & _ & [H|(ps & _ & H)]%bind_Err)]%bind_Err.
  - by apply ok_or_Err in H as [_ H].
  - by apply ok_or_Err in H as [_ H].
  - by repeat case_match.
Qed.

Lemma check_capabilities_no_panic seen caps : check_capabilities seen caps ≠ Err TPanic.
Proof. revert seen. induction caps as [|c caps IH]; intros seen; simpl; [done|]. by case_match. Qed.

Lemma check_mandatory_no_panic a declared m : check_mandatory a declared m ≠ Err TPanic.
Proof. induction m as [|c m IH]; simpl; [done|]. by case_match. Qed.

Lemma check_floor_no_panic a rt s : check_floor a rt s ≠ Err TPanic.
Proof. unfold check_floor. by repeat case_match. Qed.

Ltac no_panic H :=
  first [by apply check_schema_no_panic in H | by apply check_capabilities_no_panic in H
        |by apply check_mandatory_no_panic in H | by apply check_floor_no_panic in H].

(** The [expect] on the action table cannot fire: every operation of the provider-target
    table has an action, so validation returns a result for every binding. *)
Theorem validate_no_panic (b : ToolBinding) (ns : bool) (fixed : option string) :
  validate_binding_with_scope b ns fixed ≠ Err TPanic.
Proof.
  unfold validate_binding_with_scope. cbv zeta. intros H.
  repeat (apply bind_Err in H as [H|(? & ? & H)];
    [first [by apply ensure_Err in H as [_ H]
           |apply ok_or_Err in H as [Hnone H]; first [done|idtac]
           |no_panic H]|]).
  - res_inv. edestruct tables_cover_same_operations as [a Ha]; [eassumption|]. congruence.
  - no_panic H.
Qed.

(** What an accepted binding guarantees: its action is the one the provider operation
    performs (so a binding cannot authorise a harmless action and dispatch a privileged operation),
    its capabilities are distinct single known capabilities that include every mandatory one of the
    action, destructive, browser and peripheral operations carry an approval policy, credential and
    package operations an administrator's, and all of these and process execution a sandbox. *)
Theorem accepted_binding_contract (b : ToolBinding) (ns : bool) (fixed : option string) :
  let s := tb_security b in
  let rt := tb_resource_type b in
  validate_binding_with_scope b ns fixed = Ok tt →
  for_provider_operation rt (tb_operation b) = Some (sec_action s) ∧
  NoDup (required_capabilities s) ∧
  (∀ c, c ∈ required_capabilities s → c ∈ known_capabilities) ∧
  (∀ c, c ∈ mandatory_capabilities (sec_action s) → c ∈ required_capabilities s) ∧
  (sec_action s ∈ [SCredentialAccess; SPackageInstall] →
   approval_policy s = ApprovalAdministrator) ∧
  (sec_action s ∈ [SDelete; SBrowserAutomation] ∨ rt = Peripheral →
   approval_policy s ≠ ApprovalNone) ∧
  (sec_action s ∈ [SExecute; SDelete; SPackageInstall; SBrowserAutomation; SCredentialAccess] ∨
   rt = Peripheral → sandbox_requirement s = Required).
Proof.
  intros s rt H. unfold validate_binding_with_scope in H. cbv zeta in H. fold s rt in H. res_inv.
  repeat match goal with x : unit |- _ => destruct x end. bool_hyps. subst.
  match goal with Hc : check_capabilities _ _ = _ |- _ =>
    apply check_capabilities_Ok in Hc as (Hk & Hnd & _) end.
  match goal with Hm : check_mandatory _ _ _ = _ |- _ =>
    apply check_mandatory_Ok in Hm; rewrite Forall_forall in Hm end.
  rewrite Forall_forall in Hk.
  split_and!; [done..| | |];
    match goal with Hf : check_floor _ _ _ = _ |- _ => revert Hf end;
    unfold check_floor, is_peripheral; repeat case_match; intros Hok; try discriminate Hok;
    repeat match goal with Hb : _ && _ = false |- _ => apply andb_false_iff in Hb end;
    rewrite ?negb_false_iff, ?orb_false_iff, ?bool_decide_eq_true, ?bool_decide_eq_false in *;
    tauto.
Qed.

(** ** The registry invariant *)

Definition registry_empty : ToolRegistry := mkRegistry ∅ ∅ ∅.

Record registry_ok (r : ToolRegistry) : Prop := {
  rok_bindings : ∀ n b, tools r !! n = Some b →
    tb_name b = n ∧ ∃ ns fixed, validate_binding_with_scope b ns fixed = Ok tt;
  rok_ids : ∀ n, is_Some (tools r !! n) ↔ is_Some (binding_ids r !! n);
  rok_templates : ∀ n cmd args, command_templates r !! n = Some (cmd, args) →
    ∃ b, tools r !! n = Some b ∧ validate_command_template_binding b cmd = Ok tt }.

Lemma registry_empty_ok : registry_ok registry_empty.
Proof. split; simpl; intros *; rewrite ?lookup_empty; naive_solver. Qed.

Lemma register_locked_ok fresh b ns fixed r :
  registry_ok r → registry_ok (register_locked fresh b ns fixed r).1.
Proof.
  intros [Hb Hi Ht]. unfold register_locked.
  destruct (validate_binding_with_scope b ns fixed) as [[]|] eqn:Hv; [|done]. cbv zeta.
  destruct (tools r !! tb_name b) eqn:Hn; [done|]. split; simpl.
  - intros n b'. rewrite lookup_insert. case_decide as Hd; [|apply Hb].
    intros [= <-]. split; [done|eauto].
  - intros n. rewrite !lookup_insert. case_decide; [|apply Hi]. split; eauto.
  - intros n cmd args Hc. destruct (Ht n cmd args Hc) as (b' & Hb' & Hok).
    exists b'. rewrite lookup_insert_ne; [done|]. congruence.
Qed.

Lemma unregister_ok n r : registry_ok r → registry_ok (unregister n r).
Proof.
  intros [Hb Hi Ht]. split; simpl.
  - intros m b'. rewrite lookup_delete. case_decide; [done|apply Hb].
  - intros m. rewrite !lookup_delete. case_decide; [|apply Hi]. split; intros []; done.
  - intros m cmd args. rewrite !lookup_delete. case_decide; [done|apply Ht].
Qed.

Lemma try_template_ok fresh n cmd args r :
  registry_ok r → registry_ok (try_register_command_template_locked fresh n cmd args r).1.
Proof.
  intros [Hb Hi Ht]. unfold try_register_command_template_locked.
  destruct (tools r !! n) as [b|] eqn:Hn; [|done].
  destruct (validate_command_template_binding b cmd) as [[]|] eqn:Hv; [|done].
  destruct (command_templates r !! n) eqn:Hc; [done|]. split; simpl; [done| |].
  - intros m. rewrite lookup_insert. case_decide as Hd; [|apply Hi].
    subst. rewrite Hn. split; eauto.
  - intros m cmd' args'. rewrite lookup_insert. case_decide as Hd; [|apply Ht].
    intros [= <- <-]. subst. eauto.
Qed.

(** Registering a process-backed tool is transactional on a well-formed registry: it
    either fails and changes nothing, or publishes both the binding and its command template; the
    roll-back branch is never needed. *)
Theorem register_command_tool_atomic (f1 f2 : uuid) (b : ToolBinding) (cmd : string)
    (args : list string) (r : ToolRegistry) :
  registry_ok r →
  match register_command_tool f1 f2 b cmd args r with
  | (r', Err _) => r' = r
  | (r', Ok _) =>
      r' = mkRegistry (<[tb_name b := b]> (tools r))
             (<[tb_name b := f2]> (<[tb_name b := f1]> (binding_ids r)))
             (<[tb_name b := (cmd, args)]> (command_templates r)) ∧
      tools r !! tb_name b = None
  end.
Proof.
  intros Hok. unfold register_command_tool, register_locked.
  destruct (validate_binding_with_scope b false (Some cmd)) as [[]|] eqn:Hv; [|done].
  destruct (validate_command_template_binding b cmd) as [[]|] eqn:Ht; [|done]. cbv zeta.
  destruct (tools r !! tb_name b) eqn:Hn; [done|].
  unfold try_register_command_template_locked. simpl. rewrite lookup_insert_eq, Ht.
  destruct (command_templates r !! tb_name b) as [[c a]|] eqn:Hc; [|done].
  destruct (rok_templates r Hok _ _ _ Hc) as (b' & Hb' & _). congruence.
Qed.

Lemma register_command_tool_ok f1 f2 b cmd args r :
  registry_ok r → registry_ok (register_command_tool f1 f2 b cmd args r).1.
Proof.
  intros Hok. unfold register_command_tool.
  destruct (validate_binding_with_scope b false (Some cmd)) as [[]|] eqn:Hv; [|done].
  destruct (validate_command_template_binding b cmd) as [[]|] eqn:Ht; [|done]. cbv zeta.
  pose proof (register_locked_ok f1 b false (Some cmd) r Hok) as H1. revert H1.
  unfold register_locked. rewrite Hv. cbv zeta.
  destruct (tools r !! tb_name b) eqn:Hn; [done|]. simpl. intros H1.
  pose proof (try_template_ok f2 (tb_name b) cmd args _ H1) as H2. revert H2.
  unfold try_register_command_template_locked. simpl. rewrite lookup_insert_eq, Ht.
  destruct (command_templates r !! tb_name b) as [[c a]|] eqn:Hc; [|done].
  destruct (rok_templates r Hok _ _ _ Hc) as (b' & Hb' & _). congruence.
Qed.

Inductive RegistryOp :=
| RRegister (fresh : uuid) (b : ToolBinding)
| RRegisterScoped (fresh : uuid) (b : ToolBinding)
| RUnregister (name : string)
| RCommandTemplate (fresh : uuid) (name cmd : string) (args : list string)
| RCommandTool (f1 f2 : uuid) (b : ToolBinding) (cmd : string) (args : list string).

Definition exec_registry (r : ToolRegistry) (op : RegistryOp) : ToolRegistry :=
  match op with
  | RRegister f b => (register f b r).1
  | RRegisterScoped f b => (register_namespace_scoped f b r).1
  | RUnregister n => unregister n r
  | RCommandTemplate f n c a => register_command_template f n c a r
  | RCommandTool f1 f2 b c a => (register_command_tool f1 f2 b c a r).1
  end.

(** Whatever sequence of registrations, template attachments and removals a registry
    went through: every published binding was accepted by validation and is filed under its own
    name, exactly the published names have a binding id, and every command template belongs to a
    published binding that is a sandboxed [Execute] launch of exactly that command. *)
Theorem registry_invariant (ops : list RegistryOp) :
  registry_ok (foldl exec_registry registry_empty ops).
Proof.
  induction ops as [|op ops IH] using rev_ind; [apply registry_empty_ok|].
  rewrite foldl_app. simpl. destruct op; simpl.
  - by apply register_locked_ok.
  - by apply register_locked_ok.
  - by apply unregister_ok.
  - by apply try_template_ok.
  - by apply register_command_tool_ok.
Qed.

(** A process-backed tool that satisfies every rule of validation. *)
Definition example_binding : ToolBinding :=
  mkBinding "build" "runs the build"
    (JObject [("type", JString "object");
              ("properties", JObject [("command", JObject [("type", JString "string")])]);
              ("required", JArray [JString "command"])])
    Application "launch"
    (mkSecurity SExecute [CAP_EXEC] (ExtractArgument "command") VGlobal ApprovalNone Required).

Lemma accepted_binding_contract_witness :
  for_provider_operation Application "launch" = Some SExecute ∧
  (SExecute ∈ [SExecute; SDelete; SPackageInstall; SBrowserAutomation; SCredentialAccess] ∨
   Application = Peripheral → sandbox_requirement (tb_security example_binding) = Required).
Proof.
  destruct (accepted_binding_contract example_binding false None) as (H1 & _ & _ & _ & _ & _ & H2);
    [vm_compute; reflexivity|]. split; [exact H1|exact H2].
Defined.

(** The same tool bound to one command. *)
Definition example_command_binding : ToolBinding :=
  mkBinding "build" "runs the build" (tb_parameters_schema example_binding) Application "launch"
    (mkSecurity SExecute [CAP_EXEC] (ExtractConstant "make") VGlobal ApprovalNone Required).

Lemma register_command_tool_atomic_witness :
  let r' := (register_command_tool 1 2 example_command_binding "make" ["all"] registry_empty).1 in
  r' = mkRegistry (<["build" := example_command_binding]> ∅) (<["build" := 2]> (<["build" := 1]> ∅))
         (<["build" := ("make", ["all"])]> ∅).
Proof.
  cbv zeta.
  pose proof (register_command_tool_atomic 1 2 example_command_binding "make" ["all"] registry_empty
                registry_empty_ok) as H.
  destruct (register_command_tool 1 2 example_command_binding "make" ["all"] registry_empty)
    as [r' [u|e]] eqn:Hr; [exact (proj1 H)|].
  exfalso. revert Hr. vm_compute. discriminate.
Defined.
