(* ===== verification/Policy.v ===== *)
(** * Policy documents: validation, linting, lowering and explanation

    Models [crates/kernel/src/policy.rs], the authoring layer above the MAC engine.  The TOML parser
    is a parameter of [from_toml]; error and lint messages are built as the source formats them. *)

From S2P Require Import Prelude AgentStruct Mac Tools.
From stdpp Require Import pretty.
From Stdlib Require Import Ascii.
#[local] Open Scope Z_scope.

Inductive Decision := DAllow | DDeny | DAudit.

#[global] Instance decision_eq_dec : EqDecision Decision.
Proof. solve_decision. Defined.

Definition as_engine_str (d : Decision) : string :=
  match d with DAllow => "allow" | DDeny => "deny" | DAudit => "audit" end.

Definition to_mac (d : Decision) : MacDecision :=
  match d with DAllow => MacAllow | DDeny => MacDeny | DAudit => MacAudit end.

(** The [Debug] rendering of a decision. *)
Definition decision_debug (d : Decision) : string :=
  match d with DAllow => "Allow" | DDeny => "Deny" | DAudit => "Audit" end.

Record Rule := mkDocRule {
  r_name : option string;
  r_description : option string;
  r_subject : string;
  r_action : string;
  r_object : string;
  r_decision : Decision }.

Record PolicyDocument := mkDocument {
  doc_version : Z;
  doc_description : option string;
  doc_enforcing : bool;
  doc_default : Decision;
  doc_rules : list Rule }.

Definition default_version : Z := 1.
Definition default_enforcing : bool := true.
Definition default_default : Decision := DDeny.

Definition SUPPORTED_POLICY_PROFILES : list string :=
  ["profile:read-only"; "profile:standard"; "profile:elevated"; "profile:full-access"].

(** [join(sep)]. *)
Fixpoint join (sep : string) (l : list string) : string :=
  match l with
  | [] => EmptyString
  | [x] => x
  | x :: l' => x +:+ sep +:+ join sep l'
  end.

Definition canonical_action_labels : list string := action_as_str <$> ALL_ACTIONS.

Definition name_suffix (name : option string) : string :=
  match name with Some n => " (" +:+ n +:+ ")" | None => EmptyString end.

Definition validate_action_label (index : nat) (name : option string) (act : string)
    : result string unit :=
  if bool_decide (act = "*") || existsb (λ a, bool_decide (action_as_str a = act)) ALL_ACTIONS
  then Ok tt
  else Err ("rule #" +:+ pretty index +:+ name_suffix name +:+ " uses unknown action label '" +:+ act
            +:+ "'; expected one of: " +:+ join ", " canonical_action_labels
            +:+ " (labels come from ToolSecurity, for example `exec`, not `execute`)").

(** [validate_engine_rules]: the inline, stringly-typed rules. *)
Fixpoint validate_engine_rules_from (index : nat) (rs : list PolicyRule) : result string unit :=
  match rs with
  | [] => Ok tt
  | rule :: rs' =>
      if is_blank (subject rule) || is_blank (action rule) || is_blank (object rule)
      then Err ("inline MAC rule #" +:+ pretty index
                +:+ " has an empty subject/action/object field")
      else
        _ ← validate_action_label index None (action rule);
        if one_of (decision rule) ["allow"; "deny"; "audit"]
        then validate_engine_rules_from (S index) rs'
        else Err ("inline MAC rule #" +:+ pretty index +:+ " uses unknown decision '"
                  +:+ decision rule +:+ "'; expected allow, deny, or audit")
  end.

Definition validate_engine_rules (rs : list PolicyRule) : result string unit :=
  validate_engine_rules_from O rs.

Fixpoint validate_rules_from (i : nat) (rs : list Rule) : result string unit :=
  match rs with
  | [] => Ok tt
  | r :: rs' =>
      if is_blank (r_subject r) || is_blank (r_action r) || is_blank (r_object r)
      then Err ("rule #" +:+ pretty i +:+ name_suffix (r_name r)
                +:+ " has an empty subject/action/object field")
      else
        _ ← validate_action_label i (r_name r) (r_action r);
        validate_rules_from (S i) rs'
  end.

Definition validate (doc : PolicyDocument) : result string unit :=
  if doc_version doc =? 1 then validate_rules_from O (doc_rules doc)
  else Err ("unsupported policy version " +:+ pretty (doc_version doc)
            +:+ " (this build understands version 1)").

Definition quoted (s : string) : string :=
  let q := String (ascii_of_nat 34) EmptyString in q +:+ s +:+ q.

(** [from_toml]: [has_default src] is [raw.get("default").is_some()] on the parsed value and
    [parse] the typed deserialisation; both are [toml]'s. *)
Definition from_toml (has_default : string → result string bool)
    (parse : string → result string PolicyDocument) (src : string) : result string PolicyDocument :=
  d ← has_default src;
  _ ← ensure d
        ("policy must declare an explicit terminal `default = " +:+ quoted "deny" +:+ "|"
         +:+ quoted "allow" +:+ "|" +:+ quoted "audit" +:+ "`");
  doc ← parse src;
  _ ← validate doc;
  Ok doc.

(** ** Lowering and explanation *)

Definition lower_rule (r : Rule) : PolicyRule :=
  mkRule (r_subject r) (r_action r) (r_object r) (as_engine_str (r_decision r)).

Definition compile (doc : PolicyDocument) : list PolicyRule :=
  (lower_rule <$> doc_rules doc) ++
  (if bool_decide (doc_default doc = DDeny) then []
   else [mkRule "*" "*" "*" (as_engine_str (doc_default doc))]).

Definition to_engine (doc : PolicyDocument) : MacEngine :=
  load_policy (compile doc) (mac_new (doc_enforcing doc)).

Record Explanation := mkExplanation {
  ex_decision : MacDecision;
  matched_rule : option nat;
  matched_name : option string;
  used_default : bool }.

Definition explain (doc : PolicyDocument) (subj act obj : string) : Explanation :=
  let '(d, matched) := evaluate (to_engine doc) subj act obj obj in
  mkExplanation d matched
    (i ← matched; r ← doc_rules doc !! i; r_name r)
    (negb (bool_decide (is_Some matched))).

(** ** Linting *)

Record Lint := mkLint { rule_index : option nat; message : string }.

Definition selector_covers (earlier later : string) : bool :=
  bool_decide (earlier = "*") || bool_decide (earlier = later).

Definition object_selector_covers (earlier later : string) : bool :=
  if bool_decide (earlier = "*") || bool_decide (earlier = "**") || bool_decide (earlier = later)
  then true
  else if string_contains "*"%char later || string_contains "?"%char later then false
  else
    let engine := load_policy [mkRule "*" "*" earlier "allow"] (mac_new true) in
    bool_decide (is_Some (evaluate engine "*" "*" later later).2).

Definition rule_selector_covers (earlier later : Rule) : bool :=
  selector_covers (r_subject earlier) (r_subject later)
  && selector_covers (r_action earlier) (r_action later)
  && object_selector_covers (r_object earlier) (r_object later).

(** The lints of rule [i], [before] being [rules[..i]]. *)
Definition lint_rule (before : list Rule) (i : nat) (r : Rule) : list Lint :=
  (match position (λ earlier, rule_selector_covers earlier r) before with
   | Some shadowing =>
       [mkLint (Some i)
          ("rule #" +:+ pretty i +:+ " is unreachable: earlier rule #" +:+ pretty shadowing
           +:+ " matches every subject/action/object it can match")]
   | None => []
   end) ++
  (if negb (bool_decide (r_decision r = DDeny)) && bool_decide (r_action r = "*")
   then [mkLint (Some i)
           ("overbroad wildcard allows or audits every action for the matched "
            +:+ "subject and resource")]
   else []).

Fixpoint lint_rules_from (before : list Rule) (i : nat) (rs : list Rule) : list Lint :=
  match rs with
  | [] => []
  | r :: rs' => lint_rule before i r ++ lint_rules_from (before ++ [r]) (S i) rs'
  end.

Definition lint (doc : PolicyDocument) : list Lint :=
  (if doc_enforcing doc then []
   else [mkLint None ("SECURITY: policy is permissive; deny/audit decisions are logged but "
                      +:+ "not enforced")]) ++
  (if bool_decide (doc_default doc = DDeny) then []
   else [mkLint None ("SECURITY: terminal default is " +:+ decision_debug (doc_default doc)
                      +:+ "; every otherwise-unmatched action is permitted")]) ++
  (if doc_enforcing doc && bool_decide (length (doc_rules doc) = O)
      && bool_decide (doc_default doc = DDeny)
   then [mkLint None ("enforcing policy has no rules and default = deny: every confined "
                      +:+ "action will be denied")]
   else []) ++
  lint_rules_from [] O (doc_rules doc).

(** ** Coverage of a live registry *)

Definition canonical_resource_label (rt : ResourceType) : string :=
  match rt with
  | Filesystem => "filesystem" | Network => "network" | Application => "application"
  | Browser => "browser" | Peripheral => "peripheral" | Ipc => "ipc" | Memory => "memory"
  end.

Definition representative_resource (b : ToolBinding) : string :=
  match resource_extractor (tb_security b) with
  | ExtractConstant resource => resource
  | ExtractArgument _ =>
      match tb_resource_type b with
      | Filesystem => "/__agentos_policy_probe__"
      | Network | Browser => "https://policy-probe.invalid/"
      | Application => "__agentos_policy_probe_command__"
      | Peripheral => "__agentos_policy_probe_device__"
      | Ipc => "__agentos_policy_probe_agent__"
      | Memory => "__agentos_policy_probe_key__"
      end
  end.

(** The profiles for which no authored rule handles the binding's action on its resource class;
    a match of the synthetic terminal rule does not count. *)
Definition uncovered_profiles (doc : PolicyDocument) (b : ToolBinding) : list string :=
  let engine := to_engine doc in
  let act := action_as_str (sec_action (tb_security b)) in
  retain (λ profile,
    forallb (λ object_label,
      match (evaluate engine profile act object_label (representative_resource b)).2 with
      | Some index => negb (bool_decide (index < length (doc_rules doc))%nat)
      | None => true
      end)
      ["unconfined"; canonical_resource_label (tb_resource_type b)])
    SUPPORTED_POLICY_PROFILES.

(** The [BTreeMap] of the catalogue: bindings in byte order of their names. *)
Definition sorted_catalog (r : ToolRegistry) : list (string * ToolBinding) :=
  merge_sort (λ a b : string * ToolBinding, String.le a.1 b.1) (map_to_list (tools r)).

Definition lint_with_tool_registry (doc : PolicyDocument) (r : ToolRegistry) : list Lint :=
  lint doc ++
  foldr (λ '(tool, b) acc,
    (match uncovered_profiles doc b with
     | [] => []
     | ps =>
         [mkLint None
            ("tool '" +:+ tool +:+ "' action '" +:+ action_as_str (sec_action (tb_security b))
             +:+ "' resource class '" +:+ canonical_resource_label (tb_resource_type b)
             +:+ "' is uncovered for supported profiles [" +:+ join ", " ps
             +:+ "] and falls directly to default " +:+ decision_debug (doc_default doc))]
     end) ++ acc) [] (sorted_catalog r).

(** ** What a document means

    The abstract reading of a document: in enforcing mode the first authored rule that matches
    decides, else the declared default; in permissive mode everything is allowed. *)

Definition doc_rule_matches (r : Rule) (s a o res : string) : bool :=
  matches (r_subject r) s && matches (r_action r) a && object_matches (r_object r) o res.

Definition doc_decide (doc : PolicyDocument) (s a o res : string) : MacDecision :=
  if doc_enforcing doc then
    match find_first (λ r, doc_rule_matches r s a o res) (doc_rules doc) with
    | Some r => to_mac (r_decision r)
    | None => to_mac (doc_default doc)
    end
  else MacAllow.

(** The index of the engine rule that decides: an authored rule's, the synthetic terminal rule's,
    or none. *)
Definition doc_index (doc : PolicyDocument) (s a o res : string) : option nat :=
  match position (λ r, doc_rule_matches r s a o res) (doc_rules doc) with
  | Some i => Some i
  | None => if bool_decide (doc_default doc = DDeny) then None else Some (length (doc_rules doc))
  end.

Lemma parse_as_engine_str d : parse_decision (as_engine_str d) = to_mac d.
Proof. by destruct d. Qed.

Lemma evaluate_from_app idx rs1 rs2 enf s a o res :
  evaluate_from idx (rs1 ++ rs2) enf s a o res =
  match evaluate_from idx rs1 enf s a o res with
  | Some x => Some x
  | None => evaluate_from (idx + length rs1) rs2 enf s a o res
  end.
Proof.
  revert idx. induction rs1 as [|r rs1 IH]; intros idx; simpl.
  - by rewrite Nat.add_0_r.
  - destruct (rule_matches r s a o res); [done|]. rewrite IH. by rewrite Nat.add_succ_r.
Qed.

Lemma evaluate_from_lowered idx rs enf s a o res :
  evaluate_from idx (lower_rule <$> rs) enf s a o res =
  match find_first (λ r, doc_rule_matches r s a o res) rs,
        position (λ r, doc_rule_matches r s a o res) rs with
  | Some r, Some i => Some (if enf then to_mac (r_decision r) else MacAllow, idx + i)%nat
  | _, _ => None
  end.
Proof.
  revert idx. induction rs as [|r rs IH]; intros idx; [done|].
  cbn [fmap list_fmap evaluate_from find_first position].
  change (rule_matches (lower_rule r) s a o res) with (doc_rule_matches r s a o res).
  destruct (doc_rule_matches r s a o res).
  { rewrite Nat.add_0_r. cbn [lower_rule decision]. by rewrite parse_as_engine_str. }
  fold (lower_rule <$> rs). rewrite IH. destruct (find_first _ rs); [|done].
  destruct (position _ rs); [|done]. simpl. by rewrite Nat.add_succ_r.
Qed.

Lemma find_position {A} (f : A → bool) l :
  is_Some (find_first f l) ↔ is_Some (position f l).
Proof.
  rewrite <- !not_eq_None_Some, find_first_None, position_None. done.
Qed.

Lemma matches_star s : matches "*" s = true.
Proof. done. Qed.

Lemma terminal_rule_matches d s a o res : rule_matches (mkRule "*" "*" "*" d) s a o res = true.
Proof. done. Qed.

Lemma evaluate_to_engine (doc : PolicyDocument) (s a o res : string) :
  evaluate (to_engine doc) s a o res = (doc_decide doc s a o res, doc_index doc s a o res).
Proof.
  unfold evaluate, to_engine, compile, doc_decide, doc_index. cbn [load_policy mac_new rules enforcing default].
  rewrite evaluate_from_app, evaluate_from_lowered.
  pose proof (find_position (λ r, doc_rule_matches r s a o res) (doc_rules doc)) as Hfp.
  destruct (find_first _ (doc_rules doc)) as [r|], (position _ (doc_rules doc)) as [i|].
  - done.
  - destruct (proj1 Hfp) as [? ?]; [eauto|done].
  - destruct (proj2 Hfp) as [? ?]; [eauto|done].
  - rewrite length_fmap. case_bool_decide as Hd; cbn [evaluate_from].
    + rewrite Hd. by destruct (doc_enforcing doc).
    + rewrite terminal_rule_matches. simpl. by destruct (doc_enforcing doc); rewrite ?parse_as_engine_str.
Qed.

(** C39. Lowering is faithful: the compiled engine decides every query as the document means
    it, and the engine index it reports is the deciding authored rule's, the synthetic terminal
    rule's, or none. *)
Theorem compile_refines_document (doc : PolicyDocument) (s a o res : string) :
  evaluate (to_engine doc) s a o res = (doc_decide doc s a o res, doc_index doc s a o res).
Proof. apply evaluate_to_engine. Qed.

(** [explain] reports the decision the document takes and, when an authored rule decided,
    that rule's index and name; [used_default] is set exactly when no authored rule matched and the
    declared default is [deny].  (For a default of [allow] or [audit] the synthetic terminal rule
    matches, so [used_default] is false although the default decided.) *)
Theorem explain_correct (doc : PolicyDocument) (s a o : string) :
  let x := explain doc s a o in
  ex_decision x = doc_decide doc s a o o ∧
  (∀ i r, position (λ r, doc_rule_matches r s a o o) (doc_rules doc) = Some i →
     doc_rules doc !! i = Some r → matched_rule x = Some i ∧ matched_name x = r_name r) ∧
  (used_default x = true ↔
     Forall (λ r, doc_rule_matches r s a o o = false) (doc_rules doc) ∧ doc_default doc = DDeny) ∧
  (Forall (λ r, doc_rule_matches r s a o o = false) (doc_rules doc) → doc_default doc ≠ DDeny →
   used_default x = false ∧ matched_rule x = Some (length (doc_rules doc))).
Proof.
  cbv zeta. unfold explain. rewrite evaluate_to_engine. cbn [ex_decision matched_rule
    matched_name used_default]. unfold doc_index.
  rewrite <- position_None. split_and!; [done| | |].
  - intros i r Hi Hr. rewrite Hi. simpl. by rewrite Hr.
  - destruct (position _ _) as [i|]; simpl.
    { split; [done|]. by intros [? _]. }
    destruct (decide (doc_default doc = DDeny)) as [Hd|Hd].
    + by rewrite (bool_decide_eq_true_2 (doc_default doc = DDeny)) by done.
    + rewrite (bool_decide_eq_false_2 (doc_default doc = DDeny)) by done. simpl. naive_solver.
  - intros -> Hd. rewrite (bool_decide_eq_false_2 (doc_default doc = DDeny)) by done.
    split; reflexivity.
Qed.

(** ** Validation *)

Lemma validate_action_label_ok i n i' n' act :
  validate_action_label i n act = Ok tt → validate_action_label i' n' act = Ok tt.
Proof. unfold validate_action_label. by destruct (_ || _). Qed.

Lemma validate_rules_lowered i rs :
  validate_rules_from i rs = Ok tt →
  validate_engine_rules_from i (lower_rule <$> rs) = Ok tt.
Proof.
  revert i. induction rs as [|r rs IH]; intros i; [done|].
  cbn [fmap list_fmap validate_rules_from validate_engine_rules_from].
  cbn [lower_rule subject action object decision].
  destruct (is_blank (r_subject r) || _ || _); [done|].
  intros H. res_inv. destruct x.
  rewrite (validate_action_label_ok _ _ i None _ H). cbn [mbind result_bind].
  assert (one_of (as_engine_str (r_decision r)) ["allow"; "deny"; "audit"] = true) as ->
    by (by destruct (r_decision r)).
  by apply IH.
Qed.

Lemma validate_engine_rules_app i rs1 rs2 :
  validate_engine_rules_from i rs1 = Ok tt →
  validate_engine_rules_from (i + length rs1) rs2 = Ok tt →
  validate_engine_rules_from i (rs1 ++ rs2) = Ok tt.
Proof.
  revert i. induction rs1 as [|r rs1 IH]; intros i.
  { cbn [app length]. by rewrite Nat.add_0_r. }
  cbn [app length validate_engine_rules_from].
  destruct (_ || _); [done|]. intros H H2. res_inv. rewrite H. cbn [mbind result_bind].
  destruct (one_of _ _); [|done]. apply IH; [done|]. by rewrite Nat.add_succ_r in H2.
Qed.

(** C40. A valid document compiles to rules the inline validator accepts: known action
    labels, non-blank selectors, and only the three decision words, so no compiled rule falls into
    the engine's silent deny for an unknown decision. *)
Theorem valid_document_compiles_valid (doc : PolicyDocument) :
  validate doc = Ok tt → validate_engine_rules (compile doc) = Ok tt.
Proof.
  unfold validate, validate_engine_rules, compile. destruct (doc_version doc =? 1); [|done].
  intros H%validate_rules_lowered. apply validate_engine_rules_app; [done|].
  case_bool_decide; [done|]. simpl. unfold validate_action_label. simpl.
  by destruct (doc_default doc).
Qed.

(** ** Reachability lints *)

Lemma contains_literal s :
  string_contains "*"%char s = false → string_contains "?"%char s = false → is_literal s = true.
Proof.
  unfold is_literal. induction s as [|c s IH]; cbn [string_contains tokenize]; [done|].
  intros [Hc1 H1]%orb_false_iff [Hc2 H2]%orb_false_iff. rewrite Hc1, Hc2. cbn. by apply IH.
Qed.

Lemma matches_covers e l v :
  selector_covers e l = true → matches l v = true → matches e v = true.
Proof.
  unfold selector_covers, matches. rewrite !orb_true_iff, !bool_decide_eq_true. naive_solver.
Qed.

Lemma object_covers_matcher e l :
  e ≠ "*" → e ≠ "**" → e ≠ l → object_selector_covers e l = true →
  is_literal l = true ∧ glob_match e l = true.
Proof.
  intros H1 H2 H3. unfold object_selector_covers.
  rewrite !bool_decide_eq_false_2 by done. cbn [orb].
  destruct (string_contains "*"%char l) eqn:Hs; [done|].
  destruct (string_contains "?"%char l) eqn:Hq; [done|]. cbn [orb].
  intros H%bool_decide_eq_true. split; [by apply contains_literal|].
  revert H. unfold evaluate. cbn [load_policy mac_new rules enforcing default evaluate_from].
  unfold rule_matches. cbn [subject action object].
  rewrite !matches_star. cbn [andb]. unfold object_matches, matches.
  rewrite !bool_decide_eq_false_2 by done. cbn [orb].
  destruct (glob_match e l); [done|]. by intros [? ?].
Qed.

Lemma literal_star_label l v : is_literal l = true → matches l v = true → l = v.
Proof.
  unfold matches. rewrite orb_true_iff, !bool_decide_eq_true. intros Hl [->|]; [done|done].
Qed.

(** What the unreachability lint proves: when it reports rule [later] shadowed by
    [earlier], then [earlier] matches every query [later] matches whose object label is not
    [later]'s own object selector; and every query at all if [earlier]'s object is [*], [**] or the
    same selector. *)
Theorem lint_covers_sound (earlier later : Rule) (s a o res : string) :
  rule_selector_covers earlier later = true →
  r_object earlier ∈ ["*"; "**"; r_object later] ∨ o ≠ r_object later →
  doc_rule_matches later s a o res = true → doc_rule_matches earlier s a o res = true.
Proof.
  unfold rule_selector_covers, doc_rule_matches. rewrite !andb_true_iff.
  intros [[Hs Ha] Ho] Hside [[Ms Ma] Mo]. split; [split; by eapply matches_covers|].
  destruct (decide (r_object earlier = "*")) as [->|H1]; [done|].
  destruct (decide (r_object earlier = "**")) as [->|H2].
  { unfold object_matches. by rewrite glob_double_star, orb_true_r. }
  destruct (decide (r_object earlier = r_object later)) as [->|H3]; [done|].
  destruct Hside as [Hin|Hlabel]; [set_solver|].
  destruct (object_covers_matcher _ _ H1 H2 H3 Ho) as [Hl Hg].
  unfold object_matches in *. apply orb_true_iff in Mo as [Mo|Mo].
  - apply literal_star_label in Mo; [|done]. by subst.
  - rewrite (glob_literal _ _ Hl) in Mo. subst res. rewrite Hg. apply orb_true_r.
Qed.

(** A document in which the lint is wrong: rule 1 names the object label [filesystem], rule 0 the
    path glob [file*].  The lint reports rule 1 unreachable because the glob matches the literal
    [filesystem]; but the glob is matched against resource paths, not labels, and rule 1 decides
    every read of a path labelled [filesystem]. *)
Definition shadow_example : PolicyDocument :=
  mkDocument 1 None true DDeny
    [mkDocRule None None "*" "read" "file*" DAllow;
     mkDocRule None None "*" "read" "filesystem" DAudit].

Theorem lint_reports_reachable_rule :
  mkLint (Some 1%nat)
    "rule #1 is unreachable: earlier rule #0 matches every subject/action/object it can match"
    ∈ lint shadow_example ∧
  evaluate (to_engine shadow_example) "profile:standard" "read" "filesystem" "/etc/hosts"
    = (MacAudit, Some 1%nat).
Proof. split; [|vm_compute; reflexivity]. vm_compute. left. Qed.

Lemma valid_document_compiles_valid_witness : validate_engine_rules (compile shadow_example) = Ok tt.
Proof. apply (valid_document_compiles_valid shadow_example). vm_compute. reflexivity. Defined.

Lemma lint_covers_sound_witness :
  doc_rule_matches (mkDocRule None None "*" "read" "**" DAllow) "profile:standard" "read" "/etc/hosts" "/etc/hosts"
    = true.
Proof.
  apply (lint_covers_sound (mkDocRule None None "*" "read" "**" DAllow)
           (mkDocRule None None "profile:standard" "read" "/etc/*" DDeny));
    [vm_compute; reflexivity|left; cbn; set_solver|vm_compute; reflexivity].
Defined.
