(* ===== verification/Permissions.v ===== *)
(** * Permission profiles and the audit log

    Models [crates/kernel/src/permissions.rs]: the predefined profiles, the prefix/suffix glob on
    targets, rule lookup, [check_access], profile assignment and the append-only audit log.  The
    clock read by [log_action] is an argument of its model; timestamps are integers.  Agent ids are
    UUIDs, modelled as in [Tools]. *)

From S2P Require Import Prelude Tools.
From Stdlib Require Import Ascii Btauto.
#[local] Open Scope Z_scope.

(** ** Data *)

Inductive AccessDecision := Allowed | Denied | RequiresApproval.
Inductive ActionOutcome := OSuccess | OFailure | OPending | OTimeout.

#[global] Instance access_decision_eq_dec : EqDecision AccessDecision.
Proof. solve_decision. Defined.
#[global] Instance action_outcome_eq_dec : EqDecision ActionOutcome.
Proof. solve_decision. Defined.

Record PermissionRule := mkPermRule {
  pr_resource_type : ResourceType;
  pr_operations : list string;
  pr_targets : option (list string);
  pr_decision : AccessDecision }.

Record PermissionProfile := mkProfile {
  prof_id : string;
  prof_name : string;
  prof_rules : list PermissionRule }.

Record AuditEntry := mkAudit {
  au_timestamp : Z;
  au_agent_id : uuid;
  au_action : string;
  au_resource : string;
  au_decision : AccessDecision;
  au_outcome : ActionOutcome }.

Record AuditFilter := mkFilter {
  f_agent_id : option uuid;
  f_resource : option string;
  f_decision : option AccessDecision;
  f_from : option Z;
  f_to : option Z }.

Record PermissionManager := mkPermissions {
  profiles : gmap string PermissionProfile;
  agent_profiles : gmap uuid string;
  audit_log : list AuditEntry }.

Definition HIGH_RISK_OPS : list string :=
  ["delete"; "execute"; "install"; "uninstall"; "format"; "sudo"].

(** ** The predefined profiles *)

Definition allow_rule (rt : ResourceType) (ops : list string) : PermissionRule :=
  mkPermRule rt ops None Allowed.

Definition ipc_operations : list string :=
  ["send"; "receive"; "stat"; "delegate"; "delegation_status"; "complete_delegation"; "discover"].

Definition read_only_profile : PermissionProfile :=
  mkProfile "read-only" "Read Only"
    [allow_rule Filesystem ["read"; "list"]; allow_rule Network ["get"]].

Definition standard_profile : PermissionProfile :=
  mkProfile "standard" "Standard"
    [allow_rule Filesystem ["read"; "write"; "create"; "create_dir"; "edit"; "list"];
     allow_rule Network ["get"; "post"];
     allow_rule Application ["launch"];
     allow_rule Ipc ipc_operations].

Definition elevated_profile : PermissionProfile :=
  mkProfile "elevated" "Elevated"
    [allow_rule Filesystem ["read"; "write"; "create"; "create_dir"; "edit"; "list"; "delete"];
     allow_rule Network ["get"; "post"; "put"; "delete"];
     allow_rule Application ["launch"];
     allow_rule Browser ["navigate"; "click"; "type"; "read"];
     allow_rule Ipc ipc_operations].

Definition full_access_profile : PermissionProfile := mkProfile "full-access" "Full Access" [].

Definition memory_operations : list (string * list string) :=
  [("read-only", ["query"; "stat"; "kv_get"; "kv_list"; "kv_dir_stat"; "kv_stat"]);
   ("standard", ["store"; "query"; "stat"; "kv_get"; "kv_put"; "kv_list"; "kv_dir_stat"; "kv_stat"]);
   ("elevated", ["store"; "query"; "stat"; "kv_get"; "kv_put"; "kv_list"; "kv_dir_stat"; "kv_stat"])].

(** [get_mut(profile).expect(..).rules.push(rule)]; the [expect] cannot fire for the three names of
    the loop, which were inserted just before. *)
Definition push_rule (ps : gmap string PermissionProfile) (name : string) (r : PermissionRule) :
    gmap string PermissionProfile :=
  alter (λ p, mkProfile (prof_id p) (prof_name p) (prof_rules p ++ [r])) name ps.

Definition register_predefined_profiles (ps : gmap string PermissionProfile) :
    gmap string PermissionProfile :=
  let ps := <["read-only" := read_only_profile]> ps in
  let ps := <["standard" := standard_profile]> ps in
  let ps := <["elevated" := elevated_profile]> ps in
  let ps := foldl (λ ps po, push_rule ps po.1 (allow_rule Memory po.2)) ps memory_operations in
  <["full-access" := full_access_profile]> ps.

Definition permissions_new : PermissionManager :=
  mkPermissions (register_predefined_profiles ∅) ∅ [].

(** ** Operations *)

Definition purge_agent (id : uuid) (m : PermissionManager) : PermissionManager :=
  mkPermissions (profiles m) (delete id (agent_profiles m)) (audit_log m).

Definition profile_for_agent (m : PermissionManager) (id : uuid) : option string :=
  agent_profiles m !! id.

Definition with_clone_profile {T} (m : PermissionManager) (id : uuid) (expected : string)
    (commit : T) : result string T :=
  profile ← ok_or "clone parent profile was revoked" (agent_profiles m !! id);
  if bool_decide (profile = expected) then Ok commit
  else Err "clone parent profile changed during creation".

(** [str::strip_suffix('*')]. *)
Fixpoint strip_suffix_star (s : string) : option string :=
  match s with
  | EmptyString => None
  | String c EmptyString => if Ascii.eqb c "*"%char then Some EmptyString else None
  | String c s' => String c <$> strip_suffix_star s'
  end.

(** [str::strip_prefix('*')]. *)
Definition strip_prefix_star (s : string) : option string :=
  match s with
  | String c s' => if Ascii.eqb c "*"%char then Some s' else None
  | EmptyString => None
  end.

Definition matches_glob (pattern target : string) : bool :=
  if bool_decide (pattern = "*") then true
  else
    match strip_suffix_star pattern with
    | Some prefix => starts_with prefix target
    | None =>
        match strip_prefix_star pattern with
        | Some suffix => ends_with suffix target
        | None => bool_decide (pattern = target)
        end
    end.

Definition equivalent_operation (rt : ResourceType) (op : string) : string :=
  match rt with
  | Filesystem =>
      if one_of op ["stat"; "read_bytes"] then "read"
      else if one_of op ["write_bytes"] then "write"
      else op
  | _ => op
  end.

Definition rule_applies (r : PermissionRule) (rt : ResourceType) (op : string)
    (target : option string) : bool :=
  bool_decide (pr_resource_type r = rt)
  && existsb (λ o, String.eqb o op || String.eqb o (equivalent_operation rt op) || String.eqb o "*")
       (pr_operations r)
  && match pr_targets r, target with
     | Some _, None => false
     | Some patterns, Some t => existsb (λ p, matches_glob p t) patterns
     | None, _ => true
     end.

Fixpoint find_matching_rule (rules : list PermissionRule) (rt : ResourceType) (op : string)
    (target : option string) : option AccessDecision :=
  match rules with
  | [] => None
  | r :: rules' =>
      if rule_applies r rt op target then Some (pr_decision r)
      else find_matching_rule rules' rt op target
  end.

Definition check_access (m : PermissionManager) (id : uuid) (rt : ResourceType) (op : string)
    (target : option string) : AccessDecision :=
  match agent_profiles m !! id with
  | None => Denied
  | Some profile_id =>
      if bool_decide (profile_id = "full-access") then Allowed
      else if one_of op HIGH_RISK_OPS then RequiresApproval
      else
        match profiles m !! profile_id with
        | None => Denied
        | Some profile =>
            match find_matching_rule (prof_rules profile) rt op target with
            | Some d => d
            | None => Denied
            end
        end
  end.

Definition request_elevation (m : PermissionManager) (id : uuid) (act : string) : AccessDecision :=
  RequiresApproval.

Definition assign_profile (id : uuid) (profile_id : string) (m : PermissionManager) :
    PermissionManager :=
  mkPermissions (profiles m) (<[id := profile_id]> (agent_profiles m)) (audit_log m).

Definition filter_accepts (f : AuditFilter) (e : AuditEntry) : bool :=
  match f_agent_id f with Some a => bool_decide (au_agent_id e = a) | None => true end
  && match f_resource f with Some r => bool_decide (au_resource e = r) | None => true end
  && match f_decision f with Some d => bool_decide (au_decision e = d) | None => true end
  && match f_from f with Some t => negb (au_timestamp e <? t) | None => true end
  && match f_to f with Some t => negb (t <? au_timestamp e) | None => true end.

Definition get_audit_log (f : option AuditFilter) (m : PermissionManager) : list AuditEntry :=
  match f with
  | None => audit_log m
  | Some f => retain (filter_accepts f) (audit_log m)
  end.

Definition log_action (now : Z) (id : uuid) (act resource : string) (d : AccessDecision)
    (o : ActionOutcome) (m : PermissionManager) : PermissionManager :=
  mkPermissions (profiles m) (agent_profiles m)
    (audit_log m ++ [mkAudit now id act resource d o]).

Inductive PermOp :=
| PAssign (id : uuid) (profile_id : string)
| PPurge (id : uuid)
| PLog (e : AuditEntry).

Definition exec_perm (m : PermissionManager) (o : PermOp) : PermissionManager :=
  match o with
  | PAssign id p => assign_profile id p m
  | PPurge id => purge_agent id m
  | PLog e => log_action (au_timestamp e) (au_agent_id e) (au_action e) (au_resource e)
                (au_decision e) (au_outcome e) m
  end.

(** ** What the profiles grant *)

(** The operations each predefined profile grants without approval, spelled out with the
    filesystem aliases. *)
Definition granted (profile : string) (rt : ResourceType) : list string :=
  let memory_read := ["query"; "stat"; "kv_get"; "kv_list"; "kv_dir_stat"; "kv_stat"] in
  let file_read := ["read"; "read_bytes"; "stat"; "list"] in
  let file_write := ["write"; "write_bytes"; "create"; "create_dir"; "edit"] in
  if String.eqb profile "read-only" then
    match rt with
    | Filesystem => file_read
    | Network => ["get"]
    | Memory => memory_read
    | _ => []
    end
  else if String.eqb profile "standard" || String.eqb profile "elevated" then
    let elevated := String.eqb profile "elevated" in
    match rt with
    | Filesystem => file_read ++ file_write
    | Network => if elevated then ["get"; "post"; "put"] else ["get"; "post"]
    | Application => ["launch"]
    | Browser => if elevated then ["navigate"; "click"; "type"; "read"] else []
    | Ipc => ipc_operations
    | Memory => "store" :: "kv_put" :: memory_read
    | Peripheral => []
    end
  else [].

Definition access_spec (profile : option string) (rt : ResourceType) (op : string) :
    AccessDecision :=
  match profile with
  | None => Denied
  | Some p =>
      if String.eqb p "full-access" then Allowed
      else if one_of op HIGH_RISK_OPS then RequiresApproval
      else if one_of op (granted p rt) then Allowed
      else Denied
  end.

(** The profile the history of a manager leaves an agent with. *)
Definition assigned (id : uuid) (ops : list PermOp) : option string :=
  foldl (λ cur o,
    match o with
    | PAssign id' p => if id' =? id then Some p else cur
    | PPurge id' => if id' =? id then None else cur
    | PLog _ => cur
    end) None ops.

Lemma one_of_spec op l : one_of op l = true ↔ op ∈ l.
Proof.
  unfold one_of. rewrite existsb_exists. split.
  - intros (o & Ho & ->%String.eqb_eq). by apply list_elem_of_In.
  - intros H%list_elem_of_In. exists op. by rewrite String.eqb_refl.
Qed.

Lemma one_of_false op l : one_of op l = false ↔ op ∉ l.
Proof. rewrite <- one_of_spec. destruct (one_of op l); naive_solver. Qed.

(** The operation test of [find_matching_rule] on a rule without the wildcard operation. *)
Lemma operations_match ops op eq :
  "*" ∉ ops →
  existsb (λ o, String.eqb o op || String.eqb o eq || String.eqb o "*") ops
  = one_of op ops || one_of eq ops.
Proof.
  induction ops as [|o ops IH]; intros Hstar; [done|].
  apply not_elem_of_cons in Hstar as [Ho Hops]. cbn [existsb one_of].
  rewrite IH by done. apply not_eq_sym, String.eqb_neq in Ho. rewrite Ho, orb_false_r.
  rewrite (String.eqb_sym o op), (String.eqb_sym o eq). unfold one_of. btauto.
Qed.

Lemma find_allow_rules rules rt op target :
  Forall (λ r, ∃ rt' ops, r = allow_rule rt' ops ∧ "*" ∉ ops) rules →
  find_matching_rule rules rt op target =
    if existsb (λ r, bool_decide (pr_resource_type r = rt) &&
         (one_of op (pr_operations r) || one_of (equivalent_operation rt op) (pr_operations r))) rules
    then Some Allowed else None.
Proof.
  induction 1 as [|r rules (rt' & ops & -> & Hstar) _ IH]; [done|].
  cbn [find_matching_rule existsb]. unfold rule_applies, allow_rule.
  cbn [pr_resource_type pr_operations pr_targets pr_decision].
  rewrite operations_match, andb_true_r by done. rewrite IH.
  by destruct (bool_decide _ && _).
Qed.

(** The aliases of the filesystem operations, pushed into the list of a rule. *)
Lemma equivalent_cases rt op l :
  one_of op l || one_of (equivalent_operation rt op) l = true ↔
  op ∈ l ∨ (rt = Filesystem ∧ ((op = "stat" ∨ op = "read_bytes") ∧ "read" ∈ l ∨
                                op = "write_bytes" ∧ "write" ∈ l)).
Proof.
  rewrite orb_true_iff, !one_of_spec. unfold equivalent_operation.
  destruct rt; [|naive_solver..].
  destruct (one_of op ["stat"; "read_bytes"]) eqn:H1;
    [apply one_of_spec in H1|apply one_of_false in H1].
  { assert (op = "stat" ∨ op = "read_bytes") by set_solver. naive_solver. }
  destruct (one_of op ["write_bytes"]) eqn:H2;
    [apply one_of_spec in H2|apply one_of_false in H2].
  { assert (op = "write_bytes") as -> by set_solver. naive_solver. }
  set_solver.
Qed.

Lemma existsb_cons_true {A} (f : A → bool) x l :
  existsb f (x :: l) = true ↔ f x = true ∨ existsb f l = true.
Proof. cbn [existsb]. apply orb_true_iff. Qed.

Lemma predefined_profiles :
  profiles permissions_new =
  {[ "read-only" := mkProfile "read-only" "Read Only" (prof_rules read_only_profile ++
       [allow_rule Memory ["query"; "stat"; "kv_get"; "kv_list"; "kv_dir_stat"; "kv_stat"]]);
     "standard" := mkProfile "standard" "Standard" (prof_rules standard_profile ++
       [allow_rule Memory ["store"; "query"; "stat"; "kv_get"; "kv_put"; "kv_list"; "kv_dir_stat";
                           "kv_stat"]]);
     "elevated" := mkProfile "elevated" "Elevated" (prof_rules elevated_profile ++
       [allow_rule Memory ["store"; "query"; "stat"; "kv_get"; "kv_put"; "kv_list"; "kv_dir_stat";
                           "kv_stat"]]);
     "full-access" := full_access_profile ]}.
Proof. apply map_eq. intros i. reflexivity. Qed.

(** Case analysis on which predefined profile other than [full-access] was looked up. *)
Ltac predefined_cases Hp :=
  apply lookup_insert_Some in Hp as [[<- <-]|[_ Hp]]; [|
    apply lookup_insert_Some in Hp as [[<- <-]|[_ Hp]]; [|
    apply lookup_insert_Some in Hp as [[<- <-]|[_ Hp]]; [|
    apply lookup_singleton_Some in Hp as [<- _]; done]]];
  cbn [prof_rules app read_only_profile standard_profile elevated_profile].

Lemma predefined_grants p prof rt op target :
  profiles permissions_new !! p = Some prof → p ≠ "full-access" →
  one_of op HIGH_RISK_OPS = false →
  find_matching_rule (prof_rules prof) rt op target =
    if one_of op (granted p rt) then Some Allowed else None.
Proof.
  rewrite predefined_profiles. intros Hp Hfull Hrisk%one_of_false.
  rewrite find_allow_rules.
  - apply (f_equal (λ b : bool, if b then Some Allowed else None)), eq_true_iff_eq.
    assert (op ≠ "delete") as Hdel by set_solver. clear Hrisk.
    predefined_cases Hp;
    rewrite !existsb_cons_true, !andb_true_iff, !bool_decide_eq_true, one_of_spec;
    cbn [pr_resource_type pr_operations allow_rule existsb]; rewrite !equivalent_cases;
    destruct rt; cbn; unfold ipc_operations; set_solver.
  - predefined_cases Hp;
    repeat constructor; do 2 eexists; (split; [reflexivity|]); unfold ipc_operations; set_solver.
Qed.

Lemma predefined_unknown p :
  profiles permissions_new !! p = None → one_of p ["read-only"; "standard"; "elevated"] = false.
Proof.
  rewrite predefined_profiles, !lookup_insert_None. intros Hp.
  apply one_of_false. set_solver.
Qed.

Lemma granted_unknown p rt : one_of p ["read-only"; "standard"; "elevated"] = false → granted p rt = [].
Proof.
  unfold one_of, granted. cbn [existsb].
  intros [-> [-> [-> _]%orb_false_iff]%orb_false_iff]%orb_false_iff. done.
Qed.

Lemma exec_perm_state ops m :
  let m' := foldl exec_perm m ops in
  profiles m' = profiles m ∧
  (∀ id, agent_profiles m' !! id =
    foldl (λ cur o,
      match o with
      | PAssign id' p => if id' =? id then Some p else cur
      | PPurge id' => if id' =? id then None else cur
      | PLog _ => cur
      end) (agent_profiles m !! id) ops) ∧
  audit_log m' = audit_log m ++ omap (λ o, match o with PLog e => Some e | _ => None end) ops.
Proof.
  cbv zeta. revert m. induction ops as [|o ops IH]; intros m; cbn [foldl].
  { by rewrite app_nil_r. }
  destruct (IH (exec_perm m o)) as (-> & Hid & ->). split_and!.
  - by destruct o.
  - intros id. rewrite Hid. f_equal. destruct o; cbn; [| |done].
    + destruct (Z.eqb_spec id0 id) as [->|]; [apply lookup_insert_eq|by apply lookup_insert_ne].
    + destruct (Z.eqb_spec id0 id) as [->|]; [apply lookup_delete_eq|by apply lookup_delete_ne].
  - destruct o; cbn [exec_perm assign_profile purge_agent log_action audit_log]; [done..|].
    cbn. rewrite <- (assoc_L (++)). by destruct e.
Qed.

Lemma check_access_history (ops : list PermOp) (id : uuid) (rt : ResourceType) (op : string)
    (target : option string) :
  check_access (foldl exec_perm permissions_new ops) id rt op target
  = access_spec (assigned id ops) rt op.
Proof.
  destruct (exec_perm_state ops permissions_new) as (Hprofiles & Hassigned & _).
  unfold check_access, access_spec. rewrite Hprofiles, Hassigned.
  rewrite (lookup_empty id : agent_profiles permissions_new !! id = None). fold (assigned id ops).
  destruct (assigned id ops) as [p|]; [|done].
  destruct (String.eqb_spec p "full-access") as [->|Hfull]; [done|].
  rewrite bool_decide_eq_false_2 by done.
  destruct (one_of op HIGH_RISK_OPS) eqn:Hrisk; [done|].
  destruct (profiles permissions_new !! p) as [prof|] eqn:Hp.
  - rewrite (predefined_grants _ _ _ _ _ Hp Hfull Hrisk). by destruct (one_of op (granted p rt)).
  - by rewrite (granted_unknown _ _ (predefined_unknown _ Hp)).
Qed.

(** The whole access decision of a manager with any history: an agent without a current
    assignment is denied everything; [full-access] is allowed everything; for every other profile a
    high-risk operation requires approval, and any other operation is allowed exactly when the
    profile's table grants it (whatever the target, as no predefined rule is target-scoped). *)
Theorem check_access_spec (ops : list PermOp) (id : uuid) (rt : ResourceType) (op : string)
    (target : option string) :
  check_access (foldl exec_perm permissions_new ops) id rt op target
  = access_spec (assigned id ops) rt op.
Proof. apply check_access_history. Qed.

(** The order of the profiles. *)
Definition profile_le (p q : string) : Prop :=
  (p, q) ∈ [("read-only", "standard"); ("standard", "elevated"); ("elevated", "full-access")].

Lemma check_access_assigned ops p id rt op target :
  check_access (assign_profile id p (foldl exec_perm permissions_new ops)) id rt op target
  = access_spec (Some p) rt op.
Proof.
  transitivity (check_access (foldl exec_perm permissions_new (ops ++ [PAssign id p])) id rt op target).
  { by rewrite foldl_app. }
  rewrite check_access_history. f_equal. unfold assigned. rewrite foldl_app. cbn [foldl].
  by rewrite Z.eqb_refl.
Qed.

Lemma granted_monotone p q rt op :
  profile_le p q → q ≠ "full-access" → op ∈ granted p rt → op ∈ granted q rt.
Proof.
  unfold profile_le. rewrite !elem_of_cons, elem_of_nil.
  intros [[= -> ->]|[[= -> ->]|[[= -> ->]|[]]]]; [| |by intros []]; destruct rt; cbn; set_solver.
Qed.

(** The predefined profiles are ordered: whatever the manager's history, what an agent
    may do unattended under [read-only] it may do under [standard], then [elevated], then
    [full-access]. *)
Theorem profiles_monotone (ops : list PermOp) (p q : string) (id : uuid) (rt : ResourceType)
    (op : string) (target : option string) :
  let m := foldl exec_perm permissions_new ops in
  profile_le p q →
  check_access (assign_profile id p m) id rt op target = Allowed →
  check_access (assign_profile id q m) id rt op target = Allowed.
Proof.
  cbv zeta. intros Hpq. rewrite !check_access_assigned. cbn [access_spec].
  destruct (String.eqb_spec q "full-access") as [->|Hq]; [done|].
  destruct (String.eqb_spec p "full-access") as [->|Hp].
  { unfold profile_le in Hpq. set_solver. }
  destruct (one_of op HIGH_RISK_OPS); [done|].
  destruct (one_of op (granted p rt)) eqn:Hop; [intros _|done].
  apply one_of_spec, (granted_monotone _ _ _ _ Hpq Hq), one_of_spec in Hop. by rewrite Hop.
Qed.

Lemma profiles_monotone_witness :
  check_access (assign_profile 7 "elevated" permissions_new) 7 Filesystem "write_bytes" None
  = Allowed.
Proof.
  apply (profiles_monotone [] "standard" "elevated" 7 Filesystem "write_bytes" None);
    [right; left|reflexivity].
Defined.

(** ** Target patterns *)

Lemma strip_suffix_star_spec s pre : strip_suffix_star s = Some pre ↔ s = pre +:+ "*".
Proof.
  revert pre. induction s as [|c s IH]; intros pre; cbn [strip_suffix_star].
  { split; [done|]. by destruct pre. }
  destruct s as [|c' s'].
  - destruct (Ascii.eqb_spec c "*"%char) as [->|Hc].
    + split; [by intros [= <-]|]. by destruct pre as [|c2 [|c3 pre]].
    + split; [done|]. destruct pre as [|c2 [|c3 pre]]; intros [=]; done.
  - destruct pre as [|c2 pre].
    + split; [|done]. by destruct (strip_suffix_star _).
    + rewrite app_cons_string. split.
      * intros (x & Hx & [= -> ->])%fmap_Some. by apply IH in Hx as ->.
      * intros [= -> Hs]. apply IH in Hs. by rewrite Hs.
Qed.

(** The target patterns of permission rules: a trailing [*] matches every extension of
    the text before it, a leading [*] (without a trailing one) everything ending in the text after
    it, and any other pattern only itself; so a [*] in the middle, or one at each end, is literal
    where it is not stripped. *)
Theorem matches_glob_spec (p t : string) :
  matches_glob p t = true ↔
  (∃ pre, p = pre +:+ "*" ∧ ∃ r, t = pre +:+ r) ∨
  ((∀ pre, p ≠ pre +:+ "*") ∧
   ((∃ suf, p = String "*"%char suf ∧ ∃ r, t = r +:+ suf) ∨
    ((∀ suf, p ≠ String "*"%char suf) ∧ p = t))).
Proof.
  unfold matches_glob. case_bool_decide as Hstar.
  { subst. split; [intros _; left|done]. exists EmptyString. split; [done|by exists t]. }
  destruct (strip_suffix_star p) as [pre|] eqn:Hs.
  - apply strip_suffix_star_spec in Hs as ->. rewrite starts_with_spec. split.
    + intros Ht. left. eauto.
    + intros [(pre' & Hpre & Ht)|[Hno _]]; [|by destruct (Hno pre)].
      apply strip_suffix_star_spec in Hpre.
      assert (strip_suffix_star (pre +:+ "*") = Some pre) as Heq by (by apply strip_suffix_star_spec).
      assert (pre' = pre) as -> by congruence. done.
  - assert (∀ pre, p ≠ pre +:+ "*") as Hno.
    { intros pre H%strip_suffix_star_spec. congruence. }
    unfold strip_prefix_star. destruct p as [|c p].
    + rewrite bool_decide_eq_true. naive_solver.
    + destruct (Ascii.eqb_spec c "*"%char) as [->|Hc].
      * rewrite ends_with_spec. naive_solver.
      * rewrite bool_decide_eq_true. naive_solver.
Qed.

(** ** Requests that omit their target *)

(** A target-scoped rule never serves a request without a target: if a profile decides
    such a request, one of its unscoped rules did; so scoping every rule of a profile denies it
    all. *)
Theorem missing_target_unscoped (rules : list PermissionRule) (rt : ResourceType) (op : string)
    (d : AccessDecision) :
  find_matching_rule rules rt op None = Some d →
  ∃ r, r ∈ rules ∧ pr_targets r = None ∧ pr_resource_type r = rt ∧ pr_decision r = d.
Proof.
  induction rules as [|r rules IH]; cbn [find_matching_rule]; [done|].
  destruct (rule_applies r rt op None) eqn:Hr.
  - intros [= <-]. exists r. unfold rule_applies in Hr.
    destruct (pr_targets r); [by rewrite andb_false_r in Hr|]. bool_hyps. split_and!; [left|done..].
  - intros (r' & ? & ?)%IH. exists r'. split; [by right|done].
Qed.

Lemma missing_target_unscoped_witness :
  ∃ r, r ∈ prof_rules read_only_profile ∧ pr_targets r = None ∧ pr_resource_type r = Network ∧
    pr_decision r = Allowed.
Proof. apply (missing_target_unscoped _ _ "get"). reflexivity. Defined.

(** ** The audit log *)

Lemma filter_accepts_spec f e :
  filter_accepts f e = true ↔
  (∀ a, f_agent_id f = Some a → au_agent_id e = a) ∧
  (∀ r, f_resource f = Some r → au_resource e = r) ∧
  (∀ d, f_decision f = Some d → au_decision e = d) ∧
  (∀ t, f_from f = Some t → t <= au_timestamp e) ∧
  (∀ t, f_to f = Some t → au_timestamp e <= t).
Proof.
  unfold filter_accepts. destruct f as [[] [] [] [] []]; cbn;
    rewrite ?andb_true_iff, ?bool_decide_eq_true, ?negb_true_iff, ?Z.ltb_ge; naive_solver.
Qed.

(** The audit log is append-only and complete: after any history it holds exactly the
    logged entries in order, whatever profiles were assigned or purged meanwhile; and a filtered
    query returns, in order, exactly the entries meeting every criterion given, the time bounds
    included. *)
Theorem audit_log_history (ops : list PermOp) (e : AuditEntry) :
  let m := foldl exec_perm permissions_new ops in
  get_audit_log None m = omap (λ o, match o with PLog e => Some e | _ => None end) ops ∧
  (∀ more, ∃ suffix, audit_log (foldl exec_perm m more) = audit_log m ++ suffix) ∧
  (∀ f, get_audit_log (Some f) m `sublist_of` audit_log m ∧
    (e ∈ get_audit_log (Some f) m ↔ e ∈ audit_log m ∧
      (∀ a, f_agent_id f = Some a → au_agent_id e = a) ∧
      (∀ r, f_resource f = Some r → au_resource e = r) ∧
      (∀ d, f_decision f = Some d → au_decision e = d) ∧
      (∀ t, f_from f = Some t → t <= au_timestamp e) ∧
      (∀ t, f_to f = Some t → au_timestamp e <= t))).
Proof.
  cbv zeta. split_and!.
  - cbn [get_audit_log]. by destruct (exec_perm_state ops permissions_new) as (_ & _ & ->).
  - intros more. destruct (exec_perm_state more (foldl exec_perm permissions_new ops)) as (_ & _ & ->).
    by eexists.
  - intros f'. cbn [get_audit_log]. split; [apply retain_sublist|].
    by rewrite elem_of_retain, filter_accepts_spec.
Qed.
