(* ===== verification/Namespaces.v ===== *)
(** * Agent namespaces

    Models [crates/kernel/src/namespaces.rs].  The process-wide counter [NEXT_NS_ID] is part of the
    state; other registries of the process draw from it too, which the [NElsewhere] step stands
    for.  [HashSet] is a finite set, [DashMap] a finite map; iteration only feeds an existential
    test, so its order is irrelevant. *)

From S2P Require Import Prelude AgentStruct.
#[local] Open Scope Z_scope.

Abbreviation NamespaceId := Z (only parsing).

Inductive NamespaceType := NTool | NContext | NAgent | NNetwork | NUser | NMount.

#[global] Instance namespace_type_eq_dec : EqDecision NamespaceType.
Proof. solve_decision. Defined.

#[global] Instance namespace_type_countable : Countable NamespaceType.
Proof.
  refine (inj_countable'
    (λ t, match t with NTool => 0 | NContext => 1 | NAgent => 2 | NNetwork => 3 | NUser => 4
                     | NMount => 5 end)
    (λ n, match n with 0 => NTool | 1 => NContext | 2 => NAgent | 3 => NNetwork | 4 => NUser
                     | _ => NMount end) _). by intros [].
Defined.

Record Namespace := mkNamespace {
  ns_id : NamespaceId;
  ns_type : NamespaceType;
  ns_parent : option NamespaceId;
  ns_members : gset AgentId }.

Record NamespaceRegistry := mkNsRegistry {
  next_ns_id : Z;
  namespaces : gmap NamespaceId Namespace;
  defaults : gmap NamespaceType NamespaceId }.

(** [Namespace::new]: the namespace and the advanced counter. *)
Definition namespace_new (next : Z) (t : NamespaceType) (parent : option NamespaceId) :
    Namespace * Z :=
  (mkNamespace next t parent ∅, wrap64 (next + 1)).

Definition DEFAULT_TYPES : list NamespaceType :=
  [NTool; NContext; NAgent; NNetwork; NUser; NMount].

Definition add_default (r : NamespaceRegistry) (t : NamespaceType) : NamespaceRegistry :=
  let (ns, next) := namespace_new (next_ns_id r) t None in
  mkNsRegistry next (<[ns_id ns := ns]> (namespaces r)) (<[t := ns_id ns]> (defaults r)).

Definition registry_new (next : Z) : NamespaceRegistry :=
  foldl add_default (mkNsRegistry next ∅ ∅) DEFAULT_TYPES.

Definition ns_create (t : NamespaceType) (parent : option NamespaceId) (r : NamespaceRegistry) :
    NamespaceId * NamespaceRegistry :=
  let (ns, next) := namespace_new (next_ns_id r) t parent in
  (ns_id ns, mkNsRegistry next (<[ns_id ns := ns]> (namespaces r)) (defaults r)).

Definition update_members (f : gset AgentId → gset AgentId) (id : NamespaceId)
    (r : NamespaceRegistry) : bool * NamespaceRegistry :=
  match namespaces r !! id with
  | Some ns =>
      (true, mkNsRegistry (next_ns_id r)
        (<[id := mkNamespace (ns_id ns) (ns_type ns) (ns_parent ns) (f (ns_members ns))]>
           (namespaces r)) (defaults r))
  | None => (false, r)
  end.

Definition ns_join (id : NamespaceId) (agent : AgentId) : NamespaceRegistry → bool * NamespaceRegistry :=
  update_members (λ ms, {[agent]} ∪ ms) id.

Definition ns_leave (id : NamespaceId) (agent : AgentId) : NamespaceRegistry → bool * NamespaceRegistry :=
  update_members (λ ms, ms ∖ {[agent]}) id.

Definition same_namespace (r : NamespaceRegistry) (a b : AgentId) (t : NamespaceType) : bool :=
  existsb (λ e : NamespaceId * Namespace,
    bool_decide (ns_type e.2 = t) && bool_decide (a ∈ ns_members e.2)
    && bool_decide (b ∈ ns_members e.2)) (map_to_list (namespaces r)).

Definition can_see (r : NamespaceRegistry) (viewer target : AgentId) : bool :=
  same_namespace r viewer target NAgent.

Definition default_ns (r : NamespaceRegistry) (t : NamespaceType) : option NamespaceId :=
  defaults r !! t.

Definition ns_members_of (r : NamespaceRegistry) (id : NamespaceId) : list AgentId :=
  match namespaces r !! id with Some ns => elements (ns_members ns) | None => [] end.

Definition ns_count (r : NamespaceRegistry) : nat := size (namespaces r).

Definition check_tool_access (r : NamespaceRegistry) (agent : AgentId) (tool_ns : NamespaceId) : bool :=
  match namespaces r !! tool_ns with
  | Some ns => bool_decide (agent ∈ ns_members ns)
  | None => false
  end.

Definition check_ipc_access (r : NamespaceRegistry) (sender receiver : AgentId) : bool :=
  can_see r sender receiver.

Inductive NsOp :=
| NCreate (t : NamespaceType) (parent : option NamespaceId)
| NJoin (id : NamespaceId) (agent : AgentId)
| NLeave (id : NamespaceId) (agent : AgentId)
| NElsewhere.

Definition exec_ns (r : NamespaceRegistry) (o : NsOp) : NamespaceRegistry :=
  match o with
  | NCreate t p => (ns_create t p r).2
  | NJoin id a => (ns_join id a r).2
  | NLeave id a => (ns_leave id a r).2
  | NElsewhere => mkNsRegistry (wrap64 (next_ns_id r + 1)) (namespaces r) (defaults r)
  end.

(** ** Fresh identifiers and membership *)

(** Every entry is keyed by its own id, and every id in use is below the counter. *)
Definition ns_ok (r : NamespaceRegistry) : Prop :=
  0 <= next_ns_id r ∧
  map_Forall (λ id ns, ns_id ns = id ∧ id < next_ns_id r) (namespaces r).

(** Whether the last join or leave of agent [a] in namespace [id] was a join. *)
Definition joined (id : NamespaceId) (a : AgentId) (before : bool) (ops : list NsOp) : bool :=
  foldl (λ m o,
    match o with
    | NJoin id' a' => if (id' =? id) && (a' =? a) then true else m
    | NLeave id' a' => if (id' =? id) && (a' =? a) then false else m
    | _ => m
    end) before ops.

Lemma insert_fresh_ok next t p (m : gmap NamespaceId Namespace) :
  0 <= next < u64_max →
  map_Forall (λ id ns, ns_id ns = id ∧ id < next) m →
  map_Forall (λ id ns, ns_id ns = id ∧ id < wrap64 (next + 1))
    (<[next := mkNamespace next t p ∅]> m).
Proof.
  intros Hn Hm. rewrite wrap64_small by lia. apply map_Forall_insert_2; [cbn; lia|].
  eapply map_Forall_impl; [exact Hm|]. intros id ns [? ?]. cbn. lia.
Qed.

Lemma update_members_ok f id r : ns_ok r → ns_ok (update_members f id r).2.
Proof.
  intros [Hn Hm]. unfold update_members. destruct (namespaces r !! id) as [ns|] eqn:Hid; [|done].
  split; [done|]. cbn. apply map_Forall_insert_2; [|done]. apply (Hm id ns Hid).
Qed.

Lemma exec_ns_ok o r :
  ns_ok r → next_ns_id r < u64_max → ns_ok (exec_ns r o) ∧ next_ns_id (exec_ns r o) <= next_ns_id r + 1.
Proof.
  intros Hr Hlt. destruct o as [t p|id a|id a|]; cbn [exec_ns].
  - destruct Hr as [Hn Hm]. cbn. rewrite wrap64_small by lia. split; [split; [cbn; lia|]|lia].
    cbn. rewrite <- (wrap64_small (next_ns_id r + 1)) by lia. by apply insert_fresh_ok.
  - split; [by apply update_members_ok|]. unfold ns_join, update_members.
    destruct (_ !! id); cbn; lia.
  - split; [by apply update_members_ok|]. unfold ns_leave, update_members.
    destruct (_ !! id); cbn; lia.
  - destruct Hr as [Hn Hm]. cbn. rewrite wrap64_small by lia. split; [split; [cbn; lia|]|lia].
    cbn. eapply map_Forall_impl; [exact Hm|]. cbn. intros; lia.
Qed.

Lemma foldl_ns_ok ops r :
  ns_ok r → next_ns_id r + Z.of_nat (length ops) <= u64_max →
  ns_ok (foldl exec_ns r ops) ∧
  next_ns_id (foldl exec_ns r ops) <= next_ns_id r + Z.of_nat (length ops).
Proof.
  revert r. induction ops as [|o ops IH]; intros r Hr Hb; cbn [foldl length] in *; [split; [done|lia]|].
  destruct (exec_ns_ok o r Hr ltac:(lia)) as [Hr' Hn].
  destruct (IH _ Hr' ltac:(lia)) as [? ?]. split; [done|lia].
Qed.

Lemma add_defaults_ok ts r :
  ns_ok r → next_ns_id r + Z.of_nat (length ts) <= u64_max →
  ns_ok (foldl add_default r ts) ∧
  next_ns_id (foldl add_default r ts) = next_ns_id r + Z.of_nat (length ts).
Proof.
  revert r. induction ts as [|t ts IH]; intros r Hr Hb; cbn [foldl length] in *; [split; [done|lia]|].
  assert (ns_ok (add_default r t) ∧ next_ns_id (add_default r t) = next_ns_id r + 1) as [Hr' Hn].
  { destruct Hr as [Hn Hm]. cbn. rewrite wrap64_small by lia. split; [split; [cbn; lia|]|done].
    cbn. rewrite <- (wrap64_small (next_ns_id r + 1)) by lia. apply insert_fresh_ok; [lia|done]. }
  destruct (IH _ Hr' ltac:(lia)) as [? ?]. split; [done|lia].
Qed.

Lemma registry_new_ok next :
  0 <= next → next + 6 <= u64_max →
  ns_ok (registry_new next) ∧ next_ns_id (registry_new next) = next + 6.
Proof.
  intros H0 H6. apply (add_defaults_ok DEFAULT_TYPES (mkNsRegistry next ∅ ∅)); [|done].
  split; [done|apply map_Forall_empty].
Qed.

Lemma update_members_lookup f id id' r ns :
  namespaces r !! id = Some ns →
  namespaces (update_members f id' r).2 !! id =
    Some (if id' =? id then mkNamespace (ns_id ns) (ns_type ns) (ns_parent ns) (f (ns_members ns))
          else ns).
Proof.
  intros Hid. unfold update_members. destruct (Z.eqb_spec id' id) as [->|Hne].
  - rewrite Hid. cbn. apply lookup_insert_eq.
  - destruct (namespaces r !! id'); cbn; [|done]. by rewrite lookup_insert_ne.
Qed.

(** One step keeps an existing namespace and changes its membership as [joined] says. *)
Lemma exec_ns_lookup o r id ns :
  ns_ok r → namespaces r !! id = Some ns →
  ∃ ms, namespaces (exec_ns r o) !! id = Some (mkNamespace (ns_id ns) (ns_type ns) (ns_parent ns) ms) ∧
    ∀ a, bool_decide (a ∈ ms) = joined id a (bool_decide (a ∈ ns_members ns)) [o].
Proof.
  intros [Hn Hm] Hid. destruct (Hm id ns Hid) as [Heq Hlt].
  destruct o as [t p|id' a'|id' a'|]; cbn [exec_ns joined foldl].
  - exists (ns_members ns). split; [|done]. cbn. rewrite lookup_insert_ne by lia. by destruct ns.
  - unfold ns_join. rewrite (update_members_lookup _ _ _ _ _ Hid).
    destruct (id' =? id); cbn [andb]; [|exists (ns_members ns); by destruct ns].
    eexists; split; [reflexivity|]. intros a. destruct (Z.eqb_spec a' a) as [->|].
    + apply bool_decide_eq_true. set_solver.
    + apply bool_decide_ext. set_solver.
  - unfold ns_leave. rewrite (update_members_lookup _ _ _ _ _ Hid).
    destruct (id' =? id); cbn [andb]; [|exists (ns_members ns); by destruct ns].
    eexists; split; [reflexivity|]. intros a. destruct (Z.eqb_spec a' a) as [->|].
    + apply bool_decide_eq_false. set_solver.
    + apply bool_decide_ext. set_solver.
  - exists (ns_members ns). by destruct ns.
Qed.

Lemma foldl_ns_lookup ops r id ns :
  ns_ok r → next_ns_id r + Z.of_nat (length ops) <= u64_max → namespaces r !! id = Some ns →
  ∃ ms, namespaces (foldl exec_ns r ops) !! id
      = Some (mkNamespace (ns_id ns) (ns_type ns) (ns_parent ns) ms) ∧
    ∀ a, bool_decide (a ∈ ms) = joined id a (bool_decide (a ∈ ns_members ns)) ops.
Proof.
  revert r ns. induction ops as [|o ops IH]; intros r ns Hr Hb Hid; cbn [foldl length] in *.
  { exists (ns_members ns). by destruct ns. }
  destruct (exec_ns_ok o r Hr ltac:(lia)) as [Hr' Hn].
  destruct (exec_ns_lookup o r id ns Hr Hid) as (ms & Hid' & Hms).
  destruct (IH _ _ Hr' ltac:(lia) Hid') as (ms' & Hid'' & Hms'). exists ms'. split; [done|].
  intros a. rewrite Hms'. cbn [ns_members]. rewrite Hms. done.
Qed.

(** A namespace for life: in every registry reached by fewer than [2^64] allocations, the
    id [ns_create] returns was not in use; the namespace starts empty, keeps its type and parent
    whatever happens later, is never replaced by another one, and an agent is a member of it exactly
    when its last join or leave there was a join. *)
Theorem namespace_lifetime (next : Z) (before after : list NsOp) (t : NamespaceType)
    (parent : option NamespaceId) :
  0 <= next →
  next + 7 + Z.of_nat (length before) + Z.of_nat (length after) <= u64_max →
  let r := foldl exec_ns (registry_new next) before in
  let id := (ns_create t parent r).1 in
  let r' := foldl exec_ns (ns_create t parent r).2 after in
  namespaces r !! id = None ∧
  ∃ ms, namespaces r' !! id = Some (mkNamespace id t parent ms) ∧
    ∀ a, check_tool_access r' a id = joined id a false after.
Proof.
  intros H0 Hb. cbv zeta.
  destruct (registry_new_ok next H0 ltac:(lia)) as [Hr0 Hn0].
  destruct (foldl_ns_ok before _ Hr0 ltac:(lia)) as [Hr Hn].
  set (r := foldl exec_ns (registry_new next) before) in *.
  destruct (exec_ns_ok (NCreate t parent) r Hr ltac:(lia)) as [Hr1 Hn1]. cbn [exec_ns] in Hr1, Hn1.
  destruct (foldl_ns_lookup after (ns_create t parent r).2 (ns_create t parent r).1
    (mkNamespace (ns_create t parent r).1 t parent ∅) Hr1 ltac:(lia)) as (ms & Hid & Hms).
  { cbn. apply lookup_insert_eq. }
  split.
  - destruct (namespaces r !! _) as [ns|] eqn:Hns; [|done].
    destruct Hr as [_ Hm]. destruct (Hm _ _ Hns) as [_ Hlt]. cbn in Hlt. lia.
  - exists ms. split; [done|]. intros a. unfold check_tool_access. rewrite Hid. cbn [ns_members].
    rewrite Hms. done.
Qed.

Lemma namespace_lifetime_witness :
  let r := registry_new 1 in
  check_tool_access (foldl exec_ns (ns_create NTool None r).2 [NJoin 7 42; NLeave 7 43]) 42 7 = true.
Proof.
  cbv zeta.
  destruct (namespace_lifetime 1 [] [NJoin 7 42; NLeave 7 43] NTool None) as (_ & ms & _ & H);
    [done..|].
  apply (H 42).
Defined.

(** ** Visibility *)

Lemma same_namespace_spec r a b t :
  same_namespace r a b t = true ↔
  ∃ id ns, namespaces r !! id = Some ns ∧ ns_type ns = t ∧ a ∈ ns_members ns ∧ b ∈ ns_members ns.
Proof.
  unfold same_namespace. rewrite existsb_exists. setoid_rewrite <- list_elem_of_In.
  setoid_rewrite andb_true_iff. setoid_rewrite andb_true_iff.
  setoid_rewrite bool_decide_eq_true. split.
  - intros ([id ns] & Hin%elem_of_map_to_list & [[? ?] ?]). eauto 6.
  - intros (id & ns & Hin%elem_of_map_to_list & ?). exists (id, ns). naive_solver.
Qed.

Lemma can_see_sym r a b : can_see r a b = can_see r b a.
Proof. apply eq_true_iff_eq. unfold can_see. rewrite !same_namespace_spec. naive_solver. Qed.

Lemma ns_ok_fresh r : ns_ok r → namespaces r !! next_ns_id r = None.
Proof.
  intros [_ Hm]. destruct (namespaces r !! next_ns_id r) as [ns|] eqn:Hns; [|done].
  destruct (Hm _ _ Hns). lia.
Qed.

(** What an agent alone in a new namespace of the agent type adds to visibility: itself. *)
Lemma can_see_unshared r x parent a b :
  ns_ok r →
  can_see (ns_join (next_ns_id r) x (ns_create NAgent parent r).2).2 a b = true ↔
  (a = x ∧ b = x) ∨ can_see r a b = true.
Proof.
  intros Hr. pose proof (ns_ok_fresh r Hr) as Hfresh.
  unfold can_see. rewrite !same_namespace_spec.
  unfold ns_join, update_members. cbn. rewrite lookup_insert_eq. cbn. rewrite insert_insert_eq.
  setoid_rewrite lookup_insert_Some. split.
  - intros (id & ns & [[<- <-]|[_ Hid]] & Ht & Ha & Hb); [left; cbn in *; set_solver|right; eauto 7].
  - intros [[-> ->]|(id & ns & Hid & ?)].
    + eexists _, _. split; [by left|]. cbn. set_solver.
    + exists id, ns. split; [right|done]. split; [|done]. intros <-. congruence.
Qed.

(** Unsharing isolates: moving an agent that sees nobody (it is in no agent namespace)
    into a freshly created one lets it see exactly itself, lets nobody else see it, and changes
    nothing for any other pair; message access is symmetric. *)
Theorem fresh_namespace_isolates (r : NamespaceRegistry) (x a b : AgentId)
    (parent : option NamespaceId) :
  ns_ok r →
  can_see r x a = false →
  let (id, r1) := ns_create NAgent parent r in
  let r2 := (ns_join id x r1).2 in
  (can_see r2 x a = true ↔ a = x) ∧
  (can_see r2 a x = true ↔ a = x) ∧
  (a ≠ x ∨ b ≠ x → can_see r2 a b = can_see r a b) ∧
  check_ipc_access r2 a b = check_ipc_access r2 b a.
Proof.
  intros Hr Hx. change (ns_create NAgent parent r)
    with (next_ns_id r, (ns_create NAgent parent r).2). cbv zeta beta iota.
  pose proof (λ a b, can_see_unshared r x parent a b Hr) as Hsee. split_and!.
  - rewrite Hsee, Hx. naive_solver.
  - rewrite Hsee, (can_see_sym r a x), Hx. naive_solver.
  - intros Hne. apply eq_true_iff_eq. rewrite Hsee. naive_solver.
  - apply can_see_sym.
Qed.

Lemma fresh_namespace_isolates_witness :
  let r := registry_new 1 in
  can_see (ns_join 7 5 (ns_create NAgent None r).2).2 9 5 = true ↔ 9 = 5.
Proof.
  cbv zeta.
  destruct (fresh_namespace_isolates (registry_new 1) 5 9 9 None) as (_ & H & _).
  - by apply registry_new_ok.
  - reflexivity.
  - apply H.
Defined.
