(* ===== verification/Cgroups.v ===== *)
(** * Control groups: the hierarchy, its limits and tool-call reservations

    Models [crates/kernel/src/cgroups.rs].  Every public operation runs under [tree_lock], so one
    operation is one step of the state; poisoning of that lock is not modelled.  The process-wide
    id counter is part of the state.  An [Arc<AtomicBool>] generation is an address of a small
    heap, so that clones of one generation alias.  [wait_for_agent_tool_calls] and the waiter
    notifications have no state of their own and are left out. *)

From S2P Require Import Prelude AgentStruct.
From Stdlib Require Import Ascii.
#[local] Open Scope Z_scope.
#[local] Open Scope kernel_scope.

Abbreviation CgroupId := Z (only parsing).

(** ** Data *)

Record CgroupLimits := mkLimits {
  tokens_per_min : Z;
  max_concurrent_tool_calls : Z;
  max_context_tokens : Z;
  max_agents : Z }.

#[global] Instance cgroup_limits_eq_dec : EqDecision CgroupLimits.
Proof. solve_decision. Defined.

Definition limits_default : CgroupLimits := mkLimits 0 0 0 0.

Record CgroupUsage := mkUsage {
  tokens_this_min : Z;
  active_tool_calls : Z;
  context_tokens : Z;
  agent_count : Z }.

Definition usage_default : CgroupUsage := mkUsage 0 0 0 0.

Record Cgroup := mkCgroup {
  cg_id : CgroupId;
  cg_name : string;
  cg_parent : option CgroupId;
  cg_children : list CgroupId;
  cg_limits : CgroupLimits;
  cg_usage : CgroupUsage;
  cg_members : list AgentId;
  quota_scope : string }.

Inductive CgroupError :=
| GroupNotFound (id : CgroupId)
| InvalidScope (scope reason : string)
| DuplicateScope (scope : string)
| HierarchyCycle (id : CgroupId)
| DuplicateHierarchyScope (scope : string)
| HierarchyDoesNotReachRoot (id : CgroupId)
| RootRemoval
| GroupNotEmpty (id : CgroupId)
| ParentChildMismatch (id parent_id : CgroupId)
| ScopeIndexMismatch (id : CgroupId) (scope : string)
| AgentAlreadyMember (id : CgroupId) (agent : AgentId)
| AgentNotMember (id : CgroupId) (agent : AgentId)
| MaxAgentsReached (id : CgroupId)
| ToolCallLimit (id : CgroupId) (scope : string)
| ActiveToolReservations (id : CgroupId)
| LimitBelowUsage (id : CgroupId) (dimension : string) (limit usage : Z).

(** The [Arc<AtomicBool>] cells live in [gen_heap]; [gen_next] is the next free address. *)
Record CgroupManager := mkManager {
  next_cgroup_id : Z;
  groups : gmap CgroupId Cgroup;
  scope_index : gmap string CgroupId;
  active_tool_calls_by_agent : gmap AgentId Z;
  tool_call_generations : gmap AgentId Z;
  gen_heap : gmap Z bool;
  gen_next : Z;
  root : CgroupId }.

Record ToolCallGuard := mkGuard {
  g_cgroups : list CgroupId;
  agent_reservation : option (AgentId * Z) }.

(** Updates of one field. *)
Definition with_groups (f : gmap CgroupId Cgroup → gmap CgroupId Cgroup) (m : CgroupManager) :
    CgroupManager :=
  mkManager (next_cgroup_id m) (f (groups m)) (scope_index m) (active_tool_calls_by_agent m)
    (tool_call_generations m) (gen_heap m) (gen_next m) (root m).

Definition with_active (f : gmap AgentId Z → gmap AgentId Z) (m : CgroupManager) : CgroupManager :=
  mkManager (next_cgroup_id m) (groups m) (scope_index m) (f (active_tool_calls_by_agent m))
    (tool_call_generations m) (gen_heap m) (gen_next m) (root m).

Definition with_generations (gens : gmap AgentId Z) (heap : gmap Z bool) (next : Z)
    (m : CgroupManager) : CgroupManager :=
  mkManager (next_cgroup_id m) (groups m) (scope_index m) (active_tool_calls_by_agent m)
    gens heap next (root m).

Definition with_index (next : Z) (idx : gmap string CgroupId) (m : CgroupManager) : CgroupManager :=
  mkManager next (groups m) idx (active_tool_calls_by_agent m)
    (tool_call_generations m) (gen_heap m) (gen_next m) (root m).

Definition set_children (f : list CgroupId → list CgroupId) (g : Cgroup) : Cgroup :=
  mkCgroup (cg_id g) (cg_name g) (cg_parent g) (f (cg_children g)) (cg_limits g) (cg_usage g)
    (cg_members g) (quota_scope g).

(** [members] changed to [ms], and [agent_count = members.len().min(u32::MAX)]. *)
Definition set_members (ms : list AgentId) (g : Cgroup) : Cgroup :=
  mkCgroup (cg_id g) (cg_name g) (cg_parent g) (cg_children g) (cg_limits g)
    (mkUsage (tokens_this_min (cg_usage g)) (active_tool_calls (cg_usage g))
       (context_tokens (cg_usage g)) (Z.min (Z.of_nat (length ms)) u32_max))
    ms (quota_scope g).

Definition set_active (f : Z → Z) (g : Cgroup) : Cgroup :=
  mkCgroup (cg_id g) (cg_name g) (cg_parent g) (cg_children g) (cg_limits g)
    (mkUsage (tokens_this_min (cg_usage g)) (f (active_tool_calls (cg_usage g)))
       (context_tokens (cg_usage g)) (agent_count (cg_usage g)))
    (cg_members g) (quota_scope g).

Definition set_limits (l : CgroupLimits) (g : Cgroup) : Cgroup :=
  mkCgroup (cg_id g) (cg_name g) (cg_parent g) (cg_children g) l (cg_usage g) (cg_members g)
    (quota_scope g).

(** ** Scopes *)

Definition validate_scope (scope : string) : result CgroupError unit :=
  if bool_decide (scope = EmptyString) then Err (InvalidScope scope "scope must not be empty")
  else if (1024 <? String.length scope)%nat
    then Err (InvalidScope scope "scope must not exceed 1024 bytes")
  else if string_contains "000"%char scope
    then Err (InvalidScope scope "scope must not contain NUL")
  else if negb (starts_with "/" scope) then Err (InvalidScope scope "scope must start with '/'")
  else Ok tt.

(** [name.replace(c, by)] for a single character. *)
Fixpoint replace_char (c : ascii) (by_ : string) (s : string) : string :=
  match s with
  | EmptyString => EmptyString
  | String c' s' => (if Ascii.eqb c' c then by_ else String c' EmptyString) +:+ replace_char c by_ s'
  end.

Definition escape_scope_segment (name : string) : result CgroupError string :=
  if bool_decide (name = EmptyString)
  then Err (InvalidScope name "derived scope segment must not be empty")
  else Ok (replace_char "/"%char "~1" (replace_char "~"%char "~0" name)).

(** ** The hierarchy walk *)

(** The [while let] loop of [hierarchy_unlocked]: [acc] is [leaf_to_root] reversed, so the result
    reads from the root.  [None] is running out of fuel. *)
Fixpoint hierarchy_loop (fuel : nat) (m : CgroupManager) (current : option CgroupId)
    (group_ids : gset CgroupId) (scope_ids : gset string) (acc : list Cgroup) :
    option (result CgroupError (list Cgroup)) :=
  match fuel with
  | O => None
  | S fuel =>
      match current with
      | None => Some (Ok acc)
      | Some id =>
          if bool_decide (id ∈ group_ids) then Some (Err (HierarchyCycle id))
          else
            match groups m !! id with
            | None => Some (Err (GroupNotFound id))
            | Some g =>
                match validate_scope (quota_scope g) with
                | Err e => Some (Err e)
                | Ok _ =>
                    if bool_decide (quota_scope g ∈ scope_ids)
                    then Some (Err (DuplicateHierarchyScope (quota_scope g)))
                    else hierarchy_loop fuel m (cg_parent g) ({[id]} ∪ group_ids)
                           ({[quota_scope g]} ∪ scope_ids) (g :: acc)
                end
            end
      end
  end.

Definition hierarchy_fuel (m : CgroupManager) : nat := S (size (groups m)).

Definition hierarchy_unlocked (m : CgroupManager) (id : CgroupId) :
    result CgroupError (list Cgroup) :=
  match hierarchy_loop (hierarchy_fuel m) m (Some id) ∅ ∅ [] with
  | Some (Ok gs) =>
      if bool_decide (cg_id <$> head gs = Some (root m)) then Ok gs
      else Err (HierarchyDoesNotReachRoot id)
  | Some (Err e) => Err e
  | None => Err (HierarchyCycle id)
  end.

(** ** Construction *)

Definition cgroup_manager_new (next : Z) : CgroupManager :=
  let root_group :=
    mkCgroup next "/" None [] limits_default usage_default [] "/" in
  mkManager (wrap64 (next + 1)) {[next := root_group]} {["/" := next]} ∅ ∅ ∅ 0 next.

Definition create_scoped (name : string) (parent : CgroupId) (scope : string)
    (limits : CgroupLimits) (m : CgroupManager) : result CgroupError CgroupId * CgroupManager :=
  let? _ := validate_scope scope orelse m in
  let? _ := hierarchy_unlocked m parent orelse m in
  let id := next_cgroup_id m in
  let next := wrap64 (id + 1) in
  match scope_index m !! scope with
  | Some _ => (Err (DuplicateScope scope), with_index next (scope_index m) m)
  | None =>
      let m1 := with_index next (<[scope := id]> (scope_index m)) m in
      let g := mkCgroup id name (Some parent) [] limits usage_default [] scope in
      let m2 := with_groups (<[id := g]>) m1 in
      match groups m2 !! parent with
      | None =>
          (Err (GroupNotFound parent),
           with_groups (delete id) (with_index next (delete scope (scope_index m2)) m2))
      | Some _ =>
          (Ok id, with_groups (alter (set_children (λ cs, cs ++ [id])) parent) m2)
      end
  end.

Definition derived_scope (parent_scope segment : string) : string :=
  if bool_decide (parent_scope = "/") then "/" +:+ segment else parent_scope +:+ "/" +:+ segment.

Definition try_create (name : string) (parent : CgroupId) (limits : CgroupLimits)
    (m : CgroupManager) : result CgroupError CgroupId * CgroupManager :=
  let? pg := ok_or (GroupNotFound parent) (groups m !! parent) orelse m in
  let? segment := escape_scope_segment name orelse m in
  create_scoped name parent (derived_scope (quota_scope pg) segment) limits m.

(** [create] panics ([None]) where [try_create] fails. *)
Definition cg_create (name : string) (parent : CgroupId) (limits : CgroupLimits)
    (m : CgroupManager) : option CgroupId * CgroupManager :=
  match try_create name parent limits m with
  | (Ok id, m') => (Some id, m')
  | (Err _, m') => (None, m')
  end.

(** [&CgroupQuotaConstraint]: the durable scope and its token limit. *)
Record CgroupQuotaConstraint := mkConstraint { scope_id : string; token_limit : Z }.

Definition quota_constraints_for_agent (m : CgroupManager) (id : CgroupId) (agent : AgentId) :
    result CgroupError (list CgroupQuotaConstraint) :=
  gs ← hierarchy_unlocked m id;
  leaf ← ok_or (HierarchyDoesNotReachRoot id) (last gs);
  _ ← ensure (zmem agent (cg_members leaf)) (AgentNotMember id agent);
  Ok ((λ g, mkConstraint (quota_scope g) (tokens_per_min (cg_limits g))) <$> gs).

(** ** Membership *)

Definition add_agent (id : CgroupId) (agent : AgentId) (m : CgroupManager) :
    result CgroupError unit * CgroupManager :=
  let? _ := hierarchy_unlocked m id orelse m in
  let? g := ok_or (GroupNotFound id) (groups m !! id) orelse m in
  if zmem agent (cg_members g) then (Err (AgentAlreadyMember id agent), m)
  else if (0 <? max_agents (cg_limits g))
          && (max_agents (cg_limits g) <=? agent_count (cg_usage g))
    then (Err (MaxAgentsReached id), m)
  else (Ok tt, with_groups (alter (set_members (cg_members g ++ [agent])) id) m).

Definition has_active_agent_tool_calls (m : CgroupManager) (agent : AgentId) : bool :=
  match active_tool_calls_by_agent m !! agent with Some n => 0 <? n | None => false end.

Definition try_remove_agent (id : CgroupId) (agent : AgentId) (m : CgroupManager) :
    result CgroupError unit * CgroupManager :=
  let? _ := hierarchy_unlocked m id orelse m in
  if has_active_agent_tool_calls m agent then (Err (ActiveToolReservations id), m)
  else
    let? g := ok_or (GroupNotFound id) (groups m !! id) orelse m in
    match position (λ a, a =? agent) (cg_members g) with
    | None => (Err (AgentNotMember id agent), m)
    | Some i =>
        let m1 := with_groups (alter (set_members (swap_remove i (cg_members g))) id) m in
        (Ok tt, with_generations (delete agent (tool_call_generations m1)) (gen_heap m1)
                  (gen_next m1) m1)
    end.

Definition remove_agent (id : CgroupId) (agent : AgentId) (m : CgroupManager) : CgroupManager :=
  (try_remove_agent id agent m).2.

(** [for id in ids { if let Some(group) = groups.get_mut(id) { .. } }]. *)
Definition adjust (f : Cgroup → Cgroup) (ids : list CgroupId) (gs : gmap CgroupId Cgroup) :
    gmap CgroupId Cgroup :=
  foldl (λ gs id, alter f id gs) gs ids.

Definition force_remove_agent (id : CgroupId) (agent : AgentId) (m : CgroupManager) :
    result CgroupError unit * CgroupManager :=
  let? hierarchy := hierarchy_unlocked m id orelse m in
  let? leaf := ok_or (HierarchyDoesNotReachRoot id) (last hierarchy) orelse m in
  if negb (zmem agent (cg_members leaf)) then (Err (AgentNotMember id agent), m)
  else
    let m1 :=
      match tool_call_generations m !! agent with
      | Some addr => with_generations (delete agent (tool_call_generations m))
                       (<[addr := false]> (gen_heap m)) (gen_next m) m
      | None => m
      end in
    let active := match active_tool_calls_by_agent m1 !! agent with Some n => n | None => 0 end in
    let m2 := with_active (delete agent) m1 in
    let m3 :=
      if 0 <? active
      then with_groups (adjust (set_active (λ n, sat_sub n active)) (cg_id <$> hierarchy)) m2
      else m2 in
    let? g := ok_or (GroupNotFound id) (groups m3 !! id) orelse m3 in
    match position (λ a, a =? agent) (cg_members g) with
    | None => (Err (AgentNotMember id agent), m3)
    | Some i => (Ok tt, with_groups (alter (set_members (swap_remove i (cg_members g))) id) m3)
    end.

(** The [expect]s of the commit cannot fire, which [move_commit_eq] shows; the model leaves the
    state unchanged there. *)
Definition move_commit (source destination : CgroupId) (agent : AgentId) (m : CgroupManager) :
    CgroupManager :=
  let m1 := with_groups (alter (λ g, set_members (cg_members g ++ [agent]) g) destination) m in
  match groups m1 !! source with
  | None => m1
  | Some g =>
      match position (λ a, a =? agent) (cg_members g) with
      | None => m1
      | Some i => with_groups (alter (set_members (swap_remove i (cg_members g))) source) m1
      end
  end.

Definition try_move_agent (source destination : CgroupId) (agent : AgentId) (m : CgroupManager) :
    result CgroupError unit * CgroupManager :=
  let? source_hierarchy := hierarchy_unlocked m source orelse m in
  if source =? destination then
    let? leaf := ok_or (HierarchyDoesNotReachRoot source) (last source_hierarchy) orelse m in
    if zmem agent (cg_members leaf) then (Ok tt, m) else (Err (AgentNotMember source agent), m)
  else
    let? destination_hierarchy := hierarchy_unlocked m destination orelse m in
    let? source_leaf :=
      ok_or (HierarchyDoesNotReachRoot source) (last source_hierarchy) orelse m in
    if negb (zmem agent (cg_members source_leaf)) then (Err (AgentNotMember source agent), m)
    else if has_active_agent_tool_calls m agent then (Err (ActiveToolReservations source), m)
    else
      let? destination_leaf :=
        ok_or (HierarchyDoesNotReachRoot destination) (last destination_hierarchy) orelse m in
      if zmem agent (cg_members destination_leaf)
      then (Err (AgentAlreadyMember destination agent), m)
      else if (0 <? max_agents (cg_limits destination_leaf))
              && (max_agents (cg_limits destination_leaf) <=? agent_count (cg_usage destination_leaf))
      then (Err (MaxAgentsReached destination), m)
      else (Ok tt, move_commit source destination agent m).

(** ** Token shims, leaf removal and limits *)

(** [check_token_limit] and [try_record_tokens] have the same body. *)
Definition check_token_limit (m : CgroupManager) (id : CgroupId) : bool :=
  match hierarchy_unlocked m id with
  | Ok gs => forallb (λ g, tokens_per_min (cg_limits g) =? 0) gs
  | Err _ => false
  end.

Definition try_record_tokens (m : CgroupManager) (id : CgroupId) : bool :=
  match hierarchy_unlocked m id with
  | Ok gs => forallb (λ g, tokens_per_min (cg_limits g) =? 0) gs
  | Err _ => false
  end.

Definition enforce_limits (m : CgroupManager) (id : CgroupId) : result string unit :=
  if check_token_limit m id then Ok tt
  else Err "cgroup hierarchy unavailable or requires durable provider admission".

Definition leaf_busy (g : Cgroup) : bool :=
  negb (bool_decide (cg_children g = [])) || negb (bool_decide (cg_members g = []))
  || negb (agent_count (cg_usage g) =? 0) || negb (active_tool_calls (cg_usage g) =? 0)
  || negb (context_tokens (cg_usage g) =? 0).

Definition try_remove_empty_leaf (id : CgroupId) (m : CgroupManager) :
    result CgroupError unit * CgroupManager :=
  if id =? root m then (Err RootRemoval, m)
  else
    let? g := ok_or (GroupNotFound id) (groups m !! id) orelse m in
    if leaf_busy g then (Err (GroupNotEmpty id), m)
    else
      let? parent_id := ok_or (HierarchyDoesNotReachRoot id) (cg_parent g) orelse m in
      let? parent := ok_or (GroupNotFound parent_id) (groups m !! parent_id) orelse m in
      if negb (Nat.eqb (count_if (λ c, c =? id) (cg_children parent)) 1)
      then (Err (ParentChildMismatch id parent_id), m)
      else if negb (bool_decide (scope_index m !! quota_scope g = Some id))
      then (Err (ScopeIndexMismatch id (quota_scope g)), m)
      else
        let m1 := with_groups (alter (set_children (retain (λ c, negb (c =? id)))) parent_id) m in
        let m2 := with_index (next_cgroup_id m1) (delete (quota_scope g) (scope_index m1)) m1 in
        (Ok tt, with_groups (delete id) m2).

Fixpoint check_dimensions (id : CgroupId) (ds : list (string * Z * Z)) : result CgroupError unit :=
  match ds with
  | [] => Ok tt
  | (dimension, limit, usage) :: ds' =>
      if (0 <? limit) && (limit <? usage) then Err (LimitBelowUsage id dimension limit usage)
      else check_dimensions id ds'
  end.

Definition update_limits (id : CgroupId) (limits : CgroupLimits) (m : CgroupManager) :
    result CgroupError unit * CgroupManager :=
  let? g := ok_or (GroupNotFound id) (groups m !! id) orelse m in
  let? _ := check_dimensions id
    [("agents", max_agents limits, agent_count (cg_usage g));
     ("tool_calls", max_concurrent_tool_calls limits, active_tool_calls (cg_usage g));
     ("context_tokens", max_context_tokens limits, context_tokens (cg_usage g))] orelse m in
  (Ok tt, with_groups (alter (set_limits limits) id) m).

Definition with_clone_limits {T} (id : CgroupId) (expected : CgroupLimits) (commit : T)
    (m : CgroupManager) : result string T :=
  g ← ok_or "clone parent cgroup was removed" (groups m !! id);
  if bool_decide (cg_limits g = expected) then Ok commit
  else Err "clone parent cgroup limits changed during creation".

(** ** Tool-call reservations *)

Definition rollback_tool_calls (ids : list CgroupId) : CgroupManager → CgroupManager :=
  with_groups (adjust (set_active (λ n, sat_sub n 1)) ids).

(** [ToolCallGuard::drop]. *)
Definition release_tool_call (guard : ToolCallGuard) (m : CgroupManager) : CgroupManager :=
  match agent_reservation guard with
  | None => rollback_tool_calls (g_cgroups guard) m
  | Some (agent, generation) =>
      if negb (bool_decide (gen_heap m !! generation = Some true)) then m
      else
        let m1 := rollback_tool_calls (g_cgroups guard) m in
        match active_tool_calls_by_agent m1 !! agent with
        | None => m1
        | Some active =>
            let remaining := sat_sub active 1 in
            if remaining =? 0
            then with_generations (delete agent (tool_call_generations m1)) (gen_heap m1)
                   (gen_next m1) (with_active (delete agent) m1)
            else with_active (<[agent := remaining]>) m1
        end
  end.

(** The acquisition loop: one slot per group of the chain, rolled back on the first refusal. *)
Fixpoint acquire_loop (hierarchy : list Cgroup) (acquired : list CgroupId) (m : CgroupManager) :
    result CgroupError (list CgroupId) * CgroupManager :=
  match hierarchy with
  | [] => (Ok acquired, m)
  | snapshot :: rest =>
      match groups m !! cg_id snapshot with
      | None => (Err (GroupNotFound (cg_id snapshot)), rollback_tool_calls acquired m)
      | Some g =>
          if (0 <? max_concurrent_tool_calls (cg_limits g))
             && (max_concurrent_tool_calls (cg_limits g) <=? active_tool_calls (cg_usage g))
          then (Err (ToolCallLimit (cg_id g) (quota_scope g)), rollback_tool_calls acquired m)
          else acquire_loop rest (acquired ++ [cg_id g])
                 (with_groups (alter (set_active (λ n, sat_add32 n 1)) (cg_id snapshot)) m)
      end
  end.

(** The agent's generation, allocated if it has none, and its count. *)
Definition reserve_agent (a : AgentId) (m : CgroupManager) : Z * CgroupManager :=
  let (generation, m2) :=
    match tool_call_generations m !! a with
    | Some addr => (addr, m)
    | None => (gen_next m,
        with_generations (<[a := gen_next m]> (tool_call_generations m))
          (<[gen_next m := true]> (gen_heap m)) (gen_next m + 1) m)
    end in
  (generation,
   with_active (λ act, <[a := match act !! a with Some n => sat_add32 n 1 | None => 1 end]> act) m2).

Definition acquire_tool_call_for_hierarchy (hierarchy : list Cgroup) (agent : option AgentId)
    (m : CgroupManager) : result CgroupError ToolCallGuard * CgroupManager :=
  match acquire_loop hierarchy [] m with
  | (Err e, m1) => (Err e, m1)
  | (Ok acquired, m1) =>
      match agent with
      | None => (Ok (mkGuard acquired None), m1)
      | Some a =>
          let (generation, m2) := reserve_agent a m1 in
          (Ok (mkGuard acquired (Some (a, generation))), m2)
      end
  end.

Definition acquire_tool_call_checked (id : CgroupId) (m : CgroupManager) :
    result CgroupError ToolCallGuard * CgroupManager :=
  let? hierarchy := hierarchy_unlocked m id orelse m in
  acquire_tool_call_for_hierarchy hierarchy None m.

Definition acquire_tool_call_for_agent (id : CgroupId) (agent : AgentId) (m : CgroupManager) :
    result CgroupError ToolCallGuard * CgroupManager :=
  let? hierarchy := hierarchy_unlocked m id orelse m in
  let? leaf := ok_or (HierarchyDoesNotReachRoot id) (last hierarchy) orelse m in
  if negb (zmem agent (cg_members leaf)) then (Err (AgentNotMember id agent), m)
  else acquire_tool_call_for_hierarchy hierarchy (Some agent) m.

(** ** The tree invariant

    It only reads the immutable part of a group and its child list, [node]; operations that change
    limits, usage or membership leave [tree m] as it is. *)

Record Node := mkNode {
  n_id : CgroupId;
  n_parent : option CgroupId;
  n_children : list CgroupId;
  n_scope : string }.

Definition node (g : Cgroup) : Node := mkNode (cg_id g) (cg_parent g) (cg_children g) (quota_scope g).

Definition tree (m : CgroupManager) : gmap CgroupId Node := node <$> groups m.

Record tree_ok (next : Z) (t : gmap CgroupId Node) (idx : gmap string CgroupId) (r : CgroupId) :
    Prop := {
  tr_root : ∃ n, t !! r = Some n ∧ n_parent n = None;
  tr_node : ∀ id n, t !! id = Some n →
    n_id n = id ∧ 0 <= id < next ∧ validate_scope (n_scope n) = Ok tt ∧
    idx !! n_scope n = Some id ∧ NoDup (n_children n);
  tr_index : ∀ s id, idx !! s = Some id → ∃ n, t !! id = Some n ∧ n_scope n = s;
  tr_parent : ∀ id n, t !! id = Some n → id ≠ r →
    ∃ p pn, n_parent n = Some p ∧ p < id ∧ t !! p = Some pn ∧ id ∈ n_children pn;
  tr_child : ∀ id n c, t !! id = Some n → c ∈ n_children n →
    ∃ cn, t !! c = Some cn ∧ n_parent cn = Some id }.

Definition tree_wf (m : CgroupManager) : Prop :=
  tree_ok (next_cgroup_id m) (tree m) (scope_index m) (root m).

(** [path t id ids]: [ids] is the chain from [id] up to a group without a parent. *)
Inductive path (t : gmap CgroupId Node) : CgroupId → list CgroupId → Prop :=
| path_root id n : t !! id = Some n → n_parent n = None → path t id [id]
| path_step id n p ids :
    t !! id = Some n → n_parent n = Some p → path t p ids → path t id (id :: ids).

Lemma path_functional t id ids1 ids2 : path t id ids1 → path t id ids2 → ids1 = ids2.
Proof.
  intros H. revert ids2. induction H as [id n Hn Hp|id n p ids Hn Hp _ IH]; inversion 1;
    simplify_eq; [done|]. f_equal. by apply IH.
Qed.

Lemma path_elem t id ids i : path t id ids → i ∈ ids → is_Some (t !! i).
Proof.
  induction 1 as [id n Hn Hp|id n p ids Hn Hp _ IH]; rewrite elem_of_cons; [|naive_solver].
  rewrite elem_of_nil. naive_solver.
Qed.

Lemma path_head t id ids : path t id ids → head ids = Some id.
Proof. by destruct 1. Qed.

Section tree_facts.
Context (next : Z) (t : gmap CgroupId Node) (idx : gmap string CgroupId) (r : CgroupId).
Context (Hok : tree_ok next t idx r).

Lemma root_of_no_parent id n : t !! id = Some n → n_parent n = None → id = r.
Proof using Hok.
  intros Hn Hp. destruct (decide (id = r)) as [|Hne]; [done|].
  destruct (tr_parent _ _ _ _ Hok _ _ Hn Hne) as (p & pn & Hp' & _). congruence.
Qed.

Lemma parent_lt id n p : t !! id = Some n → n_parent n = Some p → p < id ∧ is_Some (t !! p).
Proof using Hok.
  intros Hn Hp. destruct (decide (id = r)) as [->|Hne].
  - destruct (tr_root _ _ _ _ Hok) as (n' & Hn' & Hp'). congruence.
  - destruct (tr_parent _ _ _ _ Hok _ _ Hn Hne) as (p' & pn & Hp' & Hlt & Hpn & _).
    simplify_eq. eauto.
Qed.

Lemma path_exists id : is_Some (t !! id) → ∃ ids, path t id ids.
Proof using Hok.
  induction (Z.lt_wf 0 id) as [id _ IH]. intros [n Hn].
  destruct (n_parent n) as [p|] eqn:Hp; [|eexists; by eapply path_root].
  destruct (parent_lt _ _ _ Hn Hp) as [Hlt [pn Hpn]].
  destruct (tr_node _ _ _ _ Hok _ _ Hpn) as (_ & Hr & _).
  destruct (IH p) as [ids Hids]; [lia|eauto|]. eexists. by eapply path_step.
Qed.

Lemma path_le id ids i : path t id ids → i ∈ ids → i <= id.
Proof using Hok.
  induction 1 as [id n Hn Hp|id n p ids Hn Hp _ IH]; rewrite elem_of_cons.
  - rewrite elem_of_nil. naive_solver lia.
  - destruct (parent_lt _ _ _ Hn Hp) as [Hlt _]. intros [->|Hi]; [lia|]. specialize (IH Hi). lia.
Qed.

Lemma path_NoDup id ids : path t id ids → NoDup ids.
Proof using Hok.
  induction 1 as [id n Hn Hp|id n p ids Hn Hp Hpath IH]; [apply NoDup_singleton|].
  constructor; [|done]. intros Hi. pose proof (path_le _ _ _ Hpath Hi).
  destruct (parent_lt _ _ _ Hn Hp) as [Hlt _]. lia.
Qed.

Lemma path_last id ids : path t id ids → last ids = Some r.
Proof using Hok.
  induction 1 as [id n Hn Hp|id n p ids Hn Hp Hpath IH].
  - by rewrite (root_of_no_parent _ _ Hn Hp).
  - destruct ids as [|i ids]; [done|]. exact IH.
Qed.

Lemma path_length id ids : path t id ids → (length ids <= size t)%nat.
Proof using Hok.
  intros Hp. rewrite <- size_dom, <- (size_list_to_set (C:=gset CgroupId) ids);
    [|by eapply path_NoDup].
  apply subseteq_size. intros i Hi%elem_of_list_to_set. apply elem_of_dom. by eapply path_elem.
Qed.

(** No other group has a group's scope. *)
Lemma scope_inj i j ni nj :
  t !! i = Some ni → t !! j = Some nj → n_scope ni = n_scope nj → i = j.
Proof using Hok.
  intros Hi Hj Hs. destruct (tr_node _ _ _ _ Hok _ _ Hi) as (_ & _ & _ & Hi' & _).
  destruct (tr_node _ _ _ _ Hok _ _ Hj) as (_ & _ & _ & Hj' & _). congruence.
Qed.
End tree_facts.

Lemma tree_lookup m id g : groups m !! id = Some g → tree m !! id = Some (node g).
Proof. intros H. unfold tree. by rewrite lookup_fmap, H. Qed.

Lemma tree_lookup_inv m id n : tree m !! id = Some n → ∃ g, groups m !! id = Some g ∧ n = node g.
Proof. unfold tree. rewrite lookup_fmap, fmap_Some. naive_solver. Qed.

Lemma hierarchy_loop_path m id ids fuel gids sids acc :
  tree_wf m → path (tree m) id ids → (length ids < fuel)%nat →
  (∀ i, i ∈ ids → i ∉ gids) →
  (∀ i n, i ∈ ids → tree m !! i = Some n → n_scope n ∉ sids) →
  ∃ gs, hierarchy_loop fuel m (Some id) gids sids acc = Some (Ok (gs ++ acc)) ∧
    cg_id <$> gs = reverse ids ∧ Forall (λ g, groups m !! cg_id g = Some g) gs.
Proof.
  intros Hwf Hpath. revert fuel gids sids acc.
  induction Hpath as [id n Hn Hp|id n p ids Hn Hp Hpath IH]; intros [|fuel] gids sids acc Hf Hg Hs;
    cbn [length] in Hf; try lia; cbn [hierarchy_loop];
    rewrite (bool_decide_eq_false_2 (id ∈ gids)) by (apply Hg; left);
    destruct (tree_lookup_inv _ _ _ Hn) as (g & Hgid & ->); rewrite Hgid; cbn in Hp;
    destruct (tr_node _ _ _ _ Hwf _ _ Hn) as (Hid & _ & Hv & _); cbn in Hid, Hv; rewrite Hv;
    rewrite (bool_decide_eq_false_2 (quota_scope g ∈ sids)) by (eapply (Hs id (node g)); [left|done]);
    rewrite Hp.
  - destruct fuel as [|fuel]; [lia|]. exists [g]. cbn. rewrite Hid. split_and!; [done..|].
    repeat constructor. by rewrite Hid.
  - destruct (IH fuel ({[id]} ∪ gids) ({[quota_scope g]} ∪ sids) (g :: acc)) as (gs & Hloop & Hids & Hall).
    + lia.
    + intros i Hi. apply not_elem_of_union. split; [|apply Hg; by right].
      apply not_elem_of_singleton. intros ->.
      pose proof (path_NoDup _ _ _ _ Hwf _ _ (path_step _ _ _ _ _ Hn Hp Hpath)) as [Hni _]%NoDup_cons.
      done.
    + intros i n' Hi Hn'. apply not_elem_of_union. split; [|eapply Hs; [by right|done]].
      apply not_elem_of_singleton. intros Heq.
      pose proof (scope_inj _ _ _ _ Hwf _ _ _ _ Hn' Hn Heq) as ->.
      pose proof (path_NoDup _ _ _ _ Hwf _ _ (path_step _ _ _ _ _ Hn Hp Hpath)) as [Hni _]%NoDup_cons.
      done.
    + exists (gs ++ [g]). rewrite Hloop, <- (assoc_L (++)), fmap_app, Hids, reverse_cons. cbn.
      rewrite Hid. split_and!; [done..|]. apply Forall_app. split; [done|].
      repeat constructor. by rewrite Hid.
Qed.

(** On a well-formed tree the walk returns the chain of any existing group, root first. *)
Lemma hierarchy_exists m id g :
  tree_wf m → groups m !! id = Some g →
  ∃ ids gs, path (tree m) id ids ∧ hierarchy_unlocked m id = Ok gs ∧
    cg_id <$> gs = reverse ids ∧ last gs = Some g ∧
    Forall (λ g, groups m !! cg_id g = Some g) gs.
Proof.
  intros Hwf Hg. pose proof (tree_lookup _ _ _ Hg) as Hn.
  destruct (path_exists _ _ _ _ Hwf id) as [ids Hpath]; [eauto|].
  destruct (hierarchy_loop_path m id ids (hierarchy_fuel m) ∅ ∅ [] Hwf Hpath) as (gs & Hloop & Hids & Hall).
  - pose proof (path_length _ _ _ _ Hwf _ _ Hpath) as Hl. unfold hierarchy_fuel.
    unfold tree in Hl. rewrite map_size_fmap in Hl. lia.
  - set_solver.
  - set_solver.
  - exists ids, gs. rewrite app_nil_r in Hloop.
    assert (last gs = Some g) as Hlast.
    { assert (last (cg_id <$> gs) = Some id) as Hl.
      { rewrite Hids, last_reverse. by eapply path_head. }
      rewrite fmap_last in Hl. destruct (last gs) as [g'|] eqn:Hg'; [|done]. injection Hl as Hl.
      rewrite Forall_forall in Hall. specialize (Hall g' (last_Some_elem_of _ _ Hg')). congruence. }
    split_and!; [done| |done..]. unfold hierarchy_unlocked. rewrite Hloop.
    assert (cg_id <$> head gs = head (cg_id <$> gs)) as -> by (by destruct gs).
    rewrite Hids, head_reverse, (path_last _ _ _ _ Hwf _ _ Hpath).
    by rewrite bool_decide_eq_true_2.
Qed.

Lemma hierarchy_missing m id :
  groups m !! id = None → hierarchy_unlocked m id = Err (GroupNotFound id).
Proof.
  intros Hid. unfold hierarchy_unlocked, hierarchy_fuel. cbn [hierarchy_loop].
  rewrite (bool_decide_eq_false_2 (id ∈ ∅)) by set_solver. by rewrite Hid.
Qed.

(** The fuel is enough on every state, well formed or not. *)
Lemma hierarchy_loop_fuel fuel m cur gids sids acc :
  gids ⊆ dom (groups m) → (size (groups m) < size gids + fuel)%nat →
  is_Some (hierarchy_loop fuel m cur gids sids acc).
Proof.
  revert cur gids sids acc. induction fuel as [|fuel IH]; intros cur gids sids acc Hsub Hf.
  { apply subseteq_size in Hsub. rewrite size_dom in Hsub. lia. }
  cbn [hierarchy_loop]. destruct cur as [id|]; [|eauto].
  case_bool_decide as Hid; [eauto|]. destruct (groups m !! id) as [g|] eqn:Hg; [|eauto].
  destruct (validate_scope _); [|eauto]. case_bool_decide; [eauto|].
  apply IH.
  - apply elem_of_dom_2 in Hg. set_solver.
  - rewrite size_union, size_singleton by set_solver. lia.
Qed.

(** ** Structural changes preserve the tree *)

Definition node_children (f : list CgroupId → list CgroupId) (n : Node) : Node :=
  mkNode (n_id n) (n_parent n) (f (n_children n)) (n_scope n).

Lemma tree_ok_create next t idx r p pn s :
  tree_ok next t idx r → 0 <= next → t !! p = Some pn → idx !! s = None →
  validate_scope s = Ok tt →
  tree_ok (next + 1)
    (<[p := node_children (λ cs, cs ++ [next]) pn]> (<[next := mkNode next (Some p) [] s]> t))
    (<[s := next]> idx) r.
Proof.
  intros Hok H0 Hp Hs Hv.
  assert (∀ i n, t !! i = Some n → i < next) as Hlt.
  { intros i n Hi. destruct (tr_node _ _ _ _ Hok _ _ Hi). lia. }
  pose proof (Hlt _ _ Hp) as Hpn.
  assert (∀ c, c ∈ n_children pn → c < next) as Hcl.
  { intros c Hc. destruct (tr_child _ _ _ _ Hok _ _ _ Hp Hc) as (cn & Hcn & _). eauto. }
  set (t' := <[p := _]> _).
  assert (∀ i n, t !! i = Some n → ∃ n', t' !! i = Some n' ∧ n_id n' = n_id n ∧
    n_parent n' = n_parent n ∧ n_scope n' = n_scope n ∧
    ∀ c, c ∈ n_children n → c ∈ n_children n') as Hkeep.
  { intros i n Hi. pose proof (Hlt _ _ Hi). unfold t'. destruct (decide (i = p)) as [->|Hne].
    - simplify_eq. eexists. rewrite lookup_insert_eq. split_and!; [done..|]. cbn. set_solver.
    - exists n. rewrite !lookup_insert_ne by lia. done. }
  split.
  - destruct (tr_root _ _ _ _ Hok) as (n & Hn & Hpar).
    destruct (Hkeep _ _ Hn) as (n' & Hn' & _ & Hpar' & _). exists n'. split; congruence.
  - intros i n [[<- <-]|[_ [[<- <-]|[_ Hi]]%lookup_insert_Some]]%lookup_insert_Some; cbn.
    + destruct (tr_node _ _ _ _ Hok _ _ Hp) as (? & ? & ? & Hidx & ?). split_and!; [done|lia..|done| |].
      * rewrite lookup_insert_ne; [done|congruence].
      * apply NoDup_app. split_and!; [done| |apply NoDup_singleton].
        intros c Hc%Hcl ->%list_elem_of_singleton. lia.
    + split_and!; [done|lia..|done|apply lookup_insert_eq|constructor].
    + destruct (tr_node _ _ _ _ Hok _ _ Hi) as (? & ? & ? & Hidx & ?). split_and!; [done|lia..|done| |done].
      rewrite lookup_insert_ne; [done|congruence].
  - intros s' i [[<- <-]|[_ Hi]]%lookup_insert_Some.
    + eexists. unfold t'. rewrite lookup_insert_ne, lookup_insert_eq by lia. done.
    + destruct (tr_index _ _ _ _ Hok _ _ Hi) as (n & Hn & <-).
      destruct (Hkeep _ _ Hn) as (n' & ? & ? & ? & ? & ?). eauto.
  - intros i n [[<- <-]|[_ [[<- <-]|[_ Hi]]%lookup_insert_Some]]%lookup_insert_Some Hr.
    + destruct (tr_parent _ _ _ _ Hok _ _ Hp Hr) as (q & qn & Hq & Hlq & Hqn & Hc).
      destruct (Hkeep _ _ Hqn) as (n' & Hn' & _ & _ & _ & Hsub). eauto 7.
    + exists p. eexists. cbn. split_and!; [done|lia|apply lookup_insert_eq|]. cbn. set_solver.
    + destruct (tr_parent _ _ _ _ Hok _ _ Hi Hr) as (q & qn & Hq & Hlq & Hqn & Hc).
      destruct (Hkeep _ _ Hqn) as (n' & Hn' & _ & _ & _ & Hsub). eauto 7.
  - intros i n c [[<- <-]|[_ [[<- <-]|[_ Hi]]%lookup_insert_Some]]%lookup_insert_Some; cbn.
    + intros [Hc| ->%list_elem_of_singleton]%elem_of_app.
      * destruct (tr_child _ _ _ _ Hok _ _ _ Hp Hc) as (cn & Hcn & Hcp).
        destruct (Hkeep _ _ Hcn) as (n' & ? & _ & ? & _). exists n'. split; congruence.
      * eexists. unfold t'. rewrite lookup_insert_ne, lookup_insert_eq by lia. done.
    + by intros ?%elem_of_nil.
    + intros Hc. destruct (tr_child _ _ _ _ Hok _ _ _ Hi Hc) as (cn & Hcn & Hcp).
      destruct (Hkeep _ _ Hcn) as (n' & ? & _ & ? & _). exists n'. split; congruence.
Qed.

Lemma tree_ok_remove next t idx r id n p pn :
  tree_ok next t idx r → id ≠ r → t !! id = Some n → n_children n = [] →
  n_parent n = Some p → t !! p = Some pn →
  tree_ok next (delete id (<[p := node_children (retain (λ c, negb (c =? id))) pn]> t))
    (delete (n_scope n) idx) r.
Proof.
  intros Hok Hr Hn Hleaf Hpar Hp.
  destruct (parent_lt _ _ _ _ Hok _ _ _ Hn Hpar) as [Hlt _].
  assert (∀ c l, c ∈ retain (λ c, negb (c =? id)) l ↔ c ∈ l ∧ c ≠ id) as Hret.
  { intros c l. rewrite elem_of_retain, negb_true_iff, Z.eqb_neq. done. }
  set (t' := delete id _).
  assert (∀ i m, t !! i = Some m → i ≠ id → ∃ m', t' !! i = Some m' ∧
    n_parent m' = n_parent m ∧ n_scope m' = n_scope m ∧
    ∀ c, c ∈ n_children m → c ≠ id → c ∈ n_children m') as Hkeep.
  { intros i m Hi Hne. unfold t'. rewrite lookup_delete_ne by done. destruct (decide (i = p)) as [->|].
    - simplify_eq. eexists. rewrite lookup_insert_eq. split_and!; [done..|]. cbn. naive_solver.
    - exists m. rewrite lookup_insert_ne by done. naive_solver. }
  assert (∀ i m, t' !! i = Some m → i ≠ id ∧ ∃ m0, t !! i = Some m0 ∧ n_id m = n_id m0 ∧
    n_parent m = n_parent m0 ∧ n_scope m = n_scope m0 ∧ (NoDup (n_children m0) → NoDup (n_children m)) ∧
    ∀ c, c ∈ n_children m → c ∈ n_children m0 ∧ (i = p → c ≠ id)) as Hback.
  { intros i m [Hne [[<- <-]|[? Hi]]%lookup_insert_Some]%lookup_delete_Some; (split; [done|]).
    - exists pn. split_and!; [done..|apply NoDup_retain|]. cbn. naive_solver.
    - exists m. naive_solver. }
  split.
  - destruct (tr_root _ _ _ _ Hok) as (m & Hm & Hmp).
    destruct (Hkeep _ _ Hm) as (m' & ? & ? & _); [done|]. exists m'. split; congruence.
  - intros i m Hi. destruct (Hback _ _ Hi) as (Hne & m0 & Hm0 & -> & _ & Hs & Hnd & _).
    destruct (tr_node _ _ _ _ Hok _ _ Hm0) as (? & ? & ? & Hidx & ?). rewrite Hs.
    split_and!; [done|lia..|done| |auto].
    rewrite lookup_delete_ne; [done|]. intros Heq. apply Hne. by eapply scope_inj.
  - intros s i [Hs Hi]%lookup_delete_Some.
    destruct (tr_index _ _ _ _ Hok _ _ Hi) as (m & Hm & <-).
    destruct (Hkeep _ _ Hm) as (m' & ? & _ & ? & _); [|eauto]. intros ->. congruence.
  - intros i m Hi Hir. destruct (Hback _ _ Hi) as (Hne & m0 & Hm0 & _ & Hmp & _).
    destruct (tr_parent _ _ _ _ Hok _ _ Hm0 Hir) as (q & qn & Hq & Hlq & Hqn & Hc).
    destruct (decide (q = id)) as [->|Hqid].
    { simplify_eq. rewrite Hleaf in Hc. by apply elem_of_nil in Hc. }
    destruct (Hkeep _ _ Hqn Hqid) as (qn' & Hqn' & _ & _ & Hsub). exists q, qn'.
    split_and!; [congruence|lia|done|auto].
  - intros i m c Hi Hc. destruct (Hback _ _ Hi) as (Hne & m0 & Hm0 & _ & _ & _ & _ & Hsub).
    destruct (Hsub _ Hc) as [Hc0 Hcid].
    destruct (tr_child _ _ _ _ Hok _ _ _ Hm0 Hc0) as (cn & Hcn & Hcp).
    destruct (Hkeep _ _ Hcn) as (cn' & ? & ? & _); [|exists cn'; split; congruence].
    intros ->. simplify_eq. by apply Hcid.
Qed.

(** ** Derived scopes are unambiguous *)

(** The decoder of escaped segments: [~0] is a tilde, [~1] a slash. *)
Fixpoint unescape (s : string) : string :=
  match s with
  | EmptyString => EmptyString
  | String c s1 =>
      if Ascii.eqb c "~"%char then
        match s1 with
        | EmptyString => s
        | String d s2 =>
            if Ascii.eqb d "0"%char then String "~"%char (unescape s2)
            else if Ascii.eqb d "1"%char then String "/"%char (unescape s2)
            else String c (unescape s1)
        end
      else String c (unescape s1)
  end.

Definition escape (s : string) : string := replace_char "/"%char "~1" (replace_char "~"%char "~0" s).

Lemma escape_cons c s :
  escape (String c s) =
  (if Ascii.eqb c "~"%char then "~0" else if Ascii.eqb c "/"%char then "~1" else String c EmptyString)
  +:+ escape s.
Proof.
  unfold escape. cbn [replace_char]. destruct (Ascii.eqb_spec c "~"%char) as [->|Hc]; [done|].
  rewrite app_cons_string. cbn [replace_char]. by destruct (Ascii.eqb_spec c "/"%char).
Qed.

Lemma unescape_escape s : unescape (escape s) = s.
Proof.
  induction s as [|c s IH]; [done|]. rewrite escape_cons.
  destruct (Ascii.eqb_spec c "~"%char) as [->|Hc]; [rewrite !app_cons_string; cbn; by rewrite app_empty_string, IH|].
  destruct (Ascii.eqb_spec c "/"%char) as [->|Hs]; [rewrite !app_cons_string; cbn; by rewrite app_empty_string, IH|].
  rewrite app_cons_string, app_empty_string. cbn [unescape].
  destruct (Ascii.eqb_spec c "~"%char); [done|]. by rewrite IH.
Qed.

Lemma string_contains_app c s u :
  string_contains c (s +:+ u) = string_contains c s || string_contains c u.
Proof.
  induction s as [|d s IH]; [done|]. rewrite app_cons_string. cbn [string_contains].
  by rewrite IH, orb_assoc.
Qed.

Lemma escape_no_slash s : string_contains "/"%char (escape s) = false.
Proof.
  induction s as [|c s IH]; [done|]. rewrite escape_cons, string_contains_app, IH, orb_false_r.
  destruct (Ascii.eqb_spec c "~"%char) as [->|]; [done|].
  destruct (Ascii.eqb_spec c "/"%char) as [->|Hc]; [done|]. cbn.
  by destruct (Ascii.eqb_spec c "/"%char).
Qed.

(** The last slash of a string splits it in one way. *)
Lemma last_slash_inj a b s u :
  string_contains "/"%char s = false → string_contains "/"%char u = false →
  a +:+ "/" +:+ s = b +:+ "/" +:+ u → a = b ∧ s = u.
Proof.
  intros Hs Hu. revert b. induction a as [|c a IH]; intros [|d b].
  - rewrite !app_cons_string, !app_empty_string. by intros [= ->].
  - rewrite !app_cons_string, !app_empty_string. intros [= <- Heq]. exfalso.
    rewrite Heq, !string_contains_app in Hs. cbn in Hs. by rewrite orb_true_r in Hs.
  - rewrite !app_cons_string, !app_empty_string. intros [= -> Heq]. exfalso.
    rewrite <- Heq, !string_contains_app in Hu. cbn in Hu. by rewrite orb_true_r in Hu.
  - rewrite !app_cons_string. intros [= -> Heq]. by destruct (IH b Heq) as [-> ->].
Qed.

(** Derived scopes identify the group: two derivations from valid parent scopes yield the
    same scope only if parent scope and group name are equal, whatever slashes and tildes the names
    contain (so a derived scope can be persisted across restarts). *)
Theorem derived_scope_injective (p1 p2 n1 n2 s1 s2 : string) :
  validate_scope p1 = Ok tt → validate_scope p2 = Ok tt →
  escape_scope_segment n1 = Ok s1 → escape_scope_segment n2 = Ok s2 →
  derived_scope p1 s1 = derived_scope p2 s2 → p1 = p2 ∧ n1 = n2.
Proof.
  intros H1 H2 E1 E2 Heq.
  assert (∀ n s, escape_scope_segment n = Ok s → s = escape n) as Hesc.
  { intros n s. unfold escape_scope_segment. case_bool_decide; [done|]. by intros [= <-]. }
  apply Hesc in E1 as ->. apply Hesc in E2 as ->.
  assert (∀ p, validate_scope p = Ok tt → ∃ q, (if bool_decide (p = "/") then q = EmptyString else q = p) ∧
    ∀ s, derived_scope p s = q +:+ "/" +:+ s) as Hq.
  { intros p Hp. unfold derived_scope. case_bool_decide; [by exists EmptyString|by exists p]. }
  destruct (Hq p1 H1) as (q1 & Hq1 & D1), (Hq p2 H2) as (q2 & Hq2 & D2). rewrite D1, D2 in Heq.
  apply last_slash_inj in Heq as [-> Hs]; [|apply escape_no_slash..]. split.
  - assert (∀ p, validate_scope p = Ok tt → p ≠ EmptyString) as Hne by (by intros p Hp ->).
    repeat case_bool_decide; subst; try done; by destruct (Hne EmptyString).
  - by rewrite <- (unescape_escape n1), Hs, unescape_escape.
Qed.

Lemma derived_scope_injective_witness :
  escape_scope_segment "c~/" = Ok "c~0~1" ∧ "/a~1b" = "/a~1b" ∧ "c~/" = "c~/".
Proof.
  split; [reflexivity|].
  apply (derived_scope_injective "/a~1b" "/a~1b" "c~/" "c~/" "c~0~1" "c~0~1"); reflexivity.
Defined.
