(* ===== verification/CgroupInv.v ===== *)
(** * Control groups: reservation accounting over whole histories

    The invariant relating the counters of [Cgroups] to the guards callers hold, and that every
    operation preserves it.  A system is a manager with the guards that have not been dropped. *)

From S2P Require Import Prelude AgentStruct Cgroups.
#[local] Open Scope Z_scope.
#[local] Open Scope kernel_scope.

(** ** Systems *)

Record System := mkSystem { manager : CgroupManager; guards : list ToolCallGuard }.

Inductive CgOp :=
| OCreate (name : string) (parent : CgroupId) (scope : string) (limits : CgroupLimits)
| OTryCreate (name : string) (parent : CgroupId) (limits : CgroupLimits)
| OAddAgent (id : CgroupId) (agent : AgentId)
| ORemoveAgent (id : CgroupId) (agent : AgentId)
| OForceRemove (id : CgroupId) (agent : AgentId)
| OMove (source destination : CgroupId) (agent : AgentId)
| ORemoveLeaf (id : CgroupId)
| OUpdateLimits (id : CgroupId) (limits : CgroupLimits)
| OAcquire (id : CgroupId)
| OAcquireFor (id : CgroupId) (agent : AgentId)
| ODrop (i : nat)
| OElsewhere.

Definition keep (r : result CgroupError ToolCallGuard * CgroupManager) (gs : list ToolCallGuard) :
    System :=
  mkSystem r.2 (match r.1 with Ok g => g :: gs | Err _ => gs end).

(** One operation; [OElsewhere] is another manager of the process drawing a cgroup id. *)
Definition exec_cg (s : System) (o : CgOp) : System :=
  let m := manager s in
  let gs := guards s in
  match o with
  | OCreate name parent scope limits => mkSystem (create_scoped name parent scope limits m).2 gs
  | OTryCreate name parent limits => mkSystem (try_create name parent limits m).2 gs
  | OAddAgent id a => mkSystem (add_agent id a m).2 gs
  | ORemoveAgent id a => mkSystem (try_remove_agent id a m).2 gs
  | OForceRemove id a => mkSystem (force_remove_agent id a m).2 gs
  | OMove src dst a => mkSystem (try_move_agent src dst a m).2 gs
  | ORemoveLeaf id => mkSystem (try_remove_empty_leaf id m).2 gs
  | OUpdateLimits id l => mkSystem (update_limits id l m).2 gs
  | OAcquire id => keep (acquire_tool_call_checked id m) gs
  | OAcquireFor id a => keep (acquire_tool_call_for_agent id a m) gs
  | ODrop i =>
      match gs !! i with
      | None => s
      | Some g => mkSystem (release_tool_call g m) (remove_at i gs)
      end
  | OElsewhere => mkSystem (with_index (wrap64 (next_cgroup_id m + 1)) (scope_index m) m) gs
  end.

(** ** What the counters count *)

(** A guard still counts unless its agent's generation was revoked. *)
Definition live (m : CgroupManager) (g : ToolCallGuard) : bool :=
  match agent_reservation g with
  | None => true
  | Some (_, addr) => bool_decide (gen_heap m !! addr = Some true)
  end.

Definition of_agent (a : AgentId) (g : ToolCallGuard) : bool :=
  match agent_reservation g with Some (a', _) => a' =? a | None => false end.

Definition slots (m : CgroupManager) (gs : list ToolCallGuard) (id : CgroupId) : Z :=
  Z.of_nat (count_if (λ g, live m g && zmem id (g_cgroups g)) gs).

Definition agent_slots (m : CgroupManager) (gs : list ToolCallGuard) (a : AgentId) : Z :=
  Z.of_nat (count_if (λ g, live m g && of_agent a g) gs).

(** ** The invariant *)

Record group_ok (n : Z) (g : Cgroup) : Prop := {
  go_members : NoDup (cg_members g);
  go_count : agent_count (cg_usage g) = Z.min (Z.of_nat (length (cg_members g))) u32_max;
  go_max_agents : 0 < max_agents (cg_limits g) < u32_max →
    Z.of_nat (length (cg_members g)) <= max_agents (cg_limits g);
  go_active : active_tool_calls (cg_usage g) = n;
  go_limit : 0 < max_concurrent_tool_calls (cg_limits g) →
    n <= max_concurrent_tool_calls (cg_limits g);
  go_context : context_tokens (cg_usage g) = 0 }.

Record guard_ok (m : CgroupManager) (g : ToolCallGuard) : Prop := {
  gu_alloc : ∀ a addr, agent_reservation g = Some (a, addr) → is_Some (gen_heap m !! addr);
  gu_path : live m g = true → ∃ id ids, path (tree m) id ids ∧ g_cgroups g = reverse ids ∧
    ∀ a addr, agent_reservation g = Some (a, addr) →
      tool_call_generations m !! a = Some addr ∧
      ∃ grp, groups m !! id = Some grp ∧ a ∈ cg_members grp }.

Record gens_ok (m : CgroupManager) : Prop := {
  ge_true : ∀ a addr, tool_call_generations m !! a = Some addr → gen_heap m !! addr = Some true;
  ge_inj : ∀ a b addr, tool_call_generations m !! a = Some addr →
    tool_call_generations m !! b = Some addr → a = b;
  ge_heap : ∀ addr b, gen_heap m !! addr = Some b → addr < gen_next m }.

(** An agent is a member of at most one group. *)
Definition single_home (m : CgroupManager) : Prop :=
  ∀ i j gi gj a, groups m !! i = Some gi → groups m !! j = Some gj →
    a ∈ cg_members gi → a ∈ cg_members gj → i = j.

Record sys_ok (m : CgroupManager) (gs : list ToolCallGuard) : Prop := {
  so_tree : tree_wf m;
  so_groups : map_Forall (λ id g, group_ok (slots m gs id) g) (groups m);
  so_home : single_home m;
  so_gens : gens_ok m;
  so_agents : ∀ a, active_tool_calls_by_agent m !! a =
    (if agent_slots m gs a =? 0 then None else Some (agent_slots m gs a));
  so_guards : Forall (guard_ok m) gs }.

(** ** Frame lemmas *)

Lemma lookup_adjust f ids gs i :
  NoDup ids → adjust f ids gs !! i = (if zmem i ids then f <$> gs !! i else gs !! i).
Proof.
  unfold adjust. intros Hnd. revert gs. induction Hnd as [|id ids Hid _ IH]; intros gs; [done|].
  cbn [foldl]. rewrite IH. cbn [zmem existsb]. fold (zmem i ids).
  destruct (Z.eqb_spec i id) as [->|Hne]; cbn [orb].
  - rewrite lookup_alter_eq. apply zmem_false in Hid. by rewrite Hid.
  - by rewrite lookup_alter_ne.
Qed.

Lemma node_alter f id (gs : gmap CgroupId Cgroup) :
  (∀ g, node (f g) = node g) → node <$> alter f id gs = node <$> gs.
Proof.
  intros Hf. apply map_eq. intros i. rewrite !lookup_fmap.
  destruct (decide (i = id)) as [->|]; [|by rewrite lookup_alter_ne].
  rewrite lookup_alter_eq. destruct (gs !! id); cbn; [|done]. by rewrite Hf.
Qed.

Lemma node_adjust f ids (gs : gmap CgroupId Cgroup) :
  (∀ g, node (f g) = node g) → node <$> adjust f ids gs = node <$> gs.
Proof.
  intros Hf. unfold adjust. revert gs. induction ids as [|id ids IH]; intros gs; [done|].
  cbn [foldl]. by rewrite IH, node_alter.
Qed.

Lemma path_frame t t' id ids :
  path t id ids → (∀ i, i ∈ ids → n_parent <$> t' !! i = n_parent <$> t !! i) → path t' id ids.
Proof.
  induction 1 as [id n Hn Hp|id n p ids Hn Hp Hpath IH]; intros Ht.
  - pose proof (Ht id ltac:(left)) as H. rewrite Hn in H; cbn in H; apply fmap_Some in H as (n' & Hn' & Heq).
    eapply path_root; [done|]. congruence.
  - pose proof (Ht id ltac:(left)) as H. rewrite Hn in H; cbn in H; apply fmap_Some in H as (n' & Hn' & Heq).
    apply (path_step _ _ n' p); [done|congruence|]. apply IH. intros i Hi. apply Ht. by right.
Qed.

Lemma slots_heap m m' gs id : gen_heap m' = gen_heap m → slots m' gs id = slots m gs id.
Proof. intros H. unfold slots, live. by rewrite H. Qed.

Lemma agent_slots_heap m m' gs a : gen_heap m' = gen_heap m → agent_slots m' gs a = agent_slots m gs a.
Proof. intros H. unfold agent_slots, live. by rewrite H. Qed.

Lemma slots_nonneg m gs id : 0 <= slots m gs id.
Proof. unfold slots. lia. Qed.

Lemma slots_le_guards m gs id : slots m gs id <= Z.of_nat (length gs).
Proof. unfold slots. pose proof (count_le_length (λ g, live m g && zmem id (g_cgroups g)) gs). lia. Qed.

(** A live guard of an agent shows in the agent's counter. *)
Lemma idle_agent_no_guard m gs a g :
  sys_ok m gs → has_active_agent_tool_calls m a = false → g ∈ gs → live m g = true →
  of_agent a g = false.
Proof.
  intros Hok Hidle Hg Hl. unfold has_active_agent_tool_calls in Hidle.
  rewrite (so_agents _ _ Hok) in Hidle. destruct (Z.eqb_spec (agent_slots m gs a) 0) as [H0|Hne].
  - unfold agent_slots in H0. assert (count_if (λ g, live m g && of_agent a g) gs = O) as Hc by lia.
    rewrite count_zero in Hc. specialize (Hc g Hg). by rewrite Hl in Hc.
  - unfold agent_slots in *. lia.
Qed.

Lemma hierarchy_Ok m id gs :
  tree_wf m → hierarchy_unlocked m id = Ok gs →
  ∃ g ids, groups m !! id = Some g ∧ path (tree m) id ids ∧ cg_id <$> gs = reverse ids ∧
    last gs = Some g ∧ Forall (λ g, groups m !! cg_id g = Some g) gs.
Proof.
  intros Hwf Hh. destruct (groups m !! id) as [g|] eqn:Hg.
  - destruct (hierarchy_exists m id g Hwf Hg) as (ids & gs' & ? & Hh' & ?).
    rewrite Hh in Hh'. injection Hh' as <-. naive_solver.
  - rewrite (hierarchy_missing _ _ Hg) in Hh. done.
Qed.

Definition busy (m : CgroupManager) (gs : list ToolCallGuard) (a : AgentId) : Prop :=
  ∃ g, g ∈ gs ∧ live m g = true ∧ of_agent a g = true.

Lemma of_agent_spec a g : of_agent a g = true ↔ ∃ addr, agent_reservation g = Some (a, addr).
Proof.
  unfold of_agent. destruct (agent_reservation g) as [[a' addr]|]; [|naive_solver].
  rewrite Z.eqb_eq. naive_solver.
Qed.

Lemma idle_not_busy m gs a : sys_ok m gs → has_active_agent_tool_calls m a = false → ¬ busy m gs a.
Proof.
  intros Hok Hidle (g & Hg & Hl & Ha).
  by rewrite (idle_agent_no_guard _ _ _ _ Hok Hidle Hg Hl) in Ha.
Qed.

(** Operations that change neither the tree nor the reservations: what is left to show. *)
Lemma sys_ok_frame m m' gs :
  sys_ok m gs →
  next_cgroup_id m <= next_cgroup_id m' → scope_index m' = scope_index m → root m' = root m →
  tree m' = tree m → gen_heap m' = gen_heap m → gen_next m' = gen_next m →
  active_tool_calls_by_agent m' = active_tool_calls_by_agent m →
  map_Forall (λ id g, group_ok (slots m gs id) g) (groups m') →
  single_home m' →
  tool_call_generations m' ⊆ tool_call_generations m →
  (∀ a, busy m gs a →
    tool_call_generations m' !! a = tool_call_generations m !! a ∧
    ∀ i g, groups m !! i = Some g → a ∈ cg_members g →
      ∃ g', groups m' !! i = Some g' ∧ a ∈ cg_members g') →
  sys_ok m' gs.
Proof.
  intros Hok Hnext Hidx Hroot Htree Hheap Hgn Hact Hgroups Hhome Hgens Hbusy.
  assert (∀ g, live m' g = live m g) as Hlive by (intros g; unfold live; by rewrite Hheap).
  split.
  - destruct (so_tree _ _ Hok) as [H1 H2 H3 H4 H5]. unfold tree_wf. rewrite Htree, Hidx, Hroot.
    split; [done| |done..]. intros id n Hn. destruct (H2 id n Hn) as (? & ? & ? & ? & ?).
    split_and!; (done || lia).
  - eapply map_Forall_impl; [exact Hgroups|]. intros id g. cbn. by rewrite (slots_heap m m').
  - done.
  - destruct (so_gens _ _ Hok) as [Hg1 Hg2 Hg3]. split.
    + intros a addr Ha. rewrite Hheap. eapply Hg1, lookup_weaken; done.
    + intros a b addr Ha Hb. eapply Hg2; eapply lookup_weaken; done.
    + intros addr b. rewrite Hheap, Hgn. apply Hg3.
  - intros a. rewrite Hact, (agent_slots_heap m m') by done. apply (so_agents _ _ Hok).
  - pose proof (so_guards _ _ Hok) as Hguards. rewrite Forall_forall in Hguards |- *. intros g Hg.
    destruct (Hguards g Hg) as [Halloc Hpath]. split; [by rewrite Hheap|].
    rewrite Hlive. intros Hl. destruct (Hpath Hl) as (id & ids & Hp & Hids & Hres).
    exists id, ids. rewrite Htree. split_and!; [done..|]. intros a addr Ha.
    destruct (Hres a addr Ha) as (Hgen & grp & Hgrp & Hmem).
    destruct (Hbusy a) as [Hgen' Hmem'].
    { exists g. split_and!; [done..|]. apply of_agent_spec. eauto. }
    rewrite Hgen'. split; [done|]. by eapply Hmem'.
Qed.

(** A group whose members changed and whose agent count was recomputed. *)
Lemma group_ok_members n g ms :
  group_ok n g → NoDup ms →
  (0 < max_agents (cg_limits g) < u32_max → Z.of_nat (length ms) <= max_agents (cg_limits g)) →
  group_ok n (set_members ms g).
Proof. intros [] ? ?. by split. Qed.

Lemma swap_remove_members i (ms : list AgentId) a :
  NoDup ms → position (λ x, x =? a) ms = Some i →
  NoDup (swap_remove i ms) ∧ (length (swap_remove i ms) < length ms)%nat ∧
  ∀ b, b ∈ swap_remove i ms ↔ b ∈ ms ∧ b ≠ a.
Proof.
  intros Hnd Hi%position_zeqb. pose proof (swap_remove_perm _ _ _ Hi) as Hperm.
  rewrite Hperm in Hnd. apply NoDup_cons in Hnd as [Hni Hnd]. split_and!; [done| |].
  - apply Permutation_length in Hperm. simpl in Hperm. lia.
  - intros b. rewrite (elem_of_Permutation_proper b _ _ Hperm), elem_of_cons.
    split; [|naive_solver]. intros Hb. split; [by right|]. by intros ->.
Qed.

Lemma lookup_alter_cases (f : Cgroup → Cgroup) (gs : gmap CgroupId Cgroup) id i g' :
  alter f id gs !! i = Some g' →
  ∃ g, gs !! i = Some g ∧ ((i = id ∧ g' = f g) ∨ (i ≠ id ∧ g' = g)).
Proof.
  destruct (decide (i = id)) as [->|Hne].
  - rewrite lookup_alter_eq, fmap_Some. intros (g & ? & ->). eauto 6.
  - rewrite lookup_alter_ne by done. eauto 6.
Qed.

Lemma map_Forall_alter_ok P (f : Cgroup → Cgroup) (gs : gmap CgroupId Cgroup) id :
  map_Forall P gs → (∀ g, gs !! id = Some g → P id g → P id (f g)) → map_Forall P (alter f id gs).
Proof.
  intros Hall Hf i g' (g & Hg & [[-> ->]|[_ ->]])%lookup_alter_cases; [|by apply Hall].
  apply Hf; [done|by apply Hall].
Qed.

(** Whether an agent is in no group at all. *)
Definition homeless (m : CgroupManager) (a : AgentId) : bool :=
  forallb (λ e : CgroupId * Cgroup, negb (zmem a (cg_members e.2))) (map_to_list (groups m)).

Lemma homeless_spec m a :
  homeless m a = true ↔ ∀ i g, groups m !! i = Some g → a ∉ cg_members g.
Proof.
  unfold homeless. rewrite forallb_forall. setoid_rewrite <- list_elem_of_In.
  setoid_rewrite negb_true_iff. setoid_rewrite zmem_false. split.
  - intros H i g Hi%elem_of_map_to_list. apply (H _ Hi).
  - intros H [i g] Hi%elem_of_map_to_list. by eapply H.
Qed.

(** ** Membership and limit changes *)

Lemma sys_ok_add m gs id a :
  sys_ok m gs → homeless m a = true → sys_ok (add_agent id a m).2 gs.
Proof.
  intros Hok Hhl. unfold add_agent.
  destruct (hierarchy_unlocked m id); [|done]. destruct (groups m !! id) as [g|] eqn:Hg; [|done].
  cbn [ok_or]. destruct (zmem a (cg_members g)) eqn:Hmem; [done|].
  destruct ((0 <? _) && _) eqn:Hmax; [done|]. cbn [snd].
  rewrite homeless_spec in Hhl. apply zmem_false in Hmem.
  apply (sys_ok_frame m); try done.
  - by apply node_alter.
  - apply map_Forall_alter_ok; [apply (so_groups _ _ Hok)|]. intros g' Hg' Hgo.
    simplify_eq. apply group_ok_members; [done| |].
    + apply NoDup_app. split_and!; [apply Hgo| |apply NoDup_singleton].
      intros x Hx ->%list_elem_of_singleton. done.
    + intros Hr. rewrite (go_count _ _ Hgo) in Hmax. rewrite length_app. simpl. lia.
  - intros i j gi gj b (gi' & Hi & Hci)%lookup_alter_cases (gj' & Hj & Hcj)%lookup_alter_cases Hbi Hbj.
    assert (∀ k gk gk', groups m !! k = Some gk' →
      k = id ∧ gk = set_members (cg_members g ++ [a]) gk' ∨ k ≠ id ∧ gk = gk' →
      b ∈ cg_members gk → (b = a → k = id) ∧ (b ≠ a → b ∈ cg_members gk')) as Hcase.
    { intros k gk gk' Hk [[-> ->]|[Hne ->]] Hb.
      - simplify_eq. cbn in Hb. set_solver.
      - split; [intros ->; by destruct (Hhl _ _ Hk)|done]. }
    destruct (Hcase _ _ _ Hi Hci Hbi), (Hcase _ _ _ Hj Hcj Hbj).
    destruct (decide (b = a)); [transitivity id; [|symmetry]; auto|].
    eapply (so_home _ _ Hok); eauto.
  - intros b _. split; [done|]. intros i gi Hi Hb. cbn.
    destruct (decide (i = id)) as [->|Hne].
    + rewrite lookup_alter_eq, Hi. eexists; split; [done|]. simplify_eq. cbn. set_solver.
    + rewrite lookup_alter_ne by done. eauto.
Qed.

(** Shrinking memberships keeps homes single. *)
Lemma single_home_shrink m m' :
  single_home m →
  (∀ i g', groups m' !! i = Some g' → ∃ g, groups m !! i = Some g ∧ cg_members g' ⊆ cg_members g) →
  single_home m'.
Proof.
  intros Hh Hsub i j gi gj a Hi Hj Hai Haj.
  destruct (Hsub _ _ Hi) as (gi' & Hi' & Hsi), (Hsub _ _ Hj) as (gj' & Hj' & Hsj).
  eapply Hh; eauto.
Qed.

Lemma sys_ok_try_remove m gs id a : sys_ok m gs → sys_ok (try_remove_agent id a m).2 gs.
Proof.
  intros Hok. unfold try_remove_agent.
  destruct (hierarchy_unlocked m id); [|done].
  destruct (has_active_agent_tool_calls m a) eqn:Hidle; [done|].
  destruct (groups m !! id) as [g|] eqn:Hg; [|done]. cbn [ok_or].
  destruct (position _ _) as [i|] eqn:Hpos; [|done]. cbn [snd].
  pose proof (so_groups _ _ Hok id g Hg) as Hgo.
  destruct (swap_remove_members _ _ _ (go_members _ _ Hgo) Hpos) as (Hnd & Hlen & Hmem).
  apply (sys_ok_frame m); try done; cbn.
  - by apply node_alter.
  - apply map_Forall_alter_ok; [apply (so_groups _ _ Hok)|]. intros g' Hg' _. simplify_eq.
    apply group_ok_members; [done..|]. intros Hr. pose proof (go_max_agents _ _ Hgo Hr). lia.
  - eapply single_home_shrink; [apply (so_home _ _ Hok)|]. cbn.
    intros j g' (g0 & Hg0 & [[-> ->]|[_ ->]])%lookup_alter_cases; exists g0; (split; [done|]);
      [|done]. simplify_eq. cbn. intros b Hb. apply Hmem in Hb. naive_solver.
  - apply delete_subseteq.
  - intros b Hb. assert (b ≠ a) as Hne. { intros ->. by eapply idle_not_busy. }
    split; [by rewrite lookup_delete_ne|]. intros j gj Hj Hbj.
    destruct (decide (j = id)) as [->|].
    + rewrite lookup_alter_eq, Hj. eexists; split; [done|]. simplify_eq. cbn. by apply Hmem.
    + rewrite lookup_alter_ne by done. eauto.
Qed.

Lemma sys_ok_limits m gs id l : sys_ok m gs → sys_ok (update_limits id l m).2 gs.
Proof.
  intros Hok. unfold update_limits. destruct (groups m !! id) as [g|] eqn:Hg; [|done].
  cbn [ok_or]. destruct (check_dimensions _ _) eqn:Hc; [|done]. cbn [snd].
  apply (sys_ok_frame m); try done; cbn.
  - by apply node_alter.
  - apply map_Forall_alter_ok; [apply (so_groups _ _ Hok)|]. intros g' Hg' [H1 H2 H3 H4 H5 H6].
    simplify_eq. cbn [check_dimensions] in Hc.
    destruct ((0 <? max_agents l) && _) eqn:E1; [done|].
    destruct ((0 <? max_concurrent_tool_calls l) && _) eqn:E2; [done|].
    split; cbn [set_limits cg_members cg_usage cg_limits]; [done|done| |done| |done].
    + intros Hr. rewrite H2 in E1. lia.
    + intros Hr. rewrite H4 in E2. lia.
  - eapply single_home_shrink; [apply (so_home _ _ Hok)|]. cbn.
    intros j g' (g0 & Hg0 & [[-> ->]|[_ ->]])%lookup_alter_cases; eauto.
  - intros b _. split; [done|]. intros j gj Hj Hbj. destruct (decide (j = id)) as [->|].
    + rewrite lookup_alter_eq, Hj. eauto.
    + rewrite lookup_alter_ne by done. eauto.
Qed.

Lemma sys_ok_elsewhere m gs :
  sys_ok m gs → next_cgroup_id m < u64_max →
  sys_ok (with_index (wrap64 (next_cgroup_id m + 1)) (scope_index m) m) gs.
Proof.
  intros Hok Hn. apply (sys_ok_frame m); try done; cbn.
  - destruct (tr_root _ _ _ _ (so_tree _ _ Hok)) as (n & Hr & _).
    destruct (tr_node _ _ _ _ (so_tree _ _ Hok) _ _ Hr) as (_ & ? & _).
    rewrite wrap64_small by lia. lia.
  - apply (so_groups _ _ Hok).
  - apply (so_home _ _ Hok).
  - intros a _. split; eauto.
Qed.

Lemma move_commit_eq m src dst a g i :
  src ≠ dst → groups m !! src = Some g → position (λ x, x =? a) (cg_members g) = Some i →
  move_commit src dst a m =
  with_groups (λ gs, alter (set_members (swap_remove i (cg_members g))) src
    (alter (λ g, set_members (cg_members g ++ [a]) g) dst gs)) m.
Proof.
  intros Hne Hg Hi. unfold move_commit. cbn [groups with_groups].
  rewrite lookup_alter_ne, Hg by done. by rewrite Hi.
Qed.

Lemma sys_ok_move_commit m gs src dst a g gd :
  sys_ok m gs → src ≠ dst → groups m !! src = Some g → groups m !! dst = Some gd →
  a ∈ cg_members g → ¬ busy m gs a → a ∉ cg_members gd →
  (0 <? max_agents (cg_limits gd)) && (max_agents (cg_limits gd) <=? agent_count (cg_usage gd)) = false →
  sys_ok (move_commit src dst a m) gs.
Proof.
  intros Hok Hne Hg Hgd Ha Hidle Had Hmax.
  pose proof (so_groups _ _ Hok _ _ Hg) as Hgo. pose proof (so_groups _ _ Hok _ _ Hgd) as Hgod.
  destruct (position_zeqb_is_Some a (cg_members g) Ha) as [i Hi].
  rewrite (move_commit_eq _ _ _ _ _ _ Hne Hg Hi).
  destruct (swap_remove_members _ _ _ (go_members _ _ Hgo) Hi) as (Hnd & Hlen & Hmem).
  assert (∀ k g', alter (set_members (swap_remove i (cg_members g))) src
      (alter (λ g, set_members (cg_members g ++ [a]) g) dst (groups m)) !! k = Some g' →
    ∃ g0, groups m !! k = Some g0 ∧
      ∀ b, b ∈ cg_members g' ↔ (b ∈ cg_members g0 ∧ b ≠ a ∨ b = a ∧ k = dst)) as Hback.
  { intros k g' (g1 & (g0 & Hg0 & H0)%lookup_alter_cases & H1)%lookup_alter_cases.
    exists g0. split; [done|]. intros b.
    destruct H1 as [[-> ->]|[Hks ->]], H0 as [[-> ->]|[Hkd ->]]; simplify_eq; cbn;
      rewrite ?Hmem, ?elem_of_app, ?list_elem_of_singleton; [naive_solver..|].
    split; [|naive_solver]. intros Hb. left. split; [done|]. intros ->.
    apply Hks. by eapply (so_home _ _ Hok). }
  apply (sys_ok_frame m); try done; cbn [with_groups groups].
  - unfold tree. cbn [with_groups groups]. by rewrite !node_alter.
  - apply map_Forall_alter_ok.
    + apply map_Forall_alter_ok; [apply (so_groups _ _ Hok)|]. intros g' Hg' _. simplify_eq.
      apply group_ok_members; [done| |].
      * apply NoDup_app. split_and!; [apply Hgod| |apply NoDup_singleton].
        intros x Hx ->%list_elem_of_singleton. done.
      * intros Hr. rewrite (go_count _ _ Hgod) in Hmax. rewrite length_app. simpl. lia.
    + rewrite lookup_alter_ne by done. intros g' Hg' _. simplify_eq.
      apply group_ok_members; [done..|]. intros Hr. pose proof (go_max_agents _ _ Hgo Hr). lia.
  - intros k j gk gj b (gk0 & Hk0 & Hkb)%Hback (gj0 & Hj0 & Hjb)%Hback.
    rewrite Hkb, Hjb. intros [[Hbk ?]|[-> ->]] [[Hbj ?]|[? ->]]; try done.
    by eapply (so_home _ _ Hok).
  - intros b Hb. split; [done|]. intros k gk Hk Hbk.
    assert (b ≠ a) by (by intros ->).
    destruct (alter _ src _ !! k) as [g'|] eqn:Hg'.
    + destruct (Hback _ _ Hg') as (g0 & Hg0 & Hm). simplify_eq. eexists; split; [done|].
      apply Hm. naive_solver.
    + exfalso. revert Hg'. rewrite !lookup_alter_None. congruence.
Qed.

Lemma sys_ok_move m gs src dst a : sys_ok m gs → sys_ok (try_move_agent src dst a m).2 gs.
Proof.
  intros Hok. unfold try_move_agent.
  destruct (hierarchy_unlocked m src) as [hs|] eqn:Hs; [|done].
  destruct (hierarchy_Ok _ _ _ (so_tree _ _ Hok) Hs) as (g & _ & Hg & _ & _ & Hlast & _).
  rewrite Hlast. cbn [ok_or]. destruct (Z.eqb_spec src dst) as [->|Hne].
  { by destruct (zmem a (cg_members g)). }
  destruct (hierarchy_unlocked m dst) as [hd|] eqn:Hd; [|done].
  destruct (hierarchy_Ok _ _ _ (so_tree _ _ Hok) Hd) as (gd & _ & Hgd & _ & _ & Hlastd & _).
  rewrite Hlastd. cbn [ok_or].
  destruct (zmem a (cg_members g)) eqn:Ha; cbn [negb]; [|done]. apply zmem_spec in Ha.
  destruct (has_active_agent_tool_calls m a) eqn:Hidle; [done|].
  destruct (zmem a (cg_members gd)) eqn:Had; [done|]. apply zmem_false in Had.
  destruct ((0 <? _) && _) eqn:Hmax; [done|]. cbn [snd].
  eapply sys_ok_move_commit; eauto. by apply idle_not_busy.
Qed.

(** ** Structural changes *)

Lemma alter_as_insert (f : Cgroup → Cgroup) id g (gs : gmap CgroupId Cgroup) :
  gs !! id = Some g → alter f id gs = <[id := f g]> gs.
Proof.
  intros Hg. apply map_eq. intros i. destruct (decide (i = id)) as [->|].
  - by rewrite lookup_alter_eq, lookup_insert_eq, Hg.
  - by rewrite lookup_alter_ne, lookup_insert_ne by done.
Qed.

(** What two versions of a group share across a structural change. *)
Definition same_content (g g' : Cgroup) : Prop :=
  cg_members g' = cg_members g ∧ cg_limits g' = cg_limits g ∧ cg_usage g' = cg_usage g.

(** A group as [create_scoped] makes it. *)
Definition fresh_group (g : Cgroup) : Prop := cg_members g = [] ∧ cg_usage g = usage_default.

(** The groups some live guard holds. *)
Definition held (m : CgroupManager) (gs : list ToolCallGuard) (i : CgroupId) : Prop :=
  ∃ g, g ∈ gs ∧ live m g = true ∧ i ∈ g_cgroups g.

Lemma slots_held m gs i : ¬ held m gs i → slots m gs i = 0.
Proof.
  intros Hn. unfold slots.
  enough (count_if (λ g, live m g && zmem i (g_cgroups g)) gs = O) as -> by done.
  apply count_zero. intros g Hg. destruct (live m g) eqn:Hl; [|done].
  apply zmem_false. intros Hi. apply Hn. by exists g.
Qed.

Lemma held_slots m gs i : slots m gs i = 0 → ¬ held m gs i.
Proof.
  unfold slots. intros H0 (g & Hg & Hl & Hi%zmem_spec).
  assert (count_if (λ g, live m g && zmem i (g_cgroups g)) gs = O) as Hc by lia.
  rewrite count_zero in Hc. specialize (Hc g Hg). by rewrite Hl, Hi in Hc.
Qed.

Lemma group_ok_content n g g' : same_content g g' → group_ok n g → group_ok n g'.
Proof. intros (Hm & Hl & Hu) []. split; by rewrite ?Hm, ?Hl, ?Hu. Qed.

Lemma group_ok_fresh g : fresh_group g → group_ok 0 g.
Proof.
  intros (Hm & Hu). split; rewrite ?Hm, ?Hu; cbn; [constructor|done|lia|done|lia|done].
Qed.

Lemma sys_ok_restructure m m' gs :
  sys_ok m gs → tree_wf m' →
  gen_heap m' = gen_heap m → gen_next m' = gen_next m →
  tool_call_generations m' = tool_call_generations m →
  active_tool_calls_by_agent m' = active_tool_calls_by_agent m →
  (∀ i g', groups m' !! i = Some g' →
    (∃ g, groups m !! i = Some g ∧ same_content g g') ∨ (slots m gs i = 0 ∧ fresh_group g')) →
  (∀ i g, held m gs i → groups m !! i = Some g →
    ∃ g', groups m' !! i = Some g' ∧ same_content g g' ∧ cg_parent g' = cg_parent g) →
  sys_ok m' gs.
Proof.
  intros Hok Htree Hheap Hgn Hgens Hact Hback Hheld.
  assert (∀ g, live m' g = live m g) as Hlive by (intros g; unfold live; by rewrite Hheap).
  split; [done| | | | |].
  - intros i g' Hg'. cbn. rewrite (slots_heap m m') by done.
    destruct (Hback _ _ Hg') as [(g & Hg & Hs)|[-> Hf]]; [|by apply group_ok_fresh].
    eapply group_ok_content; [done|]. by apply (so_groups _ _ Hok).
  - intros i j gi gj a Hi Hj Hai Haj.
    destruct (Hback _ _ Hi) as [(gi0 & Hgi & Hsi)|[_ [Hf _]]]; [|rewrite Hf in Hai; by apply elem_of_nil in Hai].
    destruct (Hback _ _ Hj) as [(gj0 & Hgj & Hsj)|[_ [Hf _]]]; [|rewrite Hf in Haj; by apply elem_of_nil in Haj].
    destruct Hsi as [Hsi _], Hsj as [Hsj _]. rewrite Hsi in Hai. rewrite Hsj in Haj.
    by eapply (so_home _ _ Hok).
  - destruct (so_gens _ _ Hok) as [Hg1 Hg2 Hg3]. split; rewrite ?Hgens, ?Hheap, ?Hgn; done.
  - intros a. rewrite Hact, (agent_slots_heap m m') by done. apply (so_agents _ _ Hok).
  - pose proof (so_guards _ _ Hok) as Hguards. rewrite Forall_forall in Hguards |- *. intros g Hg.
    destruct (Hguards g Hg) as [Halloc Hpath]. split; [by rewrite Hheap|].
    rewrite Hlive. intros Hl. destruct (Hpath Hl) as (id & ids & Hp & Hids & Hres).
    assert (∀ i, i ∈ ids → held m gs i) as Hhold.
    { intros i Hi. exists g. split_and!; [done..|]. by rewrite Hids, elem_of_reverse. }
    exists id, ids. split_and!; [|done|].
    + apply (path_frame (tree m)); [done|]. intros i Hi.
      destruct (path_elem _ _ _ _ Hp Hi) as [n Hn].
      destruct (tree_lookup_inv _ _ _ Hn) as (gi & Hgi & ->).
      destruct (Hheld i gi (Hhold i Hi) Hgi) as (gi' & Hgi' & _ & Hpar).
      rewrite Hn, (tree_lookup _ _ _ Hgi'). cbn. by rewrite Hpar.
    + intros a addr Ha. destruct (Hres a addr Ha) as (Hgen & grp & Hgrp & Hmem).
      rewrite Hgens. split; [done|].
      destruct (Hheld id grp) as (grp' & Hgrp' & (Hm' & _) & _); [|done|].
      { apply Hhold. apply head_Some_elem_of. by eapply path_head. }
      exists grp'. by rewrite Hm'.
Qed.

Lemma held_exists m gs i : sys_ok m gs → held m gs i → is_Some (tree m !! i).
Proof.
  intros Hok (g & Hg & Hl & Hi). pose proof (so_guards _ _ Hok) as Hguards.
  rewrite Forall_forall in Hguards. destruct (gu_path _ _ (Hguards g Hg) Hl) as (id & ids & Hp & Hids & _).
  rewrite Hids, elem_of_reverse in Hi. by eapply path_elem.
Qed.

Lemma tree_set_children m f id g :
  groups m !! id = Some g →
  tree (with_groups (alter (set_children f) id) m) = <[id := node_children f (node g)]> (tree m).
Proof.
  intros Hg. unfold tree. cbn [with_groups groups].
  by rewrite (alter_as_insert _ _ _ _ Hg), fmap_insert.
Qed.

Lemma next_id_nonneg m : tree_wf m → 0 <= next_cgroup_id m.
Proof.
  intros Hwf. destruct (tr_root _ _ _ _ Hwf) as (n & Hn & _).
  destruct (tr_node _ _ _ _ Hwf _ _ Hn) as (_ & ? & _). lia.
Qed.

Lemma next_id_fresh m : tree_wf m → groups m !! next_cgroup_id m = None.
Proof.
  intros Hwf. destruct (groups m !! next_cgroup_id m) as [g|] eqn:Hg; [|done].
  destruct (tr_node _ _ _ _ Hwf _ _ (tree_lookup _ _ _ Hg)) as (_ & ? & _). lia.
Qed.

Lemma create_scoped_cases name parent scope limits m :
  tree_wf m → next_cgroup_id m < u64_max →
  let next := next_cgroup_id m in
  match create_scoped name parent scope limits m with
  | (Ok id, m') => id = next ∧ validate_scope scope = Ok tt ∧ scope_index m !! scope = None ∧
      ∃ pg, groups m !! parent = Some pg ∧
      m' = with_groups (λ gs, <[parent := set_children (λ cs, cs ++ [next]) pg]>
             (<[next := mkCgroup next name (Some parent) [] limits usage_default [] scope]> gs))
           (with_index (next + 1) (<[scope := next]> (scope_index m)) m)
  | (Err e, m') => m' = m ∨ (e = DuplicateScope scope ∧ m' = with_index (next + 1) (scope_index m) m)
  end.
Proof.
  intros Hwf Hlt. cbv zeta. pose proof (next_id_nonneg m Hwf). unfold create_scoped.
  destruct (validate_scope scope) as [[]|] eqn:Hv; [|by left].
  destruct (hierarchy_unlocked m parent) as [hs|] eqn:Hh; [|by left].
  destruct (hierarchy_Ok _ _ _ Hwf Hh) as (pg & _ & Hpg & _).
  rewrite wrap64_small by lia. destruct (scope_index m !! scope) eqn:Hs; [by right|].
  cbn [with_groups with_index groups].
  assert (parent ≠ next_cgroup_id m) as Hne.
  { intros ->. by rewrite (next_id_fresh m Hwf) in Hpg. }
  rewrite lookup_insert_ne, Hpg by done. split_and!; [done..|]. exists pg. split; [done|].
  unfold with_groups. cbn. f_equal. apply alter_as_insert. by rewrite lookup_insert_ne.
Qed.

Lemma sys_ok_create m gs name parent scope limits :
  sys_ok m gs → next_cgroup_id m < u64_max →
  sys_ok (create_scoped name parent scope limits m).2 gs.
Proof.
  intros Hok Hlt. pose proof (so_tree _ _ Hok) as Hwf.
  pose proof (create_scoped_cases name parent scope limits m Hwf Hlt) as Hc. cbv zeta in Hc.
  pose proof (next_id_nonneg m Hwf) as H0. pose proof (next_id_fresh m Hwf) as Hfresh.
  destruct (create_scoped _ _ _ _ m) as [[id|e] m']; cbn [snd].
  - destruct Hc as (_ & Hv & Hs & pg & Hpg & ->).
    assert (parent ≠ next_cgroup_id m) as Hne by congruence.
    apply (sys_ok_restructure m); try done; cbn [with_groups with_index groups].
    + unfold tree_wf, tree. cbn. rewrite !fmap_insert.
      apply (tree_ok_create _ _ _ _ parent (node pg) scope Hwf); [done| |done..].
      by apply tree_lookup.
    + intros i g' [[<- <-]|[_ [[<- <-]|[_ Hi]]%lookup_insert_Some]]%lookup_insert_Some.
      * left. by exists pg.
      * right. split; [|done]. apply slots_held. intros Hheld.
        destruct (held_exists _ _ _ Hok Hheld) as [n Hn].
        destruct (tree_lookup_inv _ _ _ Hn) as (g & Hg & _). congruence.
      * left. by exists g'.
    + intros i g _ Hg. destruct (decide (i = parent)) as [->|].
      * rewrite lookup_insert_eq. eexists; split; [done|]. simplify_eq. done.
      * rewrite !lookup_insert_ne by congruence. by exists g.
  - destruct Hc as [->|[_ ->]]; [done|].
    rewrite <- (wrap64_small (next_cgroup_id m + 1)) by lia. by apply sys_ok_elsewhere.
Qed.

Lemma sys_ok_try_create m gs name parent limits :
  sys_ok m gs → next_cgroup_id m < u64_max → sys_ok (try_create name parent limits m).2 gs.
Proof.
  intros Hok Hlt. unfold try_create. destruct (groups m !! parent); [|done]. cbn [ok_or].
  destruct (escape_scope_segment name); [|done]. by apply sys_ok_create.
Qed.

Lemma sys_ok_remove_leaf m gs id : sys_ok m gs → sys_ok (try_remove_empty_leaf id m).2 gs.
Proof.
  intros Hok. pose proof (so_tree _ _ Hok) as Hwf. unfold try_remove_empty_leaf.
  destruct (Z.eqb_spec id (root m)) as [|Hroot]; [done|].
  destruct (groups m !! id) as [g|] eqn:Hg; [|done]. cbn [ok_or].
  destruct (leaf_busy g) eqn:Hbusy; [done|]. destruct (cg_parent g) as [p|] eqn:Hp; [|done]. cbn [ok_or].
  destruct (groups m !! p) as [pg|] eqn:Hpg; [|done]. cbn [ok_or].
  destruct (negb _); [done|]. destruct (negb _); [done|]. cbn [snd].
  unfold leaf_busy in Hbusy. rewrite !orb_false_iff, !negb_false_iff, !bool_decide_eq_true in Hbusy.
  destruct Hbusy as ((((Hch & Hmem) & Hcnt) & Hact) & _).
  pose proof (so_groups _ _ Hok _ _ Hg) as Hgo. rewrite (go_active _ _ Hgo) in Hact.
  apply Z.eqb_eq in Hact.
  pose proof (tree_lookup _ _ _ Hg) as Hn. pose proof (tree_lookup _ _ _ Hpg) as Hpn.
  destruct (parent_lt _ _ _ _ Hwf _ (node g) p Hn Hp) as [Hlt _].
  apply (sys_ok_restructure m); try done; cbn [with_groups with_index groups].
  - pose proof (tree_ok_remove _ _ _ _ id (node g) p (node pg) Hwf Hroot Hn Hch Hp Hpn) as Ht.
    unfold tree_wf, tree. cbn. rewrite (alter_as_insert _ _ _ _ Hpg), fmap_delete, fmap_insert. exact Ht.
  - intros i g' [_ (g0 & Hg0 & [[-> ->]|[_ ->]])%lookup_alter_cases]%lookup_delete_Some;
      left; by exists g0.
  - intros i gi Hheld Hgi. assert (i ≠ id) as Hne.
    { intros ->. by eapply held_slots. }
    rewrite lookup_delete_ne by done. destruct (decide (i = p)) as [->|].
    + rewrite lookup_alter_eq, Hgi. by eexists.
    + rewrite lookup_alter_ne by done. by exists gi.
Qed.

(** ** Acquiring *)

Abbreviation inc := (set_active (λ n, sat_add32 n 1)) (only parsing).
Abbreviation dec := (set_active (λ n, sat_sub n 1)) (only parsing).

Definition room (g : Cgroup) : Prop :=
  (0 <? max_concurrent_tool_calls (cg_limits g))
  && (max_concurrent_tool_calls (cg_limits g) <=? active_tool_calls (cg_usage g)) = false.

Lemma dec_inc g : 0 <= active_tool_calls (cg_usage g) < u32_max → dec (inc g) = g.
Proof.
  intros H. destruct g as [a b c d e [u1 u2 u3 u4] g h]. unfold set_active. cbn in *.
  do 2 f_equal. unfold sat_add32, sat_sub. lia.
Qed.

Lemma adjust_snoc f ids id gs : adjust f (ids ++ [id]) gs = alter f id (adjust f ids gs).
Proof. unfold adjust. by rewrite foldl_app. Qed.

Lemma rollback_step i acquired gs :
  i ∉ acquired → NoDup acquired →
  (∀ g, gs !! i = Some g → 0 <= active_tool_calls (cg_usage g) < u32_max) →
  adjust dec (acquired ++ [i]) (alter inc i gs) = adjust dec acquired gs.
Proof.
  intros Hi Hnd Hr. rewrite adjust_snoc. apply map_eq. intros j.
  destruct (decide (j = i)) as [->|Hne].
  - rewrite lookup_alter_eq, !lookup_adjust by done. apply zmem_false in Hi. rewrite Hi, lookup_alter_eq.
    destruct (gs !! i) as [g|] eqn:Hg; [|done]. cbn. by rewrite dec_inc by auto.
  - rewrite lookup_alter_ne, !lookup_adjust by done. by rewrite lookup_alter_ne.
Qed.

Lemma acquire_loop_spec hier acquired m :
  NoDup (acquired ++ (cg_id <$> hier)) →
  (∀ i, i ∈ cg_id <$> hier → ∃ g, groups m !! i = Some g ∧ cg_id g = i ∧
     0 <= active_tool_calls (cg_usage g) < u32_max) →
  match acquire_loop hier acquired m with
  | (Ok l, m') => l = acquired ++ (cg_id <$> hier) ∧ m' = with_groups (adjust inc (cg_id <$> hier)) m ∧
      ∀ i g, i ∈ cg_id <$> hier → groups m !! i = Some g → room g
  | (Err e, m') => m' = with_groups (adjust dec acquired) m ∧
      ∃ i g, i ∈ cg_id <$> hier ∧ groups m !! i = Some g ∧ ¬ room g ∧ e = ToolCallLimit i (quota_scope g)
  end.
Proof.
  revert acquired m. induction hier as [|x hier IH]; intros acquired m Hnd Hex; cbn [acquire_loop].
  { rewrite app_nil_r. split_and!; [done|by destruct m|]. by intros i g ?%elem_of_nil. }
  rewrite fmap_cons in *. destruct (Hex (cg_id x) ltac:(left)) as (g & Hg & Hid & Hr).
  rewrite Hg, Hid. destruct ((0 <? _) && _) eqn:Hroom.
  { split; [done|]. exists (cg_id x), g. split_and!; [left|done| |done]. unfold room. by rewrite Hroom. }
  rewrite cons_middle, (assoc_L (++)) in Hnd.
  assert ((cg_id x ∉ acquired) ∧ NoDup acquired ∧ (cg_id x ∉ (cg_id <$> hier))) as (Hxa & Hnda & Hxh).
  { apply NoDup_app in Hnd as (Hnd1 & Hdisj & _). apply NoDup_app in Hnd1 as (? & Hd & _).
    split_and!; [|done|apply Hdisj; set_solver]. intros Hin. apply (Hd _ Hin). left. }
  specialize (IH (acquired ++ [cg_id x]) (with_groups (alter inc (cg_id x)) m) Hnd).
  destruct (acquire_loop hier _ _) as [[l|e] m'].
  - destruct IH as (-> & -> & Hall).
    { intros i Hi. destruct (Hex i ltac:(by right)) as (g' & Hg' & ?). exists g'. split; [|done].
      cbn. rewrite lookup_alter_ne; [done|]. by intros <-. }
    split_and!; [by rewrite <- (assoc_L (++))|done|].
    intros i g' [->|Hi]%elem_of_cons Hg'; [by simplify_eq|]. apply (Hall i); [done|]. cbn.
    rewrite lookup_alter_ne; [done|]. by intros <-.
  - destruct IH as (-> & i & g' & Hi & Hg' & ?).
    { intros i Hi. destruct (Hex i ltac:(by right)) as (g' & Hg' & ?). exists g'. split; [|done].
      cbn. rewrite lookup_alter_ne; [done|]. by intros <-. }
    split.
    + unfold with_groups. cbn. f_equal. apply rollback_step; [done..|]. intros g'' ?. by simplify_eq.
    + exists i, g'. split_and!; [by right| |naive_solver..]. cbn in Hg'.
      rewrite lookup_alter_ne in Hg'; [done|]. by intros <-.
Qed.

(** What a successful reservation did to the agent bookkeeping. *)
Definition reserved (m m' : CgroupManager) (gs : list ToolCallGuard) (grp : Cgroup)
    (res : option (AgentId * Z)) : Prop :=
  match res with
  | None =>
      tool_call_generations m' = tool_call_generations m ∧ gen_heap m' = gen_heap m ∧
      gen_next m' = gen_next m ∧ active_tool_calls_by_agent m' = active_tool_calls_by_agent m
  | Some (a, addr) =>
      a ∈ cg_members grp ∧
      tool_call_generations m' = <[a := addr]> (tool_call_generations m) ∧
      active_tool_calls_by_agent m'
        = <[a := agent_slots m gs a + 1]> (active_tool_calls_by_agent m) ∧
      ((tool_call_generations m !! a = Some addr ∧ gen_heap m' = gen_heap m ∧
        gen_next m' = gen_next m) ∨
       (tool_call_generations m !! a = None ∧ addr = gen_next m ∧
        gen_heap m' = <[addr := true]> (gen_heap m) ∧ gen_next m' = gen_next m + 1))
  end.

Lemma slots_ext m m' gs i :
  (∀ g, g ∈ gs → live m' g = live m g) → slots m' gs i = slots m gs i.
Proof. intros H. unfold slots. f_equal. apply count_ext. intros g Hg. by rewrite H. Qed.

Lemma agent_slots_ext m m' gs a :
  (∀ g, g ∈ gs → live m' g = live m g) → agent_slots m' gs a = agent_slots m gs a.
Proof. intros H. unfold agent_slots. f_equal. apply count_ext. intros g Hg. by rewrite H. Qed.

Lemma slots_cons m g gs i :
  slots m (g :: gs) i = (if live m g && zmem i (g_cgroups g) then 1 else 0) + slots m gs i.
Proof. unfold slots. rewrite count_cons. destruct (_ && _); lia. Qed.

Lemma agent_slots_cons m g gs a :
  agent_slots m (g :: gs) a = (if live m g && of_agent a g then 1 else 0) + agent_slots m gs a.
Proof. unfold agent_slots. rewrite count_cons. destruct (_ && _); lia. Qed.

Lemma path_reverse_NoDup m id ids : tree_wf m → path (tree m) id ids → NoDup (reverse ids).
Proof.
  intros Hwf Hp. rewrite reverse_Permutation. eapply path_NoDup; [exact Hwf|done].
Qed.

Section reserve.
Context (m m' : CgroupManager) (gs : list ToolCallGuard) (id : CgroupId) (ids : list CgroupId).
Context (grp : Cgroup) (res : option (AgentId * Z)).
Context (Hok : sys_ok m gs) (Hpath : path (tree m) id ids) (Hgrp : groups m !! id = Some grp).
Context (Hroom : ∀ i g, i ∈ ids → groups m !! i = Some g → room g).
Context (Hfew : Z.of_nat (length gs) < u32_max).
Context (Hnext : next_cgroup_id m' = next_cgroup_id m) (Hidx : scope_index m' = scope_index m).
Context (Hroot : root m' = root m) (Hgroups : groups m' = adjust inc (reverse ids) (groups m)).
Context (Hres : reserved m m' gs grp res).

Lemma reserve_heap addr : is_Some (gen_heap m !! addr) → gen_heap m' !! addr = gen_heap m !! addr.
Proof using Hok Hres.
  intros [b Hb]. pose proof (ge_heap _ (so_gens _ _ Hok) _ _ Hb) as Hlt.
  destruct res as [[a addr']|]; [|by destruct Hres as (_ & -> & _)].
  destruct Hres as (_ & _ & _ & [(_ & -> & _)|(_ & -> & -> & _)]); [done|].
  rewrite lookup_insert_ne by lia. done.
Qed.

Lemma reserve_live_old g : g ∈ gs → live m' g = live m g.
Proof using Hok Hres.
  intros Hg. pose proof (so_guards _ _ Hok) as Hguards. rewrite Forall_forall in Hguards.
  unfold live. destruct (agent_reservation g) as [[a addr]|] eqn:Ha; [|done].
  by rewrite reserve_heap by (by eapply (gu_alloc _ _ (Hguards g Hg))).
Qed.

Lemma reserve_live_new : live m' (mkGuard (reverse ids) res) = true.
Proof using Hok Hres.
  unfold live. cbn. destruct res as [[a addr]|]; [|done]. apply bool_decide_eq_true.
  destruct Hres as (_ & _ & _ & [(Ha & -> & _)|(_ & -> & -> & _)]).
  - by apply (ge_true _ (so_gens _ _ Hok) a).
  - apply lookup_insert_eq.
Qed.

Lemma reserve_members i g : groups m !! i = Some g →
  ∃ g', groups m' !! i = Some g' ∧ cg_members g' = cg_members g.
Proof using Hok Hpath Hgroups.
  intros Hg. rewrite Hgroups, lookup_adjust, Hg; [destruct (zmem i _); by eexists|].
  eapply path_reverse_NoDup; [apply (so_tree _ _ Hok)|done].
Qed.

Lemma reserve_groups :
  map_Forall (λ i g, group_ok (slots m' (mkGuard (reverse ids) res :: gs) i) g) (groups m').
Proof using All.
  intros i g'. rewrite Hgroups, lookup_adjust; cycle 1.
  { eapply path_reverse_NoDup; [apply (so_tree _ _ Hok)|done]. }
  rewrite slots_cons, reserve_live_new, (slots_ext m m') by apply reserve_live_old. cbn [andb g_cgroups].
  pose proof (slots_le_guards m gs i). pose proof (slots_nonneg m gs i).
  destruct (zmem i (reverse ids)) eqn:Hi.
  - intros (g & Hg & ->)%fmap_Some. apply zmem_spec in Hi. rewrite elem_of_reverse in Hi.
    destruct (so_groups _ _ Hok i g Hg) as [H1 H2 H3 H4 H5 H6].
    pose proof (Hroom i g Hi Hg) as Hr. unfold room in Hr. rewrite H4 in Hr.
    split; cbn [set_active cg_members cg_usage cg_limits agent_count active_tool_calls context_tokens];
      [done..| | |done].
    + rewrite H4. unfold sat_add32. lia.
    + intros Hpos. lia.
  - intros Hg. by apply (so_groups _ _ Hok).
Qed.

Lemma reserve_gens : gens_ok m'.
Proof using Hok Hres.
  destruct (so_gens _ _ Hok) as [Hg1 Hg2 Hg3]. destruct res as [[a addr]|]; cycle 1.
  { destruct Hres as (Hg & Hh & Hn & _). split; rewrite ?Hg, ?Hh, ?Hn; done. }
  destruct Hres as (_ & Hg & _ & [(Ha & Hh & Hn)|(Ha & -> & Hh & Hn)]).
  { rewrite insert_id in Hg by done. split; rewrite ?Hg, ?Hh, ?Hn; done. }
  assert (∀ b, tool_call_generations m !! b ≠ Some (gen_next m)) as Hfresh.
  { intros b Hb. pose proof (Hg3 _ _ (Hg1 _ _ Hb)). lia. }
  split; rewrite ?Hg, ?Hh, ?Hn.
  - intros b addr [[<- <-]|[Hne Hb]]%lookup_insert_Some; [apply lookup_insert_eq|].
    rewrite lookup_insert_ne; [by eapply Hg1|]. intros <-. by eapply Hfresh.
  - intros b c addr [[<- <-]|[? Hb]]%lookup_insert_Some [[<- ?]|[? Hc]]%lookup_insert_Some;
      [done|by destruct (Hfresh c)|subst; by destruct (Hfresh b)|by eapply Hg2].
  - intros addr b [[<- _]|[_ Hb]]%lookup_insert_Some; [lia|]. pose proof (Hg3 _ _ Hb). lia.
Qed.

Lemma reserve_agents b :
  let gs' := mkGuard (reverse ids) res :: gs in
  active_tool_calls_by_agent m' !! b =
    (if agent_slots m' gs' b =? 0 then None else Some (agent_slots m' gs' b)).
Proof using Hok Hres.
  cbv zeta. rewrite agent_slots_cons, reserve_live_new, (agent_slots_ext m m') by apply reserve_live_old.
  pose proof (so_agents _ _ Hok b) as Hb. cbn [andb]. unfold of_agent. cbn.
  destruct res as [[a addr]|]; [|by destruct Hres as (_ & _ & _ & ->)].
  destruct Hres as (_ & _ & -> & _). destruct (Z.eqb_spec a b) as [->|Hne].
  - rewrite lookup_insert_eq. assert (0 <= agent_slots m gs b) by (unfold agent_slots; lia).
    destruct (Z.eqb_spec (1 + agent_slots m gs b) 0); [lia|]. f_equal. lia.
  - by rewrite lookup_insert_ne.
Qed.

Lemma sys_ok_reserve : sys_ok m' (mkGuard (reverse ids) res :: gs).
Proof using All.
  assert (tree m' = tree m) as Htree by (unfold tree; rewrite Hgroups; by apply node_adjust).
  split; [|apply reserve_groups| |apply reserve_gens|apply reserve_agents|].
  - unfold tree_wf. rewrite Hnext, Htree, Hidx, Hroot. apply (so_tree _ _ Hok).
  - eapply single_home_shrink; [apply (so_home _ _ Hok)|]. intros i g'. rewrite Hgroups.
    rewrite lookup_adjust; [|eapply path_reverse_NoDup; [apply (so_tree _ _ Hok)|done]].
    destruct (zmem i _); [|eauto]. intros (g & Hg & ->)%fmap_Some. eauto.
  - constructor.
    + split; cbn.
      * intros a addr Ha. pose proof reserve_live_new as Hl. unfold live in Hl. cbn in Hl.
        rewrite Ha in Hl. apply bool_decide_eq_true in Hl. eauto.
      * intros _. exists id, ids. rewrite Htree. split_and!; [done..|]. intros a addr Ha'.
        pose proof Hres as Hres'. rewrite Ha' in Hres'. destruct Hres' as (Ha & Hg & _). rewrite Hg, lookup_insert_eq. split; [done|].
        destruct (reserve_members _ _ Hgrp) as (g' & Hg' & Hm). exists g'. by rewrite Hm.
    + pose proof (so_guards _ _ Hok) as Hguards. rewrite Forall_forall in Hguards |- *. intros g Hg.
      destruct (Hguards g Hg) as [Halloc Hp]. split.
      * intros a addr Ha. rewrite reserve_heap; eauto.
      * rewrite (reserve_live_old g Hg). intros Hl. destruct (Hp Hl) as (i & is_ & Hpi & Heq & Hr).
        exists i, is_. rewrite Htree. split_and!; [done..|]. intros a addr Ha.
        destruct (Hr a addr Ha) as (Hgen & g0 & Hg0 & Hm0).
        destruct (reserve_members _ _ Hg0) as (g0' & Hg0' & Hm0').
        split; [|exists g0'; by rewrite Hm0'].
        destruct res as [[a' addr']|]; [|by destruct Hres as (-> & _)].
        destruct Hres as (_ & -> & _ & Hcase). destruct (decide (a = a')) as [->|].
        -- rewrite lookup_insert_eq. destruct Hcase as [(? & _)|(? & _)]; congruence.
        -- by rewrite lookup_insert_ne.
Qed.
End reserve.

Lemma reserve_agent_reserved m gs leaf a f :
  sys_ok m gs → Z.of_nat (length gs) < u32_max → a ∈ cg_members leaf →
  let r := reserve_agent a (with_groups f m) in
  reserved m r.2 gs leaf (Some (a, r.1)) ∧ groups r.2 = f (groups m) ∧
  next_cgroup_id r.2 = next_cgroup_id m ∧ scope_index r.2 = scope_index m ∧ root r.2 = root m.
Proof.
  intros Hok Hfew Ha. cbv zeta.
  assert (match active_tool_calls_by_agent m !! a with Some n => sat_add32 n 1 | None => 1 end
    = agent_slots m gs a + 1) as Hact.
  { rewrite (so_agents _ _ Hok a).
    pose proof (count_le_length (λ g, live m g && of_agent a g) gs).
    destruct (Z.eqb_spec (agent_slots m gs a) 0) as [->|]; [done|].
    unfold agent_slots, sat_add32 in *. lia. }
  unfold reserve_agent. cbn [with_groups tool_call_generations gen_next].
  destruct (tool_call_generations m !! a) as [addr|] eqn:Hgen; cbn; rewrite Hact.
  - rewrite insert_id by done. split_and!; auto.
  - split_and!; auto.
Qed.

Lemma acquire_for_hierarchy_spec m gs id hier agent leaf ids :
  sys_ok m gs → Z.of_nat (length gs) < u32_max →
  groups m !! id = Some leaf → path (tree m) id ids → cg_id <$> hier = reverse ids →
  (∀ a, agent = Some a → a ∈ cg_members leaf) →
  match acquire_tool_call_for_hierarchy hier agent m with
  | (Ok g, m') => sys_ok m' (g :: gs) ∧ live m' g = true ∧ g_cgroups g = reverse ids ∧
      fst <$> agent_reservation g = agent ∧ (∀ x, x ∈ gs → live m' x = live m x)
  | (Err e, m') => m' = m ∧
      ∃ i g, i ∈ ids ∧ groups m !! i = Some g ∧ ¬ room g ∧ e = ToolCallLimit i (quota_scope g)
  end.
Proof.
  intros Hok Hfew Hleaf Hpath Hids Hagent. pose proof (so_tree _ _ Hok) as Hwf.
  pose proof (acquire_loop_spec hier [] m) as Hloop. rewrite Hids in Hloop.
  specialize (Hloop ltac:(by eapply path_reverse_NoDup)).
  assert (∀ i, i ∈ reverse ids → ∃ g, groups m !! i = Some g ∧ cg_id g = i ∧
    0 <= active_tool_calls (cg_usage g) < u32_max) as Hex.
  { intros i Hi. rewrite elem_of_reverse in Hi. destruct (path_elem _ _ _ _ Hpath Hi) as [n Hn].
    destruct (tree_lookup_inv _ _ _ Hn) as (g & Hg & ->). exists g. split; [done|].
    destruct (tr_node _ _ _ _ Hwf _ _ Hn) as (? & _). split; [done|].
    rewrite (go_active _ _ (so_groups _ _ Hok _ _ Hg)).
    pose proof (slots_le_guards m gs i). pose proof (slots_nonneg m gs i). lia. }
  specialize (Hloop Hex). unfold acquire_tool_call_for_hierarchy.
  destruct (acquire_loop hier [] m) as [[l|e] m1].
  - destruct Hloop as (-> & -> & Hroom). cbn [app].
    setoid_rewrite elem_of_reverse in Hroom. destruct agent as [a|].
    + destruct (reserve_agent_reserved m gs leaf a (adjust inc (reverse ids)) Hok Hfew
        (Hagent a eq_refl)) as (Hres & Hg & Hn & Hi & Hr).
      destruct (reserve_agent _ _) as [addr m2]. cbn [fst snd] in *.
      split_and!; [by apply (sys_ok_reserve m m2 gs id ids leaf)| |done..|].
      * by apply (reserve_live_new m m2 gs ids leaf).
      * intros x. by apply (reserve_live_old m m2 gs leaf (Some (a, addr))).
    + split_and!; [by apply (sys_ok_reserve m _ gs id ids leaf)|done..].
  - destruct Hloop as (-> & Hfull). split; [by destruct m|].
    by setoid_rewrite elem_of_reverse in Hfull.
Qed.

Lemma sys_ok_acquire m gs id a :
  sys_ok m gs → Z.of_nat (length gs) < u32_max →
  let s1 := keep (acquire_tool_call_checked id m) gs in
  let s2 := keep (acquire_tool_call_for_agent id a m) gs in
  sys_ok (manager s1) (guards s1) ∧ sys_ok (manager s2) (guards s2).
Proof.
  intros Hok Hfew. cbv zeta. unfold acquire_tool_call_checked, acquire_tool_call_for_agent.
  destruct (hierarchy_unlocked m id) as [hier|] eqn:Hh; [|done].
  destruct (hierarchy_Ok _ _ _ (so_tree _ _ Hok) Hh) as (leaf & ids & Hleaf & Hpath & Hids & Hlast & _).
  split.
  - pose proof (acquire_for_hierarchy_spec m gs id hier None leaf ids Hok Hfew Hleaf Hpath Hids) as H.
    destruct (acquire_tool_call_for_hierarchy hier None m) as [[g|e] m'].
    + by apply H.
    + by destruct H as [-> _].
  - rewrite Hlast. cbn [ok_or]. destruct (zmem a (cg_members leaf)) eqn:Ha; [|done].
    apply zmem_spec in Ha. cbn [negb].
    pose proof (acquire_for_hierarchy_spec m gs id hier (Some a) leaf ids Hok Hfew Hleaf Hpath Hids) as H.
    destruct (acquire_tool_call_for_hierarchy hier (Some a) m) as [[g|e] m'].
    + apply H. by intros ? [= <-].
    + destruct H as [-> _]; [|done]. by intros ? [= <-].
Qed.

(** ** Dropping a guard *)

Lemma sys_ok_perm m gs gs' : gs ≡ₚ gs' → sys_ok m gs → sys_ok m gs'.
Proof.
  intros Hp [H1 H2 H3 H4 H5 H6]. split; [done| |done..| |].
  - intros i g Hg. unfold slots. rewrite <- Hp. by apply H2.
  - intros a. replace (agent_slots m gs' a) with (agent_slots m gs a); [apply H5|].
    unfold agent_slots. by rewrite Hp.
  - by rewrite <- Hp.
Qed.

Lemma sys_ok_drop_dead m g gs : sys_ok m (g :: gs) → live m g = false → sys_ok m gs.
Proof.
  intros [H1 H2 H3 H4 H5 H6] Hl. split; [done| |done..| |by inversion H6].
  - intros i grp Hgrp. specialize (H2 i grp Hgrp). cbn in H2. by rewrite slots_cons, Hl in H2.
  - intros a. specialize (H5 a). by rewrite agent_slots_cons, Hl in H5.
Qed.

Lemma release_eq g m gs :
  sys_ok m (g :: gs) → live m g = true →
  release_tool_call g m =
  let m1 := rollback_tool_calls (g_cgroups g) m in
  match agent_reservation g with
  | None => m1
  | Some (a, _) =>
      if agent_slots m gs a =? 0
      then with_generations (delete a (tool_call_generations m)) (gen_heap m) (gen_next m)
             (with_active (delete a) m1)
      else with_active (<[a := agent_slots m gs a]>) m1
  end.
Proof.
  intros Hok Hl. unfold release_tool_call. destruct (agent_reservation g) as [[a addr]|] eqn:Ha; [|done].
  pose proof Hl as Hl'. unfold live in Hl'. rewrite Ha in Hl'. rewrite Hl'. cbn [negb].
  cbn [rollback_tool_calls with_groups active_tool_calls_by_agent].
  rewrite (so_agents _ _ Hok a), agent_slots_cons, Hl.
  assert (of_agent a g = true) as -> by (apply of_agent_spec; eauto). cbn [andb].
  assert (0 <= agent_slots m gs a) by (unfold agent_slots; lia).
  destruct (Z.eqb_spec (1 + agent_slots m gs a) 0); [lia|].
  replace (sat_sub (1 + agent_slots m gs a) 1) with (agent_slots m gs a) by (unfold sat_sub; lia).
  done.
Qed.

Section release.
Context (m : CgroupManager) (g : ToolCallGuard) (gs : list ToolCallGuard).
Context (Hok : sys_ok m (g :: gs)) (Hlive : live m g = true).

Lemma release_frame :
  let m' := release_tool_call g m in
  groups m' = adjust dec (g_cgroups g) (groups m) ∧ gen_heap m' = gen_heap m ∧
  gen_next m' = gen_next m ∧ next_cgroup_id m' = next_cgroup_id m ∧
  scope_index m' = scope_index m ∧ root m' = root m ∧
  tool_call_generations m' ⊆ tool_call_generations m ∧
  (∀ a, busy m gs a → tool_call_generations m' !! a = tool_call_generations m !! a) ∧
  (∀ a, active_tool_calls_by_agent m' !! a =
    (if agent_slots m gs a =? 0 then None else Some (agent_slots m gs a))).
Proof using All.
  cbv zeta. rewrite (release_eq g m gs Hok Hlive). cbv zeta.
  assert (∀ b, of_agent b g = false → active_tool_calls_by_agent m !! b =
    (if agent_slots m gs b =? 0 then None else Some (agent_slots m gs b))) as Hother.
  { intros b Hb. by rewrite (so_agents _ _ Hok b), agent_slots_cons, Hb, andb_false_r. }
  unfold of_agent in Hother. destruct (agent_reservation g) as [[a addr]|]; [|by split_and!; auto].
  destruct (Z.eqb_spec (agent_slots m gs a) 0) as [H0|Hne]; cbn; split_and!; try done.
  - apply delete_subseteq.
  - intros b (g' & Hg' & Hl' & Hb). apply lookup_delete_ne. intros <-.
    unfold agent_slots in H0.
    assert (count_if (λ g, live m g && of_agent a g) gs = O) as Hc by lia.
    rewrite count_zero in Hc. specialize (Hc g' Hg'). by rewrite Hl', Hb in Hc.
  - intros b. destruct (decide (a = b)) as [<-|Hab].
    + rewrite lookup_delete_eq, H0. done.
    + rewrite lookup_delete_ne by done. apply Hother. by apply Z.eqb_neq.
  - intros b. destruct (decide (a = b)) as [<-|Hab].
    + rewrite lookup_insert_eq. destruct (Z.eqb_spec (agent_slots m gs a) 0); done.
    + rewrite lookup_insert_ne by done. apply Hother. by apply Z.eqb_neq.
Qed.

Lemma sys_ok_release_live : sys_ok (release_tool_call g m) gs.
Proof using All.
  destruct release_frame as (Hgr & Hheap & Hgn & Hn & Hi & Hr & Hsub & Hgens & Hact).
  set (m' := release_tool_call g m) in *.
  pose proof (so_guards _ _ Hok) as [Hg Hguards]%Forall_cons.
  destruct (gu_path _ _ Hg Hlive) as (id & ids & Hpath & Hids & _).
  pose proof (path_reverse_NoDup _ _ _ (so_tree _ _ Hok) Hpath) as Hnd. rewrite <- Hids in Hnd.
  assert (tree m' = tree m) as Htree by (unfold tree; rewrite Hgr; by apply node_adjust).
  assert (∀ g, live m' g = live m g) as Hl by (intros x; unfold live; by rewrite Hheap).
  assert (∀ i g', groups m' !! i = Some g' → ∃ g0, groups m !! i = Some g0 ∧
    g' = if zmem i (g_cgroups g) then dec g0 else g0) as Hback.
  { intros i g'. rewrite Hgr, lookup_adjust by done. destruct (zmem i _); [|eauto].
    intros (g0 & ? & ->)%fmap_Some. eauto. }
  split.
  - unfold tree_wf. rewrite Hn, Htree, Hi, Hr. apply (so_tree _ _ Hok).
  - intros i g' (g0 & Hg0 & ->)%Hback. rewrite (slots_heap m m') by done.
    destruct (so_groups _ _ Hok i g0 Hg0) as [H1 H2 H3 H4 H5 H6].
    rewrite slots_cons, Hlive in H4, H5. cbn [andb] in H4, H5. pose proof (slots_nonneg m gs i).
    destruct (zmem i (g_cgroups g)); [|by split].
    split; cbn [set_active cg_members cg_usage cg_limits agent_count active_tool_calls context_tokens];
      [done..| | |done]; [unfold sat_sub|]; lia.
  - eapply single_home_shrink; [apply (so_home _ _ Hok)|].
    intros i g' (g0 & Hg0 & ->)%Hback. exists g0. split; [done|]. by destruct (zmem _ _).
  - destruct (so_gens _ _ Hok) as [Hg1 Hg2 Hg3]. split; rewrite ?Hheap, ?Hgn; [|  |done].
    + intros a addr Ha. eapply Hg1, lookup_weaken; done.
    + intros a b addr Ha Hb. eapply Hg2; eapply lookup_weaken; done.
  - intros a. rewrite (agent_slots_heap m m') by done. apply Hact.
  - rewrite Forall_forall in Hguards |- *. intros g' Hg'. destruct (Hguards g' Hg') as [Ha' Hp'].
    split; [by rewrite Hheap|]. rewrite Hl. intros Hl'.
    destruct (Hp' Hl') as (id' & ids' & Hpath' & Hids' & Hres'). exists id', ids'. rewrite Htree.
    split_and!; [done..|]. intros a addr Ha. destruct (Hres' a addr Ha) as (Hgen & grp & Hgrp & Hm).
    rewrite Hgens by (exists g'; split_and!; [done..|apply of_agent_spec; eauto]).
    split; [done|]. rewrite Hgr, lookup_adjust, Hgrp by done.
    destruct (zmem id' _); eexists; (split; [done|]); done.
Qed.
End release.

Lemma sys_ok_release m gs i g :
  sys_ok m gs → gs !! i = Some g → sys_ok (release_tool_call g m) (remove_at i gs).
Proof.
  intros Hok Hi. apply (sys_ok_perm _ _ _ (remove_at_perm _ _ _ Hi)) in Hok.
  destruct (live m g) eqn:Hl; [by apply sys_ok_release_live|].
  assert (release_tool_call g m = m) as ->.
  { unfold live in Hl. unfold release_tool_call. destruct (agent_reservation g) as [[a addr]|]; [|done].
    by rewrite Hl. }
  by eapply sys_ok_drop_dead.
Qed.

(** ** Forced removal *)

Definition revoked_heap (m : CgroupManager) (a : AgentId) : gmap Z bool :=
  match tool_call_generations m !! a with
  | Some addr => <[addr := false]> (gen_heap m)
  | None => gen_heap m
  end.

Section force.
Context (m : CgroupManager) (gs : list ToolCallGuard) (id : CgroupId) (ids : list CgroupId).
Context (leaf : Cgroup) (a : AgentId).
Context (Hok : sys_ok m gs) (Hleaf : groups m !! id = Some leaf) (Hpath : path (tree m) id ids).
Context (Ha : a ∈ cg_members leaf).

(** Every live guard of the agent holds exactly the chain of the agent's group. *)
Lemma agent_guard_chain g :
  g ∈ gs → live m g = true → of_agent a g = true →
  g_cgroups g = reverse ids ∧
  ∃ addr, agent_reservation g = Some (a, addr) ∧ tool_call_generations m !! a = Some addr.
Proof using All.
  intros Hg Hl (addr & Hres)%of_agent_spec.
  pose proof (so_guards _ _ Hok) as Hguards. rewrite Forall_forall in Hguards.
  destruct (gu_path _ _ (Hguards g Hg) Hl) as (id' & ids' & Hp' & -> & Hr).
  destruct (Hr a addr Hres) as (Hgen & grp & Hgrp & Hm).
  assert (id' = id) as -> by (by eapply (so_home _ _ Hok)).
  rewrite (path_functional _ _ _ _ Hpath Hp'). eauto.
Qed.

Lemma agent_slots_of_group i :
  Z.of_nat (count_if (λ g, live m g && zmem i (g_cgroups g) && of_agent a g) gs)
  = (if zmem i (reverse ids) then agent_slots m gs a else 0).
Proof using All.
  destruct (zmem i (reverse ids)) eqn:Hi.
  - unfold agent_slots. f_equal. apply count_ext. intros g Hg.
    destruct (live m g) eqn:Hl; [|done]. destruct (of_agent a g) eqn:Hag; [|by rewrite andb_false_r].
    destruct (agent_guard_chain g Hg Hl Hag) as (-> & _). by rewrite Hi.
  - enough (count_if (λ g, live m g && zmem i (g_cgroups g) && of_agent a g) gs = O) as -> by done.
    apply count_zero. intros g Hg.
    destruct (live m g) eqn:Hl; [|done]. destruct (of_agent a g) eqn:Hag; [|by rewrite andb_false_r].
    destruct (agent_guard_chain g Hg Hl Hag) as (-> & _). by rewrite Hi.
Qed.

Context (m' : CgroupManager) (i0 : nat).
Context (Hpos : position (λ x, x =? a) (cg_members leaf) = Some i0).
Context (Hgens : tool_call_generations m' = delete a (tool_call_generations m)).
Context (Hheap : gen_heap m' = revoked_heap m a) (Hgn : gen_next m' = gen_next m).
Context (Hact : active_tool_calls_by_agent m' = delete a (active_tool_calls_by_agent m)).
Context (Hnext : next_cgroup_id m' = next_cgroup_id m) (Hidx : scope_index m' = scope_index m).
Context (Hroot : root m' = root m).
Context (Hgroups : groups m' = alter (set_members (swap_remove i0 (cg_members leaf))) id
  (adjust (set_active (λ n, sat_sub n (agent_slots m gs a))) (reverse ids) (groups m))).

(** Exactly the agent's guards die. *)
Lemma force_live g : g ∈ gs → live m' g = live m g && negb (of_agent a g).
Proof using All.
  intros Hg. destruct (of_agent a g) eqn:Hag; cbn [negb]; [rewrite andb_false_r|rewrite andb_true_r].
  - apply of_agent_spec in Hag as Hag'. destruct Hag' as (addr & Hres). unfold live. rewrite Hres, Hheap.
    apply bool_decide_eq_false. unfold revoked_heap. intros Ht.
    assert (gen_heap m !! addr = Some true → tool_call_generations m !! a = Some addr) as Hsame.
    { intros H. destruct (agent_guard_chain g Hg) as (_ & addr' & Hr & Hgen); [|done|congruence].
      unfold live. rewrite Hres. by apply bool_decide_eq_true. }
    destruct (tool_call_generations m !! a) as [addr'|] eqn:Hgen; [|by apply Hsame in Ht].
    apply lookup_insert_Some in Ht as [[_ ?]|[Hne Ht]]; [done|]. apply Hsame in Ht. congruence.
  - unfold live. destruct (agent_reservation g) as [[b addr]|] eqn:Hres; [|done].
    rewrite Hheap. unfold revoked_heap. destruct (tool_call_generations m !! a) as [addr'|] eqn:Hgen; [|done].
    destruct (decide (addr' = addr)) as [->|]; [|by rewrite lookup_insert_ne].
    rewrite lookup_insert_eq. symmetry. rewrite (bool_decide_eq_false_2 (Some false = Some true)) by done.
    apply bool_decide_eq_false. intros Ht.
    pose proof (so_guards _ _ Hok) as Hguards. rewrite Forall_forall in Hguards.
    destruct (gu_path _ _ (Hguards g Hg)) as (? & ? & _ & _ & Hr).
    { unfold live. rewrite Hres. by apply bool_decide_eq_true. }
    destruct (Hr b addr Hres) as (Hb & _).
    pose proof (ge_inj _ (so_gens _ _ Hok) _ _ _ Hgen Hb) as ->.
    unfold of_agent in Hag. rewrite Hres, Z.eqb_refl in Hag. done.
Qed.

Lemma force_slots i :
  slots m' gs i = slots m gs i - (if zmem i (reverse ids) then agent_slots m gs a else 0).
Proof using All.
  rewrite <- agent_slots_of_group. unfold slots at 2.
  rewrite (count_split (λ g, live m g && zmem i (g_cgroups g)) (of_agent a)), Nat2Z.inj_add.
  replace (Z.of_nat _ + Z.of_nat _ - _) with
    (Z.of_nat (count_if (λ g, live m g && zmem i (g_cgroups g) && negb (of_agent a g)) gs)) by lia.
  unfold slots. f_equal. apply count_ext. intros g Hg. rewrite force_live by done.
  by destruct (live m g), (zmem i (g_cgroups g)), (of_agent a g).
Qed.

Lemma force_agent_slots b : agent_slots m' gs b = (if b =? a then 0 else agent_slots m gs b).
Proof using All.
  unfold agent_slots. destruct (Z.eqb_spec b a) as [->|Hne].
  - enough (count_if (λ g, live m' g && of_agent a g) gs = O) as -> by done.
    apply count_zero. intros g Hg. rewrite force_live by done.
    by destruct (live m g), (of_agent a g).
  - f_equal. apply count_ext. intros g Hg. rewrite force_live by done.
    unfold of_agent. destruct (agent_reservation g) as [[c addr]|]; [|by rewrite !andb_false_r].
    destruct (Z.eqb_spec c a) as [->|]; [|by rewrite andb_true_r].
    destruct (Z.eqb_spec a b); [congruence|]. by rewrite !andb_false_r.
Qed.

Lemma force_lookup i g' :
  groups m' !! i = Some g' →
  ∃ g, groups m !! i = Some g ∧ node g' = node g ∧ cg_limits g' = cg_limits g ∧
    active_tool_calls (cg_usage g') = slots m' gs i ∧ context_tokens (cg_usage g') = 0 ∧
    ((i ≠ id ∧ cg_members g' = cg_members g ∧ agent_count (cg_usage g') = agent_count (cg_usage g)) ∨
     (i = id ∧ g = leaf ∧ cg_members g' = swap_remove i0 (cg_members leaf) ∧
      agent_count (cg_usage g') = Z.min (Z.of_nat (length (cg_members g'))) u32_max)).
Proof using All.
  pose proof (path_reverse_NoDup _ _ _ (so_tree _ _ Hok) Hpath) as Hnd.
  rewrite Hgroups. intros (g1 & Hg1 & Hcase)%lookup_alter_cases.
  rewrite lookup_adjust in Hg1 by done.
  assert (∃ g, groups m !! i = Some g ∧ g1 = if zmem i (reverse ids)
    then set_active (λ n, sat_sub n (agent_slots m gs a)) g else g) as (g & Hg & ->).
  { destruct (zmem i (reverse ids)); [|eauto]. apply fmap_Some in Hg1 as (g & ? & ->). eauto. }
  pose proof (so_groups _ _ Hok i g Hg) as Hgo. pose proof (go_active _ _ Hgo) as Hga.
  pose proof (go_context _ _ Hgo) as Hctx.
  pose proof (force_slots i) as Hsl. pose proof (slots_nonneg m' gs i) as Hpos0.
  exists g. split; [done|].
  destruct (zmem i (reverse ids)) eqn:Hi, Hcase as [[-> ->]|[Hne ->]]; simplify_eq;
    cbn [set_active set_members cg_limits cg_usage cg_members active_tool_calls context_tokens agent_count];
    (split_and!; [done|done| |done|]); try (unfold sat_sub; lia); naive_solver.
Qed.

Lemma force_tree : tree m' = tree m.
Proof using Hgroups. unfold tree. rewrite Hgroups, node_alter, node_adjust; done. Qed.

Lemma force_members b : b ∈ swap_remove i0 (cg_members leaf) ↔ b ∈ cg_members leaf ∧ b ≠ a.
Proof using All.
  by apply (swap_remove_members _ _ _ (go_members _ _ (so_groups _ _ Hok _ _ Hleaf)) Hpos).
Qed.

Lemma force_groups : map_Forall (λ i g, group_ok (slots m' gs i) g) (groups m').
Proof using All.
  pose proof (so_groups _ _ Hok _ _ Hleaf) as Hgo.
  destruct (swap_remove_members _ _ _ (go_members _ _ Hgo) Hpos) as (Hnd & Hlen & _).
  intros i g' Hg'. destruct (force_lookup i g' Hg') as (g & Hg & _ & Hlim & Hac & Hctx & Hcase).
  destruct (so_groups _ _ Hok i g Hg) as [H1 H2 H3 H4 H5 H6].
  pose proof (force_slots i) as Hsl. assert (0 <= agent_slots m gs a) by (unfold agent_slots; lia).
  assert (slots m' gs i <= slots m gs i) as Hle by (destruct (zmem i _); lia).
  destruct Hcase as [(Hne & Hm & Hc)|(-> & -> & Hm & Hc)]; split; rewrite ?Hlim; try done.
  - by rewrite Hm.
  - by rewrite Hc, Hm.
  - by rewrite Hm.
  - intros Hp. specialize (H5 Hp). lia.
  - by rewrite Hm.
  - rewrite Hm. intros Hp. specialize (H3 Hp). lia.
  - intros Hp. specialize (H5 Hp). lia.
Qed.

Lemma force_gens : gens_ok m'.
Proof using All.
  destruct (so_gens _ _ Hok) as [Hg1 Hg2 Hg3]. split; rewrite ?Hgens, ?Hgn.
  - intros b addr [Hne Hb]%lookup_delete_Some. rewrite Hheap. unfold revoked_heap.
    destruct (tool_call_generations m !! a) as [addr'|] eqn:Hgen; [|by eapply Hg1].
    rewrite lookup_insert_ne; [by eapply Hg1|]. intros ->. apply Hne. by eapply Hg2.
  - intros b c addr [? Hb]%lookup_delete_Some [? Hc]%lookup_delete_Some. by eapply Hg2.
  - intros addr b. rewrite Hheap. unfold revoked_heap.
    destruct (tool_call_generations m !! a) as [addr'|] eqn:Hgen; [|apply Hg3].
    intros [[<- _]|[_ Hb]]%lookup_insert_Some; [|by eapply Hg3]. by eapply Hg3, Hg1.
Qed.

Lemma force_guard g : g ∈ gs → guard_ok m' g.
Proof using All.
  intros Hg. pose proof (so_guards _ _ Hok) as Hguards. rewrite Forall_forall in Hguards.
  destruct (Hguards g Hg) as [Halloc Hp]. split.
  - intros b addr Hb. rewrite Hheap. unfold revoked_heap.
    destruct (tool_call_generations m !! a); [apply lookup_insert_is_Some|]; eauto.
    destruct (decide (z = addr)); [by left|right; eauto].
  - rewrite force_live by done. intros [Hl Hna]%andb_true_iff. apply negb_true_iff in Hna.
    destruct (Hp Hl) as (j & js & Hpj & Hjs & Hr). exists j, js. rewrite force_tree.
    split_and!; [done..|].
    intros b addr Hb. destruct (Hr b addr Hb) as (Hgen & grp & Hgrp & Hm).
    assert (b ≠ a) as Hne by (intros ->; unfold of_agent in Hna; by rewrite Hb, Z.eqb_refl in Hna).
    rewrite Hgens, lookup_delete_ne by done. split; [done|].
    destruct (groups m' !! j) as [g'|] eqn:Hg'.
    + destruct (force_lookup j g' Hg') as (g0 & Hg0 & _ & _ & _ & _ & Hcase). exists g'.
      split; [done|]. simplify_eq.
      destruct Hcase as [(_ & -> & _)|(_ & -> & -> & _)]; [done|]. by apply force_members.
    + exfalso. pose proof (tree_lookup _ _ _ Hgrp) as Ht. rewrite <- force_tree in Ht.
      destruct (tree_lookup_inv _ _ _ Ht) as (? & ? & _). congruence.
Qed.

Lemma sys_ok_force : sys_ok m' gs.
Proof using All.
  split; [|apply force_groups| |apply force_gens| |apply Forall_forall; apply force_guard].
  - unfold tree_wf. rewrite Hnext, force_tree, Hidx, Hroot. apply (so_tree _ _ Hok).
  - eapply single_home_shrink; [apply (so_home _ _ Hok)|]. intros i g' Hg'.
    destruct (force_lookup i g' Hg') as (g & Hg & _ & _ & _ & _ & Hcase). exists g. split; [done|].
    destruct Hcase as [(_ & -> & _)|(_ & -> & -> & _)]; [done|].
    intros b Hb. by apply force_members in Hb as [? _].
  - intros b. rewrite Hact, force_agent_slots. destruct (Z.eqb_spec b a) as [->|Hne].
    + by rewrite lookup_delete_eq.
    + rewrite lookup_delete_ne by done. apply (so_agents _ _ Hok).
Qed.
End force.

Lemma adjust_sub_zero m gs ids :
  sys_ok m gs → NoDup ids → adjust (set_active (λ n, sat_sub n 0)) ids (groups m) = groups m.
Proof.
  intros Hok Hnd. apply map_eq. intros i. rewrite lookup_adjust by done.
  destruct (zmem i ids); [|done]. destruct (groups m !! i) as [g|] eqn:Hg; [|done]. cbn. f_equal.
  pose proof (go_active _ _ (so_groups _ _ Hok _ _ Hg)) as Ha. pose proof (slots_nonneg m gs i).
  destruct g as [? ? ? ? ? [u1 u2 u3 u4] ? ?]. unfold set_active. cbn in *. do 2 f_equal.
  unfold sat_sub. lia.
Qed.

(** Forced removal of a member: what it does to the state. *)
Lemma force_remove_eq m gs id a leaf ids :
  sys_ok m gs → groups m !! id = Some leaf → path (tree m) id ids → a ∈ cg_members leaf →
  ∃ i0 m', force_remove_agent id a m = (Ok tt, m') ∧
    position (λ x, x =? a) (cg_members leaf) = Some i0 ∧
    tool_call_generations m' = delete a (tool_call_generations m) ∧
    gen_heap m' = revoked_heap m a ∧ gen_next m' = gen_next m ∧
    active_tool_calls_by_agent m' = delete a (active_tool_calls_by_agent m) ∧
    next_cgroup_id m' = next_cgroup_id m ∧ scope_index m' = scope_index m ∧ root m' = root m ∧
    groups m' = alter (set_members (swap_remove i0 (cg_members leaf))) id
      (adjust (set_active (λ n, sat_sub n (agent_slots m gs a))) (reverse ids) (groups m)).
Proof.
  intros Hok Hleaf Hpath Ha. pose proof (so_tree _ _ Hok) as Hwf.
  pose proof (path_reverse_NoDup _ _ _ Hwf Hpath) as Hnd.
  destruct (hierarchy_exists m id leaf Hwf Hleaf) as (ids' & hier & Hp' & Hh & Hids & Hlast & _).
  rewrite <- (path_functional _ _ _ _ Hpath Hp') in Hids.
  destruct (position_zeqb_is_Some a (cg_members leaf) Ha) as [i0 Hi0].
  set (m1 := match tool_call_generations m !! a with
    | Some addr => with_generations (delete a (tool_call_generations m))
                     (<[addr := false]> (gen_heap m)) (gen_next m) m
    | None => m end).
  assert (groups m1 = groups m ∧ active_tool_calls_by_agent m1 = active_tool_calls_by_agent m ∧
    tool_call_generations m1 = delete a (tool_call_generations m) ∧ gen_heap m1 = revoked_heap m a ∧
    gen_next m1 = gen_next m ∧ next_cgroup_id m1 = next_cgroup_id m ∧
    scope_index m1 = scope_index m ∧ root m1 = root m) as (H1 & H2 & H3 & H4 & H5 & H6 & H7 & H8).
  { unfold m1, revoked_heap. destruct (tool_call_generations m !! a) eqn:Hg; [done|].
    by rewrite delete_id. }
  exists i0. unfold force_remove_agent. rewrite Hh, Hlast. cbn [ok_or].
  apply zmem_spec in Ha as Ha'. rewrite Ha'. cbn [negb]. fold m1. clearbody m1.
  assert (match active_tool_calls_by_agent m1 !! a with Some n => n | None => 0 end
    = agent_slots m gs a) as ->.
  { rewrite H2, (so_agents _ _ Hok a). by destruct (Z.eqb_spec (agent_slots m gs a) 0) as [->|]. }
  rewrite Hids.
  set (m3 := if 0 <? agent_slots m gs a then _ else _).
  assert (groups m3 = adjust (set_active (λ n, sat_sub n (agent_slots m gs a))) (reverse ids) (groups m)) as H9.
  { unfold m3. assert (0 <= agent_slots m gs a) by (unfold agent_slots; lia).
    destruct (Z.ltb_spec 0 (agent_slots m gs a)); cbn; rewrite H1; [done|].
    replace (agent_slots m gs a) with 0 by lia. symmetry. by eapply adjust_sub_zero. }
  assert (∃ leaf', groups m3 !! id = Some leaf' ∧ cg_members leaf' = cg_members leaf) as (leaf' & Hl' & Hm').
  { rewrite H9, lookup_adjust, Hleaf by done. destruct (zmem id _); by eexists. }
  rewrite Hl'. cbn [ok_or]. rewrite Hm', Hi0. eexists. split; [done|]. cbn [with_groups groups].
  rewrite H9. unfold m3. destruct (0 <? _); cbn; rewrite ?H2; by split_and!.
Qed.

Lemma sys_ok_force_remove m gs id a : sys_ok m gs → sys_ok (force_remove_agent id a m).2 gs.
Proof.
  intros Hok. destruct (hierarchy_unlocked m id) as [hier|] eqn:Hh.
  - destruct (hierarchy_Ok _ _ _ (so_tree _ _ Hok) Hh) as (leaf & ids & Hleaf & Hpath & _ & Hlast & _).
    destruct (zmem a (cg_members leaf)) eqn:Ha.
    + apply zmem_spec in Ha.
      destruct (force_remove_eq m gs id a leaf ids Hok Hleaf Hpath Ha)
        as (i0 & m' & -> & ? & ? & ? & ? & ? & ? & ? & ? & ?).
      by apply (sys_ok_force m gs id ids leaf a Hok Hleaf Hpath Ha m' i0).
    + unfold force_remove_agent. rewrite Hh, Hlast. cbn [ok_or]. by rewrite Ha.
  - unfold force_remove_agent. by rewrite Hh.
Qed.

(** ** Whole histories *)

(** The discipline of the callers: an agent is added to a group only while it is in none (moves go
    through [try_move_agent]). *)
Definition allowed_op (s : System) (o : CgOp) : bool :=
  match o with OAddAgent _ a => homeless (manager s) a | _ => true end.

Fixpoint allowed (s : System) (ops : list CgOp) : bool :=
  match ops with
  | [] => true
  | o :: ops' => allowed_op s o && allowed (exec_cg s o) ops'
  end.

Definition system_new (next : Z) : System := mkSystem (cgroup_manager_new next) [].

Definition system_ok (s : System) : Prop := sys_ok (manager s) (guards s).

Lemma system_new_ok next : 0 <= next < u64_max → system_ok (system_new next).
Proof.
  intros Hn. unfold system_ok, system_new. cbn [manager guards].
  assert (∀ id g, groups (cgroup_manager_new next) !! id = Some g →
    id = next ∧ g = mkCgroup next "/" None [] limits_default usage_default [] "/") as Hg.
  { intros id g. cbn. rewrite lookup_singleton_Some. naive_solver. }
  assert (tree (cgroup_manager_new next) !! next = Some (mkNode next None [] "/")) as Hroot.
  { unfold tree. cbn. by rewrite map_fmap_singleton, lookup_singleton_eq. }
  split.
  - split.
    + exists (mkNode next None [] "/"). done.
    + intros id n (g & Hid & ->)%tree_lookup_inv. destruct (Hg _ _ Hid) as [-> ->]. cbn.
      rewrite wrap64_small, lookup_singleton_eq by lia. split_and!; [done|lia..|done|done|constructor].
    + intros s id. cbn. rewrite lookup_singleton_Some. intros [<- <-]. eauto.
    + intros id n (g & Hid & ->)%tree_lookup_inv Hne. by destruct (Hg _ _ Hid) as [-> ->].
    + intros id n c (g & Hid & ->)%tree_lookup_inv. destruct (Hg _ _ Hid) as [-> ->]. cbn.
      by intros ?%elem_of_nil.
  - intros id g Hid. destruct (Hg _ _ Hid) as [-> ->]. by apply (group_ok_fresh).
  - intros i j gi gj a Hi Hj Hai. destruct (Hg _ _ Hi) as [-> ->]. by apply elem_of_nil in Hai.
  - split; cbn; intros *; by rewrite ?lookup_empty.
  - intros a. cbn. by rewrite lookup_empty.
  - constructor.
Qed.

Lemma exec_cg_ok s o :
  system_ok s → allowed_op s o = true →
  Z.of_nat (length (guards s)) < u32_max → next_cgroup_id (manager s) < u64_max →
  system_ok (exec_cg s o).
Proof.
  unfold system_ok. intros Hok Hal Hfew Hnext. destruct o; cbn [exec_cg manager guards].
  - by apply sys_ok_create.
  - by apply sys_ok_try_create.
  - by apply sys_ok_add.
  - by apply sys_ok_try_remove.
  - by apply sys_ok_force_remove.
  - by apply sys_ok_move.
  - by apply sys_ok_remove_leaf.
  - by apply sys_ok_limits.
  - by apply (sys_ok_acquire _ _ id 0).
  - by apply (sys_ok_acquire _ _ id agent).
  - destruct (guards s !! i) as [g|] eqn:Hi; [|done]. by apply sys_ok_release.
  - by apply sys_ok_elsewhere.
Qed.

Lemma acquire_loop_next hier acq m : next_cgroup_id (acquire_loop hier acq m).2 = next_cgroup_id m.
Proof.
  revert acq m. induction hier as [|x hier IH]; intros acq m; cbn [acquire_loop]; [done|].
  destruct (groups m !! cg_id x) as [g|]; [|done]. destruct (_ && _); [done|]. by rewrite IH.
Qed.

Lemma acquire_next hier agent m :
  next_cgroup_id (acquire_tool_call_for_hierarchy hier agent m).2 = next_cgroup_id m.
Proof.
  unfold acquire_tool_call_for_hierarchy. pose proof (acquire_loop_next hier [] m) as H.
  destruct (acquire_loop hier [] m) as [[l|e] m1]; cbn in H; [|done].
  destruct agent as [a|]; [|done]. unfold reserve_agent.
  by destruct (tool_call_generations m1 !! a).
Qed.

(** One operation draws at most one id and creates at most one guard. *)
Lemma exec_cg_growth s o :
  system_ok s → next_cgroup_id (manager s) < u64_max →
  next_cgroup_id (manager (exec_cg s o)) <= next_cgroup_id (manager s) + 1 ∧
  (length (guards (exec_cg s o)) <= S (length (guards s)))%nat.
Proof.
  intros Hok Hn. pose proof (so_tree _ _ Hok) as Hwf.
  assert (∀ name parent scope limits,
    next_cgroup_id (create_scoped name parent scope limits (manager s)).2
    <= next_cgroup_id (manager s) + 1) as Hcreate.
  { intros name parent scope limits.
    pose proof (create_scoped_cases name parent scope limits _ Hwf Hn) as Hc. cbv zeta in Hc.
    destruct (create_scoped _ _ _ _ _) as [[id|e] m'].
    - destruct Hc as (_ & _ & _ & pg & _ & ->). cbn. lia.
    - destruct Hc as [->|[_ ->]]; cbn; lia. }
  destruct o; cbn [exec_cg manager guards].
  - split; [apply Hcreate|lia].
  - split; [|lia]. unfold try_create. destruct (groups _ !! parent); cbn [ok_or]; [|cbn; lia].
    destruct (escape_scope_segment name); [|cbn; lia]. apply Hcreate.
  - unfold add_agent. repeat (case_match; cbn; try lia).
  - unfold try_remove_agent. repeat (case_match; cbn; try lia).
  - unfold force_remove_agent. repeat (case_match; cbn; try lia).
  - unfold try_move_agent, move_commit. repeat (case_match; cbn; try lia).
  - unfold try_remove_empty_leaf. repeat (case_match; cbn; try lia).
  - unfold update_limits. repeat (case_match; cbn; try lia).
  - unfold keep, acquire_tool_call_checked. destruct (hierarchy_unlocked _ id); [|cbn; lia].
    cbn [manager guards]. rewrite acquire_next. split; [lia|]. by destruct (_.1); cbn; lia.
  - unfold keep, acquire_tool_call_for_agent. destruct (hierarchy_unlocked _ id) as [hier|]; [|cbn; lia].
    destruct (last hier) as [leaf|]; cbn [ok_or]; [|cbn; lia].
    destruct (negb _); [cbn; lia|]. cbn [manager guards]. rewrite acquire_next. split; [lia|].
    by destruct (_.1); cbn; lia.
  - destruct (guards s !! i) as [g|] eqn:Hi; [|cbn; lia]. cbn [manager guards]. split.
    + unfold release_tool_call. repeat (case_match; cbn; try lia).
    + apply remove_at_perm, Permutation_length in Hi. cbn in Hi. lia.
  - cbn. pose proof (next_id_nonneg _ Hwf). rewrite wrap64_small by lia. lia.
Qed.

Lemma history_ok s ops :
  system_ok s → allowed s ops = true →
  Z.of_nat (length (guards s) + length ops) <= u32_max →
  next_cgroup_id (manager s) + Z.of_nat (length ops) <= u64_max →
  system_ok (foldl exec_cg s ops).
Proof.
  revert s. induction ops as [|o ops IH]; intros s Hok Hal Hg Hn; [done|].
  cbn [allowed] in Hal. apply andb_true_iff in Hal as [Ho Hal]. cbn [length foldl] in *.
  destruct (exec_cg_growth s o Hok ltac:(lia)) as [Hn' Hg'].
  apply IH; [|done|lia|lia]. apply exec_cg_ok; [done..|lia|lia].
Qed.


(** A history with a group limited to one concurrent call, a killed agent and a late drop. *)
Definition example_ops : list CgOp :=
  [OTryCreate "work" 1 (mkLimits 0 2 0 3); OAddAgent 2 7; OAddAgent 2 8; OAcquireFor 2 7;
   OAcquireFor 2 8; OAcquireFor 2 8; OForceRemove 2 7; OAcquire 2; ODrop 2].


(** The hierarchy walk is total and right: in every reachable system it returns, for each
    existing group, the chain of groups from the root to it, each with its current contents, with
    pairwise distinct ids and scopes, and an error exactly for a group that does not exist. *)
Theorem hierarchy_walk_correct (next : Z) (ops : list CgOp) (id : CgroupId) :
  0 <= next →
  allowed (system_new next) ops = true →
  Z.of_nat (length ops) <= u32_max → next + 1 + Z.of_nat (length ops) <= u64_max →
  let m := manager (foldl exec_cg (system_new next) ops) in
  match groups m !! id with
  | None => hierarchy_unlocked m id = Err (GroupNotFound id)
  | Some g => ∃ gs ids, hierarchy_unlocked m id = Ok gs ∧ path (tree m) id ids ∧
      cg_id <$> gs = reverse ids ∧ cg_id <$> head gs = Some (root m) ∧ last gs = Some g ∧
      Forall (λ g, groups m !! cg_id g = Some g) gs ∧ NoDup (cg_id <$> gs) ∧
      NoDup (quota_scope <$> gs)
  end.
Proof.
  intros Hn Hal Hlen Hnext. cbv zeta. set (s := foldl _ _ _).
  assert (system_ok s) as Hok.
  { apply history_ok; [apply system_new_ok; lia|done|cbn; lia|]. cbn. rewrite wrap64_small by lia. lia. }
  pose proof (so_tree _ _ Hok) as Hwf. set (m := manager s) in *.
  destruct (groups m !! id) as [g|] eqn:Hg; [|by apply hierarchy_missing].
  destruct (hierarchy_exists m id g Hwf Hg) as (ids & gs & Hp & Hh & Hids & Hlast & Hall).
  pose proof (path_reverse_NoDup _ _ _ Hwf Hp) as Hnd. rewrite <- Hids in Hnd.
  exists gs, ids. split_and!; try done.
  - transitivity (head (cg_id <$> gs)); [by destruct gs|].
    rewrite Hids, head_reverse. by eapply path_last.
  - clear -Hnd Hall Hwf. induction gs as [|x gs IH]; [constructor|].
    rewrite fmap_cons in *. apply NoDup_cons in Hnd as [Hni Hnd]. apply Forall_cons in Hall as [Hx Hall].
    constructor; [|by apply IH]. intros (y & Hs & Hy)%list_elem_of_fmap. apply Hni.
    rewrite Forall_forall in Hall. apply list_elem_of_fmap. exists y. split; [|done].
    exact (scope_inj _ _ _ _ Hwf _ _ (node x) (node y) (tree_lookup _ _ _ Hx)
      (tree_lookup _ _ _ (Hall y Hy)) Hs).
Qed.

Lemma hierarchy_walk_correct_witness :
  let m := manager (foldl exec_cg (system_new 1) example_ops) in
  ∃ gs, hierarchy_unlocked m 2 = Ok gs ∧ NoDup (quota_scope <$> gs).
Proof.
  cbv zeta. pose proof (hierarchy_walk_correct 1 example_ops 2) as H. cbv zeta in H.
  destruct (groups (manager (foldl exec_cg (system_new 1) example_ops)) !! 2) as [g|] eqn:Hg.
  - destruct H as (gs & ids & Hh & _ & _ & _ & _ & _ & _ & Hnd);
      [vm_compute; discriminate|vm_compute; reflexivity|vm_compute; discriminate..|].
    exists gs. split; [exact Hh|exact Hnd].
  - exfalso. revert Hg. vm_compute. discriminate.
Defined.

(** Reservation is all-or-nothing: in a consistent system, a membership-aware acquisition
    either takes one slot in every group of the agent's chain, returning a live guard for that chain
    and agent, or changes nothing at all; it refuses only a missing group, a non-member, or a group
    of the chain at its limit. *)
Theorem acquire_all_or_nothing (s : System) (id : CgroupId) (a : AgentId) :
  system_ok s → Z.of_nat (length (guards s)) < u32_max →
  let m := manager s in
  match acquire_tool_call_for_agent id a m with
  | (Ok g, m') => ∃ ids, path (tree m) id ids ∧ g_cgroups g = reverse ids ∧
      fst <$> agent_reservation g = Some a ∧ live m' g = true ∧
      (∀ i, slots m' (g :: guards s) i = slots m (guards s) i + (if zmem i ids then 1 else 0)) ∧
      agent_slots m' (g :: guards s) a = agent_slots m (guards s) a + 1
  | (Err e, m') => m' = m ∧
      (groups m !! id = None ∧ e = GroupNotFound id ∨
       (∃ leaf, groups m !! id = Some leaf ∧ (a ∉ cg_members leaf) ∧ e = AgentNotMember id a) ∨
       (∃ ids i g, path (tree m) id ids ∧ i ∈ ids ∧ groups m !! i = Some g ∧
          0 < max_concurrent_tool_calls (cg_limits g) <= slots m (guards s) i ∧
          e = ToolCallLimit i (quota_scope g)))
  end.
Proof.
  intros Hok Hfew. cbv zeta. unfold system_ok in Hok. set (m := manager s) in *.
  unfold acquire_tool_call_for_agent. destruct (groups m !! id) as [leaf|] eqn:Hleaf; cycle 1.
  { rewrite (hierarchy_missing _ _ Hleaf). eauto. }
  destruct (hierarchy_exists m id leaf (so_tree _ _ Hok) Hleaf) as (ids & hier & Hpath & -> & Hids & -> & _).
  cbn [ok_or]. destruct (zmem a (cg_members leaf)) eqn:Ha; cbn [negb]; cycle 1.
  { apply zmem_false in Ha. eauto 7. }
  apply zmem_spec in Ha.
  pose proof (acquire_for_hierarchy_spec m (guards s) id hier (Some a) leaf ids Hok Hfew Hleaf Hpath Hids) as H.
  destruct (acquire_tool_call_for_hierarchy hier (Some a) m) as [[g|e] m'].
  - destruct H as (_ & Hlive & Hg & Hres & Hold); [by intros ? [= <-]|]. exists ids.
    split_and!; [done..| |].
    + intros i. rewrite slots_cons, Hlive, Hg, (slots_ext m m') by done.
      rewrite zmem_reverse.
      destruct (zmem i ids); cbn; lia.
    + rewrite agent_slots_cons, Hlive, (agent_slots_ext m m') by done.
      assert (of_agent a g = true) as ->; [|cbn; lia]. apply of_agent_spec.
      destruct (agent_reservation g) as [[b addr]|]; [|done]. injection Hres as ->. eauto.
  - destruct H as [-> (i & g & Hi & Hg & Hroom & ->)]; [by intros ? [= <-]|]. split; [done|].
    right. right. exists ids, i, g. split_and!; [done..| | |done].
    + unfold room in Hroom. lia.
    + unfold room in Hroom. rewrite (go_active _ _ (so_groups _ _ Hok _ _ Hg)) in Hroom. lia.
Qed.

Lemma system_after_ok : system_ok (foldl exec_cg (system_new 1) example_ops).
Proof.
  apply history_ok; [apply system_new_ok; vm_compute; split; [discriminate|reflexivity]
    |vm_compute; reflexivity|vm_compute; discriminate..].
Qed.

Lemma acquire_all_or_nothing_witness :
  let s := foldl exec_cg (system_new 1) example_ops in
  match acquire_tool_call_for_agent 2 8 (manager s) with
  | (Ok _, _) => False
  | (Err _, m') => m' = manager s
  end.
Proof.
  cbv zeta. pose proof (acquire_all_or_nothing (foldl exec_cg (system_new 1) example_ops) 2 8
    system_after_ok ltac:(vm_compute; reflexivity)) as H. cbv zeta in H.
  destruct (acquire_tool_call_for_agent _ _ _) as [[g|e] m'] eqn:Heq.
  - revert Heq. vm_compute. discriminate.
  - exact (proj1 H).
Defined.

(** ** Revocation *)

Lemma acquire_loop_heap hier acq m :
  let m' := (acquire_loop hier acq m).2 in
  gen_heap m' = gen_heap m ∧ gen_next m' = gen_next m.
Proof.
  cbv zeta. revert acq m. induction hier as [|x hier IH]; intros acq m; cbn [acquire_loop]; [done|].
  destruct (groups m !! cg_id x) as [g|]; [|done]. destruct (_ && _); [done|].
  by destruct (IH (acq ++ [cg_id g]) (with_groups (alter inc (cg_id x)) m)) as [-> ->].
Qed.

Lemma acquire_dead hier agent m addr :
  gens_ok m → gen_heap m !! addr = Some false →
  gen_heap (acquire_tool_call_for_hierarchy hier agent m).2 !! addr = Some false.
Proof.
  intros Hg Hd. pose proof (ge_heap _ Hg _ _ Hd) as Hlt.
  unfold acquire_tool_call_for_hierarchy. destruct (acquire_loop_heap hier [] m) as [Hh Hn].
  destruct (acquire_loop hier [] m) as [[l|e] m1]; cbn in Hh, Hn; cbn [snd]; [|by rewrite Hh].
  destruct agent as [a|]; [|cbn; by rewrite Hh]. unfold reserve_agent.
  destruct (tool_call_generations m1 !! a); cbn; rewrite Hh; [done|].
  rewrite Hn, lookup_insert_ne by lia. done.
Qed.

(** No operation revives a revoked generation: addresses are never reused. *)
Lemma exec_cg_dead s o addr :
  system_ok s → gen_heap (manager s) !! addr = Some false →
  gen_heap (manager (exec_cg s o)) !! addr = Some false.
Proof.
  intros Hok Hd. pose proof (so_gens _ _ Hok) as Hg.
  destruct o; cbn [exec_cg manager guards]; try done.
  - unfold create_scoped. repeat (case_match; try done).
  - unfold try_create, create_scoped. repeat (case_match; try done).
  - unfold add_agent. repeat (case_match; try done).
  - unfold try_remove_agent. repeat (case_match; try done).
  - assert (∀ addr', <[addr' := false]> (gen_heap (manager s)) !! addr = Some false) as Hins.
    { intros addr'. rewrite lookup_insert. by case_match. }
    unfold force_remove_agent. repeat (case_match; try done); apply Hins.
  - unfold try_move_agent, move_commit. repeat (case_match; try done).
  - unfold try_remove_empty_leaf. repeat (case_match; try done).
  - unfold update_limits. repeat (case_match; try done).
  - unfold keep, acquire_tool_call_checked. cbn [manager]. case_match; [|done]. by apply acquire_dead.
  - unfold keep, acquire_tool_call_for_agent. cbn [manager]. do 2 (case_match; [|done]).
    case_match; [done|]. by apply acquire_dead.
  - destruct (guards s !! i) as [g|]; [|done]. cbn [manager].
    unfold release_tool_call. repeat (case_match; try done).
Qed.

Lemma history_dead s ops addr :
  system_ok s → allowed s ops = true →
  Z.of_nat (length (guards s) + length ops) <= u32_max →
  next_cgroup_id (manager s) + Z.of_nat (length ops) <= u64_max →
  gen_heap (manager s) !! addr = Some false →
  gen_heap (manager (foldl exec_cg s ops)) !! addr = Some false.
Proof.
  revert s. induction ops as [|o ops IH]; intros s Hok Hal Hg Hn Hd; [done|].
  cbn [allowed] in Hal. apply andb_true_iff in Hal as [Ho Hal]. cbn [length foldl] in *.
  destruct (exec_cg_growth s o Hok ltac:(lia)) as [Hn' Hg'].
  apply IH; [|done|lia|lia|by apply exec_cg_dead]. apply exec_cg_ok; [done..|lia|lia].
Qed.

(** Killing an agent revokes its reservations for good: after [force_remove_agent] every
    guard the agent held is inert, and stays so whatever happens afterwards (the agent joining again
    and reserving new slots included), so dropping it late changes nothing; the agent's count is
    zero, and the guards of all other agents count as before. *)
Theorem force_remove_revokes (s : System) (id : CgroupId) (leaf : Cgroup) (a : AgentId)
    (later : list CgOp) :
  system_ok s → groups (manager s) !! id = Some leaf → a ∈ cg_members leaf →
  let s1 := exec_cg s (OForceRemove id a) in
  allowed s1 later = true →
  Z.of_nat (length (guards s) + length later) <= u32_max →
  next_cgroup_id (manager s) + Z.of_nat (length later) <= u64_max →
  (force_remove_agent id a (manager s)).1 = Ok tt ∧
  homeless (manager s1) a = true ∧
  has_active_agent_tool_calls (manager s1) a = false ∧
  (∀ g, g ∈ guards s → live (manager s1) g = live (manager s) g && negb (of_agent a g)) ∧
  (∀ g, g ∈ guards s → of_agent a g = true →
    let m2 := manager (foldl exec_cg s1 later) in release_tool_call g m2 = m2).
Proof.
  intros Hok Hleaf Ha. cbv zeta. cbn [exec_cg]. set (m := manager s) in *.
  destruct (hierarchy_exists m id leaf (so_tree _ _ Hok) Hleaf) as (ids & _ & Hpath & _).
  destruct (force_remove_eq m (guards s) id a leaf ids Hok Hleaf Hpath Ha)
    as (i0 & m' & Heq & Hpos & Hgens & Hheap & Hgn & Hact & Hnext & Hidx & Hroot & Hgroups).
  pose proof (sys_ok_force_remove m (guards s) id a Hok) as Hok'. rewrite Heq in *. cbn [fst snd manager] in *.
  intros Hal Hlen Hn.
  assert (∀ g, g ∈ guards s → live m' g = live m g && negb (of_agent a g)) as Hlive.
  { intros g Hg. by apply (force_live m (guards s) id ids leaf a Hok Hleaf Hpath Ha m' i0). }
  split_and!; [done| | |done|].
  - apply homeless_spec. intros i g' Hg' Hin.
    destruct (force_lookup m (guards s) id ids leaf a Hok Hleaf Hpath Ha m' i0 Hpos Hgens Hheap Hgn Hact
      Hnext Hidx Hroot Hgroups i g' Hg') as (g & Hg & _ & _ & _ & _ & Hcase).
    destruct Hcase as [(Hne & Hm & _)|(-> & -> & Hm & _)]; rewrite Hm in Hin.
    + apply Hne. by eapply (so_home _ _ Hok).
    + by apply (force_members m (guards s) id ids leaf a Hok Hleaf Hpath Ha m' i0 Hpos Hgens Hheap Hgn Hact
        Hnext Hidx Hroot Hgroups) in Hin as [_ ?].
  - unfold has_active_agent_tool_calls. by rewrite Hact, lookup_delete_eq.
  - intros g Hg Hag. destruct (proj1 (of_agent_spec a g) Hag) as (addr & Hres).
    assert (gen_heap m' !! addr = Some false) as Hd.
    { pose proof (so_guards _ _ Hok') as Hguards. rewrite Forall_forall in Hguards.
      destruct (gu_alloc _ _ (Hguards g Hg) a addr Hres) as [b Hb].
      specialize (Hlive g Hg). rewrite Hag, andb_false_r in Hlive. unfold live in Hlive.
      rewrite Hres in Hlive. apply bool_decide_eq_false in Hlive. destruct b; congruence. }
    pose proof (history_dead (mkSystem m' (guards s)) later addr Hok' Hal Hlen ltac:(cbn; lia) Hd) as Hd2.
    unfold release_tool_call. rewrite Hres, Hd2. done.
Qed.

Lemma force_remove_revokes_witness :
  let s := foldl exec_cg (system_new 1) example_ops in
  ∃ m, (force_remove_agent 2 8 (manager s)) = (Ok tt, m) ∧
    homeless m 8 = true.
Proof.
  cbv zeta. destruct (groups (manager (foldl exec_cg (system_new 1) example_ops)) !! 2) as [leaf|] eqn:Hl.
  - destruct (force_remove_revokes (foldl exec_cg (system_new 1) example_ops) 2 leaf 8
      [OAddAgent 2 8; OAcquireFor 2 8] system_after_ok Hl) as (H1 & H2 & _).
    + apply zmem_spec. revert Hl. vm_compute. intros [= <-]. reflexivity.
    + vm_compute. reflexivity.
    + vm_compute. discriminate.
    + vm_compute. discriminate.
    + eexists. rewrite (surjective_pairing (force_remove_agent _ _ _)).
      split; [apply (f_equal2 pair H1); reflexivity|exact H2].
  - exfalso. revert Hl. vm_compute. discriminate.
Defined.

(** Without the discipline of [allowed] the counters drift: with one agent in two groups,
    [force_remove_agent] takes the agent's slots from the chain it is removed from, not from the one
    they were taken in.  Here agent 7 reserves in group 2 and is force-removed from group 3: its
    guard is dead, yet group 2 counts one active call for ever. *)
Definition two_homes : list CgOp :=
  [OTryCreate "a" 1 limits_default; OTryCreate "b" 1 limits_default;
   OAddAgent 2 7; OAddAgent 3 7; OAcquireFor 2 7; OForceRemove 3 7; ODrop 0].

Theorem double_membership_leaks_slot :
  let s := foldl exec_cg (system_new 1) two_homes in
  allowed (system_new 1) two_homes = false ∧ guards s = [] ∧
  (active_tool_calls ∘ cg_usage <$> groups (manager s) !! 2) = Some 1.
Proof. vm_compute. done. Qed.

(** ** What each operation does to memberships *)

Definition members_of (m : CgroupManager) (i : CgroupId) : list AgentId :=
  match groups m !! i with Some g => cg_members g | None => [] end.

Lemma elem_members_of m i a :
  a ∈ members_of m i ↔ ∃ g, groups m !! i = Some g ∧ a ∈ cg_members g.
Proof.
  unfold members_of. destruct (groups m !! i) as [g|]; [naive_solver|].
  rewrite elem_of_nil. naive_solver.
Qed.

Lemma members_of_alter m f id i :
  (∀ g, cg_members (f g) = cg_members g) →
  members_of (with_groups (alter f id) m) i = members_of m i.
Proof.
  intros Hf. unfold members_of. cbn. destruct (decide (i = id)) as [->|].
  - rewrite lookup_alter_eq. destruct (groups m !! id); cbn; [apply Hf|done].
  - by rewrite lookup_alter_ne.
Qed.

Lemma members_of_adjust m f ids i :
  (∀ g, cg_members (f g) = cg_members g) →
  members_of (with_groups (adjust f ids) m) i = members_of m i.
Proof.
  intros Hf. unfold adjust. revert m. induction ids as [|id ids IH]; intros m; [done|].
  transitivity (members_of (with_groups (alter f id) m) i); [|by apply members_of_alter].
  apply (IH (with_groups (alter f id) m)).
Qed.

Lemma add_agent_members id a m :
  match add_agent id a m with
  | (Ok _, m') => ∀ i b, b ∈ members_of m' i ↔ b ∈ members_of m i ∨ (b = a ∧ i = id)
  | (Err _, m') => m' = m
  end.
Proof.
  unfold add_agent. destruct (hierarchy_unlocked m id); [|done].
  destruct (groups m !! id) as [g|] eqn:Hg; [|done]. cbn [ok_or].
  destruct (zmem a (cg_members g)); [done|]. destruct (_ && _); [done|].
  intros i b. unfold members_of. cbn. destruct (decide (i = id)) as [->|Hne].
  - rewrite lookup_alter_eq, Hg. cbn. set_solver.
  - rewrite lookup_alter_ne by done. naive_solver.
Qed.

Lemma try_remove_members m gs id a :
  sys_ok m gs →
  match try_remove_agent id a m with
  | (Ok _, m') => ∀ i b, b ∈ members_of m' i ↔ b ∈ members_of m i ∧ ¬ (b = a ∧ i = id)
  | (Err _, m') => m' = m
  end.
Proof.
  intros Hok. unfold try_remove_agent. destruct (hierarchy_unlocked m id); [|done].
  destruct (has_active_agent_tool_calls m a); [done|].
  destruct (groups m !! id) as [g|] eqn:Hg; [|done]. cbn [ok_or].
  destruct (position _ _) as [i0|] eqn:Hpos; [|done].
  destruct (swap_remove_members _ _ _ (go_members _ _ (so_groups _ _ Hok _ _ Hg)) Hpos) as (_ & _ & Hmem).
  intros i b. unfold members_of. cbn. destruct (decide (i = id)) as [->|Hne].
  - rewrite lookup_alter_eq, Hg. cbn. rewrite Hmem. naive_solver.
  - rewrite lookup_alter_ne by done. naive_solver.
Qed.

Lemma force_remove_members m gs id a :
  sys_ok m gs →
  match force_remove_agent id a m with
  | (Ok _, m') => ∀ i b, b ∈ members_of m' i ↔ b ∈ members_of m i ∧ ¬ (b = a ∧ i = id)
  | (Err _, m') => m' = m
  end.
Proof.
  intros Hok. destruct (hierarchy_unlocked m id) as [hier|] eqn:Hh; [|unfold force_remove_agent; by rewrite Hh].
  destruct (hierarchy_Ok _ _ _ (so_tree _ _ Hok) Hh) as (leaf & ids & Hleaf & Hpath & _ & Hlast & _).
  destruct (zmem a (cg_members leaf)) eqn:Ha; cycle 1.
  { unfold force_remove_agent. rewrite Hh, Hlast. cbn [ok_or]. by rewrite Ha. }
  apply zmem_spec in Ha.
  destruct (force_remove_eq m gs id a leaf ids Hok Hleaf Hpath Ha)
    as (i0 & m' & -> & Hpos & _ & _ & _ & _ & _ & _ & _ & Hgr).
  destruct (swap_remove_members _ _ _ (go_members _ _ (so_groups _ _ Hok _ _ Hleaf)) Hpos) as (_ & _ & Hmem).
  pose proof (path_reverse_NoDup _ _ _ (so_tree _ _ Hok) Hpath) as Hnd.
  intros i b. unfold members_of. rewrite Hgr. destruct (decide (i = id)) as [->|Hne].
  - rewrite lookup_alter_eq, lookup_adjust, Hleaf by done.
    destruct (zmem id _); cbn; rewrite Hmem; naive_solver.
  - rewrite lookup_alter_ne, lookup_adjust by done.
    destruct (zmem i _), (groups m !! i); cbn; naive_solver.
Qed.

Lemma move_members m gs src dst a :
  sys_ok m gs → src ≠ dst →
  match try_move_agent src dst a m with
  | (Ok _, m') => a ∈ members_of m src ∧
      ∀ i b, b ∈ members_of m' i ↔ (b ∈ members_of m i ∧ b ≠ a) ∨ (b = a ∧ i = dst)
  | (Err _, m') => m' = m
  end.
Proof.
  intros Hok Hne. unfold try_move_agent.
  destruct (hierarchy_unlocked m src) as [hs|] eqn:Hs; [|done].
  destruct (hierarchy_Ok _ _ _ (so_tree _ _ Hok) Hs) as (g & _ & Hg & _ & _ & Hlast & _).
  rewrite Hlast. cbn [ok_or]. destruct (Z.eqb_spec src dst) as [|_]; [done|].
  destruct (hierarchy_unlocked m dst) as [hd|] eqn:Hd; [|done].
  destruct (hierarchy_Ok _ _ _ (so_tree _ _ Hok) Hd) as (gd & _ & Hgd & _ & _ & Hlastd & _).
  rewrite Hlastd. cbn [ok_or].
  destruct (zmem a (cg_members g)) eqn:Ha; cbn [negb]; [|done]. apply zmem_spec in Ha.
  destruct (has_active_agent_tool_calls m a); [done|].
  destruct (zmem a (cg_members gd)) eqn:Had; [done|].
  destruct ((0 <? _) && _); [done|].
  destruct (position_zeqb_is_Some a (cg_members g) Ha) as [i0 Hpos].
  destruct (swap_remove_members _ _ _ (go_members _ _ (so_groups _ _ Hok _ _ Hg)) Hpos) as (_ & _ & Hmem).
  rewrite (move_commit_eq _ _ _ _ _ _ Hne Hg Hpos). split; [apply elem_members_of; eauto|].
  intros i b. unfold members_of. cbn. destruct (decide (i = src)) as [->|Hsrc].
  - rewrite lookup_alter_eq, lookup_alter_ne, Hg by done. cbn. rewrite Hmem. naive_solver.
  - rewrite lookup_alter_ne by done. destruct (decide (i = dst)) as [->|].
    + rewrite lookup_alter_eq, Hgd. cbn. rewrite elem_of_app, list_elem_of_singleton.
      apply zmem_false in Had. naive_solver.
    + rewrite lookup_alter_ne by done. destruct (groups m !! i) as [gi|] eqn:Hi; [|set_solver].
      assert (b ∈ cg_members gi → b ≠ a); [|naive_solver].
      intros Hb ->. apply Hsrc. by eapply (so_home _ _ Hok).
Qed.

Lemma create_members m gs name parent scope limits i :
  sys_ok m gs → next_cgroup_id m < u64_max →
  members_of (create_scoped name parent scope limits m).2 i = members_of m i.
Proof.
  intros Hok Hlt. pose proof (so_tree _ _ Hok) as Hwf.
  pose proof (create_scoped_cases name parent scope limits m Hwf Hlt) as Hc. cbv zeta in Hc.
  destruct (create_scoped _ _ _ _ m) as [[id|e] m']; cbn [snd].
  - destruct Hc as (_ & _ & _ & pg & Hpg & ->). pose proof (next_id_fresh m Hwf) as Hf.
    unfold members_of. cbn. destruct (decide (i = parent)) as [->|].
    { by rewrite lookup_insert_eq, Hpg. }
    rewrite lookup_insert_ne by done. destruct (decide (i = next_cgroup_id m)) as [->|].
    { by rewrite lookup_insert_eq, Hf. }
    by rewrite lookup_insert_ne.
  - by destruct Hc as [->|[_ ->]].
Qed.

Lemma try_create_members m gs name parent limits i :
  sys_ok m gs → next_cgroup_id m < u64_max →
  members_of (try_create name parent limits m).2 i = members_of m i.
Proof.
  intros Hok Hlt. unfold try_create. destruct (groups m !! parent); [|done]. cbn [ok_or].
  destruct (escape_scope_segment name); [|done]. by eapply create_members.
Qed.

Lemma remove_leaf_members m id i :
  members_of (try_remove_empty_leaf id m).2 i = members_of m i.
Proof.
  unfold try_remove_empty_leaf. destruct (id =? root m); [done|].
  destruct (groups m !! id) as [g|] eqn:Hg; [|done]. cbn [ok_or].
  destruct (leaf_busy g) eqn:Hb; [done|]. destruct (cg_parent g) as [p|]; [|done]. cbn [ok_or].
  destruct (groups m !! p) as [pg|] eqn:Hpg; [|done]. cbn [ok_or].
  destruct (negb _); [done|]. destruct (negb _); [done|].
  unfold leaf_busy in Hb. rewrite !orb_false_iff, !negb_false_iff, !bool_decide_eq_true in Hb.
  destruct Hb as ((((_ & Hmem) & _) & _) & _).
  unfold members_of. cbn. destruct (decide (i = id)) as [->|].
  - by rewrite lookup_delete_eq, Hg, Hmem.
  - rewrite lookup_delete_ne by done. destruct (decide (i = p)) as [->|].
    + by rewrite lookup_alter_eq, Hpg.
    + by rewrite lookup_alter_ne.
Qed.

Lemma limits_members m id l i : members_of (update_limits id l m).2 i = members_of m i.
Proof.
  unfold update_limits. destruct (groups m !! id); [|done]. cbn [ok_or].
  destruct (check_dimensions _ _); [|done]. by apply members_of_alter.
Qed.

Lemma acquire_loop_members hier acq m i :
  members_of (acquire_loop hier acq m).2 i = members_of m i.
Proof.
  revert acq m. induction hier as [|x hier IH]; intros acq m; cbn [acquire_loop]; [done|].
  destruct (groups m !! cg_id x) as [g|]; [|by apply members_of_adjust].
  destruct (_ && _); [by apply members_of_adjust|]. rewrite IH. by apply members_of_alter.
Qed.

Lemma acquire_members id a m i :
  members_of (acquire_tool_call_for_agent id a m).2 i = members_of m i.
Proof.
  unfold acquire_tool_call_for_agent. destruct (hierarchy_unlocked m id) as [hier|]; [|done].
  destruct (last hier); [|done]. cbn [ok_or]. destruct (negb _); [done|].
  unfold acquire_tool_call_for_hierarchy. pose proof (acquire_loop_members hier [] m i) as H.
  destruct (acquire_loop hier [] m) as [[l|e] m1]; cbn [snd] in *; [|done].
  rewrite <- H. unfold reserve_agent. by destruct (tool_call_generations m1 !! a).
Qed.

Lemma release_members guard m i : members_of (release_tool_call guard m) i = members_of m i.
Proof.
  unfold release_tool_call. destruct (agent_reservation guard) as [[a addr]|]; [|by apply members_of_adjust].
  destruct (negb _); [done|].
  assert (members_of (rollback_tool_calls (g_cgroups guard) m) i = members_of m i) as <-
    by (by apply members_of_adjust).
  destruct (active_tool_calls_by_agent _ !! a); [|done]. by destruct (_ =? 0).
Qed.

Lemma sys_ok_release_head m g gs : sys_ok m (g :: gs) → sys_ok (release_tool_call g m) gs.
Proof. intros Hok. by apply (sys_ok_release m (g :: gs) 0 g). Qed.
