(* ===== verification/Gate.v ===== *)
(** * The syscall gate: registration, authorization and admission of tool calls

    Models [crates/kernel/src/syscall_gate.rs].  Every mutator runs under [mutation_lock] and is one
    function on the gate; a tool call is the sequence of its five critical sections
    ([phase_snapshot], [phase_mac], [phase_approval], [phase_acquire], [phase_consume]), between
    which other operations run.  A MAC mutator holds the MAC lock over two effects that the final
    admission can observe in between: it first advances [mac_revision], then changes the engine;
    [mac_pending] is the update of the current lock holder.  [opaque_identity] (SHA-256) and
    [peripheral_activity_identity] (a SHA-256 of a serialized record) are parameters.  The
    [unconfined] gate exists in test builds only and is left out; so are the wake-ups of the
    per-agent [watch] channel, whose value is always [cgroup_revision]. *)

From S2P Require Import Prelude AgentStruct Mac Tools Cgroups.
#[local] Open Scope Z_scope.
#[local] Open Scope kernel_scope.

Abbreviation Pid := Z (only parsing).
Abbreviation NamespaceId := Z (only parsing).

(** ** Data *)

(** The rendered message of [CgroupUnavailable] is represented by what it renders. *)
Inductive UnavailableReason := AdmissionClosed | HierarchyError (e : CgroupError).

Inductive GateDenial :=
| UnknownAgent
| UnknownTool (tool : string)
| ApprovalRequired (tool : string) (policy : ApprovalPolicy)
| MissingCapability (cap : Z)
| GateMacDeny (act resource : string)
| CgroupQuota
| CgroupUnavailable (reason : UnavailableReason)
| CgroupMembershipChanged
| AuthorizationStateChanged
| CgroupToolLimit
| NotInNamespace (tool : string) (namespace : NamespaceId).

Inductive GateMutationError :=
| AlreadyRegistered (kid : uuid)
| MUnknownAgent (kid : uuid)
| ManagedCgroupImmutable (kid : uuid)
| MCgroup (e : CgroupError).

Record ToolAction := mkAction { ta_action : string; ta_required_cap : option Z }.

Definition ACTION_EXEC : ToolAction := mkAction "exec" (Some CAP_EXEC).

(** [classify_tool] over the built-in catalog. *)
Definition classify_tool (catalog : gmap string ToolSecurity) (tool : string) : ToolAction :=
  match catalog !! tool with
  | None => ACTION_EXEC
  | Some s => mkAction (action_as_str (sec_action s)) (head (required_capabilities s))
  end.

Record GateRecord := mkRecord {
  r_pid : Pid;
  r_caps : CapabilitySet;
  r_cgroup : CgroupId;
  r_managed_cgroup : bool;
  r_cgroup_revision : Z;
  r_registration_revision : Z;
  r_accepting : bool;
  r_namespaces : list NamespaceId;
  r_authorization_revision : Z;
  r_namespace_revision : Z }.

Record AgentAuthorizationSnapshot := mkAgentSnap {
  sn_pid : Pid;
  sn_caps : CapabilitySet;
  sn_cgroup : CgroupId;
  sn_cgroup_revision : Z;
  sn_accepting : bool;
  sn_namespaces : list NamespaceId;
  sn_registration_revision : Z;
  sn_authorization_revision : Z }.

Record ToolNamespaceState := mkNsState { ts_namespace : option NamespaceId; ts_revision : Z }.

Record ToolAuthorizationSnapshot := mkSnapshot {
  sn_agent : AgentAuthorizationSnapshot;
  sn_tool_namespace : ToolNamespaceState;
  sn_mac_revision : Z }.

#[global] Instance capability_set_eq_dec : EqDecision CapabilitySet.
Proof. solve_decision. Defined.
#[global] Instance agent_snapshot_eq_dec : EqDecision AgentAuthorizationSnapshot.
Proof. solve_decision. Defined.
#[global] Instance ns_state_eq_dec : EqDecision ToolNamespaceState.
Proof. solve_decision. Defined.
#[global] Instance snapshot_eq_dec : EqDecision ToolAuthorizationSnapshot.
Proof. solve_decision. Defined.

(** (agent, registration generation, tool, resource digest, contract). *)
Abbreviation ApprovalKey := (uuid * Z * string * string * string)%type (only parsing).

Definition key_agent (k : ApprovalKey) : uuid := k.1.1.1.1.

Record GateStats := mkStats {
  st_allowed : Z;
  st_denied_capability : Z;
  st_denied_mac : Z;
  st_denied_approval : Z;
  st_denied_cgroup : Z;
  st_denied_unknown : Z;
  st_denied_namespace : Z;
  st_audited : Z }.

Definition stats_default : GateStats := mkStats 0 0 0 0 0 0 0 0.

Inductive Counter :=
| KAllowed | KCapability | KMac | KApproval | KCgroup | KUnknown | KNamespace | KAudited.

Definition update_counter (f : Z → Z) (c : Counter) (s : GateStats) : GateStats :=
  let on k z := match c, k with
    | KAllowed, KAllowed | KCapability, KCapability | KMac, KMac | KApproval, KApproval
    | KCgroup, KCgroup | KUnknown, KUnknown | KNamespace, KNamespace | KAudited, KAudited => f z
    | _, _ => z
    end in
  mkStats (on KAllowed (st_allowed s)) (on KCapability (st_denied_capability s))
    (on KMac (st_denied_mac s)) (on KApproval (st_denied_approval s))
    (on KCgroup (st_denied_cgroup s)) (on KUnknown (st_denied_unknown s))
    (on KNamespace (st_denied_namespace s)) (on KAudited (st_audited s)).

Inductive AuditDecision := AuditAllowed | AuditDenied.

Record AuditEvent := mkEvent {
  ev_agent : uuid;
  ev_pid : Pid;
  ev_tool : string;
  ev_action : string;
  ev_resource : string;
  ev_decision : AuditDecision }.

(** One entry of the peripheral activity map with its cancellation token. *)
Record Lease := mkLease {
  le_agent : uuid;
  le_identity : string;
  le_id : Z;
  le_cancelled : bool }.

Record Gate := mkGate {
  mac : MacEngine;
  mac_pending : option MacUpdate;
  mac_revision : Z;
  cgroups : CgroupManager;
  default_cgroup : CgroupId;
  records : gmap uuid GateRecord;
  tool_namespaces : gmap string NamespaceId;
  tool_namespace_revision : Z;
  approvals : gmap (uuid * Z * string * string * string) ApprovalPolicy;
  peripheral_activity : list Lease;
  next_pid : Z;
  next_cgroup_revision : Z;
  next_authorization_revision : Z;
  audit_sink : option (list AuditEvent);
  gate_stats : GateStats;
  agent_stats : gmap uuid GateStats }.

(** ** Field updates *)

Definition set_mac (e : MacEngine) (p : option MacUpdate) (r : Z) (g : Gate) : Gate :=
  mkGate e p r (cgroups g) (default_cgroup g) (records g) (tool_namespaces g)
    (tool_namespace_revision g) (approvals g) (peripheral_activity g) (next_pid g)
    (next_cgroup_revision g) (next_authorization_revision g) (audit_sink g) (gate_stats g)
    (agent_stats g).

Definition set_cgroups (x : CgroupManager) (g : Gate) : Gate :=
  mkGate (mac g) (mac_pending g) (mac_revision g) x (default_cgroup g) (records g)
    (tool_namespaces g) (tool_namespace_revision g) (approvals g) (peripheral_activity g)
    (next_pid g) (next_cgroup_revision g) (next_authorization_revision g) (audit_sink g)
    (gate_stats g) (agent_stats g).

Definition set_records (x : gmap uuid GateRecord) (g : Gate) : Gate :=
  mkGate (mac g) (mac_pending g) (mac_revision g) (cgroups g) (default_cgroup g) x
    (tool_namespaces g) (tool_namespace_revision g) (approvals g) (peripheral_activity g)
    (next_pid g) (next_cgroup_revision g) (next_authorization_revision g) (audit_sink g)
    (gate_stats g) (agent_stats g).

Definition set_tool_namespaces (x : gmap string NamespaceId) (r : Z) (g : Gate) : Gate :=
  mkGate (mac g) (mac_pending g) (mac_revision g) (cgroups g) (default_cgroup g) (records g) x r
    (approvals g) (peripheral_activity g) (next_pid g) (next_cgroup_revision g)
    (next_authorization_revision g) (audit_sink g) (gate_stats g) (agent_stats g).

Definition set_approvals (x : gmap (uuid * Z * string * string * string) ApprovalPolicy) (g : Gate) : Gate :=
  mkGate (mac g) (mac_pending g) (mac_revision g) (cgroups g) (default_cgroup g) (records g)
    (tool_namespaces g) (tool_namespace_revision g) x (peripheral_activity g) (next_pid g)
    (next_cgroup_revision g) (next_authorization_revision g) (audit_sink g) (gate_stats g)
    (agent_stats g).

Definition set_peripheral (x : list Lease) (g : Gate) : Gate :=
  mkGate (mac g) (mac_pending g) (mac_revision g) (cgroups g) (default_cgroup g) (records g)
    (tool_namespaces g) (tool_namespace_revision g) (approvals g) x (next_pid g)
    (next_cgroup_revision g) (next_authorization_revision g) (audit_sink g) (gate_stats g)
    (agent_stats g).

Definition set_next_pid (x : Z) (g : Gate) : Gate :=
  mkGate (mac g) (mac_pending g) (mac_revision g) (cgroups g) (default_cgroup g) (records g)
    (tool_namespaces g) (tool_namespace_revision g) (approvals g) (peripheral_activity g) x
    (next_cgroup_revision g) (next_authorization_revision g) (audit_sink g) (gate_stats g)
    (agent_stats g).

Definition set_next_cgroup_revision (x : Z) (g : Gate) : Gate :=
  mkGate (mac g) (mac_pending g) (mac_revision g) (cgroups g) (default_cgroup g) (records g)
    (tool_namespaces g) (tool_namespace_revision g) (approvals g) (peripheral_activity g)
    (next_pid g) x (next_authorization_revision g) (audit_sink g) (gate_stats g) (agent_stats g).

Definition set_next_authorization_revision (x : Z) (g : Gate) : Gate :=
  mkGate (mac g) (mac_pending g) (mac_revision g) (cgroups g) (default_cgroup g) (records g)
    (tool_namespaces g) (tool_namespace_revision g) (approvals g) (peripheral_activity g)
    (next_pid g) (next_cgroup_revision g) x (audit_sink g) (gate_stats g) (agent_stats g).

Definition set_audit_sink (x : option (list AuditEvent)) (g : Gate) : Gate :=
  mkGate (mac g) (mac_pending g) (mac_revision g) (cgroups g) (default_cgroup g) (records g)
    (tool_namespaces g) (tool_namespace_revision g) (approvals g) (peripheral_activity g)
    (next_pid g) (next_cgroup_revision g) (next_authorization_revision g) x (gate_stats g)
    (agent_stats g).

Definition set_stats (x : GateStats) (y : gmap uuid GateStats) (g : Gate) : Gate :=
  mkGate (mac g) (mac_pending g) (mac_revision g) (cgroups g) (default_cgroup g) (records g)
    (tool_namespaces g) (tool_namespace_revision g) (approvals g) (peripheral_activity g)
    (next_pid g) (next_cgroup_revision g) (next_authorization_revision g) (audit_sink g) x y.

(** ** Counters and audit *)

(** [self.c.fetch_add(1)]. *)
Definition count (c : Counter) (g : Gate) : Gate :=
  set_stats (update_counter (λ n, wrap64 (n + 1)) c (gate_stats g)) (agent_stats g) g.

Definition denial_counter (d : GateDenial) : Counter :=
  match d with
  | MissingCapability _ => KCapability
  | GateMacDeny _ _ => KMac
  | ApprovalRequired _ _ => KApproval
  | CgroupQuota | CgroupToolLimit | CgroupUnavailable _ | CgroupMembershipChanged => KCgroup
  | AuthorizationStateChanged => KUnknown
  | NotInNamespace _ _ => KNamespace
  | UnknownAgent | UnknownTool _ => KUnknown
  end.

Definition record_agent_denial (kid : uuid) (d : GateDenial) (g : Gate) : Gate :=
  set_stats (gate_stats g)
    (alter (update_counter (λ n, sat_add64 n 1) (denial_counter d)) kid (agent_stats g)) g.

Definition record_agent_allowed (kid : uuid) (audited : bool) (g : Gate) : Gate :=
  set_stats (gate_stats g)
    (alter (λ s,
       let s := update_counter (λ n, sat_add64 n 1) KAllowed s in
       if audited then update_counter (λ n, sat_add64 n 1) KAudited s else s) kid (agent_stats g)) g.

Definition emit_audit (e : AuditEvent) (g : Gate) : Gate :=
  match audit_sink g with
  | Some l => set_audit_sink (Some (l ++ [e])) g
  | None => g
  end.

Definition stats (g : Gate) : GateStats := gate_stats g.

Definition stats_of_agent (g : Gate) (kid : uuid) : GateStats :=
  match agent_stats g !! kid with Some s => s | None => stats_default end.

Definition add_stats (a b : GateStats) : GateStats :=
  mkStats (sat_add64 (st_allowed a) (st_allowed b))
    (sat_add64 (st_denied_capability a) (st_denied_capability b))
    (sat_add64 (st_denied_mac a) (st_denied_mac b))
    (sat_add64 (st_denied_approval a) (st_denied_approval b))
    (sat_add64 (st_denied_cgroup a) (st_denied_cgroup b))
    (sat_add64 (st_denied_unknown a) (st_denied_unknown b))
    (sat_add64 (st_denied_namespace a) (st_denied_namespace b))
    (sat_add64 (st_audited a) (st_audited b)).

Definition aggregate_agent_stats (g : Gate) (ids : list uuid) : GateStats :=
  foldl (λ total id, add_stats total (stats_of_agent g id)) stats_default ids.

Definition purge_agent_stats (kid : uuid) (g : Gate) : Gate :=
  set_stats (gate_stats g) (delete kid (agent_stats g)) g.

(** ** Construction and MAC mutators *)

Definition with_mac (cg : CgroupManager) (mac_enforcing : bool) (mac_rules : list PolicyRule) : Gate :=
  mkGate (load_policy mac_rules (mac_new mac_enforcing)) None 1 cg (root cg) ∅ ∅ 1 ∅ [] 1 1 1 None
    stats_default ∅.

(** The first effect of [load_mac_policy], [label_mac_agent], [label_mac_resource] and
    [set_mac_enforcing]: with the lock taken, the revision advances. *)
Definition mac_begin (u : MacUpdate) (g : Gate) : Gate :=
  match mac_pending g with
  | None => set_mac (mac g) (Some u) (wrap64 (mac_revision g + 1)) g
  | Some _ => g
  end.

(** The second effect: the engine changes and the lock is released. *)
Definition mac_apply (g : Gate) : Gate :=
  match mac_pending g with
  | Some u => set_mac (apply_update u (mac g)) None (mac_revision g) g
  | None => g
  end.

Definition load_mac_policy (rs : list PolicyRule) (g : Gate) : Gate :=
  mac_apply (mac_begin (ULoadPolicy rs) g).

(** [load_mac_policy_toml] parses before it takes the lock. *)
Definition load_mac_policy_toml (parse : string → result string (list PolicyRule)) (src : string)
    (g : Gate) : result string unit * Gate :=
  match parse src with
  | Err e => (Err e, g)
  | Ok rs => (Ok tt, load_mac_policy rs g)
  end.

Definition label_mac_agent (pid : Pid) (l : string) (g : Gate) : Gate :=
  mac_apply (mac_begin (ULabelAgent pid l) g).
Definition label_mac_resource (resource l : string) (g : Gate) : Gate :=
  mac_apply (mac_begin (ULabelResource resource l) g).
Definition set_mac_enforcing (b : bool) (g : Gate) : Gate :=
  mac_apply (mac_begin (USetEnforcing b) g).
Definition mac_is_enforcing (g : Gate) : bool := is_enforcing (mac g).

(** ** Registration *)

(** [fetch_add] on the two revision allocators and the pid allocator. *)
Definition take_authorization_revision (g : Gate) : Z * Gate :=
  (next_authorization_revision g,
   set_next_authorization_revision (wrap64 (next_authorization_revision g + 1)) g).

Definition take_cgroup_revision (g : Gate) : Z * Gate :=
  (next_cgroup_revision g, set_next_cgroup_revision (wrap64 (next_cgroup_revision g + 1)) g).

Definition try_register_agent_with_admission (kid : uuid) (cs : CapabilitySet)
    (cgroup : option CgroupId) (managed accepting : bool) (g : Gate) :
    result GateMutationError Pid * Gate :=
  match records g !! kid with
  | Some _ => (Err (AlreadyRegistered kid), g)
  | None =>
      let pid := next_pid g in
      let g1 := set_next_pid (wrap64 (pid + 1)) g in
      let cg := match cgroup with Some c => c | None => default_cgroup g1 end in
      match add_agent cg pid (cgroups g1) with
      | (Err e, m) => (Err (MCgroup e), set_cgroups m g1)
      | (Ok _, m) =>
          let g2 := set_cgroups m g1 in
          let (cgroup_revision, g3) := take_cgroup_revision g2 in
          let (authorization_revision, g4) := take_authorization_revision g3 in
          let rec_ := mkRecord pid cs cg managed cgroup_revision authorization_revision accepting []
                        authorization_revision authorization_revision in
          let g5 := set_records (<[kid := rec_]> (records g4)) g4 in
          (Ok pid,
           set_stats (gate_stats g5)
             (match agent_stats g5 !! kid with
              | Some _ => agent_stats g5
              | None => <[kid := stats_default]> (agent_stats g5)
              end) g5)
      end
  end.

Definition try_register_agent (kid : uuid) (cs : CapabilitySet) (cgroup : option CgroupId) :=
  try_register_agent_with_admission kid cs cgroup false true.
Definition try_register_managed_agent (kid : uuid) (cs : CapabilitySet) (cgroup : CgroupId) :=
  try_register_agent_with_admission kid cs (Some cgroup) true true.
Definition try_register_managed_agent_closed (kid : uuid) (cs : CapabilitySet) (cgroup : CgroupId) :=
  try_register_agent_with_admission kid cs (Some cgroup) true false.

(** ** Namespaces *)

Definition register_tool_namespace (tool : string) (ns : NamespaceId) (g : Gate) : Gate :=
  set_tool_namespaces (<[tool := ns]> (tool_namespaces g))
    (wrap64 (tool_namespace_revision g + 1)) g.

Definition unregister_tool_namespace (tool : string) (g : Gate) : Gate :=
  set_tool_namespaces (delete tool (tool_namespaces g)) (wrap64 (tool_namespace_revision g + 1)) g.

Definition tool_visible_to_agent (g : Gate) (kid : uuid) (tool : string) : bool :=
  match records g !! kid with
  | None => false
  | Some r =>
      match tool_namespaces g !! tool with
      | None => true
      | Some ns => zmem ns (r_namespaces r)
      end
  end.

Definition tool_visible_in_namespace (g : Gate) (tool : string) (ns : NamespaceId) : bool :=
  match tool_namespaces g !! tool with None => true | Some ns' => ns' =? ns end.

(** The record with new authorization fields and generation [rev]. *)
Definition revise (caps : CapabilitySet) (accepting : bool) (nss : list NamespaceId)
    (rev ns_rev : Z) (r : GateRecord) : GateRecord :=
  mkRecord (r_pid r) caps (r_cgroup r) (r_managed_cgroup r) (r_cgroup_revision r)
    (r_registration_revision r) accepting nss rev ns_rev.

Definition set_agent_namespaces (kid : uuid) (nss : list NamespaceId) (g : Gate) : Gate :=
  match records g !! kid with
  | None => g
  | Some r =>
      let (rev, g1) := take_authorization_revision g in
      set_records (<[kid := revise (r_caps r) (r_accepting r) nss rev rev r]> (records g1)) g1
  end.

Definition add_agent_namespace (kid : uuid) (ns : NamespaceId) (g : Gate) : Gate :=
  match records g !! kid with
  | None => g
  | Some r =>
      if zmem ns (r_namespaces r) then g
      else
        let (rev, g1) := take_authorization_revision g in
        set_records
          (<[kid := revise (r_caps r) (r_accepting r) (r_namespaces r ++ [ns]) rev rev r]>
             (records g1)) g1
  end.

Definition namespace_membership (g : Gate) (kid : uuid) : option (Pid * list NamespaceId * Z) :=
  (λ r, (r_pid r, r_namespaces r, r_namespace_revision r)) <$> records g !! kid.

(** Unregistered on either side, or without memberships, means visible. *)
Definition shares_namespace (g : Gate) (a b : uuid) : bool :=
  match records g !! a, records g !! b with
  | Some ra, Some rb =>
      match r_namespaces ra, r_namespaces rb with
      | [], _ => true
      | _, [] => true
      | na, nb => existsb (λ n, zmem n nb) na
      end
  | _, _ => true
  end.

(** ** Removal *)

Definition cancel_lease (l : Lease) : Lease :=
  mkLease (le_agent l) (le_identity l) (le_id l) true.

Definition cancel_peripheral_for_agent (kid : uuid) (g : Gate) : nat * Gate :=
  (count_if (λ l, le_agent l =? kid) (peripheral_activity g),
   set_peripheral ((λ l, if le_agent l =? kid then cancel_lease l else l) <$> peripheral_activity g) g).

Definition retain_approvals (kid : uuid) (g : Gate) : Gate :=
  set_approvals (filter (λ e, key_agent e.1 ≠ kid) (approvals g)) g.

Definition drop_record (kid : uuid) (g : Gate) : Gate :=
  let g1 := set_records (delete kid (records g)) g in
  (cancel_peripheral_for_agent kid (retain_approvals kid g1)).2.

Definition try_unregister_agent (kid : uuid) (g : Gate) : result GateMutationError unit * Gate :=
  match records g !! kid with
  | None => (Err (MUnknownAgent kid), g)
  | Some r =>
      match try_remove_agent (r_cgroup r) (r_pid r) (cgroups g) with
      | (Err e, m) => (Err (MCgroup e), set_cgroups m g)
      | (Ok _, m) => (Ok tt, drop_record kid (set_cgroups m g))
      end
  end.

Definition force_unregister_agent (kid : uuid) (g : Gate) : result GateMutationError unit * Gate :=
  match records g !! kid with
  | None => (Err (MUnknownAgent kid), g)
  | Some r =>
      match force_remove_agent (r_cgroup r) (r_pid r) (cgroups g) with
      | (Err e, m) => (Err (MCgroup e), set_cgroups m g)
      | (Ok _, m) => (Ok tt, drop_record kid (set_cgroups m g))
      end
  end.

Definition set_admission (accepting : bool) (kid : uuid) (g : Gate) :
    result GateMutationError Pid * Gate :=
  match records g !! kid with
  | None => (Err (MUnknownAgent kid), g)
  | Some r =>
      let (rev, g1) := take_authorization_revision g in
      (Ok (r_pid r),
       set_records
         (<[kid := revise (r_caps r) accepting (r_namespaces r) rev (r_namespace_revision r) r]>
            (records g1)) g1)
  end.

(** The locked half of [close_tool_admission_and_wait]; the wait returns once
    [has_active_agent_tool_calls] of the returned pid is false. *)
Definition close_tool_admission := set_admission false.
Definition reopen_tool_admission := set_admission true.

Definition set_capabilities (kid : uuid) (cs : CapabilitySet) (g : Gate) : Gate :=
  match records g !! kid with
  | None => g
  | Some r =>
      let (rev, g1) := take_authorization_revision g in
      set_records
        (<[kid := revise cs (r_accepting r) (r_namespaces r) rev (r_namespace_revision r) r]>
           (records g1)) g1
  end.

Definition try_set_cgroup (kid : uuid) (cgroup : CgroupId) (g : Gate) :
    result GateMutationError unit * Gate :=
  match records g !! kid with
  | None => (Err (MUnknownAgent kid), g)
  | Some r =>
      if r_cgroup r =? cgroup then
        match quota_constraints_for_agent (cgroups g) cgroup (r_pid r) with
        | Err e => (Err (MCgroup e), g)
        | Ok _ => (Ok tt, g)
        end
      else if r_managed_cgroup r then (Err (ManagedCgroupImmutable kid), g)
      else
        match try_move_agent (r_cgroup r) cgroup (r_pid r) (cgroups g) with
        | (Err e, m) => (Err (MCgroup e), set_cgroups m g)
        | (Ok _, m) =>
            let (revision, g1) := take_cgroup_revision (set_cgroups m g) in
            (Ok tt,
             set_records
               (<[kid := mkRecord (r_pid r) (r_caps r) cgroup (r_managed_cgroup r) revision
                           (r_registration_revision r) (r_accepting r) (r_namespaces r)
                           (r_authorization_revision r) (r_namespace_revision r)]> (records g1)) g1)
        end
  end.

(** ** Introspection *)

Definition pid_of (g : Gate) (kid : uuid) : option Pid := r_pid <$> records g !! kid.

Definition CAPABILITY_NAMES : list (Z * string) :=
  [(CAP_TOOL_MOUNT, "CAP_TOOL_MOUNT"); (CAP_AGENT_CREATE, "CAP_AGENT_CREATE");
   (CAP_AGENT_KILL, "CAP_AGENT_KILL"); (CAP_NET_ACCESS, "CAP_NET_ACCESS");
   (CAP_FILE_WRITE, "CAP_FILE_WRITE"); (CAP_FILE_DELETE, "CAP_FILE_DELETE");
   (CAP_EXEC, "CAP_EXEC"); (CAP_ADMIN, "CAP_ADMIN"); (CAP_SYS_RESOURCE, "CAP_SYS_RESOURCE")].

Definition capability_bit (name : string) : option Z :=
  fst <$> find_first (λ e, String.eqb e.2 name) CAPABILITY_NAMES.

Definition capability_names (c : CapabilitySet) : list string :=
  snd <$> retain (λ e : Z * string, caps_has c e.1) CAPABILITY_NAMES.

Record AgentGateInfo := mkInfo {
  ai_pid : Pid; ai_capabilities : list string; ai_cgroup : CgroupId; ai_namespaces : list NamespaceId }.

Definition agent_info (g : Gate) (kid : uuid) : option AgentGateInfo :=
  (λ r, mkInfo (r_pid r) (capability_names (r_caps r)) (r_cgroup r) (r_namespaces r))
    <$> records g !! kid.

Record CloneGateSnapshot := mkClone {
  cl_capabilities : CapabilitySet;
  cl_cgroup : CgroupId;
  cl_namespaces : list NamespaceId;
  cl_mac_label : string;
  cl_authorization_revision : Z }.

(** Both clone operations hold the MAC lock. *)
Definition capture_clone_security (g : Gate) (kid : uuid) : result string CloneGateSnapshot :=
  r ← ok_or "clone parent is not registered" (records g !! kid);
  _ ← ensure (negb (has_active_agent_tool_calls (cgroups g) (r_pid r)))
        "clone parent has live tool execution";
  label ← ok_or "clone parent MAC label unavailable" (get_label (r_pid r) (mac g));
  Ok (mkClone (r_caps r) (r_cgroup r) (r_namespaces r) label (r_authorization_revision r)).

Definition with_clone_security {T} (g : Gate) (kid : uuid) (captured : CloneGateSnapshot)
    (commit : T) : result string T :=
  r ← ok_or "clone parent registration was revoked" (records g !! kid);
  _ ← ensure (negb (has_active_agent_tool_calls (cgroups g) (r_pid r)))
        "clone parent has live tool execution";
  _ ← ensure (bool_decide (r_caps r = cl_capabilities captured)
              && (r_cgroup r =? cl_cgroup captured)
              && bool_decide (r_namespaces r = cl_namespaces captured)
              && (r_authorization_revision r =? cl_authorization_revision captured)
              && bool_decide (get_label (r_pid r) (mac g) = Some (cl_mac_label captured)))
        "clone parent authorization changed during creation";
  Ok commit.

(** ** Provider quota *)

Record CgroupQuotaSnapshot := mkQuota {
  qs_constraints : list CgroupQuotaConstraint; qs_membership_revision : Z }.

Definition cgroup_quota_constraints (g : Gate) (kid : uuid) : result GateDenial CgroupQuotaSnapshot :=
  r ← ok_or UnknownAgent (records g !! kid);
  cs ← map_err (λ e, CgroupUnavailable (HierarchyError e))
         (quota_constraints_for_agent (cgroups g) (r_cgroup r) (r_pid r));
  Ok (mkQuota cs (r_cgroup_revision r)).

Definition with_verified_cgroup_quota_snapshot {T} (g : Gate) (kid : uuid) (membership_revision : Z)
    (operation : T) : result GateDenial T :=
  r ← ok_or UnknownAgent (records g !! kid);
  _ ← ensure (r_cgroup_revision r =? membership_revision) CgroupMembershipChanged;
  _ ← map_err (λ e, CgroupUnavailable (HierarchyError e))
        (quota_constraints_for_agent (cgroups g) (r_cgroup r) (r_pid r));
  Ok operation.

(** ** Approvals *)

Section with_digest.
Context (digest : string → string).
Context (activity_identity : string → string → string → string).

Definition approval_key (kid : uuid) (registration_revision : Z) (tool resource contract : string) :
    ApprovalKey :=
  (kid, registration_revision, tool, digest resource, contract).

Definition grant_tool_approval_contract (kid : uuid) (tool resource contract : string)
    (approval : ApprovalPolicy) (g : Gate) : bool * Gate :=
  if bool_decide (approval = ApprovalNone) then (false, g)
  else
    match records g !! kid with
    | None => (false, g)
    | Some r =>
        (true, set_approvals
                 (<[approval_key kid (r_registration_revision r) tool resource contract := approval]>
                    (approvals g)) g)
    end.

Definition approval_present (g : Gate) (k : ApprovalKey) (required : ApprovalPolicy) : bool :=
  match approvals g !! k with Some a => satisfies a required | None => false end.

Definition tool_approval_granted_contract (g : Gate) (kid : uuid) (tool resource contract : string)
    (required : ApprovalPolicy) : option bool :=
  (λ r, approval_present g (approval_key kid (r_registration_revision r) tool resource contract)
          required) <$> records g !! kid.

Definition revoke_tool_approval_contract (kid : uuid) (tool resource contract : string) (g : Gate) :
    option bool * Gate :=
  match records g !! kid with
  | None => (None, g)
  | Some r =>
      let k := approval_key kid (r_registration_revision r) tool resource contract in
      (Some (bool_decide (is_Some (approvals g !! k))), set_approvals (delete k (approvals g)) g)
  end.

Definition lease_of (kid : uuid) (identity : string) (l : Lease) : bool :=
  (le_agent l =? kid) && String.eqb (le_identity l) identity.

Definition peripheral_call_state_contract (g : Gate) (kid : uuid) (tool resource contract : string)
    (required : ApprovalPolicy) (identity : string) : option (bool * nat) :=
  (λ r, (approval_present g (approval_key kid (r_registration_revision r) tool resource contract)
           required,
         count_if (lease_of kid identity) (peripheral_activity g))) <$> records g !! kid.

Definition revoke_peripheral_call_contract (kid : uuid) (tool resource contract identity : string)
    (g : Gate) : option (bool * nat) * Gate :=
  match revoke_tool_approval_contract kid tool resource contract g with
  | (None, g1) => (None, g1)
  | (Some pending_revoked, g1) =>
      (Some (pending_revoked, count_if (lease_of kid identity) (peripheral_activity g1)),
       set_peripheral
         ((λ l, if lease_of kid identity l then cancel_lease l else l) <$> peripheral_activity g1) g1)
  end.

(** ** A tool call *)

(** [ToolCallContract] with the [GateAdmissionContract] of an executing call. *)
Record Call := mkCall {
  c_agent : uuid;
  c_tool : string;
  c_resource : string;
  c_action : string;
  c_capabilities : list Z;
  c_approval_policy : ApprovalPolicy;
  c_approval_contract : string;
  c_request_identity : string;
  c_track_peripheral : bool }.

Definition tool_namespace_state (g : Gate) (tool : string) : ToolNamespaceState :=
  mkNsState (tool_namespaces g !! tool) (tool_namespace_revision g).

Definition authorization_snapshot_locked (g : Gate) (kid : uuid) (tool : string) :
    result GateDenial ToolAuthorizationSnapshot :=
  r ← ok_or UnknownAgent (records g !! kid);
  Ok (mkSnapshot
        (mkAgentSnap (r_pid r) (r_caps r) (r_cgroup r) (r_cgroup_revision r) (r_accepting r)
           (r_namespaces r) (r_registration_revision r) (r_authorization_revision r))
        (tool_namespace_state g tool) (mac_revision g)).

(** The counter bump, the per-agent record and the returned error of a denial. *)
Definition deny (kid : uuid) (d : GateDenial) (g : Gate) : Gate :=
  record_agent_denial kid d (count (denial_counter d) g).

Definition audit_call (c : Call) (pid : Pid) (d : AuditDecision) : Gate → Gate :=
  emit_audit (mkEvent (c_agent c) pid (c_tool c) (c_action c) (digest (c_resource c)) d).

Fixpoint first_missing (cs : CapabilitySet) (required : list Z) : option Z :=
  match required with
  | [] => None
  | c :: rest => if caps_has cs c then first_missing cs rest else Some c
  end.

(** The checks on the snapshot alone: admission, namespace visibility, capabilities. *)
Definition snapshot_checks (c : Call) (s : ToolAuthorizationSnapshot) : result GateDenial unit :=
  _ ← ensure (sn_accepting (sn_agent s)) (CgroupUnavailable AdmissionClosed);
  _ ← match ts_namespace (sn_tool_namespace s) with
      | Some ns => ensure (zmem ns (sn_namespaces (sn_agent s))) (NotInNamespace (c_tool c) ns)
      | None => Ok tt
      end;
  match first_missing (sn_caps (sn_agent s)) (c_capabilities c) with
  | Some cap => Err (MissingCapability cap)
  | None => Ok tt
  end.

Definition phase_snapshot (c : Call) (g : Gate) : result GateDenial ToolAuthorizationSnapshot * Gate :=
  match authorization_snapshot_locked g (c_agent c) (c_tool c) with
  | Err d => (Err d, deny (c_agent c) d g)
  | Ok s =>
      match snapshot_checks c s with
      | Err d => (Err d, deny (c_agent c) d g)
      | Ok _ => (Ok s, g)
      end
  end.

(** The MAC verdict, under the MAC lock; [Ok] says whether the call is to be audited. *)
Definition phase_mac (c : Call) (s : ToolAuthorizationSnapshot) (count_success : bool) (g : Gate) :
    result GateDenial bool * Gate :=
  let pid := sn_pid (sn_agent s) in
  match mac_check (mac g) pid (c_action c) (c_resource c) with
  | MacDeny =>
      let d := GateMacDeny (c_action c) (digest (c_resource c)) in
      (Err d, audit_call c pid AuditDenied (deny (c_agent c) d g))
  | MacAudit =>
      (Ok true,
       if count_success then audit_call c pid AuditAllowed (count KAudited g) else g)
  | MacAllow => (Ok false, g)
  end.

Definition phase_approval (c : Call) (s : ToolAuthorizationSnapshot) (g : Gate) :
    result GateDenial (option ((uuid * Z * string * string * string) * ApprovalPolicy)) * Gate :=
  if bool_decide (c_approval_policy c = ApprovalNone) then (Ok None, g)
  else
    let k := approval_key (c_agent c) (sn_registration_revision (sn_agent s)) (c_tool c)
               (c_resource c) (c_approval_contract c) in
    if approval_present g k (c_approval_policy c) then (Ok (Some (k, c_approval_policy c)), g)
    else
      let d := ApprovalRequired (c_tool c) (c_approval_policy c) in
      (Err d, audit_call c (sn_pid (sn_agent s)) AuditDenied (deny (c_agent c) d g)).

Definition acquire_tool_call_for_record (cgroup : CgroupId) (pid : Pid) (accepting : bool) (g : Gate) :
    result GateDenial ToolCallGuard * Gate :=
  if negb accepting then (Err (CgroupUnavailable AdmissionClosed), count KCgroup g)
  else
    match acquire_tool_call_for_agent cgroup pid (cgroups g) with
    | (Ok guard, m) => (Ok guard, set_cgroups m g)
    | (Err e, m) =>
        (Err (match e with
              | ToolCallLimit _ _ => CgroupToolLimit
              | other => CgroupUnavailable (HierarchyError other)
              end), count KCgroup (set_cgroups m g))
    end.

Definition acquire_tool_call_if_unchanged (kid : uuid) (tool : string)
    (expected : ToolAuthorizationSnapshot) (g : Gate) : result GateDenial ToolCallGuard * Gate :=
  match authorization_snapshot_locked g kid tool with
  | Err d => (Err d, g)
  | Ok current =>
      if negb (bool_decide (current = expected)) then (Err AuthorizationStateChanged, g)
      else acquire_tool_call_for_record (sn_cgroup (sn_agent current)) (sn_pid (sn_agent current))
             (sn_accepting (sn_agent current)) g
  end.

Definition phase_acquire (c : Call) (s : ToolAuthorizationSnapshot) (g : Gate) :
    result GateDenial ToolCallGuard * Gate :=
  match acquire_tool_call_if_unchanged (c_agent c) (c_tool c) s g with
  | (Ok guard, g1) => (Ok guard, g1)
  | (Err d, g1) => (Err d, record_agent_denial (c_agent c) d g1)
  end.

(** Direct reservation for a previously authorized agent. *)
Definition acquire_tool_call (kid : uuid) (g : Gate) : result GateDenial ToolCallGuard * Gate :=
  match records g !! kid with
  | None => (Err UnknownAgent, g)
  | Some r => acquire_tool_call_for_record (r_cgroup r) (r_pid r) (r_accepting r) g
  end.

Record GateAdmissionProof := mkProof {
  gp_agent : uuid;
  gp_request_identity : string;
  gp_approval_satisfied : bool;
  gp_lease : option (uuid * string * Z) }.

Definition drop_guard (guard : ToolCallGuard) (g : Gate) : Gate :=
  set_cgroups (release_tool_call guard (cgroups g)) g.

(** Consumption of the approval and registration of the peripheral lease, under one lock;
    [lease_id] is the lease's random UUID. *)
Definition consume_approval (c : Call) (lease_id : Z)
    (pending : option ((uuid * Z * string * string * string) * ApprovalPolicy)) (g : Gate) :
    bool * option (uuid * string * Z) * Gate :=
  match pending with
  | None => (false, None, g)
  | Some (k, required) =>
      if approval_present g k required then
        let g1 := set_approvals (delete k (approvals g)) g in
        if c_track_peripheral c then
          let identity := activity_identity (c_tool c) (c_approval_contract c) (c_request_identity c) in
          let l := mkLease (c_agent c) identity lease_id false in
          (true, Some (c_agent c, identity, lease_id), set_peripheral (peripheral_activity g1 ++ [l]) g1)
        else (true, None, g1)
      else (false, None, g)
  end.

(** The last section and the return: an unsatisfied approval drops the guard. *)
Definition phase_consume (c : Call) (lease_id : Z) (pid : Pid) (audited : bool)
    (pending : option ((uuid * Z * string * string * string) * ApprovalPolicy))
    (guard : ToolCallGuard) (g : Gate) :
    result GateDenial (Pid * ToolCallGuard * GateAdmissionProof) * Gate :=
  match consume_approval c lease_id pending g with
  | (satisfied, lease, g1) =>
      match pending, satisfied with
      | Some (_, required), false =>
          let d := ApprovalRequired (c_tool c) required in
          (Err d, drop_guard guard (audit_call c pid AuditDenied (deny (c_agent c) d g1)))
      | _, _ =>
          let g2 := record_agent_allowed (c_agent c) audited (count KAllowed g1) in
          let g3 := if audited then audit_call c pid AuditAllowed (count KAudited g2) else g2 in
          (Ok (pid, guard, mkProof (c_agent c) (c_request_identity c) satisfied lease), g3)
      end
  end.

(** Dropping an admitted call: its guard and its lease. *)
Definition finish_call (guard : ToolCallGuard) (lease : option (uuid * string * Z)) (g : Gate) : Gate :=
  let g1 := drop_guard guard g in
  match lease with
  | None => g1
  | Some (kid, identity, id) =>
      set_peripheral
        (retain (λ l, negb (lease_of kid identity l && (le_id l =? id))) (peripheral_activity g1)) g1
  end.

(** ** The calls without interference *)

(** [check_tool_call_contract]: the executing caller passes [count_success = false]. *)
Definition check_tool_call_contract (c : Call) (count_success : bool) (g : Gate) :
    result GateDenial (ToolAuthorizationSnapshot * bool *
      option ((uuid * Z * string * string * string) * ApprovalPolicy)) * Gate :=
  match phase_snapshot c g with
  | (Err d, g1) => (Err d, g1)
  | (Ok s, g1) =>
      match phase_mac c s count_success g1 with
      | (Err d, g2) => (Err d, g2)
      | (Ok audited, g2) =>
          match phase_approval c s g2 with
          | (Err d, g3) => (Err d, g3)
          | (Ok pending, g3) =>
              if count_success then
                match quota_constraints_for_agent (cgroups g3) (sn_cgroup (sn_agent s))
                        (sn_pid (sn_agent s)) with
                | Err e =>
                    let d := CgroupUnavailable (HierarchyError e) in (Err d, deny (c_agent c) d g3)
                | Ok _ =>
                    (Ok (s, audited, pending),
                     record_agent_allowed (c_agent c) audited (count KAllowed g3))
                end
              else (Ok (s, audited, pending), g3)
          end
      end
  end.

Definition check_tool_call_declared (c : Call) (g : Gate) : result GateDenial Pid * Gate :=
  match check_tool_call_contract c true g with
  | (Ok (s, _, _), g1) => (Ok (sn_pid (sn_agent s)), g1)
  | (Err d, g1) => (Err d, g1)
  end.

(** [check_tool_call]: the compatibility path over the built-in catalog; [contract] renders a
    declaration. *)
Definition check_tool_call (catalog : gmap string ToolSecurity) (contract : ToolSecurity → string)
    (kid : uuid) (tool resource : string) (g : Gate) : result GateDenial Pid * Gate :=
  match catalog !! tool with
  | None => (Err (UnknownTool tool), deny kid (UnknownTool tool) g)
  | Some sec =>
      check_tool_call_declared
        (mkCall kid tool resource (action_as_str (sec_action sec)) (required_capabilities sec)
           (approval_policy sec) (contract sec) EmptyString false) g
  end.

Definition authorize_and_acquire_tool_call_declared_contract (c : Call) (lease_id : Z) (g : Gate) :
    result GateDenial (Pid * ToolCallGuard * GateAdmissionProof) * Gate :=
  match check_tool_call_contract c false g with
  | (Err d, g1) => (Err d, g1)
  | (Ok (s, audited, pending), g1) =>
      match phase_acquire c s g1 with
      | (Err d, g2) => (Err d, g2)
      | (Ok guard, g2) => phase_consume c lease_id (sn_pid (sn_agent s)) audited pending guard g2
      end
  end.
End with_digest.
