(* ===== verification/GateInv.v ===== *)
(** * The syscall gate under interleaving

    A world is a gate with the tool calls in flight, each at one of its critical sections.  An event
    is one critical section of one actor: a mutation, one effect of a MAC mutator, or one phase of
    one call.  The theorems hold for every sequence of events.

    In [phase_acquire] the source reads [mac_revision] under [mutation_lock] and then takes the cgroup
    slot; the two are one event here because the slot acquisition neither reads nor changes anything
    a MAC mutator touches. *)

From S2P Require Import Prelude AgentStruct Mac Tools Cgroups CgroupInv Gate.
#[local] Open Scope Z_scope.
#[local] Open Scope kernel_scope.

(** ** Worlds and events *)

Abbreviation Pending := (option ((uuid * Z * string * string * string) * ApprovalPolicy)) (only parsing).

Inductive CallState :=
| SInit
| SAuthorized (s : ToolAuthorizationSnapshot)
| SMacChecked (s : ToolAuthorizationSnapshot) (audited : bool)
| SApproved (s : ToolAuthorizationSnapshot) (audited : bool) (pending : Pending)
| SReserved (s : ToolAuthorizationSnapshot) (audited : bool) (pending : Pending) (guard : ToolCallGuard)
| SAdmitted (pending : Pending) (guard : ToolCallGuard) (proof : GateAdmissionProof)
| SDenied (d : GateDenial)
| SFinished.

Record World := mkWorld { gate : Gate; calls : gmap Z (Call * CallState) }.

(** Everything that runs under [mutation_lock] or changes the cgroup tree. *)
Inductive Mutation :=
| MRegister (kid : uuid) (cs : CapabilitySet) (cgroup : option CgroupId) (managed accepting : bool)
| MUnregister (kid : uuid)
| MForceUnregister (kid : uuid)
| MSetAdmission (accepting : bool) (kid : uuid)
| MSetCapabilities (kid : uuid) (cs : CapabilitySet)
| MSetNamespaces (kid : uuid) (nss : list NamespaceId)
| MAddNamespace (kid : uuid) (ns : NamespaceId)
| MToolNamespace (tool : string) (ns : NamespaceId)
| MToolGlobal (tool : string)
| MSetCgroup (kid : uuid) (cgroup : CgroupId)
| MGrant (kid : uuid) (tool resource contract : string) (approval : ApprovalPolicy)
| MRevoke (kid : uuid) (tool resource contract : string)
| MRevokePeripheral (kid : uuid) (tool resource contract identity : string)
| MCancelPeripheral (kid : uuid)
| MPurgeStats (kid : uuid)
| MCreateCgroup (name : string) (parent : CgroupId) (scope : string) (limits : CgroupLimits)
| MTryCreateCgroup (name : string) (parent : CgroupId) (limits : CgroupLimits)
| MRemoveCgroup (id : CgroupId)
| MUpdateLimits (id : CgroupId) (limits : CgroupLimits).

Inductive Event :=
| EMutate (m : Mutation)
| EMacBegin (u : MacUpdate)
| EMacApply
| EBegin (tid : Z) (c : Call)
| EStep (tid : Z) (lease_id : Z)
| EFinish (tid : Z).

Section worlds.
Context (digest : string → string).
Context (activity_identity : string → string → string → string).

Definition exec_mutation (g : Gate) (m : Mutation) : Gate :=
  match m with
  | MRegister kid cs cg managed acc => (try_register_agent_with_admission kid cs cg managed acc g).2
  | MUnregister kid => (try_unregister_agent kid g).2
  | MForceUnregister kid => (force_unregister_agent kid g).2
  | MSetAdmission acc kid => (set_admission acc kid g).2
  | MSetCapabilities kid cs => set_capabilities kid cs g
  | MSetNamespaces kid nss => set_agent_namespaces kid nss g
  | MAddNamespace kid ns => add_agent_namespace kid ns g
  | MToolNamespace tool ns => register_tool_namespace tool ns g
  | MToolGlobal tool => unregister_tool_namespace tool g
  | MSetCgroup kid cg => (try_set_cgroup kid cg g).2
  | MGrant kid tool res contract a => (grant_tool_approval_contract digest kid tool res contract a g).2
  | MRevoke kid tool res contract => (revoke_tool_approval_contract digest kid tool res contract g).2
  | MRevokePeripheral kid tool res contract i =>
      (revoke_peripheral_call_contract digest kid tool res contract i g).2
  | MCancelPeripheral kid => (cancel_peripheral_for_agent kid g).2
  | MPurgeStats kid => purge_agent_stats kid g
  | MCreateCgroup name parent scope l => set_cgroups (create_scoped name parent scope l (cgroups g)).2 g
  | MTryCreateCgroup name parent l => set_cgroups (try_create name parent l (cgroups g)).2 g
  | MRemoveCgroup id => set_cgroups (try_remove_empty_leaf id (cgroups g)).2 g
  | MUpdateLimits id l => set_cgroups (update_limits id l (cgroups g)).2 g
  end.

Definition after {A} (f : A → CallState) (r : result GateDenial A * Gate) : CallState * Gate :=
  match r with
  | (Ok a, g) => (f a, g)
  | (Err d, g) => (SDenied d, g)
  end.

(** One phase of a call.  The MAC phase waits while a MAC mutator holds the lock. *)
Definition advance (c : Call) (st : CallState) (lease_id : Z) (g : Gate) : CallState * Gate :=
  match st with
  | SInit => after SAuthorized (phase_snapshot c g)
  | SAuthorized s =>
      match mac_pending g with
      | Some _ => (SAuthorized s, g)
      | None => after (SMacChecked s) (phase_mac digest c s false g)
      end
  | SMacChecked s audited => after (SApproved s audited) (phase_approval digest c s g)
  | SApproved s audited pending => after (SReserved s audited pending) (phase_acquire c s g)
  | SReserved s audited pending guard =>
      after (λ r, SAdmitted pending r.1.2 r.2)
        (phase_consume digest activity_identity c lease_id (sn_pid (sn_agent s)) audited pending guard g)
  | SAdmitted _ _ _ | SDenied _ | SFinished => (st, g)
  end.

Definition exec_event (w : World) (e : Event) : World :=
  match e with
  | EMutate m => mkWorld (exec_mutation (gate w) m) (calls w)
  | EMacBegin u => mkWorld (mac_begin u (gate w)) (calls w)
  | EMacApply => mkWorld (mac_apply (gate w)) (calls w)
  | EBegin tid c =>
      match calls w !! tid with
      | None => mkWorld (gate w) (<[tid := (c, SInit)]> (calls w))
      | Some _ => w
      end
  | EStep tid lease_id =>
      match calls w !! tid with
      | None => w
      | Some (c, st) =>
          let (st', g) := advance c st lease_id (gate w) in mkWorld g (<[tid := (c, st')]> (calls w))
      end
  | EFinish tid =>
      match calls w !! tid with
      | Some (c, SAdmitted _ guard proof) =>
          mkWorld (finish_call guard (gp_lease proof) (gate w)) (<[tid := (c, SFinished)]> (calls w))
      | _ => w
      end
  end.

Definition world_new (next : Z) (mac_enforcing : bool) (mac_rules : list PolicyRule) : World :=
  mkWorld (with_mac (cgroup_manager_new next) mac_enforcing mac_rules) ∅.

(** ** The MAC invariant *)

Definition verdict_current (g : Gate) (c : Call) (s : ToolAuthorizationSnapshot) (audited : bool) : Prop :=
  sn_mac_revision s = mac_revision g →
  mac_pending g = None ∧
  mac_check (mac g) (sn_pid (sn_agent s)) (c_action c) (c_resource c)
    = (if audited then MacAudit else MacAllow).

Definition pending_matches (c : Call) (s : ToolAuthorizationSnapshot) (pending : Pending) : Prop :=
  pending = (if bool_decide (c_approval_policy c = ApprovalNone) then None
             else Some (approval_key digest (c_agent c) (sn_registration_revision (sn_agent s))
                          (c_tool c) (c_resource c) (c_approval_contract c), c_approval_policy c)).

(** What the gate has established for a call at each of its points. *)
Definition call_ok (g : Gate) (c : Call) (st : CallState) : Prop :=
  match st with
  | SAuthorized s => snapshot_checks c s = Ok tt ∧ sn_mac_revision s <= mac_revision g
  | SMacChecked s audited =>
      snapshot_checks c s = Ok tt ∧ sn_mac_revision s <= mac_revision g ∧ verdict_current g c s audited
  | SApproved s audited pending =>
      snapshot_checks c s = Ok tt ∧ sn_mac_revision s <= mac_revision g ∧
      verdict_current g c s audited ∧ pending_matches c s pending
  | SReserved s audited pending guard => pending_matches c s pending
  | _ => True
  end.

Definition calls_ok (w : World) : Prop := map_Forall (λ _ e, call_ok (gate w) e.1 e.2) (calls w).

(** Gates that agree on the MAC state. *)
Definition same_mac (g g' : Gate) : Prop :=
  mac g' = mac g ∧ mac_pending g' = mac_pending g ∧ mac_revision g' = mac_revision g.

Lemma same_mac_call_ok g g' c st : same_mac g g' → call_ok g c st → call_ok g' c st.
Proof using Type.
  intros (H1 & H2 & H3). destruct st; cbn; unfold verdict_current; rewrite ?H1, ?H2, ?H3; done.
Qed.

Lemma same_mac_refl g : same_mac g g.
Proof using Type. done. Qed.

Lemma same_mac_trans g1 g2 g3 : same_mac g1 g2 → same_mac g2 g3 → same_mac g1 g3.
Proof using Type. unfold same_mac. intuition congruence. Qed.

Lemma exec_mutation_mac g m : same_mac g (exec_mutation g m).
Proof using Type.
  destruct m; cbn [exec_mutation];
    unfold try_register_agent_with_admission, try_unregister_agent, force_unregister_agent,
      set_admission, set_capabilities, set_agent_namespaces, add_agent_namespace, try_set_cgroup,
      grant_tool_approval_contract, revoke_peripheral_call_contract, revoke_tool_approval_contract,
      take_cgroup_revision, take_authorization_revision; cbv zeta beta iota;
    repeat case_match; simplify_eq; split_and!; reflexivity.
Qed.

(** [phase_snapshot], [phase_approval], [phase_acquire] and [phase_consume] leave the MAC state
    alone, and so does the verdict of [phase_mac]. *)
Lemma emit_audit_mac e g : same_mac g (emit_audit e g).
Proof using Type. unfold emit_audit. case_match; split_and!; reflexivity. Qed.

Lemma audit_call_mac c pid d g : same_mac g (audit_call digest c pid d g).
Proof using Type. apply emit_audit_mac. Qed.

Lemma advance_mac c st lid g : same_mac g (advance c st lid g).2.
Proof using Type.
  destruct st as [|s|s au|s au p|s au p gu| | |]; cbn [advance]; try (by split_and!).
  - unfold phase_snapshot. repeat case_match; simplify_eq; split_and!; reflexivity.
  - destruct (mac_pending g); [by split_and!|]. unfold phase_mac. case_match; cbn [after snd].
    + by split_and!.
    + eapply same_mac_trans; [|apply audit_call_mac]. by split_and!.
    + by split_and!.
  - unfold phase_approval. repeat case_match; simplify_eq; cbn [after snd]; try (by split_and!).
    eapply same_mac_trans; [|apply audit_call_mac]. by split_and!.
  - unfold phase_acquire, acquire_tool_call_if_unchanged, acquire_tool_call_for_record.
    repeat case_match; simplify_eq; split_and!; reflexivity.
  - unfold phase_consume. destruct (consume_approval _ _ _ _ _) as [[sat lease] g1] eqn:Hc.
    assert (same_mac g g1) as H1.
    { unfold consume_approval in Hc. repeat case_match; simplify_eq; split_and!; reflexivity. }
    eapply same_mac_trans; [exact H1|].
    repeat case_match; simplify_eq; cbn [after snd]; try (by split_and!);
      (eapply same_mac_trans; [|apply audit_call_mac]); by split_and!.
Qed.

(** A step of a call establishes what its new state claims. *)
Lemma advance_call_ok c st lid g :
  call_ok g c st → call_ok (advance c st lid g).2 c (advance c st lid g).1.
Proof using Type.
  intros Hc. eapply same_mac_call_ok; [apply advance_mac|]. revert Hc.
  destruct st as [|s|s au|s au p|s au p gu| | |]; cbn [advance]; try done.
  - intros _. unfold phase_snapshot. destruct (authorization_snapshot_locked _ _ _) as [s|d] eqn:Hs; [|done].
    destruct (snapshot_checks c s) as [[]|d] eqn:Hk; [|done]. cbn. split; [done|].
    unfold authorization_snapshot_locked in Hs. res_inv. cbn. lia.
  - intros [Hk Hr]. destruct (mac_pending g) eqn:Hp; [done|]. unfold phase_mac.
    destruct (mac_check _ _ _ _) eqn:Hm; cbn; [|done|];
      (split; [done|]; split; [done|]; intros _; split; [done|exact Hm]).
  - intros (Hk & Hr & Hv). unfold phase_approval. case_bool_decide as Hpol; cbn.
    { split_and!; [done..|]. unfold pending_matches. by rewrite bool_decide_eq_true_2. }
    destruct (approval_present _ _ _); [|done]. cbn. split_and!; [done..|].
    unfold pending_matches. by rewrite bool_decide_eq_false_2.
  - intros (_ & _ & _ & Hp). destruct (phase_acquire c s g) as [[gu|d] g']; done.
  - intros _. by destruct (phase_consume _ _ _ _ _ _ _ _ _) as [[r|d] g'].
Qed.

Lemma exec_event_calls_ok w e :
  calls_ok w → 0 <= mac_revision (gate w) < u64_max →
  calls_ok (exec_event w e) ∧
  mac_revision (gate w) <= mac_revision (gate (exec_event w e)) <= mac_revision (gate w) + 1.
Proof using Type.
  intros Hok Hrev.
  assert (∀ g', same_mac (gate w) g' → map_Forall (λ _ e, call_ok g' e.1 e.2) (calls w)) as Hframe.
  { intros g' Hg'. eapply map_Forall_impl; [exact Hok|]. intros i x. by apply same_mac_call_ok. }
  destruct e as [m|u| |tid c|tid lid|tid]; cbn [exec_event].
  - pose proof (exec_mutation_mac (gate w) m) as Hm. split; [by apply Hframe|].
    destruct Hm as (_ & _ & Hm). cbn. lia.
  - unfold mac_begin. destruct (mac_pending (gate w)) as [u'|] eqn:Hp; [split; [done|cbn; lia]|].
    unfold calls_ok. cbn. rewrite wrap64_small by lia. split; [|lia].
    eapply map_Forall_impl; [exact Hok|]. intros i [c st] Hc. cbn in *.
    destruct st; cbn in *; unfold verdict_current in *; cbn; intuition lia.
  - unfold mac_apply. destruct (mac_pending (gate w)) as [u'|] eqn:Hp; [|split; [done|cbn; lia]].
    split; [|cbn; lia]. eapply map_Forall_impl; [exact Hok|]. intros i [c st] Hc. cbn in *.
    destruct st; cbn in *; unfold verdict_current in *; cbn; rewrite ?Hp in Hc; intuition congruence.
  - destruct (calls w !! tid); [split; [done|lia]|]. split; [|cbn; lia].
    unfold calls_ok. cbn. by apply map_Forall_insert_2.
  - destruct (calls w !! tid) as [[c st]|] eqn:Hc; [|split; [done|lia]].
    pose proof (advance_mac c st lid (gate w)) as Hm.
    pose proof (advance_call_ok c st lid (gate w) (Hok _ _ Hc)) as Hst.
    destruct (advance c st lid (gate w)) as [st' g']. cbn in Hm, Hst. split.
    + unfold calls_ok. cbn. apply map_Forall_insert_2; [done|by apply Hframe].
    + destruct Hm as (_ & _ & Hm). cbn. lia.
  - destruct (calls w !! tid) as [[c [| | | | |p gu pr| |]]|] eqn:Hc; try (split; [done|lia]).
    assert (same_mac (gate w) (finish_call gu (gp_lease pr) (gate w))) as Hm.
    { unfold finish_call. repeat case_match; split_and!; reflexivity. }
    split; [|destruct Hm as (_ & _ & Hm); cbn; lia].
    unfold calls_ok. cbn. apply map_Forall_insert_2; [done|by apply Hframe].
Qed.

Lemma run_calls_ok es w :
  calls_ok w → 0 <= mac_revision (gate w) →
  mac_revision (gate w) + Z.of_nat (length es) <= u64_max →
  calls_ok (foldl exec_event w es).
Proof using Type.
  revert w. induction es as [|e es IH]; intros w Hok H0 Hb; [done|]. cbn [foldl length] in *.
  destruct (exec_event_calls_ok w e Hok ltac:(lia)) as [Hok' Hr]. apply IH; [done|lia|lia].
Qed.

(** ** Admission *)

(** The gate authorizes the call in its present state. *)
Definition authorized_now (g : Gate) (c : Call) (pending : Pending) : Prop :=
  ∃ r, records g !! c_agent c = Some r ∧
    r_accepting r = true ∧
    tool_visible_to_agent g (c_agent c) (c_tool c) = true ∧
    Forall (λ cap, caps_has (r_caps r) cap = true) (c_capabilities c) ∧
    mac_pending g = None ∧
    mac_check (mac g) (r_pid r) (c_action c) (c_resource c) ≠ MacDeny ∧
    (c_approval_policy c ≠ ApprovalNone →
     pending = Some (approval_key digest (c_agent c) (r_registration_revision r) (c_tool c)
                       (c_resource c) (c_approval_contract c), c_approval_policy c)).

Lemma first_missing_None cs l :
  first_missing cs l = None → Forall (λ cap, caps_has cs cap = true) l.
Proof using Type.
  induction l as [|c l IH]; cbn; [constructor|]. destruct (caps_has cs c) eqn:Hc; [|done].
  constructor; auto.
Qed.

(** A successful acquisition found the gate exactly as the snapshot has it. *)
Lemma phase_acquire_Ok c s g guard g' :
  phase_acquire c s g = (Ok guard, g') →
  ∃ r, records g !! c_agent c = Some r ∧ authorization_snapshot_locked g (c_agent c) (c_tool c) = Ok s ∧
    acquire_tool_call_for_agent (r_cgroup r) (r_pid r) (cgroups g) = (Ok guard, cgroups g') ∧
    g' = set_cgroups (cgroups g') g ∧ r_accepting r = true.
Proof using Type.
  unfold phase_acquire, acquire_tool_call_if_unchanged.
  destruct (authorization_snapshot_locked g _ _) as [s'|d] eqn:Hs; [|done].
  case_bool_decide as Heq; cbn [negb]; [|done]. subst s'.
  unfold authorization_snapshot_locked in Hs. destruct (records g !! c_agent c) as [r|] eqn:Hr; [|done].
  cbn in Hs. injection Hs as <-. cbn. unfold acquire_tool_call_for_record.
  destruct (r_accepting r) eqn:Hacc; cbn [negb]; [|done].
  destruct (acquire_tool_call_for_agent _ _ _) as [[gu|e] m] eqn:Ha; [|done].
  intros [= -> <-]. exists r. by split_and!.
Qed.

Lemma snapshot_checks_now g c s r :
  snapshot_checks c s = Ok tt → records g !! c_agent c = Some r →
  authorization_snapshot_locked g (c_agent c) (c_tool c) = Ok s →
  tool_visible_to_agent g (c_agent c) (c_tool c) = true ∧
  Forall (λ cap, caps_has (r_caps r) cap = true) (c_capabilities c).
Proof using Type.
  unfold authorization_snapshot_locked, snapshot_checks. intros Hk Hr. rewrite Hr. intros [= <-].
  cbn -[zmem first_missing] in Hk. unfold tool_visible_to_agent. rewrite Hr.
  destruct (r_accepting r); [|done]. cbn -[zmem first_missing] in Hk.
  destruct (tool_namespaces g !! c_tool c) as [ns|].
  - destruct (zmem ns (r_namespaces r)); [|done]. cbn -[zmem first_missing] in Hk. split; [done|].
    destruct (first_missing _ _) eqn:Hf; [done|]. by apply first_missing_None.
  - split; [done|]. destruct (first_missing _ _) eqn:Hf; [done|]. by apply first_missing_None.
Qed.


(** ** Approvals are consumed *)

(** Event [e] grants approval [k]. *)
Definition grants (k : ApprovalKey) (w : World) (e : Event) : bool :=
  match e with
  | EMutate (MGrant kid tool res contract a) =>
      negb (bool_decide (a = ApprovalNone)) &&
      match records (gate w) !! kid with
      | Some r => bool_decide (approval_key digest kid (r_registration_revision r) tool res contract = k)
      | None => false
      end
  | _ => false
  end.

(** Event [e] admits a call that had to present approval [k]. *)
Definition uses (k : ApprovalKey) (w : World) (e : Event) : bool :=
  match e with
  | EStep tid lid =>
      match calls w !! tid with
      | Some (c, SReserved s au (Some (k', req)) gu) =>
          bool_decide (k' = k) &&
          match (advance c (SReserved s au (Some (k', req)) gu) lid (gate w)).1 with
          | SAdmitted _ _ _ => true
          | _ => false
          end
      | _ => false
      end
  | _ => false
  end.

Fixpoint tally (f : World → Event → bool) (w : World) (es : list Event) : nat :=
  match es with
  | [] => 0
  | e :: es' => (if f w e then 1 else 0) + tally f (exec_event w e) es'
  end.

Definition present (g : Gate) (k : ApprovalKey) : nat :=
  match approvals g !! k with Some _ => 1 | None => 0 end.

Lemma present_le_1 g k : (present g k <= 1)%nat.
Proof using Type. unfold present. case_match; lia. Qed.

Lemma present_eq g g' k : approvals g' = approvals g → present g' k = present g k.
Proof using Type. unfold present. by intros ->. Qed.

Lemma retain_approvals_present kid g k : (present (retain_approvals kid g) k <= present g k)%nat.
Proof using Type.
  unfold present, retain_approvals. cbn. destruct (filter _ _ !! k) eqn:Hk; [|lia].
  apply map_lookup_filter_Some in Hk as [-> _]. lia.
Qed.

Lemma delete_present k' g k :
  (present (set_approvals (delete k' (approvals g)) g) k
   = if bool_decide (k' = k) then 0 else present g k)%nat.
Proof using Type.
  unfold present. cbn. case_bool_decide as H; [subst; by rewrite lookup_delete_eq|].
  by rewrite lookup_delete_ne.
Qed.

Lemma drop_record_present kid m g k :
  (present (drop_record kid (set_cgroups m g)) k <= present g k)%nat.
Proof using Type.
  etransitivity; [|apply (retain_approvals_present kid)]. by apply Nat.eq_le_incl, present_eq.
Qed.

Lemma mutation_present w m k :
  (present (exec_mutation (gate w) m) k <= present (gate w) k + if grants k w (EMutate m) then 1 else 0)%nat.
Proof using Type.
  set (g := gate w).
  assert (∀ g', approvals g' = approvals g → (present g' k <= present g k + 0)%nat) as Hsame.
  { intros g' H. by rewrite (present_eq g g' k H), Nat.add_0_r. }
  assert (∀ kid tool res contract,
    (present (revoke_tool_approval_contract digest kid tool res contract g).2 k <= present g k)%nat) as Hrevoke.
  { intros *. unfold revoke_tool_approval_contract. destruct (records g !! kid); [|done]. cbn [snd].
    rewrite delete_present. case_bool_decide; lia. }
  destruct m; cbn [exec_mutation grants]; try (by apply Hsame).
  - apply Hsame. unfold try_register_agent_with_admission, take_cgroup_revision, take_authorization_revision.
    repeat case_match; simplify_eq; reflexivity.
  - unfold try_unregister_agent. destruct (records g !! kid); [|cbn [snd]; lia].
    destruct (try_remove_agent _ _ _) as [[]]; cbn [snd]; [rewrite Nat.add_0_r; apply drop_record_present|by apply Hsame].
  - unfold force_unregister_agent. destruct (records g !! kid); [|cbn [snd]; lia].
    destruct (force_remove_agent _ _ _) as [[]]; cbn [snd]; [rewrite Nat.add_0_r; apply drop_record_present|by apply Hsame].
  - apply Hsame. unfold set_admission, take_authorization_revision. by repeat case_match; simplify_eq.
  - apply Hsame. unfold set_capabilities, take_authorization_revision. by repeat case_match; simplify_eq.
  - apply Hsame. unfold set_agent_namespaces, take_authorization_revision. by repeat case_match; simplify_eq.
  - apply Hsame. unfold add_agent_namespace, take_authorization_revision. by repeat case_match; simplify_eq.
  - apply Hsame. unfold try_set_cgroup, take_cgroup_revision. by repeat case_match; simplify_eq.
  - unfold grant_tool_approval_contract. fold g. case_bool_decide; cbn [negb andb]; [cbn [snd]; lia|].
    destruct (records g !! kid) as [r|]; [|cbn [snd]; lia]. cbn [snd]. unfold present. cbn. case_bool_decide as Hk.
    + case_match; lia.
    + rewrite lookup_insert_ne by done. lia.
  - rewrite Nat.add_0_r. apply Hrevoke.
  - rewrite Nat.add_0_r. pose proof (Hrevoke kid tool resource contract) as Hr.
    unfold revoke_peripheral_call_contract.
    destruct (revoke_tool_approval_contract _ _ _ _ _ g) as [[b|] g1]; cbn [snd] in *; [|exact Hr].
    etransitivity; [|exact Hr]. by apply Nat.eq_le_incl, present_eq.
Qed.

Lemma emit_audit_approvals e g : approvals (emit_audit e g) = approvals g.
Proof using Type. unfold emit_audit. by case_match. Qed.

(** Only the consuming phase touches the approvals, and only to use one up. *)
Lemma advance_present c st lid g k :
  let used := match st with
    | SReserved s au (Some (k', req)) gu =>
        bool_decide (k' = k) && match (advance c st lid g).1 with SAdmitted _ _ _ => true | _ => false end
    | _ => false end in
  (present (advance c st lid g).2 k + (if used then 1 else 0) <= present g k)%nat.
Proof using Type.
  assert (∀ g', approvals g' = approvals g → (present g' k + 0 <= present g k)%nat) as Hsame.
  { intros g' H. rewrite (present_eq g g' k H). lia. }
  destruct st as [|s|s au|s au p|s au p gu| | |]; cbv zeta; cbn [advance]; try (by apply Hsame).
  - apply Hsame. unfold phase_snapshot. by repeat case_match; simplify_eq.
  - apply Hsame. destruct (mac_pending g); [done|]. unfold phase_mac, audit_call.
    case_match; cbn [after snd]; by rewrite ?emit_audit_approvals.
  - apply Hsame. unfold phase_approval, audit_call.
    repeat case_match; simplify_eq; cbn [after snd]; by rewrite ?emit_audit_approvals.
  - apply Hsame. unfold phase_acquire, acquire_tool_call_if_unchanged, acquire_tool_call_for_record.
    by repeat case_match; simplify_eq.
  - unfold phase_consume, consume_approval. destruct p as [[k' req]|]; cycle 1.
    { unfold audit_call. destruct au; cbn [after snd]; apply Hsame; by rewrite ?emit_audit_approvals. }
    unfold approval_present. destruct (approvals g !! k') as [a|] eqn:Hk'; cycle 1.
    { cbn [after snd fst]. rewrite andb_false_r. apply Hsame. unfold audit_call, drop_guard. cbn.
      by rewrite emit_audit_approvals. }
    destruct (satisfies a req); cycle 1.
    { cbn [after snd fst]. rewrite andb_false_r. apply Hsame. unfold audit_call, drop_guard. cbn.
      by rewrite emit_audit_approvals. }
    set (g1 := if c_track_peripheral c then _ else _).
    assert (approvals g1.2 = delete k' (approvals g) ∧ g1.1.1 = true) as [Hap Htrue].
    { unfold g1. by destruct (c_track_peripheral c). }
    destruct g1 as [[b l] g1]. cbn in Hap, Htrue. subst b. cbn [after snd fst].
    unfold present. case_bool_decide as Hk; cbn [andb].
    + subst k'. rewrite Hk'. unfold audit_call. destruct au; rewrite ?emit_audit_approvals; cbn;
        rewrite Hap, lookup_delete_eq; lia.
    + unfold audit_call. destruct au; rewrite ?emit_audit_approvals; cbn;
        rewrite Hap, lookup_delete_ne by done; lia.
Qed.

Lemma event_present w e k :
  (present (gate (exec_event w e)) k + (if uses k w e then 1 else 0)
   <= present (gate w) k + if grants k w e then 1 else 0)%nat.
Proof using Type.
  destruct e as [m|u| |tid c|tid lid|tid]; cbn [exec_event uses].
  - pose proof (mutation_present w m k). cbn [gate]. lia.
  - unfold mac_begin. cbn [gate grants]. rewrite (present_eq (gate w)) by (by case_match). lia.
  - unfold mac_apply. cbn [gate grants]. rewrite (present_eq (gate w)) by (by case_match). lia.
  - cbn [grants]. destruct (calls w !! tid); cbn [gate]; lia.
  - cbn [grants]. destruct (calls w !! tid) as [[c st]|]; [|lia].
    pose proof (advance_present c st lid (gate w) k) as H. cbv zeta in H.
    destruct (advance c st lid (gate w)) as [st' g'] eqn:Ha. cbn [gate fst snd] in *.
    destruct st as [| | | |s au [[k' req]|] gu| | |]; try lia. rewrite Ha. cbn [fst]. lia.
  - cbn [grants]. destruct (calls w !! tid) as [[c [| | | | |p gu pr| |]]|]; cbn [gate]; try lia.
    rewrite (present_eq (gate w)); [lia|]. unfold finish_call, drop_guard. by repeat case_match.
Qed.

Lemma tally_uses es w k :
  (present (gate (foldl exec_event w es)) k + tally (uses k) w es
   <= present (gate w) k + tally (grants k) w es)%nat.
Proof using Type.
  revert w. induction es as [|e es IH]; intros w; cbn [foldl tally]; [lia|].
  specialize (IH (exec_event w e)). pose proof (event_present w e k). lia.
Qed.

(** C21. Approvals are exact and single-use: over any history, the calls admitted on an
    approval are at most the grants of exactly that approval (agent, registration, tool, resource
    digest and contract); and a call whose declaration requires approval reaches the final section
    only with the key of its own agent, snapshot registration, tool, resource and contract. *)
Theorem approvals_single_use (next : Z) (mac_enforcing : bool) (mac_rules : list PolicyRule)
    (es : list Event) (k : ApprovalKey) :
  Z.of_nat (length es) < u64_max →
  let w0 := world_new next mac_enforcing mac_rules in
  (tally (uses k) w0 es <= tally (grants k) w0 es)%nat ∧
  ∀ tid c s audited pending guard,
    calls (foldl exec_event w0 es) !! tid = Some (c, SReserved s audited pending guard) →
    c_approval_policy c ≠ ApprovalNone →
    pending = Some (approval_key digest (c_agent c) (sn_registration_revision (sn_agent s)) (c_tool c)
                      (c_resource c) (c_approval_contract c), c_approval_policy c).
Proof using Type.
  intros Hlen. cbv zeta. set (w0 := world_new _ _ _). split.
  - pose proof (tally_uses es w0 k) as H. assert (present (gate w0) k = O) as H0 by done. lia.
  - intros tid c s au p gu Hw Hpol.
    assert (calls_ok (foldl exec_event w0 es)) as Hok by (apply run_calls_ok; [apply map_Forall_empty|cbn; lia..]).
    pose proof (Hok _ _ Hw) as Hp. cbn in Hp. unfold pending_matches in Hp.
    by rewrite bool_decide_eq_false_2 in Hp.
Qed.
End worlds.

(** ** A concrete history *)

(** An agent is registered and granted one approval, which two concurrent calls then compete for. *)
Definition demo_call : Call :=
  mkCall 7 "deploy" "/srv" "exec" [CAP_EXEC] ApprovalUser "v1" "req" false.

Definition demo_events : list Event :=
  [EMutate (MRegister 7 (mkCaps CAP_EXEC) None false true);
   EMutate (MGrant 7 "deploy" "/srv" "v1" ApprovalAdministrator);
   EBegin 1 demo_call; EBegin 2 demo_call; EStep 1 0; EStep 2 0; EStep 1 0; EStep 2 0;
   EStep 1 0; EStep 2 0].

Abbreviation demo_digest := (λ s : string, s).
Abbreviation demo_identity := (λ a b c : string, a +:+ b +:+ c).
Abbreviation demo_world := (foldl (exec_event demo_digest demo_identity) (world_new 1 false [])).

Definition state_of (w : World) (tid : Z) : option CallState := snd <$> calls w !! tid.


(** Both calls pass the approval check and reserve a slot; one of them consumes the approval. *)
Definition demo_rest : list Event := [EStep 1 0; EStep 2 0; EStep 2 0; EStep 1 0].

Lemma approvals_single_use_witness :
  let k := approval_key demo_digest 7 1 "deploy" "/srv" "v1" in
  let w0 := world_new 1 false [] in
  (tally demo_digest demo_identity (uses demo_digest demo_identity k) w0 (demo_events ++ demo_rest)
   <= tally demo_digest demo_identity (grants demo_digest k) w0 (demo_events ++ demo_rest))%nat ∧
  tally demo_digest demo_identity (uses demo_digest demo_identity k) w0 (demo_events ++ demo_rest) = 1%nat.
Proof.
  split; [|vm_compute; reflexivity].
  apply (approvals_single_use demo_digest demo_identity 1 false [] (demo_events ++ demo_rest)).
  vm_compute. reflexivity.
Defined.
