(* ===== verification/GateReg.v ===== *)
(** * The syscall gate and its control groups

    The gate is the client whose discipline the cgroup accounting needs: it registers each agent under
    a fresh pid in one cgroup and moves or removes it only through the manager.  The invariant ties
    the gate's records to the memberships of the manager and the guards of the calls in flight to its
    counters, and holds after every sequence of events. *)

From S2P Require Import Prelude AgentStruct Mac Tools Cgroups CgroupInv Gate GateInv.
#[local] Open Scope Z_scope.
#[local] Open Scope kernel_scope.

(** ** The invariant *)

(** Pid and cgroup of each registered agent. *)
Definition homes (g : Gate) : gmap uuid (Pid * CgroupId) :=
  (λ r, (r_pid r, r_cgroup r)) <$> records g.

Record reg_ok (g : Gate) (gs : list ToolCallGuard) : Prop := {
  ro_sys : sys_ok (cgroups g) gs;
  ro_home : ∀ kid p c, homes g !! kid = Some (p, c) → p ∈ members_of (cgroups g) c;
  ro_pid : ∀ k1 k2 p c1 c2, homes g !! k1 = Some (p, c1) → homes g !! k2 = Some (p, c2) → k1 = k2;
  ro_member : ∀ i a, a ∈ members_of (cgroups g) i → ∃ kid, homes g !! kid = Some (a, i);
  ro_next : ∀ kid p c, homes g !! kid = Some (p, c) → 0 <= p < next_pid g;
  ro_next_nonneg : 0 <= next_pid g }.

(** Nothing of it depends on more than these projections. *)
Lemma reg_ok_frame g g' gs gs' :
  reg_ok g gs → sys_ok (cgroups g') gs' →
  (∀ i, members_of (cgroups g') i = members_of (cgroups g) i) →
  homes g' = homes g → next_pid g' = next_pid g → reg_ok g' gs'.
Proof.
  intros [H1 H2 H3 H4 H5 H6] Hs Hm Hh Hn.
  split; rewrite ?Hh, ?Hn; try done; setoid_rewrite Hm; done.
Qed.

Lemma homes_insert kid r g x :
  records x = records g → homes (set_records (<[kid := r]> (records x)) g) = <[kid := (r_pid r, r_cgroup r)]> (homes g).
Proof. intros ->. unfold homes. cbn. by rewrite fmap_insert. Qed.

Lemma homes_lookup g kid r : records g !! kid = Some r → homes g !! kid = Some (r_pid r, r_cgroup r).
Proof. intros Hr. unfold homes. by rewrite lookup_fmap, Hr. Qed.

(** A record revised in its authorization fields keeps its home. *)
Lemma homes_revise kid caps acc nss rev ns_rev r (rs : gmap uuid GateRecord) :
  rs !! kid = Some r →
  (λ r, (r_pid r, r_cgroup r)) <$> <[kid := revise caps acc nss rev ns_rev r]> rs =
  (λ r, (r_pid r, r_cgroup r)) <$> rs.
Proof.
  intros Hr. rewrite fmap_insert. apply insert_id. by rewrite lookup_fmap, Hr.
Qed.

(** ** Registration *)

Lemma reg_ok_register g gs kid cs cg managed acc :
  reg_ok g gs → next_pid g < u64_max →
  reg_ok (try_register_agent_with_admission kid cs cg managed acc g).2 gs.
Proof.
  intros Hok Hn. unfold try_register_agent_with_admission.
  destruct (records g !! kid) as [r|] eqn:Hr; [done|].
  set (c := match cg with Some c => c | None => _ end). cbn [cgroups set_next_pid].
  pose proof (ro_next_nonneg _ _ Hok) as H0.
  assert (homeless (cgroups g) (next_pid g) = true) as Hhl.
  { apply homeless_spec. intros i grp Hi Hin.
    destruct (ro_member _ _ Hok i (next_pid g)) as [k Hk]; [apply elem_members_of; eauto|].
    apply (ro_next _ _ Hok) in Hk. lia. }
  pose proof (sys_ok_add (cgroups g) gs c (next_pid g) (ro_sys _ _ Hok) Hhl) as Hs.
  pose proof (add_agent_members c (next_pid g) (cgroups g)) as Hm.
  destruct (add_agent c (next_pid g) (cgroups g)) as [[[]|e] m]; cbn [snd] in Hs.
  - unfold take_cgroup_revision, take_authorization_revision. cbv zeta beta iota. cbn [snd].
    set (r := mkRecord _ _ _ _ _ _ _ _ _ _). set (g' := set_stats _ _ _).
    assert (homes g' = <[kid := (next_pid g, c)]> (homes g)) as Hh.
    { unfold homes, g'. cbn. by rewrite fmap_insert. }
    assert (homes g !! kid = None) as Hnone by (unfold homes; by rewrite lookup_fmap, Hr).
    assert (next_pid g' = next_pid g + 1) as Hnp by (cbn; by rewrite wrap64_small by lia).
    assert (cgroups g' = m) as Hcg by done. clearbody g'. split; rewrite ?Hcg, ?Hh, ?Hnp; [done| | | | |lia].
    + intros k p c' [[<- [= <- <-]]|[_ Hk]]%lookup_insert_Some; apply Hm; [by right|left].
      by eapply (ro_home _ _ Hok).
    + intros k1 k2 p c1 c2 Hk1%lookup_insert_Some Hk2%lookup_insert_Some.
      destruct Hk1 as [[<- Hp1]|[_ Hk1]], Hk2 as [[<- Hp2]|[_ Hk2]]; simplify_eq; [done| | |].
      * apply (ro_next _ _ Hok) in Hk2. lia.
      * apply (ro_next _ _ Hok) in Hk1. lia.
      * by eapply (ro_pid _ _ Hok).
    + intros i a [Ha|[-> ->]]%Hm; [|exists kid; apply lookup_insert_eq].
      destruct (ro_member _ _ Hok i a Ha) as [k Hk]. exists k. rewrite lookup_insert_ne; [done|].
      intros <-. congruence.
    + intros k p c' [[<- [= <- <-]]|[_ Hk]]%lookup_insert_Some; [lia|].
      apply (ro_next _ _ Hok) in Hk. lia.
  - subst m. cbn [snd]. destruct Hok as [H1 H2 H3 H4 H5 H6]. split; cbn; try done;
      rewrite wrap64_small by lia; [|lia]. intros k p c' Hk. specialize (H5 k p c' Hk). lia.
Qed.

(** Removing the record of an agent whose membership was removed. *)
Lemma reg_ok_drop g gs kid r m :
  reg_ok g gs → records g !! kid = Some r → sys_ok m gs →
  (∀ i b, b ∈ members_of m i ↔ b ∈ members_of (cgroups g) i ∧ ¬ (b = r_pid r ∧ i = r_cgroup r)) →
  reg_ok (drop_record kid (set_cgroups m g)) gs.
Proof.
  intros Hok Hr Hs Hm. apply homes_lookup in Hr as Hk. set (g' := drop_record _ _).
  assert (homes g' = delete kid (homes g)) as Hh by (unfold homes, g'; cbn; by rewrite fmap_delete).
  assert (cgroups g' = m ∧ next_pid g' = next_pid g) as [Hcg Hnp] by done. clearbody g'.
  split; rewrite ?Hcg, ?Hh, ?Hnp; [done| | | | |apply Hok].
  - intros k p c [Hne Hp]%lookup_delete_Some. apply Hm. split; [by eapply (ro_home _ _ Hok)|].
    intros [-> ->]. apply Hne. by eapply (ro_pid _ _ Hok).
  - intros k1 k2 p c1 c2 [_ H1]%lookup_delete_Some [_ H2]%lookup_delete_Some. by eapply (ro_pid _ _ Hok).
  - intros i a [Ha Hne]%Hm. destruct (ro_member _ _ Hok i a Ha) as [k Hk']. exists k.
    rewrite lookup_delete_ne; [done|]. intros <-. rewrite Hk in Hk'. injection Hk' as <- <-. by apply Hne.
  - intros k p c [_ Hp]%lookup_delete_Some. by eapply (ro_next _ _ Hok).
Qed.

Lemma reg_ok_unregister g gs kid : reg_ok g gs → reg_ok (try_unregister_agent kid g).2 gs.
Proof.
  intros Hok. unfold try_unregister_agent. destruct (records g !! kid) as [r|] eqn:Hr; [|done].
  pose proof (sys_ok_try_remove (cgroups g) gs (r_cgroup r) (r_pid r) (ro_sys _ _ Hok)) as Hs.
  pose proof (try_remove_members (cgroups g) gs (r_cgroup r) (r_pid r) (ro_sys _ _ Hok)) as Hm.
  destruct (try_remove_agent _ _ _) as [[[]|e] m]; cbn [snd] in *; [by apply reg_ok_drop with r|].
  subst m. by apply (reg_ok_frame g _ gs).
Qed.

Lemma reg_ok_force_unregister g gs kid : reg_ok g gs → reg_ok (force_unregister_agent kid g).2 gs.
Proof.
  intros Hok. unfold force_unregister_agent. destruct (records g !! kid) as [r|] eqn:Hr; [|done].
  pose proof (sys_ok_force_remove (cgroups g) gs (r_cgroup r) (r_pid r) (ro_sys _ _ Hok)) as Hs.
  pose proof (force_remove_members (cgroups g) gs (r_cgroup r) (r_pid r) (ro_sys _ _ Hok)) as Hm.
  destruct (force_remove_agent _ _ _) as [[[]|e] m]; cbn [snd] in *; [by apply reg_ok_drop with r|].
  subst m. by apply (reg_ok_frame g _ gs).
Qed.

Lemma reg_ok_set_cgroup g gs kid cg : reg_ok g gs → reg_ok (try_set_cgroup kid cg g).2 gs.
Proof.
  intros Hok. unfold try_set_cgroup. destruct (records g !! kid) as [r|] eqn:Hr; [|done].
  apply homes_lookup in Hr as Hk.
  destruct (Z.eqb_spec (r_cgroup r) cg) as [_|Hne]; [by destruct (quota_constraints_for_agent _ _ _)|].
  destruct (r_managed_cgroup r); [done|].
  pose proof (sys_ok_move (cgroups g) gs (r_cgroup r) cg (r_pid r) (ro_sys _ _ Hok)) as Hs.
  pose proof (move_members (cgroups g) gs (r_cgroup r) cg (r_pid r) (ro_sys _ _ Hok) Hne) as Hm.
  destruct (try_move_agent _ _ _ _) as [[[]|e] m]; cbn [snd] in *; [|subst m; by apply (reg_ok_frame g _ gs)].
  destruct Hm as [_ Hm]. unfold take_cgroup_revision. cbv zeta beta iota. cbn [snd].
  set (g' := set_records _ _).
  assert (homes g' = <[kid := (r_pid r, cg)]> (homes g)) as Hh by (unfold homes, g'; cbn; by rewrite fmap_insert).
  assert (cgroups g' = m ∧ next_pid g' = next_pid g) as [Hcg Hnp] by done. clearbody g'.
  split; rewrite ?Hcg, ?Hh, ?Hnp; [done| | | | |apply Hok].
  - intros k p c [[<- [= <- <-]]|[Hnk Hp]]%lookup_insert_Some; apply Hm; [by right|left].
    split; [by eapply (ro_home _ _ Hok)|]. intros ->. apply Hnk. by eapply (ro_pid _ _ Hok).
  - intros k1 k2 p c1 c2 H1%lookup_insert_Some H2%lookup_insert_Some.
    destruct H1 as [[<- Hp1]|[_ H1]], H2 as [[<- Hp2]|[_ H2]]; simplify_eq; [done| | |];
      by eapply (ro_pid _ _ Hok).
  - intros i a [[Ha Hap]|[-> ->]]%Hm; [|exists kid; apply lookup_insert_eq].
    destruct (ro_member _ _ Hok i a Ha) as [k Hk']. exists k. rewrite lookup_insert_ne; [done|].
    intros <-. rewrite Hk in Hk'. by injection Hk' as <- _.
  - intros k p c [[<- [= <- <-]]|[_ Hp]]%lookup_insert_Some; by eapply (ro_next _ _ Hok).
Qed.

(** ** Every other mutation *)

(** Mutations that touch neither homes nor control groups. *)
Definition same_regs (g g' : Gate) : Prop :=
  cgroups g' = cgroups g ∧ homes g' = homes g ∧ next_pid g' = next_pid g.

Lemma reg_ok_same g g' gs : same_regs g g' → reg_ok g gs → reg_ok g' gs.
Proof.
  intros (Hc & Hh & Hn) Hok. apply (reg_ok_frame g _ gs); rewrite ?Hc; try done. apply Hok.
Qed.

Lemma reg_ok_cgroups g gs m gs' :
  reg_ok g gs → sys_ok m gs' → (∀ i, members_of m i = members_of (cgroups g) i) →
  reg_ok (set_cgroups m g) gs'.
Proof. intros Hok Hs Hm. by apply (reg_ok_frame g _ gs). Qed.

Section worlds.
Context (digest : string → string).
Context (activity_identity : string → string → string → string).
#[local] Abbreviation exec_mutation := (exec_mutation digest).
#[local] Abbreviation exec_event := (exec_event digest activity_identity).
#[local] Abbreviation advance := (advance digest activity_identity).

Definition registers (m : Mutation) : bool :=
  match m with
  | MRegister _ _ _ _ _ | MUnregister _ | MForceUnregister _ | MSetCgroup _ _
  | MCreateCgroup _ _ _ _ | MTryCreateCgroup _ _ _ | MRemoveCgroup _ | MUpdateLimits _ _ => true
  | _ => false
  end.

Lemma mutation_same_regs g m : registers m = false → same_regs g (exec_mutation g m).
Proof using Type.
  destruct m; intros Hm; try discriminate; clear Hm; cbn [GateInv.exec_mutation];
    unfold set_admission, set_capabilities, set_agent_namespaces, add_agent_namespace,
      grant_tool_approval_contract, revoke_peripheral_call_contract, revoke_tool_approval_contract,
      take_authorization_revision; cbv zeta beta iota;
    repeat case_match; simplify_eq; split_and!; try reflexivity; unfold homes; cbn;
    by apply homes_revise.
Qed.

Lemma reg_ok_mutation g gs m :
  reg_ok g gs → next_pid g < u64_max → next_cgroup_id (cgroups g) < u64_max →
  reg_ok (exec_mutation g m) gs.
Proof using Type.
  intros Hok Hp Hc. pose proof (ro_sys _ _ Hok) as Hs.
  destruct (registers m) eqn:Hm; [|by eapply reg_ok_same; [apply mutation_same_regs|]].
  destruct m; try discriminate; cbn [GateInv.exec_mutation].
  - by apply reg_ok_register.
  - by apply reg_ok_unregister.
  - by apply reg_ok_force_unregister.
  - by apply reg_ok_set_cgroup.
  - eapply reg_ok_cgroups; [done|by apply sys_ok_create|intros i; by eapply create_members].
  - eapply reg_ok_cgroups; [done|by apply sys_ok_try_create|intros i; by eapply try_create_members].
  - eapply reg_ok_cgroups; [done|by apply sys_ok_remove_leaf|intros i; apply remove_leaf_members].
  - eapply reg_ok_cgroups; [done|by apply sys_ok_limits|intros i; apply limits_members].
Qed.

(** ** Guards of the calls in flight *)

Definition guard_of (st : CallState) : option ToolCallGuard :=
  match st with
  | SReserved _ _ _ guard | SAdmitted _ guard _ => Some guard
  | _ => None
  end.

Definition in_flight (cs : gmap Z (Call * CallState)) : list ToolCallGuard :=
  omap (λ e, guard_of e.2.2) (map_to_list cs).

Lemma in_flight_insert cs tid c st :
  cs !! tid = None → in_flight (<[tid := (c, st)]> cs) ≡ₚ option_list (guard_of st) ++ in_flight cs.
Proof using Type.
  intros Hn. unfold in_flight. rewrite map_to_list_insert by done. cbn [omap list_omap snd].
  by destruct (guard_of st).
Qed.

Lemma in_flight_lookup cs tid c st :
  cs !! tid = Some (c, st) → in_flight cs ≡ₚ option_list (guard_of st) ++ in_flight (delete tid cs).
Proof using Type.
  intros Hs. rewrite <- (insert_delete_id cs tid (c, st)) at 1 by done.
  apply in_flight_insert, lookup_delete_eq.
Qed.

Lemma in_flight_update cs tid c st :
  in_flight (<[tid := (c, st)]> cs) ≡ₚ option_list (guard_of st) ++ in_flight (delete tid cs).
Proof using Type. rewrite <- insert_delete_eq. apply in_flight_insert, lookup_delete_eq. Qed.

Lemma in_flight_length cs : (length (in_flight cs) <= size cs)%nat.
Proof using Type.
  unfold in_flight. rewrite <- length_map_to_list. induction (map_to_list cs) as [|x l IH]; cbn; [lia|].
  destruct (guard_of _); cbn; lia.
Qed.

Lemma reg_ok_perm g gs gs' : gs ≡ₚ gs' → reg_ok g gs → reg_ok g gs'.
Proof using Type. intros Hp [H1 H2 H3 H4 H5 H6]. split; try done. by eapply sys_ok_perm. Qed.

(** ** Phases of a call *)

Lemma audit_call_regs c pid d g : same_regs g (audit_call digest c pid d g).
Proof using Type. unfold audit_call, emit_audit. case_match; by split_and!. Qed.

Lemma same_regs_trans g1 g2 g3 : same_regs g1 g2 → same_regs g2 g3 → same_regs g1 g3.
Proof using Type. unfold same_regs. intuition congruence. Qed.

Lemma deny_regs c pid d dec g : same_regs g (audit_call digest c pid dec (deny (c_agent c) d g)).
Proof using Type.
  eapply same_regs_trans; [|apply audit_call_regs]. unfold deny. by destruct d.
Qed.

Lemma drop_guard_ok g guard gs : reg_ok g (guard :: gs) → reg_ok (drop_guard guard g) gs.
Proof using Type.
  intros Hok. unfold drop_guard. eapply reg_ok_cgroups; [done|apply sys_ok_release_head, Hok|].
  intros i. apply release_members.
Qed.

Lemma consume_regs c lid pending g : same_regs g (consume_approval activity_identity c lid pending g).2.
Proof using Type. unfold consume_approval. repeat case_match; by split_and!. Qed.

Lemma advance_consume_ok c s au pending guard lid g gs :
  reg_ok g (guard :: gs) →
  reg_ok (advance c (SReserved s au pending guard) lid g).2
    (option_list (guard_of (advance c (SReserved s au pending guard) lid g).1) ++ gs).
Proof using Type.
  intros Hok. cbn [GateInv.advance]. unfold phase_consume.
  pose proof (consume_regs c lid pending g) as Hg1.
  destruct (consume_approval _ _ _ _ _) as [[sat lease] g1]. cbn [snd] in Hg1.
  set (g3 := if au then _ else _).
  assert (reg_ok g3 (guard :: gs)) as Hallow.
  { eapply reg_ok_same; [|exact Hok]. eapply same_regs_trans; [exact Hg1|]. subst g3.
    destruct au; [eapply same_regs_trans; [|apply audit_call_regs]|]; by split_and!. }
  destruct pending as [[k required]|]; [destruct sat|]; [apply Hallow| |apply Hallow].
  cbn [after fst snd guard_of option_list app]. apply drop_guard_ok.
  eapply reg_ok_same; [|exact Hok]. eapply same_regs_trans; [exact Hg1|apply deny_regs].
Qed.

(** The slot of a call: taken together with its guard, or not at all. *)
Lemma gate_acquire_ok g gs id a :
  reg_ok g gs → Z.of_nat (length gs) < u32_max →
  match acquire_tool_call_for_agent id a (cgroups g) with
  | (Ok guard, m) => reg_ok (set_cgroups m g) (guard :: gs)
  | (Err _, m) => reg_ok (set_cgroups m g) gs
  end.
Proof using Type.
  intros Hok Hlen. pose proof (sys_ok_acquire (cgroups g) gs id a (ro_sys _ _ Hok) Hlen) as [_ Hs].
  pose proof (acquire_members id a (cgroups g)) as Hm.
  destruct (acquire_tool_call_for_agent id a (cgroups g)) as [[gu|e] m]; by eapply reg_ok_cgroups.
Qed.

Lemma advance_acquire_ok c s au pending lid g gs :
  reg_ok g gs → Z.of_nat (length gs) < u32_max →
  reg_ok (advance c (SApproved s au pending) lid g).2
    (option_list (guard_of (advance c (SApproved s au pending) lid g).1) ++ gs).
Proof using Type.
  intros Hok Hlen. cbn [GateInv.advance].
  destruct (phase_acquire c s g) as [[guard|d] g'] eqn:Ha; cbn [after fst snd guard_of option_list app].
  - destruct (phase_acquire_Ok _ _ _ _ _ Ha) as (r & _ & _ & Hacq & -> & _).
    pose proof (gate_acquire_ok g gs (r_cgroup r) (r_pid r) Hok Hlen) as Hs. rewrite Hacq in Hs. exact Hs.
  - revert Ha. unfold phase_acquire, acquire_tool_call_if_unchanged, acquire_tool_call_for_record.
    destruct (authorization_snapshot_locked _ _ _) as [s'|d']; [|intros [= _ <-]; by eapply reg_ok_same; [|exact Hok]].
    destruct (negb _); [intros [= _ <-]; by eapply reg_ok_same; [|exact Hok]|]. cbv zeta.
    destruct (negb _); [intros [= _ <-]; by eapply reg_ok_same; [|exact Hok]|].
    pose proof (gate_acquire_ok g gs (sn_cgroup (sn_agent s')) (sn_pid (sn_agent s')) Hok Hlen) as Hs.
    destruct (acquire_tool_call_for_agent _ _ _) as [[gu|e] m]; [done|].
    intros [= _ <-]. by eapply reg_ok_same; [|exact Hs].
Qed.

Lemma advance_reg_ok c st lid g gs :
  reg_ok g (option_list (guard_of st) ++ gs) → Z.of_nat (length gs) < u32_max →
  reg_ok (advance c st lid g).2 (option_list (guard_of (advance c st lid g).1) ++ gs).
Proof using Type.
  intros Hok Hlen. destruct st as [|s|s au|s au p|s au p gu| | |]; cbn [guard_of option_list app] in Hok;
    try exact Hok; [| | |by apply advance_acquire_ok|by apply advance_consume_ok]; cbn [GateInv.advance].
  - unfold phase_snapshot. repeat case_match; simplify_eq; cbn [after fst snd guard_of option_list app];
      try exact Hok; by eapply reg_ok_same; [|exact Hok].
  - destruct (mac_pending g); [exact Hok|]. unfold phase_mac.
    case_match; cbn [after fst snd guard_of option_list app]; [exact Hok| |by eapply reg_ok_same; [|exact Hok]].
    eapply reg_ok_same; [apply deny_regs|exact Hok].
  - unfold phase_approval. case_bool_decide; [exact Hok|]. cbv zeta.
    destruct (approval_present _ _ _); [exact Hok|]. eapply reg_ok_same; [apply deny_regs|exact Hok].
Qed.

Lemma reg_ok_finish g guard lease gs : reg_ok g (guard :: gs) → reg_ok (finish_call guard lease g) gs.
Proof using Type.
  intros Hok%drop_guard_ok. unfold finish_call. destruct lease as [[[kid i] id]|]; [|done].
  by eapply reg_ok_same; [|exact Hok].
Qed.

(** ** Every reachable world *)

Definition world_ok (w : World) : Prop := reg_ok (gate w) (in_flight (calls w)).

Lemma exec_event_world_ok w e :
  world_ok w → next_pid (gate w) < u64_max → next_cgroup_id (cgroups (gate w)) < u64_max →
  Z.of_nat (size (calls w)) < u32_max → world_ok (exec_event w e).
Proof using Type.
  unfold world_ok. intros Hok Hp Hc Hs.
  destruct e as [m|u| |tid c|tid lid|tid]; cbn [GateInv.exec_event].
  - by apply reg_ok_mutation.
  - unfold mac_begin. destruct (mac_pending _); [done|]. by eapply reg_ok_same; [|exact Hok].
  - unfold mac_apply. destruct (mac_pending _); [|done]. by eapply reg_ok_same; [|exact Hok].
  - destruct (calls w !! tid) eqn:Ht; [done|]. cbn [gate calls].
    eapply reg_ok_perm; [by rewrite in_flight_insert|exact Hok].
  - destruct (calls w !! tid) as [[c st]|] eqn:Ht; [|done].
    pose proof (in_flight_length (delete tid (calls w))) as Hl. rewrite map_size_delete_Some in Hl by eauto.
    pose proof (advance_reg_ok c st lid (gate w) (in_flight (delete tid (calls w)))) as Ha.
    destruct (advance c st lid (gate w)) as [st' g]. cbn [gate calls fst snd] in *.
    eapply reg_ok_perm; [symmetry; apply in_flight_update|apply Ha; [|lia]].
    eapply reg_ok_perm; [by eapply in_flight_lookup|exact Hok].
  - destruct (calls w !! tid) as [[c [| | | | |p gu pr| |]]|] eqn:Ht; try done. cbn [gate calls].
    eapply reg_ok_perm; [symmetry; apply in_flight_update|apply reg_ok_finish].
    eapply reg_ok_perm; [exact (in_flight_lookup _ _ _ _ Ht)|exact Hok].
Qed.

(** An event advances the pid and cgroup counters by at most one. *)
Definition grows (g g' : Gate) : Prop :=
  next_pid g' <= next_pid g + 1 ∧ next_cgroup_id (cgroups g') <= next_cgroup_id (cgroups g) + 1.

Lemma same_regs_grows g g' : same_regs g g' → grows g g'.
Proof using Type. intros (Hc & _ & Hn). unfold grows. rewrite Hc, Hn. lia. Qed.

Lemma cg_grows g gs o g' :
  sys_ok (cgroups g) gs → next_cgroup_id (cgroups g) < u64_max →
  cgroups g' = manager (exec_cg (mkSystem (cgroups g) gs) o) → next_pid g' <= next_pid g + 1 →
  grows g g'.
Proof using Type.
  intros Hs Hn Hg Hp. split; [done|]. rewrite Hg. by apply (exec_cg_growth (mkSystem (cgroups g) gs)).
Qed.

Lemma mutation_grows g gs m :
  reg_ok g gs → next_pid g < u64_max → next_cgroup_id (cgroups g) < u64_max →
  grows g (exec_mutation g m).
Proof using Type.
  intros Hok Hp Hc. pose proof (ro_sys _ _ Hok) as Hs. pose proof (ro_next_nonneg _ _ Hok) as H0.
  destruct (registers m) eqn:Hm; [|by apply same_regs_grows, mutation_same_regs].
  assert (wrap64 (next_pid g + 1) = next_pid g + 1) as Hw by (apply wrap64_small; lia).
  destruct m; try discriminate; cbn [GateInv.exec_mutation].
  - unfold try_register_agent_with_admission. destruct (records g !! kid); [unfold grows; cbn; lia|].
    set (c := match cgroup with Some c => c | None => _ end). cbn [cgroups set_next_pid].
    apply (cg_grows g gs (OAddAgent c (next_pid g)) _ Hs Hc); cbn;
      destruct (add_agent _ _ _) as [[[]|e] m]; cbn; rewrite ?Hw; (done || lia).
  - unfold try_unregister_agent. destruct (records g !! kid) as [r|]; [|unfold grows; cbn; lia].
    apply (cg_grows g gs (ORemoveAgent (r_cgroup r) (r_pid r)) _ Hs Hc); cbn;
      destruct (try_remove_agent _ _ _) as [[[]|e] m]; cbn; (done || lia).
  - unfold force_unregister_agent. destruct (records g !! kid) as [r|]; [|unfold grows; cbn; lia].
    apply (cg_grows g gs (OForceRemove (r_cgroup r) (r_pid r)) _ Hs Hc); cbn;
      destruct (force_remove_agent _ _ _) as [[[]|e] m]; cbn; (done || lia).
  - unfold try_set_cgroup. destruct (records g !! kid) as [r|]; [|unfold grows; cbn; lia].
    destruct (_ =? _); [destruct (quota_constraints_for_agent _ _ _); unfold grows; cbn; lia|].
    destruct (r_managed_cgroup r); [unfold grows; cbn; lia|].
    apply (cg_grows g gs (OMove (r_cgroup r) cgroup (r_pid r)) _ Hs Hc); cbn;
      destruct (try_move_agent _ _ _ _) as [[[]|e] m]; cbn; (done || lia).
  - apply (cg_grows g gs (OCreate name parent scope limits) _ Hs Hc); cbn; [done|lia].
  - apply (cg_grows g gs (OTryCreate name parent limits) _ Hs Hc); cbn; [done|lia].
  - apply (cg_grows g gs (ORemoveLeaf id) _ Hs Hc); cbn; [done|lia].
  - apply (cg_grows g gs (OUpdateLimits id limits) _ Hs Hc); cbn; [done|lia].
Qed.

Lemma grows_same g g1 g' : same_regs g g1 → grows g1 g' → grows g g'.
Proof using Type. intros (Hc & _ & Hn) [H1 H2]. unfold grows. rewrite Hc in H2. rewrite Hn in H1. done. Qed.

Lemma drop_guard_grows g guard gs :
  reg_ok g (guard :: gs) → next_cgroup_id (cgroups g) < u64_max → grows g (drop_guard guard g).
Proof using Type.
  intros Hok Hn. apply (cg_grows g (guard :: gs) (ODrop 0) _ (ro_sys _ _ Hok) Hn); cbn; [done|lia].
Qed.

Lemma phase_acquire_grows c s g gs :
  reg_ok g gs → next_cgroup_id (cgroups g) < u64_max → grows g (phase_acquire c s g).2.
Proof using Type.
  intros Hok Hn. unfold phase_acquire, acquire_tool_call_if_unchanged, acquire_tool_call_for_record.
  destruct (authorization_snapshot_locked _ _ _) as [s'|d']; [|by apply same_regs_grows].
  destruct (negb _); [by apply same_regs_grows|]. destruct (negb _); [by apply same_regs_grows|].
  apply (cg_grows g gs (OAcquireFor (sn_cgroup (sn_agent s')) (sn_pid (sn_agent s'))) _ (ro_sys _ _ Hok) Hn);
    cbn; destruct (acquire_tool_call_for_agent _ _ _) as [[gu|e] m]; cbn; (done || lia).
Qed.

Lemma phase_consume_grows c lid pid au pending guard g gs :
  reg_ok g (guard :: gs) → next_cgroup_id (cgroups g) < u64_max →
  grows g (phase_consume digest activity_identity c lid pid au pending guard g).2.
Proof using Type.
  intros Hok Hn. unfold phase_consume. pose proof (consume_regs c lid pending g) as Hg1.
  destruct (consume_approval _ _ _ _ _) as [[sat lease] g1]. cbn [snd] in Hg1.
  set (g3 := if au then _ else _).
  assert (same_regs g g3) as Hg3.
  { eapply same_regs_trans; [exact Hg1|]. subst g3.
    destruct au; [eapply same_regs_trans; [|apply audit_call_regs]|]; by split_and!. }
  destruct pending as [[k required]|]; [destruct sat|]; cbn [snd];
    [by apply same_regs_grows| |by apply same_regs_grows].
  set (g4 := audit_call _ _ _ _ _).
  assert (same_regs g g4) as Hg4 by (eapply same_regs_trans; [exact Hg1|apply deny_regs]).
  eapply grows_same; [exact Hg4|]. eapply drop_guard_grows; [by eapply reg_ok_same|].
  by destruct Hg4 as (-> & _).
Qed.

Lemma after_snd {A} (f : A → CallState) r : (after f r).2 = r.2.
Proof using Type. by destruct r as [[a|d] g]. Qed.

Lemma advance_grows c st lid g gs :
  reg_ok g (option_list (guard_of st) ++ gs) → next_cgroup_id (cgroups g) < u64_max →
  grows g (advance c st lid g).2.
Proof using Type.
  intros Hok Hn. destruct st as [|s|s au|s au p|s au p gu| | |]; cbn [GateInv.advance];
    rewrite ?after_snd; try (by apply same_regs_grows).
  - unfold phase_snapshot. apply same_regs_grows. repeat case_match; simplify_eq; by split_and!.
  - destruct (mac_pending g); [by apply same_regs_grows|]. rewrite after_snd. apply same_regs_grows.
    unfold phase_mac. case_match; cbn [snd]; [by split_and!|apply deny_regs|by split_and!].
  - apply same_regs_grows. unfold phase_approval. case_bool_decide; [by split_and!|].
    cbv zeta. destruct (approval_present _ _ _); [by split_and!|apply deny_regs].
  - exact (phase_acquire_grows c s g gs Hok Hn).
  - exact (phase_consume_grows c lid _ au p gu g gs Hok Hn).
Qed.

Lemma exec_event_grows w e :
  world_ok w → next_pid (gate w) < u64_max → next_cgroup_id (cgroups (gate w)) < u64_max →
  grows (gate w) (gate (exec_event w e)) ∧ (size (calls (exec_event w e)) <= S (size (calls w)))%nat.
Proof using Type.
  unfold world_ok. intros Hok Hp Hc. destruct e as [m|u| |tid c|tid lid|tid]; cbn [GateInv.exec_event].
  - split; [by eapply mutation_grows|cbn; lia].
  - split; [|cbn; lia]. apply same_regs_grows. unfold mac_begin. by destruct (mac_pending _).
  - split; [|cbn; lia]. apply same_regs_grows. unfold mac_apply. by destruct (mac_pending _).
  - destruct (calls w !! tid) eqn:Ht; [split; [by apply same_regs_grows|lia]|].
    split; [by apply same_regs_grows|]. cbn. by rewrite map_size_insert_None.
  - destruct (calls w !! tid) as [[c st]|] eqn:Ht; [|split; [by apply same_regs_grows|lia]].
    pose proof (advance_grows c st lid (gate w) (in_flight (delete tid (calls w)))) as Ha.
    destruct (advance c st lid (gate w)) as [st' g]. cbn [gate calls fst snd] in *.
    split; [apply Ha; [|done]|rewrite map_size_insert_Some by eauto; lia].
    eapply reg_ok_perm; [by eapply in_flight_lookup|exact Hok].
  - destruct (calls w !! tid) as [[c [| | | | |p gu pr| |]]|] eqn:Ht;
      try (split; [by apply same_regs_grows|lia]).
    cbn [gate calls]. split; [|rewrite map_size_insert_Some by eauto; lia].
    assert (reg_ok (gate w) (gu :: in_flight (delete tid (calls w)))) as Hok'
      by (eapply reg_ok_perm; [exact (in_flight_lookup _ _ _ _ Ht)|exact Hok]).
    pose proof (drop_guard_grows _ _ _ Hok' Hc) as Hg. unfold finish_call.
    destruct (gp_lease pr) as [[[kid i] id]|]; exact Hg.
Qed.

Lemma run_world_ok es w :
  world_ok w →
  next_pid (gate w) + Z.of_nat (length es) <= u64_max →
  next_cgroup_id (cgroups (gate w)) + Z.of_nat (length es) <= u64_max →
  Z.of_nat (size (calls w)) + Z.of_nat (length es) <= u32_max →
  world_ok (foldl exec_event w es).
Proof using Type.
  revert w. induction es as [|e es IH]; intros w Hok Hp Hc Hs; [done|]. cbn [foldl length] in *.
  destruct (exec_event_grows w e Hok ltac:(lia) ltac:(lia)) as [[Hp' Hc'] Hs'].
  apply IH; [|lia..]. apply exec_event_world_ok; [done|lia..].
Qed.

Lemma world_new_ok next mac_enforcing mac_rules :
  0 <= next < u64_max → world_ok (world_new next mac_enforcing mac_rules).
Proof using Type.
  intros Hn. pose proof (system_new_ok next Hn) as Hs. unfold world_ok, in_flight. cbn [calls world_new].
  rewrite map_to_list_empty. split; cbn; try done.
  - intros i a Ha. exfalso. revert Ha. unfold members_of. cbn.
    destruct (decide (i = next)) as [->|]; [rewrite lookup_singleton_eq|rewrite lookup_singleton_ne by done]; cbn; set_solver.
Qed.

(** C2. The gate keeps its control groups consistent: after any interleaving of registrations,
    removals, forced removals, cgroup reassignments, cgroup changes and tool calls at any of their
    points, a group's [active_tool_calls] counts exactly the calls in flight that hold an unrevoked
    slot in its subtree and never exceeds the group's limit, its members are exactly the pids of the
    agents whose record names it, a registered agent's group exists, and no two agents share a pid. *)
Theorem gate_cgroup_accounting (next : Z) (mac_enforcing : bool) (mac_rules : list PolicyRule)
    (es : list Event) :
  0 <= next → Z.of_nat (length es) < u32_max → next + 1 + Z.of_nat (length es) <= u64_max →
  let w := foldl exec_event (world_new next mac_enforcing mac_rules) es in
  let m := cgroups (gate w) in
  (∀ id g, groups m !! id = Some g →
    active_tool_calls (cg_usage g) = slots m (in_flight (calls w)) id ∧
    (0 < max_concurrent_tool_calls (cg_limits g) →
      active_tool_calls (cg_usage g) <= max_concurrent_tool_calls (cg_limits g)) ∧
    ∀ a, a ∈ cg_members g ↔
      ∃ kid r, records (gate w) !! kid = Some r ∧ r_pid r = a ∧ r_cgroup r = id) ∧
  (∀ kid r, records (gate w) !! kid = Some r → is_Some (groups m !! r_cgroup r)) ∧
  (∀ k1 k2 r1 r2, records (gate w) !! k1 = Some r1 → records (gate w) !! k2 = Some r2 →
    r_pid r1 = r_pid r2 → k1 = k2).
Proof using Type.
  intros Hn Hlen Hnext. cbv zeta. set (w := foldl _ _ _).
  assert (world_ok w) as Hok.
  { apply run_world_ok; [apply world_new_ok; lia|cbn; lia|cbn; rewrite wrap64_small by lia; lia|].
    cbn [calls world_new]. rewrite map_size_empty. lia. }
  assert (∀ kid r, records (gate w) !! kid = Some r → r_pid r ∈ members_of (cgroups (gate w)) (r_cgroup r))
    as Hhome by (intros kid r Hr%homes_lookup; by apply (ro_home _ _ Hok) in Hr).
  split_and!.
  - intros id g Hg. destruct (so_groups _ _ (ro_sys _ _ Hok) id g Hg) as [H1 H2 H3 H4 H5 H6].
    split_and!; [done|by rewrite H4|]. intros a. split.
    + intros Ha. destruct (ro_member _ _ Hok id a) as [kid Hk]; [apply elem_members_of; eauto|].
      unfold homes in Hk. rewrite lookup_fmap in Hk. destruct (records _ !! kid) as [r|] eqn:Hr; [|done].
      injection Hk as <- <-. eauto.
    + intros (kid & r & Hr & <- & <-). apply Hhome, elem_members_of in Hr as (g' & Hg' & Ha).
      by rewrite Hg in Hg'; injection Hg' as <-.
  - intros kid r Hr%Hhome. apply elem_members_of in Hr as (g & Hg & _). by rewrite Hg.
  - intros k1 k2 r1 r2 H1%homes_lookup H2%homes_lookup Hp. rewrite Hp in H1. by eapply (ro_pid _ _ Hok).
Qed.
End worlds.

Lemma gate_cgroup_accounting_witness :
  let w := demo_world (demo_events ++ [EStep 1 0; EStep 2 0; EMutate (MForceUnregister 7)]) in
  match groups (cgroups (gate w)) !! 1 with
  | Some g => active_tool_calls (cg_usage g) = slots (cgroups (gate w)) (in_flight (calls w)) 1 ∧
      length (in_flight (calls w)) = 2%nat ∧ active_tool_calls (cg_usage g) = 0
  | None => False
  end.
Proof.
  cbv zeta.
  destruct (gate_cgroup_accounting demo_digest demo_identity 1 false []
    (demo_events ++ [EStep 1 0; EStep 2 0; EMutate (MForceUnregister 7)])) as [H _];
    [vm_compute; discriminate|vm_compute; reflexivity|vm_compute; discriminate|].
  cbv zeta in H. destruct (groups _ !! 1) as [g|] eqn:Hg.
  - destruct (H 1 g Hg) as [Ha _]. split; [exact Ha|]. split; [vm_compute; reflexivity|].
    rewrite Ha. vm_compute. reflexivity.
  - revert Hg. vm_compute. discriminate.
Defined.
