(* ===== verification/GateStats.v ===== *)
(** * Verdict counters of the syscall gate

    Over any interleaving the global counters of the gate are exactly the verdicts its calls reached,
    bucket by bucket, with one exception that the last theorem exhibits: a call refused because its
    authorization snapshot became stale is counted for its agent only. *)

From S2P Require Import Prelude AgentStruct Mac Tools Cgroups CgroupInv Gate GateInv.
#[local] Open Scope Z_scope.

#[global] Instance counter_eq_dec : EqDecision Counter.
Proof. solve_decision. Defined.

Definition counter (k : Counter) (s : GateStats) : Z :=
  match k with
  | KAllowed => st_allowed s
  | KCapability => st_denied_capability s
  | KMac => st_denied_mac s
  | KApproval => st_denied_approval s
  | KCgroup => st_denied_cgroup s
  | KUnknown => st_denied_unknown s
  | KNamespace => st_denied_namespace s
  | KAudited => st_audited s
  end.

Lemma counter_update f k k' s :
  counter k (update_counter f k' s) = if bool_decide (k = k') then f (counter k s) else counter k s.
Proof. by destruct k, k'. Qed.

(** The verdicts that reach no global counter. *)
Definition stale (d : GateDenial) : bool :=
  match d with AuthorizationStateChanged | UnknownAgent => true | _ => false end.

(** Whether the step of a call from [st] to [st'] is a verdict of bucket [k]. *)
Definition verdict (k : Counter) (st st' : CallState) : bool :=
  match st, st' with
  | (SInit | SAuthorized _ | SMacChecked _ _ | SReserved _ _ _ _), SDenied d =>
      bool_decide (k = denial_counter d)
  | SApproved _ _ _, SDenied d => bool_decide (k = denial_counter d) && negb (stale d)
  | SReserved _ audited _ _, SAdmitted _ _ _ =>
      bool_decide (k = KAllowed) || (audited && bool_decide (k = KAudited))
  | _, _ => false
  end.

Section worlds.
Context (digest : string → string).
Context (activity_identity : string → string → string → string).
#[local] Abbreviation exec_mutation := (exec_mutation digest).
#[local] Abbreviation exec_event := (exec_event digest activity_identity).
#[local] Abbreviation advance := (advance digest activity_identity).
#[local] Abbreviation tally := (tally digest activity_identity).

Definition verdict_event (k : Counter) (w : World) (e : Event) : bool :=
  match e with
  | EStep tid lid =>
      match calls w !! tid with
      | Some (c, st) => verdict k st (advance c st lid (gate w)).1
      | None => false
      end
  | _ => false
  end.

(** ** Steps that change no counter *)

Lemma mutation_stats g m : gate_stats (exec_mutation g m) = gate_stats g.
Proof using Type.
  destruct m; cbn [GateInv.exec_mutation];
    unfold try_register_agent_with_admission, try_unregister_agent, force_unregister_agent,
      set_admission, set_capabilities, set_agent_namespaces, add_agent_namespace, try_set_cgroup,
      grant_tool_approval_contract, revoke_peripheral_call_contract, revoke_tool_approval_contract,
      take_cgroup_revision, take_authorization_revision; cbv zeta beta iota;
    repeat case_match; simplify_eq; reflexivity.
Qed.

Lemma audit_stats c pid d g : gate_stats (audit_call digest c pid d g) = gate_stats g.
Proof using Type. unfold audit_call, emit_audit. by case_match. Qed.

Lemma consume_stats c lid pending g :
  gate_stats (consume_approval activity_identity c lid pending g).2 = gate_stats g.
Proof using Type. unfold consume_approval. by repeat case_match. Qed.

Lemma deny_stats kid d g :
  gate_stats (deny kid d g) = update_counter (λ n, wrap64 (n + 1)) (denial_counter d) (gate_stats g).
Proof using Type. done. Qed.

(** ** Verdicts *)

Definition bumped (k : Counter) (b : bool) (g g' : Gate) : Prop :=
  counter k (gate_stats g') = if b then wrap64 (counter k (gate_stats g) + 1) else counter k (gate_stats g).

Lemma bumped_deny k c d g g' :
  gate_stats g' = gate_stats (deny (c_agent c) d g) → bumped k (bool_decide (k = denial_counter d)) g g'.
Proof using Type.
  intros Hg. unfold bumped. rewrite Hg, deny_stats, counter_update. by case_bool_decide.
Qed.

Lemma phase_acquire_counted k c s au p g :
  bumped k (verdict k (SApproved s au p) (after (SReserved s au p) (phase_acquire c s g)).1) g
    (after (SReserved s au p) (phase_acquire c s g)).2.
Proof using Type.
  unfold phase_acquire, acquire_tool_call_if_unchanged, acquire_tool_call_for_record, bumped.
  destruct (authorization_snapshot_locked _ _ _) as [s'|d] eqn:Hs.
  - destruct (negb (bool_decide _)); cbn [after fst snd verdict stale negb]; [by rewrite andb_false_r|].
    destruct (negb _); cbn [after fst snd verdict stale negb].
    { rewrite andb_true_r. exact (counter_update (λ n, wrap64 (n + 1)) k KCgroup (gate_stats g)). }
    destruct (acquire_tool_call_for_agent _ _ _) as [[gu|e] m]; cbn [after fst snd verdict]; [done|].
    destruct e; cbn [stale negb]; rewrite andb_true_r; exact (counter_update (λ n, wrap64 (n + 1)) k KCgroup (gate_stats g)).
  - unfold authorization_snapshot_locked in Hs. destruct (records g !! _); [done|].
    injection Hs as <-. cbn [after fst snd verdict stale negb]. by rewrite andb_false_r.
Qed.

Lemma phase_consume_counted k c s lid au p gu g :
  let r := after (λ r, SAdmitted p r.1.2 r.2)
    (phase_consume digest activity_identity c lid (sn_pid (sn_agent s)) au p gu g) in
  bumped k (verdict k (SReserved s au p gu) r.1) g r.2.
Proof using Type.
  cbv zeta. unfold phase_consume. pose proof (consume_stats c lid p g) as Hc.
  destruct (consume_approval _ _ _ _ _) as [[sat lease] g1]. cbn [snd] in Hc.
  set (g3 := if au then _ else _).
  assert (bumped k (bool_decide (k = KAllowed) || (au && bool_decide (k = KAudited))) g g3) as Hallow.
  { unfold bumped. subst g3. destruct au; rewrite ?audit_stats; cbn -[counter update_counter];
      rewrite ?counter_update, Hc; repeat case_bool_decide; simplify_eq; done. }
  destruct p as [[key required]|]; [destruct sat|]; [exact Hallow| |exact Hallow].
  cbn [after fst snd verdict]. apply (bumped_deny k c (ApprovalRequired (c_tool c) required)). unfold drop_guard. cbn [gate_stats set_cgroups].
  by rewrite audit_stats, !deny_stats, Hc.
Qed.

Lemma advance_counted k c st lid g :
  bumped k (verdict k st (advance c st lid g).1) g (advance c st lid g).2.
Proof using Type.
  destruct st as [|s|s au|s au p|s au p gu| | |]; cbn [GateInv.advance]; try done.
  - unfold phase_snapshot. destruct (authorization_snapshot_locked _ _ _) as [s|d]; cbn [after fst snd].
    + destruct (snapshot_checks c s) as [[]|d]; cbn [after fst snd verdict]; [done|by apply (bumped_deny k c)].
    + by apply (bumped_deny k c).
  - destruct (mac_pending g); [done|]. unfold phase_mac. case_match; cbn [after fst snd verdict]; [done| |done].
    apply (bumped_deny k c (GateMacDeny (c_action c) (digest (c_resource c)))). apply audit_stats.
  - unfold phase_approval. case_bool_decide; [done|]. cbv zeta. destruct (approval_present _ _ _); [done|].
    cbn [after fst snd verdict]. apply (bumped_deny k c (ApprovalRequired (c_tool c) (c_approval_policy c))).
    apply audit_stats.
  - apply phase_acquire_counted.
  - apply phase_consume_counted.
Qed.

Lemma event_counted k w e : bumped k (verdict_event k w e) (gate w) (gate (exec_event w e)).
Proof using Type.
  destruct e as [m|u| |tid c|tid lid|tid]; cbn [GateInv.exec_event verdict_event].
  - unfold bumped. cbn [gate]. by rewrite mutation_stats.
  - unfold bumped, mac_begin. cbn [gate]. by case_match.
  - unfold bumped, mac_apply. cbn [gate]. by case_match.
  - by case_match.
  - destruct (calls w !! tid) as [[c st]|]; [|done].
    pose proof (advance_counted k c st lid (gate w)) as H.
    by destruct (advance c st lid (gate w)) as [st' g].
  - destruct (calls w !! tid) as [[c [| | | | |p gu pr| |]]|]; try done.
    unfold bumped, finish_call. cbn [gate]. by repeat case_match.
Qed.

Lemma run_counted k es w :
  0 <= counter k (gate_stats (gate w)) →
  counter k (gate_stats (gate w)) + Z.of_nat (length es) <= u64_max →
  counter k (gate_stats (gate (foldl exec_event w es)))
    = counter k (gate_stats (gate w)) + Z.of_nat (tally (verdict_event k) w es).
Proof using Type.
  revert w. induction es as [|e es IH]; intros w H0 Hb; cbn [foldl GateInv.tally length] in *; [lia|].
  pose proof (event_counted k w e) as He. unfold bumped in He.
  destruct (verdict_event k w e); rewrite ?wrap64_small in He by lia; rewrite IH; lia.
Qed.

(** The gate's counters are its verdicts: over any interleaving of mutations and calls,
    each global counter equals the number of calls that reached a verdict of its bucket, an allowed
    call counts once in [allowed] and once more in [audited] when the policy audits it, and nothing
    else moves a counter.  Refusals of a stale snapshot ([stale]) are not among those verdicts. *)
Theorem counters_are_verdicts (next : Z) (mac_enforcing : bool) (mac_rules : list PolicyRule)
    (es : list Event) (k : Counter) :
  Z.of_nat (length es) <= u64_max →
  let w0 := world_new next mac_enforcing mac_rules in
  counter k (stats (gate (foldl exec_event w0 es))) = Z.of_nat (tally (verdict_event k) w0 es).
Proof using Type.
  intros Hlen. cbv zeta. unfold stats. rewrite run_counted; by destruct k.
Qed.
End worlds.

(** The loser of the race for the single approval is refused after its slot was reserved. *)
Lemma counters_are_verdicts_witness :
  let w0 := world_new 1 false [] in
  counter KAllowed (stats (gate (demo_world (demo_events ++ demo_rest))))
    = Z.of_nat (tally demo_digest demo_identity (verdict_event demo_digest demo_identity KAllowed) w0
                  (demo_events ++ demo_rest)) ∧
  counter KApproval (stats (gate (demo_world (demo_events ++ demo_rest)))) = 1.
Proof.
  split; [|vm_compute; reflexivity].
  apply (counters_are_verdicts demo_digest demo_identity 1 false [] (demo_events ++ demo_rest) KAllowed).
  vm_compute. discriminate.
Defined.

(** A call whose agent loses a capability between its check and its admission is refused, and its
    agent's [denied_unknown] counts the refusal, but every global counter still reads zero. *)
Theorem stale_refusal_uncounted :
  let w := demo_world (demo_events ++ [EMutate (MSetCapabilities 7 (mkCaps 0)); EStep 1 0]) in
  state_of w 1 = Some (SDenied AuthorizationStateChanged) ∧
  st_denied_unknown (stats_of_agent (gate w) 7) = 1 ∧ stats (gate w) = stats_default.
Proof. vm_compute. split_and!; reflexivity. Qed.
