(* ===== verification/Cfs.v ===== *)
(** * The CFS turn scheduler

    Models [CfsScheduler] of [crates/kernel/src/cfs.rs].  The [BTreeMap] run queue is its sorted list
    of entries, so iteration order is list order.  Arithmetic is that of a release build: [+], [-]
    and [*] on [u64] wrap.

    The theorems: the weight table is positive and antitone; the run queue stays well formed and
    [total_weight] is the sum of the queued weights; [pick_among] and [pick_next] return the entry
    the scheduling order prefers; and serving the picked agent keeps all virtual runtimes within the
    length of one slice, whatever agents come, go or change priority. *)

From S2P Require Import Prelude AgentStruct.
#[local] Open Scope Z_scope.

(** ** Weights *)

Definition WEIGHTS : list Z :=
  [88761; 71755; 56483; 46273; 36291; 29154; 23254; 18705; 14949; 11916; 9548; 7620; 6100;
   4904; 3906; 3121; 2501; 1991; 1586; 1277; 1024; 820; 655; 526; 423; 335; 272; 215; 172;
   137; 110; 87; 70; 56; 45; 36; 29; 23; 18; 15].

(** [None] would be the out-of-bounds panic of [WEIGHTS[idx]]. *)
Definition nice_to_weight (nice : Z) : option Z :=
  let clamped := clamp (-20) 19 nice in
  WEIGHTS !! Z.to_nat (clamped + 20).

(** ** The run queue as an ordered map *)

Abbreviation Key := (Z * AgentId)%type (only parsing).

Definition key_lt (a b : Key) : bool := (a.1 <? b.1) || ((a.1 =? b.1) && (a.2 <? b.2)).

Fixpoint bt_insert {V} (k : Key) (v : V) (l : list (Key * V)) : list (Key * V) :=
  match l with
  | [] => [(k, v)]
  | (k', v') :: l' =>
      if key_lt k k' then (k, v) :: l
      else if key_lt k' k then (k', v') :: bt_insert k v l'
      else (k, v) :: l'
  end.

Definition bt_get {V} (k : Key) (l : list (Key * V)) : option V :=
  snd <$> find_first (λ e, bool_decide (e.1 = k)) l.

Definition bt_delete {V} (k : Key) (l : list (Key * V)) : list (Key * V) :=
  retain (λ e, negb (bool_decide (e.1 = k))) l.

(** ** State *)

Record CfsEntry := mkEntry {
  e_agent_id : AgentId;
  e_vruntime : Z;
  e_weight : Z;
  e_nice : Z;
  e_class : SchedClass;
  e_tokens_used : Z }.

Record CfsScheduler := mkCfs {
  runqueue : list (Key * CfsEntry);
  rt_queue : list CfsEntry;
  bg_queue : list CfsEntry;
  min_vruntime : Z;
  time_slice_tokens : Z;
  total_weight : Z }.

Definition cfs_new (slice : Z) : CfsScheduler := mkCfs [] [] [] 0 slice 0.

Definition with_queue (q : list (Key * CfsEntry)) (min total : Z) (s : CfsScheduler) : CfsScheduler :=
  mkCfs q (rt_queue s) (bg_queue s) min (time_slice_tokens s) total.

(** [keys().find(|k| k.1 == agent_id)]. *)
Definition find_key (s : CfsScheduler) (a : AgentId) : option Key :=
  fst <$> find_first (λ e, e.1.2 =? a) (runqueue s).

(** ** Operations *)

Definition cfs_enqueue (a : AgentId) (nice : Z) (class : SchedClass) (s : CfsScheduler) :
    option CfsScheduler :=
  weight ← nice_to_weight nice;
  let entry := mkEntry a (min_vruntime s) weight nice class 0 in
  Some match class with
  | RealTime =>
      mkCfs (runqueue s) (rt_queue s ++ [entry]) (bg_queue s) (min_vruntime s) (time_slice_tokens s)
        (total_weight s)
  | Background =>
      mkCfs (runqueue s) (rt_queue s) (bg_queue s ++ [entry]) (min_vruntime s) (time_slice_tokens s)
        (total_weight s)
  | Normal | Deadline _ =>
      with_queue (bt_insert (min_vruntime s, a) entry (runqueue s)) (min_vruntime s)
        (wrap64 (total_weight s + weight)) s
  end.

Definition cfs_dequeue (a : AgentId) (s : CfsScheduler) : CfsScheduler :=
  match find_key s a with
  | Some key =>
      match bt_get key (runqueue s) with
      | Some entry =>
          with_queue (bt_delete key (runqueue s)) (min_vruntime s)
            (wrap64 (total_weight s - e_weight entry)) s
      | None => s
      end
  | None =>
      mkCfs (runqueue s) (retain (λ e, negb (e_agent_id e =? a)) (rt_queue s))
        (retain (λ e, negb (e_agent_id e =? a)) (bg_queue s)) (min_vruntime s)
        (time_slice_tokens s) (total_weight s)
  end.

Definition set_nice (nice weight : Z) (e : CfsEntry) : CfsEntry :=
  mkEntry (e_agent_id e) (e_vruntime e) weight nice (e_class e) (e_tokens_used e).

(** The loop over a queue that updates the first entry of the agent; [None] when there is none. *)
Fixpoint renice_first (a : AgentId) (nice weight : Z) (l : list CfsEntry) : option (list CfsEntry) :=
  match l with
  | [] => None
  | e :: l' =>
      if e_agent_id e =? a then Some (set_nice nice weight e :: l')
      else cons e <$> renice_first a nice weight l'
  end.

Definition update_nice_queues (a : AgentId) (nice weight : Z) (s : CfsScheduler) : bool * CfsScheduler :=
  match renice_first a nice weight (rt_queue s) with
  | Some q => (true, mkCfs (runqueue s) q (bg_queue s) (min_vruntime s) (time_slice_tokens s) (total_weight s))
  | None =>
      match renice_first a nice weight (bg_queue s) with
      | Some q => (true, mkCfs (runqueue s) (rt_queue s) q (min_vruntime s) (time_slice_tokens s) (total_weight s))
      | None => (false, s)
      end
  end.

Definition update_nice (a : AgentId) (nice : Z) (s : CfsScheduler) : option (bool * CfsScheduler) :=
  let nice := clamp (-20) 19 nice in
  new_weight ← nice_to_weight nice;
  Some
    match find_key s a with
    | Some key =>
        match bt_get key (runqueue s) with
        | Some entry =>
            let total := sat_add64 (sat_sub (total_weight s) (e_weight entry)) new_weight in
            (true, with_queue (bt_insert (e_vruntime entry, a) (set_nice nice new_weight entry)
                                (bt_delete key (runqueue s))) (min_vruntime s) total s)
        | None => update_nice_queues a nice new_weight s
        end
    | None => update_nice_queues a nice new_weight s
    end.

(** [runqueue.values().find(|entry| entry.agent_id == agent_id)]. *)
Definition find_entry (s : CfsScheduler) (a : AgentId) : option CfsEntry :=
  find_first (λ e, e_agent_id e =? a) (runqueue s).*2.

Definition vruntime_of (s : CfsScheduler) (a : AgentId) : option Z := e_vruntime <$> find_entry s a.

Definition tokens_used_of (s : CfsScheduler) (a : AgentId) : option Z :=
  match find_entry s a with
  | Some e => Some (e_tokens_used e)
  | None => e_tokens_used <$> find_first (λ e, e_agent_id e =? a) (rt_queue s ++ bg_queue s)
  end.

Definition pick_next (s : CfsScheduler) : option AgentId :=
  match rt_queue s with
  | e :: _ => Some (e_agent_id e)
  | [] =>
      match runqueue s with
      | (key, _) :: _ => Some key.2
      | [] => e_agent_id <$> head (bg_queue s)
      end
  end.

Definition pick_among (s : CfsScheduler) (candidates : list AgentId) : option AgentId :=
  if bool_decide (candidates = []) then None
  else
    match find_first (λ e, zmem (e_agent_id e) candidates) (rt_queue s) with
    | Some e => Some (e_agent_id e)
    | None =>
        match find_first (λ e, zmem e.1.2 candidates) (runqueue s) with
        | Some e => Some e.1.2
        | None => e_agent_id <$> find_first (λ e, zmem (e_agent_id e) candidates) (bg_queue s)
        end
    end.

(** The division is by a weight of the table, never zero. *)
Definition account_tokens (a : AgentId) (tokens : Z) (s : CfsScheduler) : CfsScheduler :=
  match find_key s a with
  | Some key =>
      match bt_get key (runqueue s) with
      | Some entry =>
          let rest := bt_delete key (runqueue s) in
          let delta := wrap64 (tokens * 1024) / e_weight entry in
          let vruntime := wrap64 (e_vruntime entry + delta) in
          let entry := mkEntry (e_agent_id entry) vruntime (e_weight entry) (e_nice entry)
                         (e_class entry) (wrap64 (e_tokens_used entry + tokens)) in
          let min :=
            if min_vruntime s <? vruntime then
              match rest with (k, _) :: _ => k.1 | [] => vruntime end
            else min_vruntime s in
          with_queue (bt_insert (vruntime, a) entry rest) min (total_weight s) s
      | None => s
      end
  | None => s
  end.

Definition time_slice_expired (s : CfsScheduler) (a : AgentId) : bool :=
  match find_key s a with
  | Some key =>
      match bt_get key (runqueue s) with
      | Some entry => time_slice_tokens s <=? e_tokens_used entry
      | None => false
      end
  | None => false
  end.

(** [get_mut] writes through the key. *)
Definition reset_slice (a : AgentId) (s : CfsScheduler) : CfsScheduler :=
  match find_key s a with
  | Some key =>
      with_queue
        ((λ kv, if bool_decide (kv.1 = key)
                then (kv.1, mkEntry (e_agent_id kv.2) (e_vruntime kv.2) (e_weight kv.2) (e_nice kv.2)
                              (e_class kv.2) 0)
                else kv) <$> runqueue s) (min_vruntime s) (total_weight s) s
  | None => s
  end.

Definition nice_of (s : CfsScheduler) (a : AgentId) : option Z :=
  match find_first (λ e, e_agent_id e =? a) (rt_queue s) with
  | Some e => Some (e_nice e)
  | None =>
      match find_entry s a with
      | Some e => Some (e_nice e)
      | None => e_nice <$> find_first (λ e, e_agent_id e =? a) (bg_queue s)
      end
  end.

Definition class_of (s : CfsScheduler) (a : AgentId) : option SchedClass :=
  e_class <$> find_first (λ e, e_agent_id e =? a) (rt_queue s ++ (runqueue s).*2 ++ bg_queue s).

Definition runnable_count (s : CfsScheduler) : Z :=
  Z.of_nat (length (runqueue s) + length (rt_queue s) + length (bg_queue s)).

(** [checked_div] fails on a zero total. *)
Definition fair_share (s : CfsScheduler) (a : AgentId) : Z :=
  match find_key s a with
  | Some key =>
      match bt_get key (runqueue s) with
      | Some entry =>
          if total_weight s =? 0 then time_slice_tokens s
          else wrap64 (time_slice_tokens s * e_weight entry) / total_weight s
      | None => time_slice_tokens s
      end
  | None => time_slice_tokens s
  end.

(** ** The weight table *)

Lemma nice_to_weight_clamp (n : Z) : nice_to_weight (clamp (-20) 19 n) = nice_to_weight n.
Proof.
  unfold nice_to_weight. do 2 f_equal. unfold clamp.
  repeat match goal with |- context [?a <? ?b] => destruct (Z.ltb_spec a b) end; lia.
Qed.

Lemma clamp_range lo hi n : lo <= hi → lo <= clamp lo hi n <= hi.
Proof. intros H. unfold clamp. destruct (Z.ltb_spec n lo), (Z.ltb_spec hi n); lia. Qed.

Lemma WEIGHTS_sorted i j w w' :
  (i <= j)%nat → WEIGHTS !! i = Some w → WEIGHTS !! j = Some w' → w' <= w ∧ 15 <= w' ∧ w <= 88761.
Proof.
  intros Hij Hi Hj.
  assert (forallb (λ '(x, y), y <=? x) (zip WEIGHTS (tail WEIGHTS)) = true) as Hdec by reflexivity.
  assert (∀ k x y, WEIGHTS !! k = Some x → WEIGHTS !! S k = Some y → y <= x) as Hstep.
  { intros k x y Hx Hy. rewrite forallb_forall in Hdec. apply Z.leb_le, (Hdec (x, y)).
    apply list_elem_of_In, list_elem_of_lookup. exists k. apply lookup_zip_Some. split; [done|].
    by rewrite lookup_tail. }
  assert (∀ d k x y, WEIGHTS !! k = Some x → WEIGHTS !! (k + d)%nat = Some y → y <= x) as Hmono.
  { induction d as [|d IH]; intros k x y Hx Hy; [rewrite Nat.add_0_r in Hy; simplify_eq; lia|].
    destruct (lookup_lt_is_Some_2 WEIGHTS (k + d)) as [z Hz].
    { apply lookup_lt_Some in Hy. lia. }
    transitivity z; [|by eapply IH]. apply (Hstep (k + d)%nat); [done|]. by rewrite <- Nat.add_succ_r. }
  split_and!.
  - apply (Hmono (j - i)%nat i); [done|]. by replace (i + (j - i))%nat with j by lia.
  - apply lookup_lt_Some in Hj as Hlt. cbn in Hlt. apply (Hmono (39 - j)%nat j); [done|].
    by replace (j + (39 - j))%nat with 39%nat by lia.
  - by apply (Hmono i 0%nat).
Qed.

Lemma nice_to_weight_Some (n : Z) : ∃ w, nice_to_weight n = Some w ∧ 15 <= w <= 88761.
Proof.
  unfold nice_to_weight. pose proof (clamp_range (-20) 19 n ltac:(lia)) as Hc.
  destruct (lookup_lt_is_Some_2 WEIGHTS (Z.to_nat (clamp (-20) 19 n + 20))) as [w Hw]; [cbn; lia|].
  exists w. split; [done|]. destruct (WEIGHTS_sorted _ _ _ _ (le_n _) Hw Hw). lia.
Qed.

(** ** The ordered map *)

Lemma key_lt_spec (a b : Key) : key_lt a b = true ↔ a.1 < b.1 ∨ (a.1 = b.1 ∧ a.2 < b.2).
Proof. unfold key_lt. rewrite orb_true_iff, andb_true_iff, !Z.ltb_lt, Z.eqb_eq. done. Qed.

Lemma key_lt_false (a b : Key) : key_lt a b = false → key_lt b a = false → a = b.
Proof.
  unfold key_lt. rewrite !orb_false_iff, !andb_false_iff, !Z.ltb_ge, !Z.eqb_neq.
  destruct a, b; cbn. intros. f_equal; lia.
Qed.

Definition key_sorted {V} (l : list (Key * V)) : Prop :=
  StronglySorted (λ x y, key_lt x.1 y.1 = true) l.

Section btree.
Context {V : Type}.
Implicit Types (l : list (Key * V)) (k : Key) (v : V).

Lemma bt_insert_elem k v l x : x ∈ bt_insert k v l → x = (k, v) ∨ x ∈ l.
Proof.
  induction l as [|[k' v'] l IH]; cbn; [set_solver|].
  destruct (key_lt k k'); [set_solver|]. destruct (key_lt k' k); set_solver.
Qed.

Lemma bt_insert_sorted k v l : key_sorted l → key_sorted (bt_insert k v l).
Proof.
  induction 1 as [|[k' v'] l Hs IH Hall]; cbn; [repeat constructor|].
  destruct (key_lt k k') eqn:H1.
  - constructor; [by constructor|]. constructor; [done|]. eapply Forall_impl; [exact Hall|].
    intros x Hx. cbn in *. apply key_lt_spec in H1, Hx. apply key_lt_spec. lia.
  - destruct (key_lt k' k) eqn:H2.
    + constructor; [exact IH|]. apply Forall_forall. intros x [->|Hx]%bt_insert_elem; [done|].
      rewrite Forall_forall in Hall. by apply Hall.
    + assert (k = k') as -> by (by apply key_lt_false). by constructor.
Qed.

Lemma bt_insert_perm k v l : k ∉ l.*1 → bt_insert k v l ≡ₚ (k, v) :: l.
Proof.
  induction l as [|[k' v'] l IH]; cbn; [done|]. intros [Hne Hni]%not_elem_of_cons.
  destruct (key_lt k k') eqn:H1; [done|]. destruct (key_lt k' k) eqn:H2.
  - rewrite (IH Hni). apply perm_swap.
  - exfalso. by apply Hne, key_lt_false.
Qed.

Lemma bt_split k v l1 l2 :
  NoDup (l1 ++ (k, v) :: l2).*1 →
  bt_get k (l1 ++ (k, v) :: l2) = Some v ∧ bt_delete k (l1 ++ (k, v) :: l2) = l1 ++ l2.
Proof.
  rewrite fmap_app, fmap_cons. intros (Hnd1 & Hni & Hnd2)%NoDup_app.
  cbn in Hnd2. apply NoDup_cons in Hnd2 as [Hk _].
  assert (Forall (λ e, bool_decide (e.1 = k) = false) l1) as H1.
  { apply Forall_forall. intros e He. apply bool_decide_eq_false. intros <-.
    apply (Hni e.1); [by apply list_elem_of_fmap_2|set_solver]. }
  assert (Forall (λ e, bool_decide (e.1 = k) = false) l2) as H2.
  { apply Forall_forall. intros e He. apply bool_decide_eq_false. intros <-.
    apply Hk. by apply list_elem_of_fmap_2. }
  split.
  - unfold bt_get. clear -H1. induction H1 as [|e l1 He H1 IH]; cbn.
    + by rewrite bool_decide_eq_true_2.
    + by rewrite He.
  - unfold bt_delete. rewrite retain_app. cbn. rewrite bool_decide_eq_true_2 by done. cbn.
    rewrite !retain_all; [done|eapply Forall_impl; [exact H2|]|eapply Forall_impl; [exact H1|]];
      intros e He; by rewrite He.
Qed.
End btree.

Lemma sorted_delete {V} (l1 l2 : list (Key * V)) x : key_sorted (l1 ++ x :: l2) → key_sorted (l1 ++ l2).
Proof.
  induction l1 as [|y l1 IH]; cbn; inversion 1 as [|? ? Hs Hall]; subst; [done|].
  constructor; [by apply IH|]. rewrite Forall_app, Forall_cons in Hall. rewrite Forall_app. naive_solver.
Qed.

(** ** The scheduler invariant *)

Definition ids (q : list (Key * CfsEntry)) : list AgentId := (λ x, x.1.2) <$> q.
Definition weights (q : list (Key * CfsEntry)) : list Z := (λ x, e_weight x.2) <$> q.

(** Every agent known to the scheduler. *)
Definition queued (s : CfsScheduler) : list AgentId :=
  ids (runqueue s) ++ (e_agent_id <$> rt_queue s) ++ (e_agent_id <$> bg_queue s).

Definition entry_ok (x : Key * CfsEntry) : Prop :=
  x.1 = (e_vruntime x.2, e_agent_id x.2) ∧ 15 <= e_weight x.2 <= 88761.

Record cfs_ok (s : CfsScheduler) : Prop := {
  co_sorted : key_sorted (runqueue s);
  co_entry : Forall entry_ok (runqueue s);
  co_nodup : NoDup (queued s);
  co_total : total_weight s = zsum (weights (runqueue s)) }.

Lemma zsum_perm (l l' : list Z) : l ≡ₚ l' → zsum l = zsum l'.
Proof. induction 1; cbn; lia. Qed.

Lemma weights_bound q : Forall entry_ok q → 0 <= zsum (weights q) <= 88761 * Z.of_nat (length q).
Proof. induction 1 as [|x q [_ Hx] _ IH]; [done|]. unfold weights in *. cbn. lia. Qed.

Lemma ids_keys q k : k ∈ q.*1 → k.2 ∈ ids q.
Proof. intros ([k' e] & -> & He)%list_elem_of_fmap. apply list_elem_of_fmap. by exists (k', e). Qed.

Lemma ids_NoDup_keys q : NoDup (ids q) → NoDup q.*1.
Proof.
  induction q as [|x q IH]; cbn; [constructor|]. intros [Hni Hnd]%NoDup_cons. constructor; [|by apply IH].
  intros Hk%ids_keys. done.
Qed.

Lemma cfs_ok_ids s : cfs_ok s → NoDup (ids (runqueue s)).
Proof. intros Hok. pose proof (co_nodup _ Hok) as H. unfold queued in H. by apply NoDup_app in H as (H & _). Qed.

(** The key lookup of the operations finds the one entry of the agent. *)
Lemma find_split s a :
  cfs_ok s →
  match find_key s a with
  | Some key => ∃ l1 e l2, runqueue s = l1 ++ (key, e) :: l2 ∧ key = (e_vruntime e, a) ∧
      e_agent_id e = a ∧ 15 <= e_weight e <= 88761 ∧
      bt_get key (runqueue s) = Some e ∧ bt_delete key (runqueue s) = l1 ++ l2
  | None => a ∉ ids (runqueue s)
  end.
Proof.
  intros Hok. unfold find_key. destruct (find_first _ _) as [[key e]|] eqn:Hf; cbn.
  - apply find_first_Some in Hf as (l1 & l2 & Hq & Ha%Z.eqb_eq & _).
    pose proof (co_entry _ Hok) as He. rewrite Hq, Forall_app, Forall_cons in He.
    destruct He as (_ & [Hk Hw] & _). cbn in Ha, Hk, Hw. subst key. cbn in Ha. subst a.
    pose proof (ids_NoDup_keys _ (cfs_ok_ids _ Hok)) as Hnd. rewrite Hq in Hnd.
    destruct (bt_split _ _ _ _ Hnd) as [Hg Hd].
    exists l1, e, l2. rewrite Hq. split_and!; (done || lia).
  - apply find_first_None in Hf. rewrite Forall_forall in Hf.
    intros (x & -> & Hx)%list_elem_of_fmap. apply Hf in Hx. by rewrite Z.eqb_refl in Hx.
Qed.

Lemma cfs_ok_insert s a vr e min :
  cfs_ok s → a ∉ queued s → entry_ok ((vr, a), e) →
  cfs_ok (with_queue (bt_insert (vr, a) e (runqueue s)) min (total_weight s + e_weight e) s) ∧
  runqueue s ++ [((vr, a), e)] ≡ₚ bt_insert (vr, a) e (runqueue s).
Proof.
  intros Hok Hni He.
  assert (bt_insert (vr, a) e (runqueue s) ≡ₚ ((vr, a), e) :: runqueue s) as Hp.
  { apply bt_insert_perm. intros Hk%ids_keys. unfold queued in Hni. set_solver. }
  split; [|rewrite Hp; symmetry; apply Permutation_cons_append]. split; cbn.
  - apply bt_insert_sorted, Hok.
  - rewrite Hp. constructor; [done|apply Hok].
  - unfold queued, ids. cbn. rewrite Hp. cbn. constructor; [exact Hni|apply Hok].
  - unfold weights. rewrite (zsum_perm _ _ (fmap_Permutation _ _ _ Hp)). cbn. rewrite (co_total _ Hok).
    unfold weights. lia.
Qed.

Lemma cfs_ok_delete s l1 x l2 min :
  cfs_ok s → runqueue s = l1 ++ x :: l2 →
  cfs_ok (with_queue (l1 ++ l2) min (total_weight s - e_weight x.2) s) ∧
  x.1.2 ∉ queued (with_queue (l1 ++ l2) min (total_weight s - e_weight x.2) s).
Proof.
  intros [H1 H2 H3 H4] Hq. rewrite Hq in *.
  assert (queued s ≡ₚ x.1.2 :: queued (with_queue (l1 ++ l2) min (total_weight s - e_weight x.2) s)) as Hp.
  { unfold queued, ids. cbn. rewrite Hq. by rewrite <- Permutation_middle. }
  rewrite Hp in H3. apply NoDup_cons in H3 as [Hni Hnd]. split; [|done]. split; cbn; [|..|done|].
  - by eapply sorted_delete.
  - rewrite Forall_app, Forall_cons in H2. rewrite Forall_app. naive_solver.
  - rewrite H4. unfold weights. rewrite !fmap_app, fmap_cons, !zsum_app. cbn. lia.
Qed.

(** ** The operations on a well-formed scheduler *)

(** The queued keys, which is what scheduling order depends on. *)
Definition keys (s : CfsScheduler) : list Key := (runqueue s).*1.

Lemma total_bound s : cfs_ok s → 0 <= total_weight s <= 88761 * Z.of_nat (length (keys s)).
Proof. intros Hok. unfold keys. rewrite length_fmap, (co_total _ Hok). apply weights_bound, Hok. Qed.

Lemma perm_middle_end {A} (l1 l2 l3 : list A) x : l1 ++ (l2 ++ [x]) ++ l3 ≡ₚ x :: l1 ++ l2 ++ l3.
Proof. rewrite <- app_assoc. cbn. by rewrite (app_assoc l1 l2), <- Permutation_middle, <- app_assoc. Qed.

Lemma perm_end {A} (l1 l2 l3 : list A) x : l1 ++ l2 ++ (l3 ++ [x]) ≡ₚ x :: l1 ++ l2 ++ l3.
Proof. rewrite !app_assoc. symmetry. apply Permutation_cons_append. Qed.

Lemma enqueue_other s s' a :
  cfs_ok s → a ∉ queued s → runqueue s' = runqueue s → total_weight s' = total_weight s →
  min_vruntime s' = min_vruntime s → queued s' ≡ₚ a :: queued s →
  cfs_ok s' ∧ queued s' ≡ₚ a :: queued s ∧ min_vruntime s' = min_vruntime s ∧
    (keys s' = keys s ∨ keys s' ≡ₚ (min_vruntime s, a) :: keys s).
Proof.
  intros [H1 H2 H3 H4] Hni Hr Ht Hm Hq. unfold keys. rewrite Hr. split_and!; [|done|done|by left].
  split; rewrite ?Hr; [done|done| |by rewrite Ht]. rewrite Hq. by constructor.
Qed.

Lemma enqueue_normal s a e total :
  let q := bt_insert (min_vruntime s, a) e (runqueue s) in
  let s' := with_queue q (min_vruntime s) total s in
  cfs_ok s' → runqueue s ++ [((min_vruntime s, a), e)] ≡ₚ q →
  cfs_ok s' ∧ queued s' ≡ₚ a :: queued s ∧ min_vruntime s' = min_vruntime s ∧
    (keys s' = keys s ∨ keys s' ≡ₚ (min_vruntime s, a) :: keys s).
Proof.
  cbv zeta. intros Hok Hp. split_and!; [done| |done|right].
  - unfold queued, ids. cbn. rewrite <- Hp, fmap_app, <- app_assoc. cbn. by rewrite <- Permutation_middle.
  - unfold keys. cbn. rewrite <- Hp, fmap_app. cbn. by rewrite <- Permutation_cons_append.
Qed.

Lemma enqueue_ok a nice class s :
  cfs_ok s → a ∉ queued s → 88761 * (Z.of_nat (length (keys s)) + 1) <= u64_max →
  ∃ s', cfs_enqueue a nice class s = Some s' ∧ cfs_ok s' ∧ queued s' ≡ₚ a :: queued s ∧
    min_vruntime s' = min_vruntime s ∧
    (keys s' = keys s ∨ keys s' ≡ₚ (min_vruntime s, a) :: keys s).
Proof.
  intros Hok Hni Hb. unfold cfs_enqueue. destruct (nice_to_weight_Some nice) as (w & -> & Hw).
  cbn [mbind option_bind]. eexists. split; [reflexivity|].
  set (e := mkEntry a (min_vruntime s) w nice class 0).
  pose proof (cfs_ok_insert s a (min_vruntime s) e (min_vruntime s) Hok Hni) as Hin.
  pose proof (total_bound s Hok) as Ht.
  assert (cfs_ok (with_queue (bt_insert (min_vruntime s, a) e (runqueue s)) (min_vruntime s)
            (wrap64 (total_weight s + w)) s) ∧
          runqueue s ++ [((min_vruntime s, a), e)] ≡ₚ bt_insert (min_vruntime s, a) e (runqueue s)) as [Hi Hp].
  { rewrite wrap64_small by lia. by apply Hin. }
  destruct class.
  - apply enqueue_other; [done..|]. unfold queued. cbn. rewrite fmap_app. apply perm_middle_end.
  - by apply enqueue_normal.
  - apply enqueue_other; [done..|]. unfold queued. cbn. rewrite fmap_app. apply perm_end.
  - by apply enqueue_normal.
Qed.

Lemma fmap_retain_sublist {A B} (f : A → B) (p : A → bool) (l : list A) :
  f <$> retain p l `sublist_of` f <$> l.
Proof. induction l as [|x l IH]; cbn; [done|]. destruct (p x); by constructor. Qed.

Lemma retain_ids (a b : AgentId) (l : list CfsEntry) :
  b ∈ e_agent_id <$> retain (λ e, negb (e_agent_id e =? a)) l ↔ b ∈ e_agent_id <$> l ∧ b ≠ a.
Proof.
  rewrite !list_elem_of_fmap. setoid_rewrite elem_of_retain. setoid_rewrite negb_true_iff.
  setoid_rewrite Z.eqb_neq. naive_solver.
Qed.

(** [dequeue] forgets the agent, wherever it was queued. *)
Lemma dequeue_ok a s :
  cfs_ok s → total_weight s <= u64_max →
  cfs_ok (cfs_dequeue a s) ∧ (∀ b, b ∈ queued (cfs_dequeue a s) ↔ b ∈ queued s ∧ b ≠ a) ∧
  min_vruntime (cfs_dequeue a s) = min_vruntime s ∧
  (keys (cfs_dequeue a s) = keys s ∨ ∃ v, keys s ≡ₚ (v, a) :: keys (cfs_dequeue a s)).
Proof.
  intros Hok Hmax. unfold cfs_dequeue. pose proof (find_split s a Hok) as Hf.
  destruct (find_key s a) as [key|].
  - destruct Hf as (l1 & e & l2 & Hq & -> & Ha & Hw & -> & ->).
    destruct (cfs_ok_delete s l1 ((e_vruntime e, a), e) l2 (min_vruntime s) Hok Hq) as [Hok' Hni].
    cbn [fst snd] in *. pose proof (total_bound _ Hok') as Hb. cbn in Hb.
    rewrite wrap64_small by lia. set (s' := with_queue (l1 ++ l2) _ _ s) in *.
    assert (queued s ≡ₚ a :: queued s') as Hp.
    { unfold queued, ids. cbn. rewrite Hq. by rewrite <- Permutation_middle. }
    split_and!; [done| |done|].
    + intros b. rewrite Hp, elem_of_cons. split; [intros Hb'; split; [by right|by intros ->]|].
      intros [[?|?] ?]; done.
    + right. exists (e_vruntime e). unfold keys. cbn. rewrite Hq. by rewrite <- Permutation_middle.
  - set (s' := mkCfs _ _ _ _ _ _). split_and!; [|..|done|by left].
    + destruct Hok as [H1 H2 H3 H4]. split; try done. revert H3. unfold queued. cbn.
      intros H3. eapply sublist_NoDup; [exact H3|]. apply sublist_app; [done|].
      apply sublist_app; apply fmap_retain_sublist.
    + intros b. unfold queued. cbn. rewrite !elem_of_app, !retain_ids.
      assert (b ∈ ids (runqueue s) → b ≠ a) by (by intros Hb ->). naive_solver.
Qed.

(** Replacing the entry of an agent, at a new key or the same one. *)
Lemma replace_ok s l1 a e l2 vr e' min :
  cfs_ok s → runqueue s = l1 ++ ((e_vruntime e, a), e) :: l2 → entry_ok ((vr, a), e') →
  let s' := with_queue (bt_insert (vr, a) e' (l1 ++ l2)) min (total_weight s - e_weight e + e_weight e') s in
  cfs_ok s' ∧ queued s' ≡ₚ queued s ∧
  ∃ rest, keys s ≡ₚ (e_vruntime e, a) :: rest ∧ keys s' ≡ₚ (vr, a) :: rest ∧ rest = (l1 ++ l2).*1.
Proof.
  intros Hok Hq He. cbv zeta.
  destruct (cfs_ok_delete s l1 ((e_vruntime e, a), e) l2 min Hok Hq) as [Hok1 Hni]. cbn [fst snd] in *.
  destruct (cfs_ok_insert _ a vr e' min Hok1 Hni He) as [Hok2 Hp]. cbn in Hp.
  split; [exact Hok2|]. split.
  - unfold queued, ids. cbn. rewrite <- Hp, Hq, fmap_app. rewrite <- (Permutation_middle l1). cbn.
    rewrite <- app_assoc. cbn. by rewrite <- Permutation_middle.
  - exists (l1 ++ l2).*1. unfold keys. cbn. split_and!; [|..|done].
    + rewrite Hq. by rewrite <- Permutation_middle.
    + rewrite <- Hp, fmap_app. cbn. by rewrite <- Permutation_cons_append.
Qed.

Lemma renice_first_ids a nice w l l' :
  renice_first a nice w l = Some l' → e_agent_id <$> l' = e_agent_id <$> l.
Proof.
  revert l'. induction l as [|e l IH]; intros l' H; cbn in H; [done|].
  destruct (e_agent_id e =? a); [by injection H as <-|].
  destruct (renice_first a nice w l) as [l1|]; [|done]. cbn in H. injection H as <-. cbn. f_equal. by apply IH.
Qed.

Lemma cfs_ok_queues s s' :
  cfs_ok s → runqueue s' = runqueue s → total_weight s' = total_weight s → queued s' = queued s → cfs_ok s'.
Proof. intros [H1 H2 H3 H4] Hr Ht Hq. split; rewrite ?Hr, ?Ht, ?Hq; done. Qed.

Lemma update_nice_queues_ok a nice w s :
  cfs_ok s →
  cfs_ok (update_nice_queues a nice w s).2 ∧ queued (update_nice_queues a nice w s).2 = queued s ∧
  min_vruntime (update_nice_queues a nice w s).2 = min_vruntime s ∧
  keys (update_nice_queues a nice w s).2 = keys s.
Proof.
  intros Hok. unfold update_nice_queues.
  destruct (renice_first a nice w (rt_queue s)) as [q|] eqn:H1;
    [|destruct (renice_first a nice w (bg_queue s)) as [q|] eqn:H2; [|done]]; cbn [snd];
    set (s' := mkCfs _ _ _ _ _ _).
  - apply renice_first_ids in H1.
    assert (queued s' = queued s) as Hq by (unfold queued; by rewrite <- H1).
    split; [by apply (cfs_ok_queues s)|by split_and!].
  - apply renice_first_ids in H2.
    assert (queued s' = queued s) as Hq by (unfold queued; by rewrite <- H2).
    split; [by apply (cfs_ok_queues s)|by split_and!].
Qed.

(** A priority change keeps virtual runtime, membership and order. *)
Lemma update_nice_ok a nice s :
  cfs_ok s → 88761 * Z.of_nat (length (keys s)) <= u64_max →
  ∃ b s', update_nice a nice s = Some (b, s') ∧ cfs_ok s' ∧ queued s' ≡ₚ queued s ∧
    min_vruntime s' = min_vruntime s ∧ keys s' ≡ₚ keys s.
Proof.
  intros Hok Hb. unfold update_nice. destruct (nice_to_weight_Some (clamp (-20) 19 nice)) as (w & -> & Hw).
  cbn [mbind option_bind]. set (n := clamp (-20) 19 nice). pose proof (find_split s a Hok) as Hf.
  destruct (find_key s a) as [key|].
  - destruct Hf as (l1 & e & l2 & Hq & -> & Ha & Hwe & -> & ->).
    destruct (replace_ok s l1 a e l2 (e_vruntime e) (set_nice n w e) (min_vruntime s) Hok Hq)
      as (Hok' & Hqu & rest & Hk & Hk' & _); [split; cbn; [by rewrite Ha|done]|]. cbn [e_weight set_nice] in *.
    destruct (cfs_ok_delete s l1 ((e_vruntime e, a), e) l2 (min_vruntime s) Hok Hq) as [Hd _].
    pose proof (total_bound _ Hok) as Ht. pose proof (total_bound _ Hd) as Htd.
    pose proof (total_bound _ Hok') as Ht'. pose proof (Permutation_length Hk) as Hl.
    pose proof (Permutation_length Hk') as Hl'. cbn [length fst snd total_weight with_queue] in *.
    replace (sat_add64 (sat_sub (total_weight s) (e_weight e)) w) with (total_weight s - e_weight e + w)
      by (unfold sat_add64, sat_sub; lia).
    eexists _, _. split; [reflexivity|]. split_and!; [exact Hok'|exact Hqu|done|by rewrite Hk', Hk].
  - destruct (update_nice_queues_ok a n w s Hok) as (H1 & H2 & H3 & H4).
    destruct (update_nice_queues a n w s) as [b s']. cbn [snd] in *. exists b, s'.
    rewrite H2, H4. by split_and!.
Qed.

(** Accounting moves one agent's key forward and leaves the rest. *)
Lemma account_ok a t s :
  cfs_ok s →
  let s' := account_tokens a t s in
  cfs_ok s' ∧ queued s' ≡ₚ queued s ∧
  (((a ∉ ids (runqueue s)) ∧ s' = s) ∨
   ∃ v w rest, 15 <= w <= 88761 ∧ keys s ≡ₚ (v, a) :: rest ∧
     let v' := wrap64 (v + wrap64 (t * 1024) / w) in
     keys s' ≡ₚ (v', a) :: rest ∧
     min_vruntime s' = if min_vruntime s <? v' then match rest with k :: _ => k.1 | [] => v' end
                       else min_vruntime s).
Proof.
  intros Hok. cbv zeta. unfold account_tokens. pose proof (find_split s a Hok) as Hf.
  destruct (find_key s a) as [key|]; [|split_and!; [done..|by left]].
  destruct Hf as (l1 & e & l2 & Hq & -> & Ha & Hwe & -> & ->).
  set (v' := wrap64 (e_vruntime e + wrap64 (t * 1024) / e_weight e)).
  set (e' := mkEntry _ _ _ _ _ _). set (min := if min_vruntime s <? v' then _ else _).
  destruct (replace_ok s l1 a e l2 v' e' min Hok Hq) as (Hok' & Hqu & rest & Hk & Hk' & Hr);
    [split; cbn; [by rewrite Ha|done]|]. cbn [e_weight e'] in Hok', Hqu, Hk'.
  replace (total_weight s - e_weight e + e_weight e) with (total_weight s) in Hok', Hqu, Hk' by lia.
  split_and!; [exact Hok'|exact Hqu|]. right. exists (e_vruntime e), (e_weight e), rest.
  split; [done|]. split; [exact Hk|]. cbv zeta. fold v'. split; [exact Hk'|]. cbn.
  unfold min. rewrite Hr. by destruct (l1 ++ l2) as [|[k ?] ?].
Qed.

Lemma reset_ok a s :
  cfs_ok s →
  cfs_ok (reset_slice a s) ∧ queued (reset_slice a s) = queued s ∧
  min_vruntime (reset_slice a s) = min_vruntime s ∧ keys (reset_slice a s) = keys s.
Proof.
  intros Hok. unfold reset_slice. destruct (find_key s a) as [key|]; [|done].
  set (f := λ kv : Key * CfsEntry, if bool_decide (kv.1 = key) then _ else kv).
  assert (∀ x, (f x).1 = x.1 ∧ e_weight (f x).2 = e_weight x.2 ∧ (entry_ok x → entry_ok (f x))) as Hf.
  { intros [k e]. unfold f, entry_ok. cbn. case_bool_decide; done. }
  clearbody f. set (s' := with_queue _ _ _ _).
  assert (keys s' = keys s) as Hk.
  { unfold keys. cbn. rewrite <- list_fmap_compose. apply list_fmap_ext. intros i x _. apply Hf. }
  assert (ids (f <$> runqueue s) = ids (runqueue s)) as Hi.
  { unfold ids. rewrite <- list_fmap_compose. apply list_fmap_ext. intros i x _. cbn. by rewrite (proj1 (Hf x)). }
  assert (queued s' = queued s) as Hq by (unfold queued; cbn [runqueue s' with_queue]; by rewrite Hi).
  split_and!; [|done..]. destruct Hok as [H1 H2 H3 H4]. split; [| |by rewrite Hq|].
  - clear -H1 Hf. cbn. induction H1 as [|x l Hs IH Hall]; cbn; constructor; [exact IH|].
    rewrite Forall_fmap. eapply Forall_impl; [exact Hall|]. intros y. cbn. by rewrite !(proj1 (Hf _)).
  - cbn. rewrite Forall_fmap. eapply Forall_impl; [exact H2|]. intros x. apply Hf.
  - cbn. rewrite H4. f_equal. unfold weights. rewrite <- list_fmap_compose.
    apply list_fmap_ext. intros i x _. symmetry. apply Hf.
Qed.

(** ** Histories *)

Inductive CfsOp :=
| CEnqueue (a : AgentId) (nice : Z) (class : SchedClass)
| CDequeue (a : AgentId)
| CRenice (a : AgentId) (nice : Z)
| CAccount (a : AgentId) (tokens : Z)
| CServe (tokens : Z)
| CReset (a : AgentId).

(** [CServe] is one turn of the agent [pick_next] prefers; [None] is a panic. *)
Definition exec_cfs (s : CfsScheduler) (o : CfsOp) : option CfsScheduler :=
  match o with
  | CEnqueue a nice class => cfs_enqueue a nice class s
  | CDequeue a => Some (cfs_dequeue a s)
  | CRenice a nice => snd <$> update_nice a nice s
  | CAccount a t => Some (account_tokens a t s)
  | CServe t => Some (match pick_next s with Some a => account_tokens a t s | None => s end)
  | CReset a => Some (reset_slice a s)
  end.

Fixpoint run_cfs (s : CfsScheduler) (ops : list CfsOp) : option CfsScheduler :=
  match ops with
  | [] => Some s
  | o :: ops' => match exec_cfs s o with Some s' => run_cfs s' ops' | None => None end
  end.

(** An agent is enqueued only while it is not queued. *)
Definition enqueue_fresh (s : CfsScheduler) (o : CfsOp) : bool :=
  match o with CEnqueue a _ _ => negb (zmem a (queued s)) | _ => true end.

Fixpoint fresh_history (s : CfsScheduler) (ops : list CfsOp) : bool :=
  match ops with
  | [] => true
  | o :: ops' =>
      enqueue_fresh s o && match exec_cfs s o with Some s' => fresh_history s' ops' | None => true end
  end.

Lemma exec_cfs_ok s o :
  cfs_ok s → enqueue_fresh s o = true → 88761 * (Z.of_nat (length (keys s)) + 1) <= u64_max →
  ∃ s', exec_cfs s o = Some s' ∧ cfs_ok s' ∧ (length (keys s') <= S (length (keys s)))%nat.
Proof.
  intros Hok Hfr Hb. pose proof (total_bound s Hok) as Ht.
  assert (∀ a t, cfs_ok (account_tokens a t s) ∧
    (length (keys (account_tokens a t s)) <= S (length (keys s)))%nat) as Hacc.
  { intros a t. destruct (account_ok a t s Hok) as (H1 & _ & [[_ Hs]|(v & w & rest & _ & Hk & Hk' & _)]).
    - split; [done|]. rewrite Hs. lia.
    - split; [done|]. apply Permutation_length in Hk, Hk'. cbn in *. lia. }
  destruct o as [a nice class|a|a nice|a t|t|a]; cbn [exec_cfs enqueue_fresh] in *.
  - apply negb_true_iff, zmem_false in Hfr.
    destruct (enqueue_ok a nice class s Hok Hfr Hb) as (s' & -> & Hok' & _ & _ & Hk). exists s'.
    split_and!; [done..|]. destruct Hk as [->|Hk]; [lia|]. apply Permutation_length in Hk. cbn in Hk. lia.
  - destruct (dequeue_ok a s Hok ltac:(lia)) as (Hok' & _ & _ & Hk). eexists. split_and!; [done..|].
    destruct Hk as [->|[v Hk]]; [lia|]. apply Permutation_length in Hk. cbn in Hk. lia.
  - destruct (update_nice_ok a nice s Hok ltac:(lia)) as (b & s' & -> & Hok' & _ & _ & Hk).
    exists s'. split_and!; [done..|]. rewrite (Permutation_length Hk). lia.
  - eexists. split; [done|]. apply Hacc.
  - eexists. split; [done|]. destruct (pick_next s); [apply Hacc|split; [done|lia]].
  - destruct (reset_ok a s Hok) as (Hok' & _ & _ & Hk). eexists. split_and!; [done..|]. rewrite Hk. lia.
Qed.

Lemma run_cfs_ok ops s :
  cfs_ok s → fresh_history s ops = true →
  88761 * (Z.of_nat (length (keys s)) + Z.of_nat (length ops)) <= u64_max →
  ∃ s', run_cfs s ops = Some s' ∧ cfs_ok s'.
Proof.
  revert s. induction ops as [|o ops IH]; intros s Hok Hfr Hb; [by exists s|].
  cbn [fresh_history length run_cfs] in *. apply andb_true_iff in Hfr as [Ho Hfr].
  destruct (exec_cfs_ok s o Hok Ho ltac:(lia)) as (s' & He & Hok' & Hl). rewrite He in *. apply IH; [done..|lia].
Qed.

Lemma cfs_new_ok slice : cfs_ok (cfs_new slice).
Proof. split; cbn; try done; constructor. Qed.

(** ** Shares *)

Lemma key_id_inj q a v v' : NoDup (ids q) → (v, a) ∈ q.*1 → (v', a) ∈ q.*1 → v = v'.
Proof.
  induction q as [|[k e] q IH]; cbn; [set_solver|]. intros [Hni Hnd]%NoDup_cons.
  rewrite !elem_of_cons. intros [H1|H1] [H2|H2].
  - congruence.
  - exfalso. apply ids_keys in H2. subst k. done.
  - exfalso. apply ids_keys in H1. subst k. done.
  - by apply IH.
Qed.

Lemma vruntime_of_iff s a v : cfs_ok s → vruntime_of s a = Some v ↔ (v, a) ∈ keys s.
Proof.
  intros Hok. pose proof (co_entry _ Hok) as He. rewrite Forall_forall in He.
  assert (∀ e, find_entry s a = Some e → (e_vruntime e, a) ∈ keys s) as Hf.
  { intros e Hx. apply find_first_elem in Hx as [([k e'] & -> & Hx)%list_elem_of_fmap Ha%Z.eqb_eq].
    destruct (He _ Hx) as [Hk _]. cbn in *. subst a k. unfold keys. apply list_elem_of_fmap.
    by exists (e_vruntime e', e_agent_id e', e'). }
  unfold vruntime_of. split.
  - intros (e & Hx & ->)%fmap_Some_1. by apply Hf.
  - intros Hk. destruct (find_entry s a) as [e|] eqn:Hx; cbn.
    + f_equal. eapply key_id_inj; [by apply cfs_ok_ids|by apply Hf|exact Hk].
    + exfalso. apply find_first_None in Hx. rewrite Forall_forall in Hx.
      apply list_elem_of_fmap in Hk as ([k e] & Hva & Hin). destruct (He _ Hin) as [Hk _]. cbn in Hva, Hk.
      specialize (Hx e (list_elem_of_fmap_2 snd _ _ Hin)). apply Z.eqb_neq in Hx. congruence.
Qed.

Lemma fair_share_entry s k e :
  cfs_ok s → (k, e) ∈ runqueue s →
  fair_share s (e_agent_id e) = wrap64 (time_slice_tokens s * e_weight e) / total_weight s.
Proof.
  intros Hok Hin. pose proof (co_entry _ Hok) as He. rewrite Forall_forall in He.
  destruct (He _ Hin) as [Hk Hw]. cbn in Hk, Hw. unfold fair_share.
  pose proof (find_split s (e_agent_id e) Hok) as Hf. destruct (find_key s (e_agent_id e)) as [key|].
  - destruct Hf as (l1 & e' & l2 & Hq & -> & Ha & Hw' & -> & _).
    assert ((k, e) = ((e_vruntime e', e_agent_id e), e')) as [= _ <-].
    { pose proof (cfs_ok_ids _ Hok) as Hnd. rewrite Hq in Hin, Hnd. subst k.
      clear -Hin Hnd. unfold ids in Hnd. rewrite fmap_app, fmap_cons in Hnd.
      apply NoDup_app in Hnd as (_ & Hd & Hnd). cbn in Hnd. apply NoDup_cons in Hnd as [Hni _].
      apply elem_of_app in Hin as [H1|H1].
      - exfalso. apply (Hd (e_agent_id e)); [|set_solver]. by apply (list_elem_of_fmap_2' _ _ _ _ H1).
      - apply elem_of_cons in H1 as [H1|H1]; [done|]. exfalso. apply Hni.
        by apply (list_elem_of_fmap_2' _ _ _ _ H1). }
    destruct (Z.eqb_spec (total_weight s) 0) as [H0|]; [|done]. exfalso. clear -H0 Hok Hin Hw.
    rewrite (co_total _ Hok) in H0. apply list_elem_of_split in Hin as (l1 & l2 & Hq).
    pose proof (co_entry _ Hok) as He. rewrite Hq, Forall_app, Forall_cons in He.
    destruct He as (H1 & _ & H2). rewrite Hq in H0. unfold weights in H0.
    rewrite fmap_app, fmap_cons, zsum_app in H0. cbn in H0.
    pose proof (weights_bound _ H1). pose proof (weights_bound _ H2). unfold weights in *. lia.
  - exfalso. apply Hf. subst k. by apply (list_elem_of_fmap_2' _ _ _ _ Hin).
Qed.

(** Flooring the shares never hands out more than the whole. *)
Lemma floors_bound (c W : Z) (l : list Z) :
  0 < W → 0 <= c → Forall (λ w, 0 <= w) l → W * zsum ((λ w, c * w / W) <$> l) <= c * zsum l.
Proof.
  intros HW Hc. induction 1 as [|w l Hw _ IH]; cbn; [lia|].
  pose proof (Z.mul_div_le (c * w) W HW). lia.
Qed.

Lemma exec_cfs_slice s o s' : exec_cfs s o = Some s' → time_slice_tokens s' = time_slice_tokens s.
Proof.
  destruct o; cbn [exec_cfs]; unfold cfs_enqueue, update_nice, cfs_dequeue, account_tokens, reset_slice,
    update_nice_queues.
  - destruct (nice_to_weight nice); [|done]. cbn. by destruct class; intros [= <-].
  - intros [= <-]. by repeat case_match.
  - destruct (nice_to_weight _); [|done]. cbn. intros [= <-]. by repeat case_match.
  - intros [= <-]. by repeat case_match.
  - intros [= <-]. by repeat case_match.
  - intros [= <-]. by repeat case_match.
Qed.

Lemma run_cfs_slice ops s s' : run_cfs s ops = Some s' → time_slice_tokens s' = time_slice_tokens s.
Proof.
  revert s. induction ops as [|o ops IH]; intros s; cbn; [by intros [= <-]|].
  destruct (exec_cfs s o) as [s1|] eqn:He; [|done]. intros H. rewrite (IH _ H). by eapply exec_cfs_slice.
Qed.

(** The shares of the runnable agents fit into the slice. *)
Lemma shares_bound s :
  cfs_ok s → 0 <= time_slice_tokens s → time_slice_tokens s * 88761 <= u64_max →
  zsum (fair_share s <$> ids (runqueue s)) <= time_slice_tokens s.
Proof.
  intros Hok H0 H1. pose proof (co_entry _ Hok) as He. rewrite Forall_forall in He.
  set (c := time_slice_tokens s) in *. set (W := total_weight s).
  assert (fair_share s <$> ids (runqueue s) = (λ w, c * w / W) <$> weights (runqueue s)) as ->.
  { unfold ids, weights. rewrite <- !list_fmap_compose. apply list_fmap_ext. intros i [k e] Hi.
    apply list_elem_of_lookup_2 in Hi. destruct (He _ Hi) as [Hk Hw]. cbn in *. subst k. cbn.
    rewrite (fair_share_entry _ _ _ Hok Hi). fold c. rewrite wrap64_small; [done|]. nia. }
  destruct (decide (runqueue s = [])) as [->|Hne]; [done|].
  assert (0 < W) as HW.
  { unfold W. rewrite (co_total _ Hok). destruct (runqueue s) as [|x q] eqn:Hq; [done|].
    pose proof (co_entry _ Hok) as Hx. rewrite Hq in Hx. apply Forall_cons in Hx as [[_ Hx] Hq'].
    pose proof (weights_bound _ Hq'). unfold weights in *. cbn. lia. }
  pose proof (floors_bound c W (weights (runqueue s)) HW H0) as Hf.
  rewrite <- (co_total _ Hok) in Hf. fold W in Hf. unshelve epose proof (Hf _) as Hf'; [|nia].
  unfold weights. apply Forall_fmap. eapply Forall_impl; [apply (co_entry _ Hok)|]. intros x [_ Hx]. cbn. lia.
Qed.

(** The scheduler stays well formed: any history that never enqueues a queued agent runs
    without panic; each agent is then queued at most once, the run queue is strictly ordered by
    (vruntime, agent), [total_weight] is the sum of the queued weights with no underflow or
    overflow, and the fair shares of the runnable agents together never exceed the time slice. *)
Theorem cfs_shares (slice : Z) (ops : list CfsOp) :
  0 <= slice → slice * 88761 <= u64_max →
  88761 * Z.of_nat (length ops) <= u64_max → fresh_history (cfs_new slice) ops = true →
  ∃ s, run_cfs (cfs_new slice) ops = Some s ∧
    NoDup (queued s) ∧ key_sorted (runqueue s) ∧
    Forall (λ x, x.1 = (e_vruntime x.2, e_agent_id x.2)) (runqueue s) ∧
    total_weight s = zsum (weights (runqueue s)) ∧
    zsum (fair_share s <$> ids (runqueue s)) <= time_slice_tokens s.
Proof.
  intros Hs0 Hs1 Hb Hfr.
  destruct (run_cfs_ok ops (cfs_new slice) (cfs_new_ok slice) Hfr) as (s & Hr & Hok); [cbn; lia|].
  pose proof (run_cfs_slice _ _ _ Hr) as Ht. cbn in Ht. exists s. split; [done|].
  split_and!; [apply Hok..| |apply Hok|apply shares_bound; [done|lia..]].
  eapply Forall_impl; [apply (co_entry _ Hok)|]. by intros x [Hx _].
Qed.

(** ** Scheduling order *)

(** In a sorted queue what comes first has the smaller key. *)
Lemma sorted_before {V} (l1 l2 : list (Key * V)) x y :
  key_sorted (l1 ++ x :: l2) → y ∈ l2 → key_lt x.1 y.1 = true.
Proof.
  induction l1 as [|z l1 IH]; cbn; inversion 1 as [|? ? Hs Hall]; subst; [|by apply IH].
  intros Hy. rewrite Forall_forall in Hall. by apply Hall.
Qed.

Lemma no_candidate {A} (f : A → AgentId) cands (l : list A) :
  Forall (λ e, zmem (f e) cands = false) l → ∀ b, b ∈ cands → b ∉ f <$> l.
Proof.
  rewrite Forall_forall. intros H b Hb (e & -> & He)%list_elem_of_fmap. apply H, zmem_false in He. done.
Qed.

Lemma runqueue_pick s l1 x l2 cands b va vb :
  cfs_ok s → runqueue s = l1 ++ x :: l2 → Forall (λ e, zmem e.1.2 cands = false) l1 →
  b ∈ cands → vruntime_of s x.1.2 = Some va → vruntime_of s b = Some vb →
  va < vb ∨ (va = vb ∧ x.1.2 <= b).
Proof.
  intros Hok Hq Hl1 Hb Ha Hvb. apply (vruntime_of_iff _ _ _ Hok) in Ha, Hvb.
  assert (x.1 = (va, x.1.2)) as Hx.
  { assert (x.1 ∈ keys s) as Hin by (unfold keys; rewrite Hq; set_solver).
    destruct x as [[v i] e]. cbn in *. f_equal. eapply key_id_inj; [by apply cfs_ok_ids|exact Hin|exact Ha]. }
  unfold keys in Hvb. rewrite Hq, fmap_app, fmap_cons, elem_of_app, elem_of_cons in Hvb.
  destruct Hvb as [H|[H|H]].
  - exfalso. apply ids_keys in H. revert H. by apply no_candidate with cands.
  - rewrite Hx in H. injection H as -> ->. lia.
  - apply list_elem_of_fmap in H as (y & Hy & Hin). pose proof (co_sorted _ Hok) as Hs. rewrite Hq in Hs.
    pose proof (sorted_before _ _ _ _ Hs Hin) as Hlt. rewrite Hx, <- Hy in Hlt.
    apply key_lt_spec in Hlt. cbn in Hlt. lia.
Qed.

(** Turn selection follows the scheduling order: among the candidates [pick_among] returns a
    real-time agent if there is one, else the queued candidate of least virtual runtime, ties broken
    by agent id, else a background agent, and [None] exactly when no candidate is queued. *)
Theorem pick_among_spec (slice : Z) (ops : list CfsOp) (s : CfsScheduler) (cands : list AgentId) :
  88761 * Z.of_nat (length ops) <= u64_max → fresh_history (cfs_new slice) ops = true →
  run_cfs (cfs_new slice) ops = Some s →
  match pick_among s cands with
  | None => ∀ b, b ∈ cands → b ∉ queued s
  | Some a => a ∈ cands ∧
      (a ∈ e_agent_id <$> rt_queue s ∨
       (∀ b, b ∈ cands → b ∉ e_agent_id <$> rt_queue s) ∧
       (a ∈ ids (runqueue s) ∧
        (∀ b va vb, b ∈ cands → vruntime_of s a = Some va → vruntime_of s b = Some vb →
           va < vb ∨ (va = vb ∧ a <= b)) ∨
        (∀ b, b ∈ cands → b ∉ ids (runqueue s)) ∧ a ∈ e_agent_id <$> bg_queue s))
  end.
Proof.
  intros Hb Hfr Hr. destruct (run_cfs_ok ops (cfs_new slice) (cfs_new_ok slice) Hfr) as (s' & Hr' & Hok);
    [cbn; lia|]. rewrite Hr in Hr'. injection Hr' as <-. unfold pick_among.
  case_bool_decide as Hc; [subst; set_solver|].
  destruct (find_first _ (rt_queue s)) as [e|] eqn:H1.
  { apply find_first_elem in H1 as [He Hm%zmem_spec]. split; [done|]. left. by apply list_elem_of_fmap_2. }
  apply find_first_None in H1. pose proof (no_candidate e_agent_id _ _ H1) as Hrt.
  destruct (find_first _ (runqueue s)) as [x|] eqn:H2.
  { apply find_first_Some in H2 as (l1 & l2 & Hq & Hm%zmem_spec & Hl1). split; [done|]. right. split; [done|].
    left. split; [rewrite Hq; unfold ids; set_solver|]. intros b va vb. by eapply runqueue_pick. }
  apply find_first_None in H2. pose proof (no_candidate (λ e, e.1.2) _ _ H2) as Hrun.
  destruct (find_first _ (bg_queue s)) as [e|] eqn:H3; cbn.
  - apply find_first_elem in H3 as [He Hm%zmem_spec]. split; [done|]. right. split; [done|]. right.
    split; [done|]. by apply list_elem_of_fmap_2.
  - apply find_first_None in H3. pose proof (no_candidate e_agent_id _ _ H3) as Hbg.
    intros b Hbc. unfold queued. rewrite !elem_of_app. specialize (Hrt b Hbc). specialize (Hrun b Hbc).
    specialize (Hbg b Hbc). tauto.
Qed.

(** ** Fairness *)

(** All virtual runtimes, and the floor for newcomers, lie within [D] of each other and below [B]. *)
Record spread (D B : Z) (ks : list Key) (min : Z) : Prop := {
  sp_pair : ∀ x y, x ∈ ks → y ∈ ks → x.1 <= y.1 + D;
  sp_min : ∀ x, x ∈ ks → x.1 <= min + D ∧ min <= x.1 + D;
  sp_bound : ∀ x, x ∈ ks → 0 <= x.1 <= B;
  sp_min_bound : 0 <= min <= B }.

Lemma spread_perm D B ks ks' min : ks ≡ₚ ks' → spread D B ks min → spread D B ks' min.
Proof.
  intros Hp [H1 H2 H3 H4]. split; [| | |done]; [intros x y|intros x..]; rewrite <- !Hp; auto.
Qed.

Lemma spread_weaken D B B' ks min : B <= B' → spread D B ks min → spread D B' ks min.
Proof. intros HB [H1 H2 H3 H4]. split; [done|done| |lia]. intros x Hx. specialize (H3 x Hx). lia. Qed.

Lemma spread_cons D B ks min a : 0 <= D → spread D B ks min → spread D B ((min, a) :: ks) min.
Proof.
  intros HD [H1 H2 H3 H4]. split; [intros x y|intros x..|done]; rewrite !elem_of_cons.
  - intros [->|Hx] [->|Hy]; cbn; [lia|by apply H2|by apply H2|by apply H1].
  - intros [->|Hx]; cbn; [lia|by apply H2].
  - intros [->|Hx]; cbn; [lia|by apply H3].
Qed.

Lemma spread_tail D B x ks min : spread D B (x :: ks) min → spread D B ks min.
Proof. intros [H1 H2 H3 H4]. split; [intros; apply H1|intros; apply H2|intros; apply H3|done]; by right. Qed.

(** Serving the agent of least virtual runtime by at most [D] keeps the spread. *)
Lemma spread_serve D B v a rest min d :
  0 <= d <= D → spread D B ((v, a) :: rest) min → (∀ y, y ∈ rest → v <= y.1) →
  spread D (B + D) ((v + d, a) :: rest)
    (if min <? v + d then match rest with k :: _ => k.1 | [] => v + d end else min).
Proof.
  intros Hd [H1 H2 H3 H4] Hmin.
  pose proof (H2 (v, a) (list_elem_of_here _ _)) as Hv. pose proof (H3 (v, a) (list_elem_of_here _ _)) as Hvb.
  assert (∀ y, y ∈ rest → y.1 <= v + D ∧ v <= y.1 ∧ 0 <= y.1 <= B ∧ y.1 <= min + D ∧ min <= y.1 + D) as Hy.
  { intros y Hy. specialize (H1 y (v, a)). specialize (H2 y). specialize (H3 y). specialize (Hmin y Hy).
    rewrite !elem_of_cons in *. cbn in *. naive_solver lia. }
  cbn in Hv, Hvb.
  assert (∀ x y, x ∈ rest → y ∈ rest → x.1 <= y.1 + D) as Hpair by (intros; apply H1; by right).
  set (m := if min <? v + d then _ else _).
  assert (m <= v + d + D ∧ v + d <= m + D ∧ 0 <= m <= B + D ∧ ∀ y, y ∈ rest → y.1 <= m + D ∧ m <= y.1 + D) as Hm.
  { subst m. destruct (Z.ltb_spec min (v + d)) as [Hlt|Hge].
    - destruct rest as [|k rest]; [split_and!; [lia..|set_solver]|].
      pose proof (Hy k (list_elem_of_here _ _)) as Hk. split_and!; [lia..|].
      intros y Hin. pose proof (Hpair k y (list_elem_of_here _ _) Hin).
      pose proof (Hpair y k Hin (list_elem_of_here _ _)). lia.
    - split_and!; [lia..|]. intros y Hin. specialize (Hy y Hin). lia. }
  split; [intros x y|intros x..|lia]; rewrite !elem_of_cons.
  - intros [->|Hx] [->|Hy']; cbn; [lia| | |by apply Hpair]; [specialize (Hy y Hy')|specialize (Hy x Hx)]; lia.
  - intros [->|Hx]; cbn; [lia|]. by apply Hm.
  - intros [->|Hx]; cbn; [lia|]. specialize (Hy x Hx). lia.
Qed.

(** The agent served is the one of least virtual runtime, or not in the run queue at all. *)
Lemma pick_next_least s a :
  cfs_ok s → pick_next s = Some a →
  (a ∉ ids (runqueue s)) ∨ ∃ v, (v, a) ∈ keys s ∧ ∀ y, y ∈ keys s → v <= y.1.
Proof.
  intros Hok. pose proof (co_nodup _ Hok) as Hnd. unfold queued in Hnd. unfold pick_next, keys.
  destruct (rt_queue s) as [|e rt].
  - destruct (runqueue s) as [|[[v i] e] q] eqn:Hq.
    + intros _. left. set_solver.
    + intros [= <-]. right. exists v. cbn. split; [set_solver|]. intros y [->|Hy]%elem_of_cons; [done|].
      apply list_elem_of_fmap in Hy as (x & -> & Hx). pose proof (co_sorted _ Hok) as Hs. rewrite Hq in Hs.
      pose proof (sorted_before [] q _ x Hs Hx) as Hlt%key_lt_spec. cbn in Hlt. lia.
  - intros [= <-]. left. intros Hin. apply NoDup_app in Hnd as (_ & Hd & _). apply (Hd _ Hin). set_solver.
Qed.

(** Turns of at most [T] tokens, always for the agent [pick_next] prefers. *)
Definition fair_op (T : Z) (o : CfsOp) : bool :=
  match o with CServe t => (0 <=? t) && (t <=? T) | CAccount _ _ => false | _ => true end.

Lemma serve_spread T B s t :
  let D := T * 1024 / 15 in
  cfs_ok s → 0 <= t <= T → T * 1024 <= u64_max → B + D <= u64_max →
  spread D B (keys s) (min_vruntime s) →
  let s' := match pick_next s with Some a => account_tokens a t s | None => s end in
  spread D (B + D) (keys s') (min_vruntime s').
Proof.
  cbv zeta. set (D := T * 1024 / 15). intros Hok Ht HT HB Hsp.
  assert (0 <= D) as HD by (apply Z.div_pos; lia).
  assert (spread D (B + D) (keys s) (min_vruntime s)) as Hsame by (eapply spread_weaken; [|exact Hsp]; lia).
  destruct (pick_next s) as [a|] eqn:Hpick; [|done].
  destruct (account_ok a t s Hok) as (Hok' & _ & Heff).
  destruct (pick_next_least s a Hok Hpick) as [Hni|(v & Hv & Hmin)].
  { unfold account_tokens. pose proof (find_split s a Hok) as Hf. destruct (find_key s a); [|done].
    exfalso. destruct Hf as (l1 & e & l2 & Hq & -> & _). apply Hni. rewrite Hq. unfold ids. rewrite fmap_app, fmap_cons. apply elem_of_app. right. apply list_elem_of_here. }
  destruct Heff as [[Hni _]|(v' & w & rest & Hw & Hk & Hk' & Hm)]; [by apply ids_keys in Hv|].
  assert (v' = v) as -> by (apply (key_id_inj (runqueue s) a); [by apply cfs_ok_ids|change ((v', a) ∈ keys s); rewrite Hk; apply list_elem_of_here|exact Hv]).
  set (d := t * 1024 / w). assert (0 <= d <= D) as Hd.
  { split; [apply Z.div_pos; lia|]. transitivity (t * 1024 / 15); [apply Z.div_le_compat_l; lia|].
    apply Z.div_le_mono; lia. }
  pose proof (sp_bound _ _ _ _ Hsp _ Hv) as Hvb. cbn in Hvb.
  rewrite (wrap64_small (t * 1024)) in Hk', Hm by lia. fold d in Hk', Hm.
  rewrite wrap64_small in Hk', Hm by lia. rewrite Hm.
  eapply spread_perm; [symmetry; exact Hk'|]. apply spread_serve; [done| |].
  - eapply spread_perm; [exact Hk|exact Hsp].
  - intros y Hy. apply Hmin. rewrite Hk. by right.
Qed.

Lemma exec_cfs_spread T B s o s' :
  let D := T * 1024 / 15 in
  cfs_ok s → enqueue_fresh s o = true → fair_op T o = true →
  88761 * (Z.of_nat (length (keys s)) + 1) <= u64_max →
  0 <= T → T * 1024 <= u64_max → B + D <= u64_max →
  exec_cfs s o = Some s' → spread D B (keys s) (min_vruntime s) →
  spread D (B + D) (keys s') (min_vruntime s').
Proof.
  cbv zeta. intros Hok Hfr Hop Hb HT0 HT HB He Hsp. pose proof (total_bound s Hok) as Htot.
  assert (0 <= T * 1024 / 15) as HD by (apply Z.div_pos; lia).
  destruct o as [a nice class|a|a nice|a t|t|a]; cbn [exec_cfs enqueue_fresh fair_op] in *.
  - apply negb_true_iff, zmem_false in Hfr.
    destruct (enqueue_ok a nice class s Hok Hfr Hb) as (s1 & He' & _ & _ & Hm & Hk).
    rewrite He in He'. injection He' as <-. rewrite Hm.
    eapply spread_weaken; [|destruct Hk as [->|Hk]; [exact Hsp|]]; [lia|].
    eapply spread_perm; [symmetry; exact Hk|]. by apply spread_cons.
  - injection He as <-. destruct (dequeue_ok a s Hok ltac:(lia)) as (_ & _ & Hm & Hk). rewrite Hm.
    eapply spread_weaken; [|destruct Hk as [->|[v Hk]]; [exact Hsp|]]; [lia|].
    eapply spread_tail, spread_perm; [exact Hk|exact Hsp].
  - destruct (update_nice_ok a nice s Hok ltac:(lia)) as (b & s1 & He' & _ & _ & Hm & Hk).
    rewrite He' in He. cbn in He. injection He as <-. rewrite Hm.
    eapply spread_weaken; [|eapply spread_perm; [symmetry; exact Hk|exact Hsp]]. lia.
  - done.
  - injection He as <-. apply andb_true_iff in Hop as [H1%Z.leb_le H2%Z.leb_le]. by apply serve_spread.
  - injection He as <-. destruct (reset_ok a s Hok) as (_ & _ & -> & ->).
    eapply spread_weaken; [|exact Hsp]. lia.
Qed.

Lemma run_cfs_spread T B ops s s' :
  let D := T * 1024 / 15 in
  cfs_ok s → fresh_history s ops = true → forallb (fair_op T) ops = true →
  88761 * (Z.of_nat (length (keys s)) + Z.of_nat (length ops)) <= u64_max →
  0 <= T → T * 1024 <= u64_max → B + Z.of_nat (length ops) * D <= u64_max →
  run_cfs s ops = Some s' → spread D B (keys s) (min_vruntime s) →
  ∃ B', spread D B' (keys s') (min_vruntime s').
Proof.
  cbv zeta. revert s B. induction ops as [|o ops IH]; intros s B Hok Hfr Hop Hb HT0 HT HB Hr Hsp.
  { injection Hr as <-. by exists B. }
  cbn [fresh_history length run_cfs forallb] in *. apply andb_true_iff in Hfr as [Ho Hfr].
  apply andb_true_iff in Hop as [Hop Hops].
  assert (0 <= T * 1024 / 15) as HD by (apply Z.div_pos; lia).
  destruct (exec_cfs_ok s o Hok Ho ltac:(lia)) as (s1 & He & Hok' & Hl). rewrite He in *.
  eapply (IH s1 (B + T * 1024 / 15)); [done..|lia|done|done|lia|done|].
  eapply exec_cfs_spread; [exact Hok|exact Ho|exact Hop|lia|lia|lia|nia|exact He|exact Hsp].
Qed.

(** C23. Weighted fairness: when each turn of at most [T] tokens goes to the agent [pick_next]
    prefers, then whatever agents join, leave or change priority in between, the virtual runtimes of
    any two runnable agents never differ by more than one turn's worth at the least weight,
    [T * 1024 / 15]. *)
Theorem cfs_fairness (slice T : Z) (ops : list CfsOp) :
  0 <= T → T * 1024 <= u64_max → Z.of_nat (length ops) * (88761 + T * 1024) <= u64_max →
  fresh_history (cfs_new slice) ops = true → forallb (fair_op T) ops = true →
  ∃ s, run_cfs (cfs_new slice) ops = Some s ∧
    ∀ a b va vb, vruntime_of s a = Some va → vruntime_of s b = Some vb → va <= vb + T * 1024 / 15.
Proof.
  intros HT0 HT Hlen Hfr Hop.
  destruct (run_cfs_ok ops (cfs_new slice) (cfs_new_ok slice) Hfr) as (s & Hr & Hok); [cbn; nia|].
  exists s. split; [done|].
  assert (0 <= T * 1024 / 15) as HD by (apply Z.div_pos; lia).
  assert (T * 1024 / 15 <= T * 1024) as HD' by (apply Z.div_le_upper_bound; lia).
  destruct (run_cfs_spread T 0 ops (cfs_new slice) s) as [B Hsp];
    [apply cfs_new_ok|done|done|cbn; nia|done|done|nia|done|split; cbn; (set_solver || lia)|].
  intros a b va vb Ha%vruntime_of_iff Hb%vruntime_of_iff; [|done..].
  exact (sp_pair _ _ _ _ Hsp _ _ Ha Hb).
Qed.

(** Two agents of different priority, a third that joins late, and a priority change. *)
Definition cfs_example : list CfsOp :=
  [CEnqueue 1 0 Normal; CEnqueue 2 5 Normal; CServe 100; CServe 80; CServe 100; CEnqueue 3 (-5) Normal;
   CServe 90; CRenice 2 (-10); CServe 100; CEnqueue 4 0 RealTime; CServe 10; CDequeue 1].

Lemma cfs_fairness_witness :
  ∃ s, run_cfs (cfs_new 1000) cfs_example = Some s ∧ vruntime_of s 2 = Some 254 ∧
    vruntime_of s 3 = Some 244 ∧ 254 <= 244 + 100 * 1024 / 15.
Proof.
  destruct (cfs_fairness 1000 100 cfs_example) as (s & Hr & Hf);
    [vm_compute; (reflexivity || discriminate)..|].
  assert (vruntime_of s 2 = Some 254 ∧ vruntime_of s 3 = Some 244) as [H2 H3]
    by (clear Hf; revert Hr; vm_compute; intros Hs; injection Hs as <-; split; reflexivity).
  exists s. split; [exact Hr|]. split; [exact H2|]. split; [exact H3|]. exact (Hf 2 3 254 244 H2 H3).
Defined.

Lemma cfs_shares_witness :
  ∃ s, run_cfs (cfs_new 1000) cfs_example = Some s ∧
    zsum (fair_share s <$> ids (runqueue s)) <= time_slice_tokens s.
Proof.
  destruct (cfs_shares 1000 cfs_example) as (s & Hr & _ & _ & _ & _ & Hs);
    [vm_compute; (reflexivity || discriminate)..|]. exists s. split; [exact Hr|exact Hs].
Defined.

Lemma pick_among_spec_witness :
  ∃ s, run_cfs (cfs_new 1000) cfs_example = Some s ∧ pick_among s [2; 3] = Some 3 ∧
    (vruntime_of s 3 = Some 244 → vruntime_of s 2 = Some 254 → 244 < 254 ∨ (244 = 254 ∧ 3 <= 2)).
Proof.
  assert (2 ∈ [2; 3]) as Hin2 by set_solver. assert (3 ∈ [2; 3]) as Hin3 by set_solver.
  destruct (run_cfs (cfs_new 1000) cfs_example) as [s|] eqn:Hr; [|exfalso; revert Hr; vm_compute; discriminate].
  exists s. split; [reflexivity|]. pose proof (pick_among_spec 1000 cfs_example s [2; 3]) as H.
  assert (pick_among s [2; 3] = Some 3) as Hp
    by (revert Hr; vm_compute; intros Hs; injection Hs as <-; reflexivity).
  rewrite Hp in H. split; [exact Hp|].
  destruct H as [_ [Hrt|[_ [[_ Hn]|[Hn _]]]]];
    [vm_compute; discriminate|vm_compute; reflexivity|exact Hr|..].
  - exfalso. revert Hr Hrt. vm_compute. intros Hs. injection Hs as <-. cbn. set_solver.
  - intros H3 H2. exact (Hn 2 244 254 Hin2 H3 H2).
  - exfalso. apply (Hn 3 Hin3). clear -Hr. revert Hr. vm_compute. intros Hs. injection Hs as <-. cbn. set_solver.
Defined.

(** [min_vruntime] is not the minimum of the queue: charging the agent of least virtual runtime can
    push it above that agent's own, and a later charge of another agent brings it back down. *)
Theorem min_vruntime_overshoots :
  let before := [CEnqueue 1 0 Normal; CEnqueue 2 0 Normal; CAccount 2 1000; CAccount 1 10] in
  (∃ s, run_cfs (cfs_new 100) before = Some s ∧ vruntime_of s 1 = Some 10 ∧ min_vruntime s = 1000) ∧
  (∃ s, run_cfs (cfs_new 100) (before ++ [CAccount 2 1]) = Some s ∧ min_vruntime s = 10).
Proof. split; eexists; vm_compute; split_and!; reflexivity. Qed.
