(* ===== verification/Pool.v ===== *)
(** * Bounded admission pools: the specification

    What the turn admission of [cfs.rs] and the core pool of [llm_sched.rs] both promise: a bounded
    number of holders, a bounded queue of waiters with unique tickets, and per-request lifecycles.
    The state machine below is the specification; the two implementations are shown to refine it, and
    inherit its invariant. *)

From S2P Require Import Prelude.
#[local] Open Scope Z_scope.

(** ** The machine *)

Record Pool := mkPool {
  p_running : Z;
  p_capacity : Z;
  p_queue : Z;
  p_next : Z;
  p_waiting : list Z }.

(** Where a request is. *)
Inductive Stage := Waits (ticket : Z) | Holds | Gone.

Record PoolWorld := mkPW { pool : Pool; requests : gmap Z Stage }.

Definition pool_init (capacity queue : Z) : PoolWorld := mkPW (mkPool 0 capacity queue 0 []) ∅.

Inductive pstep : PoolWorld → PoolWorld → Prop :=
| ps_register p rs r :
    rs !! r = None → Z.of_nat (length (p_waiting p)) < p_queue p →
    pstep (mkPW p rs)
      (mkPW (mkPool (p_running p) (p_capacity p) (p_queue p) (wrap64 (p_next p + 1))
               (p_waiting p ++ [p_next p])) (<[r := Waits (p_next p)]> rs))
| ps_refuse p rs r :
    rs !! r = None → p_queue p <= Z.of_nat (length (p_waiting p)) →
    pstep (mkPW p rs) (mkPW p (<[r := Gone]> rs))
| ps_admit p rs r t i :
    rs !! r = Some (Waits t) → p_running p < p_capacity p → p_waiting p !! i = Some t →
    pstep (mkPW p rs)
      (mkPW (mkPool (p_running p + 1) (p_capacity p) (p_queue p) (p_next p) (remove_at i (p_waiting p)))
         (<[r := Holds]> rs))
| ps_cancel p rs r t :
    rs !! r = Some (Waits t) →
    pstep (mkPW p rs)
      (mkPW (mkPool (p_running p) (p_capacity p) (p_queue p) (p_next p)
               (retain (λ t', negb (t' =? t)) (p_waiting p))) (<[r := Gone]> rs))
| ps_release p rs r :
    rs !! r = Some Holds →
    pstep (mkPW p rs)
      (mkPW (mkPool (sat_sub (p_running p) 1) (p_capacity p) (p_queue p) (p_next p) (p_waiting p))
         (<[r := Gone]> rs)).

(** At most [n] steps, some of them silent. *)
Inductive preach (w : PoolWorld) : nat → PoolWorld → Prop :=
| pr_refl : preach w 0 w
| pr_silent n w' : preach w n w' → preach w (S n) w'
| pr_step n w1 w2 : preach w n w1 → pstep w1 w2 → preach w (S n) w2.

(** ** Counting stages *)

(** 1 for [true], 0 for [false]. *)
Definition unit_of (b : bool) : Z := if b then 1 else 0.

Section stages.
Context {A : Type}.
Implicit Types (rs : gmap Z A) (st : A).

Lemma stages_insert rs r st :
  rs !! r = None → (map_to_list (<[r := st]> rs)).*2 ≡ₚ st :: (map_to_list rs).*2.
Proof. intros Hr. by rewrite map_to_list_insert. Qed.

Lemma stages_update rs r st : (map_to_list (<[r := st]> rs)).*2 ≡ₚ st :: (map_to_list (delete r rs)).*2.
Proof. rewrite <- insert_delete_eq. apply stages_insert, lookup_delete_eq. Qed.

Lemma stages_lookup rs r st :
  rs !! r = Some st → (map_to_list rs).*2 ≡ₚ st :: (map_to_list (delete r rs)).*2.
Proof. intros Hr. rewrite <- (stages_update rs r st). by rewrite insert_id. Qed.

Definition count_stages (f : A → bool) rs : Z := Z.of_nat (count_if f (map_to_list rs).*2).

Lemma count_stages_update f rs r st st' :
  rs !! r = Some st →
  count_stages f (<[r := st']> rs) = count_stages f rs - unit_of (f st) + unit_of (f st').
Proof.
  intros Hr. unfold count_stages.
  rewrite (count_proper _ _ _ (stages_lookup _ _ _ Hr)), (count_proper _ _ _ (stages_update rs r st')).
  rewrite !count_cons. unfold unit_of. destruct (f st), (f st'); lia.
Qed.

Lemma count_stages_insert f rs r st :
  rs !! r = None → count_stages f (<[r := st]> rs) = count_stages f rs + unit_of (f st).
Proof.
  intros Hr. unfold count_stages. rewrite (count_proper _ _ _ (stages_insert rs r st Hr)), count_cons.
  unfold unit_of. destruct (f st); lia.
Qed.

Lemma count_stages_bound f rs : 0 <= count_stages f rs <= Z.of_nat (size rs).
Proof.
  unfold count_stages. pose proof (count_le_length f (map_to_list rs).*2).
  rewrite length_fmap, length_map_to_list in *. lia.
Qed.
End stages.

(** ** The invariant *)

Definition holds (st : Stage) : bool := match st with Holds => true | _ => false end.
Definition ticket_of (st : Stage) : option Z := match st with Waits t => Some t | _ => None end.

Definition holders (rs : gmap Z Stage) : Z := count_stages holds rs.
Definition tickets (rs : gmap Z Stage) : list Z := omap ticket_of (map_to_list rs).*2.

Record pool_ok (w : PoolWorld) : Prop := {
  po_running : p_running (pool w) = holders (requests w);
  po_capacity : 0 <= p_running (pool w) <= p_capacity (pool w);
  po_waiting : p_waiting (pool w) ≡ₚ tickets (requests w);
  po_queue : Z.of_nat (length (p_waiting (pool w))) <= p_queue (pool w);
  po_fresh : Forall (λ t, 0 <= t < p_next (pool w)) (p_waiting (pool w));
  po_nodup : NoDup (p_waiting (pool w));
  po_next : 0 <= p_next (pool w) }.

Lemma tickets_perm rs st l :
  (map_to_list rs).*2 ≡ₚ st :: l → tickets rs ≡ₚ option_list (ticket_of st) ++ omap ticket_of l.
Proof. intros Hp. unfold tickets. rewrite Hp. cbn. by destruct (ticket_of st). Qed.

Lemma tickets_insert rs r st :
  rs !! r = None → tickets (<[r := st]> rs) ≡ₚ option_list (ticket_of st) ++ tickets rs.
Proof. intros Hr. by rewrite (tickets_perm _ _ _ (stages_insert _ _ st Hr)). Qed.

Lemma tickets_move rs r st st' :
  rs !! r = Some st →
  ∃ l, tickets rs ≡ₚ option_list (ticket_of st) ++ l ∧ tickets (<[r := st']> rs) ≡ₚ option_list (ticket_of st') ++ l.
Proof.
  intros Hr. eexists. split; [exact (tickets_perm _ _ _ (stages_lookup _ _ _ Hr))|].
  exact (tickets_perm _ _ _ (stages_update rs r st')).
Qed.

Lemma retain_ticket t l : NoDup (t :: l) → retain (λ t', negb (t' =? t)) (t :: l) = l.
Proof.
  intros [Hni _]%NoDup_cons. cbn. rewrite Z.eqb_refl. cbn. apply retain_all, Forall_forall.
  intros x Hx. apply negb_true_iff, Z.eqb_neq. by intros ->.
Qed.

Lemma retain_proper {A} (f : A → bool) l l' : l ≡ₚ l' → retain f l ≡ₚ retain f l'.
Proof.
  induction 1 as [|x l l' _ IH|x y l|l1 l2 l3 _ IH1 _ IH2]; cbn; [done| | |by rewrite IH1].
  - destruct (f x); by rewrite IH.
  - destruct (f x), (f y); try done. apply perm_swap.
Qed.

(** ** Preservation *)

(** A waiter that leaves the queue, whether admitted or cancelled. *)
Lemma leave_queue w r t st waiting :
  pool_ok w → requests w !! r = Some (Waits t) → ticket_of st = None →
  p_waiting (pool w) ≡ₚ t :: waiting →
  waiting ≡ₚ tickets (<[r := st]> (requests w)) ∧ Z.of_nat (length waiting) <= p_queue (pool w) ∧
  Forall (λ t, 0 <= t < p_next (pool w)) waiting ∧ NoDup waiting.
Proof.
  intros [H1 H2 H3 H4 H5 H6 H7] Hr Hst Hp.
  destruct (tickets_move _ _ _ st Hr) as (l & Hl & Hl'). rewrite Hst in Hl'. cbn in Hl, Hl'.
  rewrite Hp in H3, H5, H6. rewrite (Permutation_length Hp) in H4. cbn in H4.
  apply Forall_cons in H5 as [_ H5]. apply NoDup_cons in H6 as [_ H6].
  split_and!; [|lia|done|done]. rewrite Hl'. apply (Permutation_cons_inv (a := t)). by rewrite H3, Hl.
Qed.

Lemma pstep_ok w w' : pool_ok w → pstep w w' → p_next (pool w) < u64_max → pool_ok w'.
Proof.
  intros Hok Hs Hn. destruct Hs as [p rs r Hr Hq|p rs r Hr Hq|p rs r t i Hr Hc Hi|p rs r t Hr|p rs r Hr];
    pose proof Hok as [H1 H2 H3 H4 H5 H6 H7]; cbn [pool requests] in *.
  - split; cbn; rewrite ?wrap64_small by lia.
    + unfold holders in *. rewrite count_stages_insert by done. cbn [holds unit_of]. lia.
    + done.
    + rewrite tickets_insert by done. cbn. by rewrite <- Permutation_cons_append, H3.
    + rewrite length_app. cbn. lia.
    + apply Forall_app. split; [eapply Forall_impl; [exact H5|cbn; lia]|]. constructor; [lia|constructor].
    + apply NoDup_app. split_and!; [done| |apply NoDup_singleton].
      intros t Ht ->%list_elem_of_singleton. rewrite Forall_forall in H5. specialize (H5 _ Ht). lia.
    + lia.
  - split; cbn; try done.
    + unfold holders in *. rewrite count_stages_insert by done. cbn [holds unit_of]. lia.
    + by rewrite tickets_insert.
  - destruct (leave_queue _ r t Holds (remove_at i (p_waiting p)) Hok Hr eq_refl) as (G1 & G2 & G3 & G4);
      [by apply remove_at_perm|]. split; cbn; try done; [|lia].
    unfold holders in *. rewrite (count_stages_update _ _ _ _ _ Hr). cbn [holds unit_of]. lia.
  - assert (p_waiting p ≡ₚ t :: retain (λ t', negb (t' =? t)) (p_waiting p)) as Hp.
    { destruct (tickets_move _ _ _ Gone Hr) as (l & Hl & _). cbn in Hl. rewrite <- H3 in Hl.
      rewrite Hl in H6. rewrite (retain_proper _ _ _ Hl), (retain_ticket _ _ H6). exact Hl. }
    destruct (leave_queue _ r t Gone _ Hok Hr eq_refl Hp) as (G1 & G2 & G3 & G4). split; cbn; try done.
    unfold holders in *. rewrite (count_stages_update _ _ _ _ _ Hr). cbn [holds unit_of]. lia.
  - destruct (tickets_move _ _ _ Gone Hr) as (l & Hl & Hl'). cbn in Hl, Hl'.
    pose proof (count_stages_update holds _ _ _ Gone Hr) as Hh. pose proof (count_stages_bound holds (<[r := Gone]> rs)).
    cbn [holds unit_of] in Hh.
    split; cbn; unfold sat_sub; try done; [|lia|by rewrite H3, Hl, Hl'].
    unfold holders in *. rewrite (count_stages_update _ _ _ _ _ Hr). cbn [holds unit_of]. lia.
Qed.

Lemma pstep_next w w' : pstep w w' → 0 <= p_next (pool w) < u64_max →
  p_next (pool w') <= p_next (pool w) + 1 ∧
  p_capacity (pool w') = p_capacity (pool w) ∧ p_queue (pool w') = p_queue (pool w).
Proof. destruct 1; cbn; intros; rewrite ?wrap64_small by lia; split_and!; (done || lia). Qed.

Lemma preach_ok w n w' :
  preach w n w' → pool_ok w → p_next (pool w) + Z.of_nat n <= u64_max →
  pool_ok w' ∧ p_next (pool w') <= p_next (pool w) + Z.of_nat n ∧
  p_capacity (pool w') = p_capacity (pool w) ∧ p_queue (pool w') = p_queue (pool w).
Proof.
  induction 1 as [|n w' _ IH|n w1 w2 _ IH Hs]; intros Hok Hb.
  - split_and!; [done|lia|done|done].
  - destruct IH as (H1 & H2 & H3 & H4); [done|lia|]. split_and!; [done|lia|done|done].
  - destruct IH as (H1 & H2 & H3 & H4); [done|lia|].
    pose proof (po_next _ H1). destruct (pstep_next _ _ Hs) as (G1 & G2 & G3); [lia|].
    split_and!; [apply (pstep_ok w1); [done..|lia]|lia|congruence|congruence].
Qed.

Lemma pool_init_ok capacity queue : 0 <= capacity → 0 <= queue → pool_ok (pool_init capacity queue).
Proof. intros Hc Hq. split; cbn; try done. constructor. Qed.

(** ** Refinement *)

(** What an implementation shows: each of its events is a step of the specification or silent. *)
Class PoolImpl (W E : Type) := {
  pool_abs : W → PoolWorld;
  pool_exec : W → E → W;
  pool_refines w e :
    pool_ok (pool_abs w) →
    pool_abs (pool_exec w e) = pool_abs w ∨ pstep (pool_abs w) (pool_abs (pool_exec w e)) }.

Section refinement.
Context {W E : Type} `{!PoolImpl W E}.

Lemma impl_reaches (w : W) (es : list E) :
  pool_ok (pool_abs w) → p_next (pool (pool_abs w)) + Z.of_nat (length es) <= u64_max →
  preach (pool_abs w) (length es) (pool_abs (foldl pool_exec w es)) ∧
  pool_ok (pool_abs (foldl pool_exec w es)).
Proof.
  intros Hok Hn. induction es as [|e es IH] using rev_ind; [by split; [constructor|]|].
  rewrite foldl_app, length_app, Nat.add_1_r in *. cbn [foldl] in *. destruct IH as [Hr Hok']; [lia|].
  assert (preach (pool_abs w) (S (length es)) (pool_abs (pool_exec (foldl pool_exec w es) e))) as Hr'.
  { destruct (pool_refines (foldl pool_exec w es) e Hok') as [->|Hs]; [by constructor|by econstructor]. }
  split; [done|]. by apply (preach_ok _ _ _ Hr' Hok).
Qed.
End refinement.

(** The ticket of a waiting request is in the queue. *)
Lemma ticket_position w r t :
  pool_ok w → requests w !! r = Some (Waits t) →
  ∃ i, position (λ t', t' =? t) (p_waiting (pool w)) = Some i ∧ p_waiting (pool w) !! i = Some t.
Proof.
  intros Hok Hr. destruct (tickets_move _ _ _ Gone Hr) as (l & Hl & _). cbn in Hl.
  destruct (position_zeqb_is_Some t (p_waiting (pool w))) as [i Hi].
  { rewrite (po_waiting _ Hok), Hl. apply list_elem_of_here. }
  exists i. split; [done|]. by apply position_zeqb.
Qed.

Lemma ticket_owner w t :
  pool_ok w → t ∈ p_waiting (pool w) → ∃ r, requests w !! r = Some (Waits t).
Proof.
  intros Hok Ht. rewrite (po_waiting _ Hok) in Ht. unfold tickets in Ht.
  apply list_elem_of_omap in Ht as (st & Hst & Ht). apply list_elem_of_fmap in Hst as ([r st'] & -> & Hin).
  exists r. apply elem_of_map_to_list in Hin. cbn in Ht. destruct st' as [t'| |]; [|done|done]. injection Ht as <-. exact Hin.
Qed.

(** Cancelling a queued ticket shortens the queue. *)
Lemma retain_shrinks t l : t ∈ l → length (retain (λ t', negb (t' =? t)) l) ≠ length l.
Proof.
  intros Ht. apply list_elem_of_split in Ht as (l1 & l2 & ->).
  rewrite retain_app. cbn. rewrite Z.eqb_refl, !length_app. cbn.
  pose proof (retain_length (λ t', negb (t' =? t)) l1). pose proof (retain_length (λ t', negb (t' =? t)) l2). lia.
Qed.
