(* ===== verification/TurnAdmission.v ===== *)
(** * Turn admission

    Models [TurnAdmission] of [crates/kernel/src/cfs.rs]: a bounded number of running turns, granted
    under contention to the waiter the CFS order prefers, or to the oldest waiter past the starvation
    threshold.  [acquire_inner] is split at its locks and await points: reading the class, registering,
    looking for a free slot, choosing (which may wait for the CFS lock), committing, and waiting again;
    other requests, the CFS scheduler and cancellations run in between.  Durations and instants are
    nanoseconds; each [elapsed()] reads the clock anew, so the choice takes the readings [clock i] of
    its successive calls. *)

From S2P Require Import Prelude AgentStruct Cfs Pool.
#[local] Open Scope Z_scope.

(** ** State *)

Inductive SchedulerError := AdmissionQueueFull (capacity : Z) | AdmissionCancelled (a : AgentId).

Record TurnWaiter := mkTurnWaiter {
  tw_agent_id : AgentId;
  tw_class : SchedClass;
  tw_seq : Z;
  tw_enqueued_at : Z }.

Record AdmissionInner := mkInner {
  running : Z;
  max_concurrent : Z;
  max_waiters : Z;
  next_seq : Z;
  waiters : list TurnWaiter }.

Record TurnAdmission := mkAdmission {
  state : AdmissionInner;
  starvation_threshold : Z;
  admitted_total : Z;
  admitted_realtime_total : Z;
  admitted_normal_total : Z;
  admitted_background_total : Z;
  admitted_deadline_total : Z;
  cancelled_total : Z;
  cooperative_yields_total : Z;
  wait_ns_total : Z;
  run_ns_total : Z;
  starvation_total : Z }.

Definition with_threshold (max_conc max_wait threshold : Z) : TurnAdmission :=
  let max_conc := Z.max max_conc 1 in
  mkAdmission (mkInner 0 max_conc (Z.max max_wait 1) 0 []) threshold 0 0 0 0 0 0 0 0 0 0.

Definition with_queue_limit (max_conc max_wait : Z) : TurnAdmission :=
  with_threshold max_conc max_wait (30 * 1000000000).

Definition admission_new (max_conc : Z) : TurnAdmission :=
  let max_conc := if max_conc =? 0 then usize_max else max_conc in
  let max_wait := if max_conc =? usize_max then usize_max
                  else Z.max (sat_mul_usize max_conc 64) 64 in
  with_queue_limit max_conc max_wait.

Definition set_state (st : AdmissionInner) (a : TurnAdmission) : TurnAdmission :=
  mkAdmission st (starvation_threshold a) (admitted_total a) (admitted_realtime_total a)
    (admitted_normal_total a) (admitted_background_total a) (admitted_deadline_total a)
    (cancelled_total a) (cooperative_yields_total a) (wait_ns_total a) (run_ns_total a)
    (starvation_total a).

(** ** The parts of [acquire_inner] *)

(** Registration as a contender. *)
Definition register_waiter (agent : AgentId) (class : SchedClass) (now : Z) (a : TurnAdmission) :
    result SchedulerError Z * TurnAdmission :=
  let st := state a in
  if max_waiters st <=? Z.of_nat (length (waiters st)) then
    (Err (AdmissionQueueFull (max_waiters st)), a)
  else
    let seq := next_seq st in
    (Ok seq,
     set_state (mkInner (running st) (max_concurrent st) (max_waiters st) (wrap64 (next_seq st + 1))
                  (waiters st ++ [mkTurnWaiter agent class seq now])) a).

(** The snapshot of the waiters, if a slot is free. *)
Definition look (a : TurnAdmission) : option (list TurnWaiter) :=
  let st := state a in
  if running st <? max_concurrent st then Some (waiters st) else None.

(** [filter(...elapsed() >= threshold).min_by_key(seq)], the clock read once per waiter. *)
Fixpoint overdue (threshold : Z) (clock : nat → Z) (i : nat) (ws : list TurnWaiter) : list TurnWaiter :=
  match ws with
  | [] => []
  | w :: ws' =>
      let rest := overdue threshold clock (S i) ws' in
      if threshold <=? sat_sub (clock i) (tw_enqueued_at w) then w :: rest else rest
  end.

Definition overdue_seq (threshold : Z) (clock : nat → Z) (ws : list TurnWaiter) : option Z :=
  zmin_list (tw_seq <$> overdue threshold clock 0 ws).

Definition preferred_seq (threshold : Z) (clock : nat → Z) (cfs : CfsScheduler) (ws : list TurnWaiter) :
    option Z :=
  match overdue_seq threshold clock ws with
  | Some s => Some s
  | None =>
      let candidates := tw_agent_id <$> ws in
      let of_chosen :=
        chosen ← pick_among cfs candidates;
        zmin_list (tw_seq <$> retain (λ w, tw_agent_id w =? chosen) ws) in
      match of_chosen with
      | Some s => Some s
      | None => zmin_list (tw_seq <$> ws)
      end
  end.

Definition as_nanos_u64 (d : Z) : Z := Z.min d u64_max.

(** The counters of an admitted waiter; [waited] and [now] are the clock readings. *)
Definition count_admission (w : TurnWaiter) (waited : Z) (a : TurnAdmission) : TurnAdmission :=
  let inc n := wrap64 (n + 1) in
  let rt := match tw_class w with RealTime => inc (admitted_realtime_total a) | _ => admitted_realtime_total a end in
  let no := match tw_class w with Normal => inc (admitted_normal_total a) | _ => admitted_normal_total a end in
  let bg := match tw_class w with Background => inc (admitted_background_total a) | _ => admitted_background_total a end in
  let dl := match tw_class w with Deadline _ => inc (admitted_deadline_total a) | _ => admitted_deadline_total a end in
  mkAdmission (state a) (starvation_threshold a) (inc (admitted_total a)) rt no bg dl (cancelled_total a)
    (cooperative_yields_total a) (wrap64 (wait_ns_total a + as_nanos_u64 waited)) (run_ns_total a)
    (if starvation_threshold a <=? waited then inc (starvation_total a) else starvation_total a).

Inductive Commit := Granted | NoSlot | NotRegistered.

(** The section under the state lock, entered by the preferred waiter. *)
Definition commit (seq now : Z) (a : TurnAdmission) : Commit * TurnAdmission :=
  let st := state a in
  if running st <? max_concurrent st then
    match position (λ w, tw_seq w =? seq) (waiters st) with
    | None => (NotRegistered, a)
    | Some i =>
        match waiters st !! i with
        | None => (NotRegistered, a)
        | Some w =>
            let st' := mkInner (running st + 1) (max_concurrent st) (max_waiters st) (next_seq st)
                         (remove_at i (waiters st)) in
            (Granted, count_admission w (sat_sub now (tw_enqueued_at w)) (set_state st' a))
        end
    end
  else (NoSlot, a).

(** [Drop for TurnWaitRegistration], not admitted. *)
Definition drop_registration (seq : Z) (a : TurnAdmission) : TurnAdmission :=
  let st := state a in
  let kept := retain (λ w, negb (tw_seq w =? seq)) (waiters st) in
  let a' := set_state (mkInner (running st) (max_concurrent st) (max_waiters st) (next_seq st) kept) a in
  if bool_decide (length kept = length (waiters st)) then a'
  else
    mkAdmission (state a') (starvation_threshold a') (admitted_total a') (admitted_realtime_total a')
      (admitted_normal_total a') (admitted_background_total a') (admitted_deadline_total a')
      (wrap64 (cancelled_total a' + 1)) (cooperative_yields_total a') (wait_ns_total a')
      (run_ns_total a') (starvation_total a').

(** [Drop for TurnSlot]. *)
Definition drop_slot (started_at now : Z) (a : TurnAdmission) : TurnAdmission :=
  let st := state a in
  let st' := mkInner (sat_sub (running st) 1) (max_concurrent st) (max_waiters st) (next_seq st) (waiters st) in
  mkAdmission st' (starvation_threshold a) (admitted_total a) (admitted_realtime_total a)
    (admitted_normal_total a) (admitted_background_total a) (admitted_deadline_total a)
    (cancelled_total a) (cooperative_yields_total a) (wait_ns_total a)
    (wrap64 (run_ns_total a + as_nanos_u64 (sat_sub now started_at))) (starvation_total a).

Definition record_cooperative_yield (a : TurnAdmission) : TurnAdmission :=
  mkAdmission (state a) (starvation_threshold a) (admitted_total a) (admitted_realtime_total a)
    (admitted_normal_total a) (admitted_background_total a) (admitted_deadline_total a)
    (cancelled_total a) (wrap64 (cooperative_yields_total a + 1)) (wait_ns_total a) (run_ns_total a)
    (starvation_total a).

(** The accessors read the same fields; [metrics] reads them all. *)
Definition waiting (a : TurnAdmission) : Z := Z.of_nat (length (waiters (state a))).
Definition capacity (a : TurnAdmission) : Z := max_concurrent (state a).

(** ** Interleaved requests *)

Inductive TurnStage :=
| TStart
| TClassed (class : SchedClass)
| TWaiting (seq : Z)
| TLooking (seq : Z) (snapshot : list TurnWaiter)
| TChosen (seq : Z)
| TRunning (started_at : Z)
| TRefused (e : SchedulerError)
| TCancelled
| TFinished.

Record TurnWorld := mkTurnWorld {
  admission : TurnAdmission;
  cfs : CfsScheduler;
  turns : gmap Z (AgentId * TurnStage) }.

(** A cancellation, or the drop of the future, takes effect at an await point: while waiting, or
    while waiting for the CFS lock with the snapshot in hand. *)
Inductive TurnEvent :=
| TvCfs (o : CfsOp)
| TvBegin (r : Z) (agent : AgentId)
| TvStep (r : Z) (clock : nat → Z)
| TvCancel (r : Z)
| TvRelease (r : Z) (now : Z)
| TvYield.

(** One part of [acquire_inner]; [clock] gives the clock readings the part takes. *)
Definition turn_step (agent : AgentId) (st : TurnStage) (clock : nat → Z) (s : CfsScheduler)
    (a : TurnAdmission) : TurnStage * TurnAdmission :=
  match st with
  | TStart => (TClassed (match class_of s agent with Some c => c | None => Normal end), a)
  | TClassed class =>
      match register_waiter agent class (clock 0%nat) a with
      | (Ok seq, a') => (TWaiting seq, a')
      | (Err e, a') => (TRefused e, a')
      end
  | TWaiting seq => (match look a with Some ws => TLooking seq ws | None => TWaiting seq end, a)
  | TLooking seq ws =>
      (if bool_decide (preferred_seq (starvation_threshold a) clock s ws = Some seq)
       then TChosen seq else TWaiting seq, a)
  | TChosen seq =>
      match commit seq (clock 0%nat) a with
      | (Granted, a') => (TRunning (clock 1%nat), a')
      | (NoSlot, a') => (TWaiting seq, a')
      | (NotRegistered, a') => (TRefused (AdmissionCancelled agent), drop_registration seq a')
      end
  | TRunning _ | TRefused _ | TCancelled | TFinished => (st, a)
  end.

Definition exec_turn (w : TurnWorld) (e : TurnEvent) : TurnWorld :=
  match e with
  | TvCfs o =>
      match exec_cfs (cfs w) o with
      | Some s => mkTurnWorld (admission w) s (turns w)
      | None => w
      end
  | TvBegin r agent =>
      match turns w !! r with
      | None => mkTurnWorld (admission w) (cfs w) (<[r := (agent, TStart)]> (turns w))
      | Some _ => w
      end
  | TvStep r clock =>
      match turns w !! r with
      | None => w
      | Some (agent, st) =>
          let (st', a) := turn_step agent st clock (cfs w) (admission w) in
          mkTurnWorld a (cfs w) (<[r := (agent, st')]> (turns w))
      end
  | TvCancel r =>
      match turns w !! r with
      | Some (agent, (TWaiting seq | TLooking seq _)) =>
          mkTurnWorld (drop_registration seq (admission w)) (cfs w) (<[r := (agent, TCancelled)]> (turns w))
      | _ => w
      end
  | TvRelease r now =>
      match turns w !! r with
      | Some (agent, TRunning started_at) =>
          mkTurnWorld (drop_slot started_at now (admission w)) (cfs w) (<[r := (agent, TFinished)]> (turns w))
      | _ => w
      end
  | TvYield => mkTurnWorld (record_cooperative_yield (admission w)) (cfs w) (turns w)
  end.

(** ** Refinement of the pool specification *)

Definition stage_abs (st : TurnStage) : option Stage :=
  match st with
  | TStart | TClassed _ => None
  | TWaiting seq | TLooking seq _ | TChosen seq => Some (Waits seq)
  | TRunning _ => Some Holds
  | TRefused _ | TCancelled | TFinished => Some Gone
  end.

Definition turn_abs (w : TurnWorld) : PoolWorld :=
  let st := state (admission w) in
  mkPW (mkPool (running st) (max_concurrent st) (max_waiters st) (next_seq st) (tw_seq <$> waiters st))
    (omap (λ e, stage_abs e.2) (turns w)).

Lemma abs_insert (m : gmap Z (AgentId * TurnStage)) r agent st :
  omap (λ e, stage_abs e.2) (<[r := (agent, st)]> m)
  = match stage_abs st with
    | Some s => <[r := s]> (omap (λ e, stage_abs e.2) m)
    | None => delete r (omap (λ e, stage_abs e.2) m)
    end.
Proof. rewrite omap_insert. cbn. by destruct (stage_abs st). Qed.

Lemma abs_lookup (m : gmap Z (AgentId * TurnStage)) r agent st :
  m !! r = Some (agent, st) → omap (λ e, stage_abs e.2) m !! r = stage_abs st.
Proof. intros Hm. by rewrite lookup_omap, Hm. Qed.

(** A request that moves within one stage of the specification. *)
Lemma abs_same w r agent st st' a s :
  turns w !! r = Some (agent, st) → stage_abs st' = stage_abs st → state a = state (admission w) →
  turn_abs (mkTurnWorld a s (<[r := (agent, st')]> (turns w))) = turn_abs w.
Proof.
  intros Hr Hst Ha. unfold turn_abs. cbn. rewrite Ha, abs_insert, Hst. f_equal.
  pose proof (abs_lookup _ _ _ _ Hr) as Hl. destruct (stage_abs st) as [x|]; [by apply insert_id|by apply delete_id].
Qed.

Lemma drop_registration_state seq a :
  state (drop_registration seq a)
  = mkInner (running (state a)) (max_concurrent (state a)) (max_waiters (state a)) (next_seq (state a))
      (retain (λ w, negb (tw_seq w =? seq)) (waiters (state a))).
Proof. unfold drop_registration. by case_bool_decide. Qed.

(** The preferred waiter finds itself registered, and takes the slot. *)
Lemma commit_granted w r agent seq now :
  pool_ok (turn_abs w) → turns w !! r = Some (agent, TChosen seq) →
  running (state (admission w)) < max_concurrent (state (admission w)) →
  ∃ i x a, commit seq now (admission w) = (Granted, a) ∧ waiters (state (admission w)) !! i = Some x ∧
    tw_seq x = seq ∧
    a = count_admission x (sat_sub now (tw_enqueued_at x))
          (set_state (mkInner (running (state (admission w)) + 1) (max_concurrent (state (admission w)))
             (max_waiters (state (admission w))) (next_seq (state (admission w)))
             (remove_at i (waiters (state (admission w))))) (admission w)).
Proof.
  intros Hok Hr Hc. destruct (ticket_position (turn_abs w) r seq Hok) as (i & Hi & Hl).
  { unfold turn_abs. cbn. by rewrite (abs_lookup _ _ _ _ Hr). }
  unfold turn_abs in Hi, Hl. cbn in Hi, Hl. rewrite position_fmap in Hi. rewrite list_lookup_fmap in Hl.
  destruct (waiters (state (admission w)) !! i) as [x|] eqn:Hx; [|done]. cbn in Hl. injection Hl as Hl.
  exists i, x. eexists. unfold commit. rewrite (proj2 (Z.ltb_lt _ _) Hc), Hi, Hx. by split_and!.
Qed.

Lemma turn_step_refines w r agent st clock :
  pool_ok (turn_abs w) → turns w !! r = Some (agent, st) →
  let w' := exec_turn w (TvStep r clock) in
  turn_abs w' = turn_abs w ∨ pstep (turn_abs w) (turn_abs w').
Proof.
  intros Hok Hr. cbn [exec_turn]. rewrite Hr. cbv zeta. pose proof (abs_lookup _ _ _ _ Hr) as Hl.
  destruct st as [|class|seq|seq ws|seq|t|e| |]; cbn [turn_step]; 
    try (left; eapply abs_same; [exact Hr|reflexivity|reflexivity]).
  - unfold register_waiter. cbn in Hl.
    destruct (Z.leb_spec (max_waiters (state (admission w))) (Z.of_nat (length (waiters (state (admission w))))))
      as [Hfull|Hroom]; right; unfold turn_abs at 2; cbn; rewrite abs_insert; cbn.
    + apply ps_refuse; [done|]. cbn. by rewrite length_fmap.
    + rewrite fmap_app. cbn. apply (ps_register (mkPool _ _ _ _ _)); [done|]. cbn. by rewrite length_fmap.
  - left. destruct (look (admission w)); by eapply abs_same.
  - left. case_bool_decide; by eapply abs_same.
  - destruct (Z.ltb_spec (running (state (admission w))) (max_concurrent (state (admission w)))) as [Hlt|Hge].
    + destruct (commit_granted w r agent seq (clock 0%nat) Hok Hr Hlt) as (i & x & a & -> & Hi & Hx & ->).
      right. unfold turn_abs at 2. cbn. rewrite abs_insert. cbn. rewrite remove_at_fmap.
      apply (ps_admit (mkPool _ _ _ _ _) _ r seq); [done|done|]. cbn. by rewrite list_lookup_fmap, Hi, <- Hx.
    + left. unfold commit. rewrite (proj2 (Z.ltb_ge _ _) Hge). by eapply abs_same.
Qed.

#[global] Program Instance turn_pool : PoolImpl TurnWorld TurnEvent :=
  { pool_abs := turn_abs; pool_exec := exec_turn }.
Next Obligation.
  intros w e Hok. destruct e as [o|r agent|r clock|r|r now|]; cbn [exec_turn].
  - left. by destruct (exec_cfs (cfs w) o).
  - left. destruct (turns w !! r) eqn:Hr; [done|]. unfold turn_abs. cbn. rewrite abs_insert. cbn.
    f_equal. apply delete_id. by rewrite lookup_omap, Hr.
  - destruct (turns w !! r) as [[agent st]|] eqn:Hr; [|by left].
    pose proof (turn_step_refines w r agent st clock Hok Hr) as H. cbn [exec_turn] in H. by rewrite Hr in H.
  - destruct (turns w !! r) as [[agent st]|] eqn:Hr; [|by left]. pose proof (abs_lookup _ _ _ _ Hr) as Hl.
    destruct st as [| |seq|seq ws| | | | |]; try (by left); right; unfold turn_abs at 2; cbn;
      rewrite drop_registration_state, abs_insert; cbn; rewrite (retain_fmap tw_seq (λ t, negb (t =? seq)));
      by apply (ps_cancel (mkPool _ _ _ _ _) _ r seq).
  - destruct (turns w !! r) as [[agent [| | | | |t| | |]]|] eqn:Hr; try (by left).
    right. unfold turn_abs at 2. cbn. rewrite abs_insert. cbn. apply ps_release.
    by rewrite (abs_lookup _ _ _ _ Hr).
  - by left.
Qed.

(** ** Metrics *)

Abbreviation count_turns f m := (count_stages (λ e : AgentId * TurnStage, f e.2) m).

Definition was_admitted (st : TurnStage) : bool :=
  match st with TRunning _ | TFinished => true | _ => false end.
Definition is_running (st : TurnStage) : bool := match st with TRunning _ => true | _ => false end.
Definition is_waiting (st : TurnStage) : bool :=
  match st with TWaiting _ | TLooking _ _ | TChosen _ => true | _ => false end.
Definition is_cancelled (st : TurnStage) : bool := match st with TCancelled => true | _ => false end.

Lemma count_turns_update f m r agent st st' :
  m !! r = Some (agent, st) →
  count_turns f (<[r := (agent, st')]> m) = count_turns f m - unit_of (f st) + unit_of (f st').
Proof. intros Hr. exact (count_stages_update _ _ _ _ _ Hr). Qed.

Lemma count_turns_insert f m r agent st :
  m !! r = None → count_turns f (<[r := (agent, st)]> m) = count_turns f m + unit_of (f st).
Proof. intros Hr. exact (count_stages_insert _ _ _ _ Hr). Qed.

Record metrics_ok (w : TurnWorld) : Prop := {
  mo_admitted : admitted_total (admission w) = count_turns was_admitted (turns w);
  mo_classes : admitted_realtime_total (admission w) + admitted_normal_total (admission w)
    + admitted_background_total (admission w) + admitted_deadline_total (admission w)
    = admitted_total (admission w);
  mo_nonneg : 0 <= admitted_realtime_total (admission w) ∧ 0 <= admitted_normal_total (admission w)
    ∧ 0 <= admitted_background_total (admission w) ∧ 0 <= admitted_deadline_total (admission w);
  mo_cancelled : cancelled_total (admission w) = count_turns is_cancelled (turns w) }.

(** A request that changes neither counter nor counted stage. *)
Lemma metrics_same w r agent st st' a s :
  metrics_ok w → turns w !! r = Some (agent, st) →
  was_admitted st' = was_admitted st → is_cancelled st' = is_cancelled st →
  (∃ x, a = set_state x (admission w)) →
  metrics_ok (mkTurnWorld a s (<[r := (agent, st')]> (turns w))).
Proof.
  intros [H1 H2 H3 H4] Hr Ha Hc [x ->]. split; cbn; rewrite ?(count_turns_update _ _ _ _ _ _ Hr), ?Ha, ?Hc; try done; lia.
Qed.

Lemma count_admission_metrics w r agent st now x y s :
  metrics_ok w → turns w !! r = Some (agent, st) → was_admitted st = false → is_cancelled st = false →
  Z.of_nat (size (turns w)) < u64_max →
  metrics_ok (mkTurnWorld (count_admission x y (set_state s (admission w))) (cfs w)
    (<[r := (agent, TRunning now)]> (turns w))).
Proof.
  intros [H1 H2 H3 H4] Hr Ha Hc Hs. pose proof (count_stages_bound (λ e, was_admitted e.2) (turns w)).
  split; cbn; rewrite ?(count_turns_update _ _ _ _ _ _ Hr), ?Ha, ?Hc; cbn;
    rewrite ?(wrap64_small (admitted_total _ + 1)) by lia; [lia| | |lia];
    destruct (tw_class x); rewrite ?wrap64_small by lia; lia.
Qed.

Lemma drop_registration_metrics w r agent st seq :
  pool_ok (turn_abs w) → metrics_ok w → turns w !! r = Some (agent, st) →
  stage_abs st = Some (Waits seq) → Z.of_nat (size (turns w)) < u64_max →
  metrics_ok (mkTurnWorld (drop_registration seq (admission w)) (cfs w)
    (<[r := (agent, TCancelled)]> (turns w))).
Proof.
  intros Hok [H1 H2 H3 H4] Hr Hst Hs. pose proof (count_stages_bound (λ e, is_cancelled e.2) (turns w)).
  destruct (ticket_position (turn_abs w) r seq Hok) as (i & _ & Hi).
  { unfold turn_abs. cbn. by rewrite (abs_lookup _ _ _ _ Hr). }
  unfold turn_abs in Hi. cbn in Hi.
  assert (was_admitted st = false ∧ is_cancelled st = false) as [Ha Hc] by (by destruct st).
  unfold drop_registration. case_bool_decide as Hlen.
  - exfalso. rewrite <- (length_fmap tw_seq), <- (length_fmap tw_seq (waiters _)), (retain_fmap tw_seq (λ t, negb (t =? seq))) in Hlen.
    revert Hlen. apply retain_shrinks. by eapply list_elem_of_lookup_2.
  - split; cbn; rewrite ?(count_turns_update _ _ _ _ _ _ Hr), ?Ha, ?Hc; cbn; rewrite ?wrap64_small by lia;
      (done || lia).
Qed.

(** No request is refused as cancelled: the waiter that commits is still registered. *)
Definition refusals_ok (w : TurnWorld) : Prop :=
  map_Forall (λ _ e, match e.2 with TRefused (AdmissionCancelled _) => False | _ => True end) (turns w).

Lemma turn_step_inv w r agent st clock :
  pool_ok (turn_abs w) → metrics_ok w → refusals_ok w → Z.of_nat (size (turns w)) < u64_max →
  turns w !! r = Some (agent, st) →
  metrics_ok (exec_turn w (TvStep r clock)) ∧ refusals_ok (exec_turn w (TvStep r clock)).
Proof.
  intros Hok Hm Hf Hs Hr. cbn [exec_turn]. rewrite Hr.
  assert (∀ a x st', (match st' with TRefused (AdmissionCancelled _) => False | _ => True end) →
    refusals_ok (mkTurnWorld a x (<[r := (agent, st')]> (turns w)))) as Hins
    by (intros a x st' Hst'; by apply map_Forall_insert_2).
  assert (∀ st', was_admitted st' = was_admitted st → is_cancelled st' = is_cancelled st →
    metrics_ok (mkTurnWorld (admission w) (cfs w) (<[r := (agent, st')]> (turns w)))) as Hsame.
  { intros st' H1 H2. eapply metrics_same; [done..|]. exists (state (admission w)). by destruct (admission w). }
  assert (match st with TRefused (AdmissionCancelled _) => False | _ => True end) as Hst by exact (Hf _ _ Hr).
  destruct st as [|class|seq|seq ws|seq|t|e| |]; cbn [turn_step]; try (split; [by apply Hsame|by apply Hins]).
  - unfold register_waiter. destruct (_ <=? _); split; [by apply Hsame|by apply Hins| |by apply Hins].
    eapply metrics_same; [done..|]. by eexists.
  - destruct (look _); (split; [by apply Hsame|by apply Hins]).
  - case_bool_decide; (split; [by apply Hsame|by apply Hins]).
  - destruct (Z.ltb_spec (running (state (admission w))) (max_concurrent (state (admission w)))) as [Hlt|Hge].
    + destruct (commit_granted w r agent seq (clock 0%nat) Hok Hr Hlt) as (i & x & a & -> & _ & _ & ->).
      split; [by eapply count_admission_metrics|by apply Hins].
    + unfold commit. rewrite (proj2 (Z.ltb_ge _ _) Hge). split; [by apply Hsame|by apply Hins].
Qed.

Lemma exec_turn_inv w e :
  pool_ok (turn_abs w) → metrics_ok w → refusals_ok w → Z.of_nat (size (turns w)) < u64_max →
  metrics_ok (exec_turn w e) ∧ refusals_ok (exec_turn w e) ∧ (size (turns (exec_turn w e)) <= S (size (turns w)))%nat.
Proof.
  intros Hok Hm Hf Hs. destruct e as [o|r agent|r clock|r|r now|].
  - cbn [exec_turn]. destruct (exec_cfs (cfs w) o); [|split_and!; (done || lia)].
    split_and!; [by destruct Hm; split|done|cbn; lia].
  - cbn [exec_turn]. destruct (turns w !! r) eqn:Hr; [split_and!; (done || lia)|].
    split_and!; [|by apply map_Forall_insert_2|cbn; by rewrite map_size_insert_None].
    destruct Hm as [H1 H2 H3 H4]. split; cbn; rewrite ?count_turns_insert by done; cbn; (done || lia).
  - destruct (turns w !! r) as [[agent st]|] eqn:Hr.
    + destruct (turn_step_inv w r agent st clock Hok Hm Hf Hs Hr) as [H1 H2]. split_and!; [done..|].
      cbn [exec_turn]. rewrite Hr. destruct (turn_step _ _ _ _ _). cbn. rewrite map_size_insert_Some by eauto. lia.
    + cbn [exec_turn]. rewrite Hr. split_and!; (done || lia).
  - cbn [exec_turn]. destruct (turns w !! r) as [[agent st]|] eqn:Hr; [|split_and!; (done || lia)].
    destruct st as [| |seq|seq ws| | | | |]; try (split_and!; (done || lia));
      (split_and!; [by eapply drop_registration_metrics|by apply map_Forall_insert_2|]);
      cbn; rewrite map_size_insert_Some by eauto; lia.
  - cbn [exec_turn]. destruct (turns w !! r) as [[agent [| | | | |t| | |]]|] eqn:Hr; try (split_and!; (done || lia)).
    split_and!; [|by apply map_Forall_insert_2|cbn; rewrite map_size_insert_Some by eauto; lia].
    destruct Hm as [H1 H2 H3 H4].
    split; cbn; rewrite ?(count_turns_update _ _ _ _ _ _ Hr); cbn; (done || lia).
  - cbn [exec_turn]. split_and!; [by destruct Hm; split|done|cbn; lia].
Qed.

(** ** Reachable worlds *)

Definition turn_world_new (max_conc max_wait threshold slice : Z) : TurnWorld :=
  mkTurnWorld (with_threshold max_conc max_wait threshold) (cfs_new slice) ∅.

Lemma turn_world_inv max_conc max_wait threshold slice es :
  Z.of_nat (length es) <= u64_max →
  let w := foldl exec_turn (turn_world_new max_conc max_wait threshold slice) es in
  pool_ok (turn_abs w) ∧ metrics_ok w ∧ refusals_ok w ∧ (size (turns w) <= length es)%nat ∧
  max_concurrent (state (admission w)) = Z.max max_conc 1 ∧ max_waiters (state (admission w)) = Z.max max_wait 1.
Proof.
  intros Hlen. cbv zeta. set (w0 := turn_world_new _ _ _ _).
  assert (pool_ok (turn_abs w0)) as Hok0.
  { unfold turn_abs, w0. cbn. rewrite omap_empty. apply pool_init_ok; lia. }
  induction es as [|e es IH] using rev_ind.
  { cbn. split_and!; try done. }
  rewrite length_app in *. cbn [length] in *. destruct (IH ltac:(lia)) as (H1 & H2 & H3 & H4 & H5 & H6).
  rewrite foldl_app. cbn [foldl]. set (w := foldl _ _ _) in *.
  destruct (exec_turn_inv w e H1 H2 H3 ltac:(lia)) as (G1 & G2 & G3).
  destruct (@impl_reaches _ _ turn_pool w0 (es ++ [e]) Hok0) as [Hr Hok]; [rewrite length_app; cbn in *; lia|].
  destruct (preach_ok _ _ _ Hr Hok0) as (_ & _ & C1 & C2); [rewrite length_app; cbn in *; lia|].
  rewrite foldl_app in *. split_and!; [exact Hok|done|done|lia|exact C1|exact C2].
Qed.

Lemma abs_counts (m : gmap Z (AgentId * TurnStage)) :
  let rs := omap (λ e, stage_abs e.2) m in
  holders rs = count_turns is_running m ∧ Z.of_nat (length (tickets rs)) = count_turns is_waiting m.
Proof.
  cbv zeta. induction m as [|r [agent st] m Hr IH] using map_ind; [done|].
  rewrite abs_insert, !count_turns_insert by done. destruct IH as [IH1 IH2].
  assert (omap (λ e, stage_abs e.2) m !! r = None) as Hn by (by rewrite lookup_omap, Hr).
  destruct (stage_abs st) as [x|] eqn:Hst.
  - unfold holders in *. rewrite count_stages_insert, IH1, (Permutation_length (tickets_insert _ _ x Hn)), length_app by done.
    destruct st; cbn in Hst; simplify_eq; cbn; lia.
  - rewrite delete_id by done. destruct st; cbn in Hst; simplify_eq; cbn; lia.
Qed.


(** ** Progress *)

Lemma overdue_elem th clock i ws w :
  w ∈ overdue th clock i ws → w ∈ ws ∧ ∃ j, th <= sat_sub (clock j) (tw_enqueued_at w).
Proof.
  revert i. induction ws as [|x ws IH]; intros i; cbn; [set_solver|].
  destruct (Z.leb_spec th (sat_sub (clock i) (tw_enqueued_at x))) as [Hle|_].
  - intros [->|Hw]%elem_of_cons; [split; [by left|by exists i]|]. apply IH in Hw as [Hw Hj]. split; [by right|done].
  - intros [Hw Hj]%IH. split; [by right|done].
Qed.

(** Whenever somebody waits, somebody waiting is preferred. *)
Lemma preferred_waits th clock s ws :
  ws ≠ [] → ∃ t, preferred_seq th clock s ws = Some t ∧ t ∈ tw_seq <$> ws.
Proof.
  intros Hne. unfold preferred_seq, overdue_seq.
  destruct (zmin_list (tw_seq <$> overdue th clock 0 ws)) as [t|] eqn:Ho.
  { exists t. split; [done|]. apply zmin_list_spec in Ho as [Ht _].
    apply list_elem_of_fmap in Ht as (w & -> & Hw). apply list_elem_of_fmap_2.
    by apply overdue_elem in Hw as [Hw _]. }
  match goal with |- context [match ?x with Some _ => _ | None => _ end] => destruct x as [t|] eqn:Hc end.
  - exists t. split; [done|]. destruct (pick_among s (tw_agent_id <$> ws)) as [chosen|]; [|done]. cbn in Hc.
    apply zmin_list_spec in Hc as [Ht _]. apply list_elem_of_fmap in Ht as (w & -> & Hw).
    apply list_elem_of_fmap_2. by apply elem_of_retain in Hw as [Hw _].
  - destruct (zmin_list_is_Some (tw_seq <$> ws)) as [t Ht]; [by destruct ws|]. exists t. split; [done|].
    by apply zmin_list_spec in Ht as [Ht _].
Qed.

(** The steps of a chosen and of a waiting request, alone. *)
Lemma chosen_runs w r agent t clock :
  pool_ok (turn_abs w) → is_Some (look (admission w)) → turns w !! r = Some (agent, TChosen t) →
  turns (exec_turn w (TvStep r clock)) !! r = Some (agent, TRunning (clock 1%nat)).
Proof.
  intros Hok [ws Hl] Hr. cbn [exec_turn]. rewrite Hr. cbn [turn_step]. unfold look in Hl.
  destruct (Z.ltb_spec (running (state (admission w))) (max_concurrent (state (admission w)))) as [Hlt|]; [|done].
  destruct (commit_granted w r agent t (clock 0%nat) Hok Hr Hlt) as (i & x & a & -> & _). cbn.
  by rewrite lookup_insert_eq.
Qed.

(** A step of a request that only changes its stage. *)
Lemma step_stage w r agent st st' clock :
  turns w !! r = Some (agent, st) → turn_step agent st clock (cfs w) (admission w) = (st', admission w) →
  stage_abs st' = stage_abs st →
  let w' := exec_turn w (TvStep r clock) in
  turns w' !! r = Some (agent, st') ∧ admission w' = admission w ∧ cfs w' = cfs w ∧ turn_abs w' = turn_abs w.
Proof.
  intros Hr Hs Ha. cbn [exec_turn]. rewrite Hr, Hs. cbn. rewrite lookup_insert_eq. split_and!; try done.
  by eapply abs_same.
Qed.

Lemma waiting_runs w r agent t ws clock :
  pool_ok (turn_abs w) → look (admission w) = Some ws →
  preferred_seq (starvation_threshold (admission w)) clock (cfs w) ws = Some t →
  turns w !! r = Some (agent, TWaiting t) →
  turns (foldl exec_turn w (replicate 3 (TvStep r clock))) !! r = Some (agent, TRunning (clock 1%nat)).
Proof.
  intros Hok Hl Hp Hr. cbn [replicate foldl].
  destruct (step_stage w r agent _ (TLooking t ws) clock Hr) as (Hr1 & Ha1 & Hc1 & Hw1);
    [cbn; by rewrite Hl|done|]. set (w1 := exec_turn w _) in *.
  destruct (step_stage w1 r agent _ (TChosen t) clock Hr1) as (Hr2 & Ha2 & Hc2 & Hw2);
    [cbn [turn_step]; rewrite Ha1, Hc1; by rewrite bool_decide_eq_true_2|done|]. set (w2 := exec_turn w1 _) in *.
  eapply chosen_runs; [by rewrite Hw2, Hw1|rewrite Ha2, Ha1, Hl; by eexists|exact Hr2].
Qed.

Lemma looking_runs w r agent t ws snapshot clock :
  pool_ok (turn_abs w) → look (admission w) = Some ws →
  preferred_seq (starvation_threshold (admission w)) clock (cfs w) ws = Some t →
  turns w !! r = Some (agent, TLooking t snapshot) →
  ∃ n, (n <= 4)%nat ∧
    turns (foldl exec_turn w (replicate n (TvStep r clock))) !! r = Some (agent, TRunning (clock 1%nat)).
Proof.
  intros Hok Hl Hp Hr.
  set (st := if bool_decide (preferred_seq (starvation_threshold (admission w)) clock (cfs w) snapshot = Some t)
             then TChosen t else TWaiting t).
  destruct (step_stage w r agent _ st clock Hr) as (Hr1 & Ha1 & Hc1 & Hw1);
    [done|by unfold st; case_bool_decide|]. subst st.
  case_bool_decide.
  - exists 2%nat. split; [lia|]. cbn [replicate foldl].
    eapply chosen_runs; [by rewrite Hw1|rewrite Ha1, Hl; by eexists|exact Hr1].
  - exists 4%nat. split; [lia|]. cbn [replicate foldl].
    apply (waiting_runs _ r agent t ws clock); [by rewrite Hw1|by rewrite Ha1|by rewrite Ha1, Hc1|exact Hr1].
Qed.


(** ** A concrete history *)

(** Three requests for one slot; the first is admitted and finishes, the third is cancelled. *)
Definition turn_clock (t : Z) : nat → Z := λ i, t + Z.of_nat i.

Definition turn_example : list TurnEvent :=
  [TvCfs (CEnqueue 1 0 Normal); TvCfs (CEnqueue 2 5 Background);
   TvBegin 1 1; TvBegin 2 2; TvBegin 3 3;
   TvStep 1 (turn_clock 0); TvStep 2 (turn_clock 0); TvStep 3 (turn_clock 0);
   TvStep 1 (turn_clock 1); TvStep 2 (turn_clock 2); TvStep 3 (turn_clock 3);
   TvStep 1 (turn_clock 4); TvStep 1 (turn_clock 5); TvStep 1 (turn_clock 6);
   TvStep 2 (turn_clock 7); TvCancel 3; TvRelease 1 50].


