(* ===== verification/LlmSched.v ===== *)
(** * The LLM request scheduler

    Models [crates/kernel/src/llm_sched.rs]: a pool of cores granted by aged priority, then by
    arrival.  [acquire_inner] is split at its locks: registering, choosing under the lock, and
    committing under the lock again.  Instants and durations are nanoseconds; [preferred] reads the
    clock twice per comparison, in the order [clock 0], [clock 1], ...  It is shown to refine the
    pool specification, never to exceed its bounds, and to age waiters into preference. *)

From S2P Require Import Prelude AgentStruct Pool.
#[local] Open Scope Z_scope.

(** ** State *)

Definition DEFAULT_LLM_CORES : Z := 4.

Record Waiter := mkWaiter { w_nice : Z; w_seq : Z; w_enqueued_at : Z }.

Record SchedInner := mkSchedInner {
  in_flight : Z;
  cores : Z;
  s_max_waiters : Z;
  s_waiters : list Waiter;
  s_next_seq : Z }.

Record LlmScheduler := mkLlm {
  inner : SchedInner;
  l_admitted_total : Z;
  l_cancelled_total : Z;
  l_wait_ns_total : Z;
  l_run_ns_total : Z }.

Definition llm_with_queue_limit (n max_wait : Z) : LlmScheduler :=
  mkLlm (mkSchedInner 0 (Z.max n 1) (Z.max max_wait 1) [] 0) 0 0 0 0.

Definition llm_new (n : Z) : LlmScheduler :=
  let n := Z.max n 1 in
  llm_with_queue_limit n (Z.max (sat_mul_usize n 64) 64).

Definition available (s : LlmScheduler) : Z := sat_sub (cores (inner s)) (in_flight (inner s)).
Definition llm_waiting (s : LlmScheduler) : Z := Z.of_nat (length (s_waiters (inner s))).

Definition set_inner (i : SchedInner) (s : LlmScheduler) : LlmScheduler :=
  mkLlm i (l_admitted_total s) (l_cancelled_total s) (l_wait_ns_total s) (l_run_ns_total s).

(** ** Priority with aging *)

Definition effective (now : Z) (w : Waiter) : Z :=
  let secs := sat_sub now (w_enqueued_at w) / 1000000000 in
  Z.max (sat_sub_i8 (w_nice w) (Z.min secs 39)) (-20).

(** [min_by]: the later element replaces the best so far only if it is strictly smaller. *)
Fixpoint min_by_from (clock : nat → Z) (i : nat) (best : Waiter) (ws : list Waiter) : Waiter :=
  match ws with
  | [] => best
  | y :: ws' =>
      let ea := effective (clock i) best in
      let eb := effective (clock (S i)) y in
      let greater := (eb <? ea) || ((ea =? eb) && (w_seq y <? w_seq best)) in
      min_by_from clock (S (S i)) (if greater then y else best) ws'
  end.

Definition preferred (clock : nat → Z) (ws : list Waiter) : option Waiter :=
  match ws with [] => None | x :: ws' => Some (min_by_from clock 0 x ws') end.

(** ** The parts of [acquire_inner] *)

Definition llm_register (nice now : Z) (s : LlmScheduler) : result Z Z * LlmScheduler :=
  let st := inner s in
  if s_max_waiters st <=? Z.of_nat (length (s_waiters st)) then (Err (s_max_waiters st), s)
  else
    let seq := s_next_seq st in
    (Ok seq,
     set_inner (mkSchedInner (in_flight st) (cores st) (s_max_waiters st)
                  (s_waiters st ++ [mkWaiter nice seq now]) (wrap64 (s_next_seq st + 1))) s).

(** The first lock: the preferred waiter if a core is free. *)
Definition choose (clock : nat → Z) (s : LlmScheduler) : option Waiter :=
  if in_flight (inner s) <? cores (inner s) then preferred clock (s_waiters (inner s)) else None.

(** The second lock, entered by the preferred waiter; [None]: not granted.  The [expect] on the
    position is the [None] of the inner match, excluded by [still_registered]. *)
Definition llm_commit (seq now : Z) (s : LlmScheduler) : option LlmScheduler :=
  let st := inner s in
  let still_registered := existsb (λ w, w_seq w =? seq) (s_waiters st) in
  if (in_flight st <? cores st) && still_registered then
    i ← position (λ w, w_seq w =? seq) (s_waiters st);
    w ← s_waiters st !! i;
    Some (mkLlm (mkSchedInner (in_flight st + 1) (cores st) (s_max_waiters st) (remove_at i (s_waiters st))
                   (s_next_seq st))
            (wrap64 (l_admitted_total s + 1)) (l_cancelled_total s)
            (wrap64 (l_wait_ns_total s + Z.min (sat_sub now (w_enqueued_at w)) u64_max)) (l_run_ns_total s))
  else None.

(** [Drop for LlmWaitRegistration], not admitted. *)
Definition llm_drop_registration (seq : Z) (s : LlmScheduler) : LlmScheduler :=
  let st := inner s in
  let kept := retain (λ w, negb (w_seq w =? seq)) (s_waiters st) in
  let i := mkSchedInner (in_flight st) (cores st) (s_max_waiters st) kept (s_next_seq st) in
  mkLlm i (l_admitted_total s)
    (if bool_decide (length kept = length (s_waiters st)) then l_cancelled_total s
     else wrap64 (l_cancelled_total s + 1))
    (l_wait_ns_total s) (l_run_ns_total s).

(** [Drop for LlmCoreSlot]. *)
Definition llm_drop_slot (started_at now : Z) (s : LlmScheduler) : LlmScheduler :=
  let st := inner s in
  mkLlm (mkSchedInner (sat_sub (in_flight st) 1) (cores st) (s_max_waiters st) (s_waiters st) (s_next_seq st))
    (l_admitted_total s) (l_cancelled_total s) (l_wait_ns_total s)
    (wrap64 (l_run_ns_total s + Z.min (sat_sub now started_at) u64_max)).

(** ** Interleaved requests *)

(** A request of [acquire] ([cancellable] false) that is refused panics in its [expect]. *)
Inductive LlmStage :=
| LStart (nice : Z) (cancellable : bool)
| LWaiting (seq : Z)
| LChosen (seq : Z)
| LRunning (started_at : Z)
| LRefused (capacity : Z)
| LPanicked
| LCancelled
| LFinished.

Record LlmWorld := mkLlmWorld { sched : LlmScheduler; reqs : gmap Z LlmStage }.

Inductive LlmEvent :=
| LvBegin (r nice : Z) (cancellable : bool)
| LvStep (r : Z) (clock : nat → Z)
| LvCancel (r : Z)
| LvRelease (r now : Z).

Definition llm_step (st : LlmStage) (clock : nat → Z) (s : LlmScheduler) : LlmStage * LlmScheduler :=
  match st with
  | LStart nice cancellable =>
      match llm_register nice (clock 0%nat) s with
      | (Ok seq, s') => (LWaiting seq, s')
      | (Err capacity, s') => (if cancellable then LRefused capacity else LPanicked, s')
      end
  | LWaiting seq =>
      (match choose clock s with
       | Some w => if w_seq w =? seq then LChosen seq else LWaiting seq
       | None => LWaiting seq
       end, s)
  | LChosen seq =>
      match llm_commit seq (clock 0%nat) s with
      | Some s' => (LRunning (clock 1%nat), s')
      | None => (LWaiting seq, s)
      end
  | LRunning _ | LRefused _ | LPanicked | LCancelled | LFinished => (st, s)
  end.

Definition exec_llm (w : LlmWorld) (e : LlmEvent) : LlmWorld :=
  match e with
  | LvBegin r nice cancellable =>
      match reqs w !! r with
      | None => mkLlmWorld (sched w) (<[r := LStart nice cancellable]> (reqs w))
      | Some _ => w
      end
  | LvStep r clock =>
      match reqs w !! r with
      | None => w
      | Some st => let (st', s) := llm_step st clock (sched w) in mkLlmWorld s (<[r := st']> (reqs w))
      end
  | LvCancel r =>
      match reqs w !! r with
      | Some (LWaiting seq) => mkLlmWorld (llm_drop_registration seq (sched w)) (<[r := LCancelled]> (reqs w))
      | _ => w
      end
  | LvRelease r now =>
      match reqs w !! r with
      | Some (LRunning started_at) =>
          mkLlmWorld (llm_drop_slot started_at now (sched w)) (<[r := LFinished]> (reqs w))
      | _ => w
      end
  end.

(** ** Refinement of the pool specification *)

Definition llm_stage_abs (st : LlmStage) : option Stage :=
  match st with
  | LStart _ _ => None
  | LWaiting seq | LChosen seq => Some (Waits seq)
  | LRunning _ => Some Holds
  | LRefused _ | LPanicked | LCancelled | LFinished => Some Gone
  end.

Definition llm_abs (w : LlmWorld) : PoolWorld :=
  let st := inner (sched w) in
  mkPW (mkPool (in_flight st) (cores st) (s_max_waiters st) (s_next_seq st) (w_seq <$> s_waiters st))
    (omap llm_stage_abs (reqs w)).

Lemma llm_abs_insert (m : gmap Z LlmStage) r st :
  omap llm_stage_abs (<[r := st]> m)
  = match llm_stage_abs st with
    | Some s => <[r := s]> (omap llm_stage_abs m)
    | None => delete r (omap llm_stage_abs m)
    end.
Proof. rewrite omap_insert. by destruct (llm_stage_abs st). Qed.

Lemma llm_abs_lookup (m : gmap Z LlmStage) r st :
  m !! r = Some st → omap llm_stage_abs m !! r = llm_stage_abs st.
Proof. intros Hm. by rewrite lookup_omap, Hm. Qed.

Lemma llm_abs_same w r st st' :
  reqs w !! r = Some st → llm_stage_abs st' = llm_stage_abs st →
  llm_abs (mkLlmWorld (sched w) (<[r := st']> (reqs w))) = llm_abs w.
Proof.
  intros Hr Hst. unfold llm_abs. cbn. rewrite llm_abs_insert, Hst. f_equal.
  pose proof (llm_abs_lookup _ _ _ Hr) as Hl.
  destruct (llm_stage_abs st) as [x|]; [by apply insert_id|by apply delete_id].
Qed.

(** A waiter that commits with a core free is granted it. *)
Lemma llm_commit_granted w r seq now :
  pool_ok (llm_abs w) → omap llm_stage_abs (reqs w) !! r = Some (Waits seq) →
  in_flight (inner (sched w)) < cores (inner (sched w)) →
  ∃ i x s, llm_commit seq now (sched w) = Some s ∧ s_waiters (inner (sched w)) !! i = Some x ∧ w_seq x = seq ∧
    inner s = mkSchedInner (in_flight (inner (sched w)) + 1) (cores (inner (sched w)))
                (s_max_waiters (inner (sched w))) (remove_at i (s_waiters (inner (sched w))))
                (s_next_seq (inner (sched w))) ∧
    l_admitted_total s = wrap64 (l_admitted_total (sched w) + 1) ∧
    l_cancelled_total s = l_cancelled_total (sched w).
Proof.
  intros Hok Hr Hc. destruct (ticket_position (llm_abs w) r seq Hok Hr) as (i & Hi & Hl).
  unfold llm_abs in Hi, Hl. cbn in Hi, Hl. rewrite position_fmap in Hi. rewrite list_lookup_fmap in Hl.
  destruct (s_waiters (inner (sched w)) !! i) as [x|] eqn:Hx; [|done]. cbn in Hl. injection Hl as Hl.
  assert (existsb (λ w, w_seq w =? seq) (s_waiters (inner (sched w))) = true) as He.
  { apply existsb_exists. exists x. split; [|by apply Z.eqb_eq].
    apply list_elem_of_In. by eapply list_elem_of_lookup_2. }
  unfold llm_commit. rewrite (proj2 (Z.ltb_lt _ _) Hc), He, Hi. cbn. rewrite Hx. cbn.
  exists i, x. eexists. by split_and!.
Qed.

Lemma llm_step_refines w r st clock :
  pool_ok (llm_abs w) → reqs w !! r = Some st →
  let w' := exec_llm w (LvStep r clock) in
  llm_abs w' = llm_abs w ∨ pstep (llm_abs w) (llm_abs w').
Proof.
  intros Hok Hr. cbn [exec_llm]. rewrite Hr. cbv zeta. pose proof (llm_abs_lookup _ _ _ Hr) as Hl.
  destruct st as [nice canc|seq|seq|t|c| | |]; cbn [llm_step];
    try (left; eapply llm_abs_same; [exact Hr|reflexivity]).
  - unfold llm_register. cbn in Hl.
    destruct (Z.leb_spec (s_max_waiters (inner (sched w))) (Z.of_nat (length (s_waiters (inner (sched w))))))
      as [Hfull|Hroom]; right; unfold llm_abs at 2; cbn; rewrite llm_abs_insert.
    + destruct canc; (apply ps_refuse; [done|]; cbn; by rewrite length_fmap).
    + cbn. rewrite fmap_app. cbn. apply (ps_register (mkPool _ _ _ _ _)); [done|]. cbn. by rewrite length_fmap.
  - left. destruct (choose clock (sched w)) as [x|]; [destruct (w_seq x =? seq)|]; by eapply llm_abs_same.
  - destruct (Z.ltb_spec (in_flight (inner (sched w))) (cores (inner (sched w)))) as [Hlt|Hge].
    + destruct (llm_commit_granted w r seq (clock 0%nat) Hok Hl Hlt) as (i & x & s & -> & Hi & Hx & Hs & _).
      right. unfold llm_abs at 2. cbn. rewrite Hs, llm_abs_insert. cbn. rewrite remove_at_fmap.
      apply (ps_admit (mkPool _ _ _ _ _) _ r seq); [done|done|]. cbn. by rewrite list_lookup_fmap, Hi, <- Hx.
    + left. unfold llm_commit. rewrite (proj2 (Z.ltb_ge _ _) Hge). by eapply llm_abs_same.
Qed.

#[global] Program Instance llm_pool : PoolImpl LlmWorld LlmEvent :=
  { pool_abs := llm_abs; pool_exec := exec_llm }.
Next Obligation.
  intros w e Hok. destruct e as [r nice canc|r clock|r|r now].
  - cbn [exec_llm]. left. destruct (reqs w !! r) eqn:Hr; [done|]. unfold llm_abs. cbn.
    rewrite llm_abs_insert. cbn. f_equal. apply delete_id. by rewrite lookup_omap, Hr.
  - destruct (reqs w !! r) as [st|] eqn:Hr; [by eapply llm_step_refines|]. left. cbn [exec_llm]. by rewrite Hr.
  - cbn [exec_llm]. destruct (reqs w !! r) as [[|seq|seq|t|c| | |]|] eqn:Hr; try (by left).
    right. unfold llm_abs at 2. cbn. rewrite llm_abs_insert. cbn.
    rewrite (retain_fmap w_seq (λ t, negb (t =? seq))).
    apply (ps_cancel (mkPool _ _ _ _ _) _ r seq). by rewrite (llm_abs_lookup _ _ _ Hr).
  - cbn [exec_llm]. destruct (reqs w !! r) as [[|seq|seq|t|c| | |]|] eqn:Hr; try (by left).
    right. unfold llm_abs at 2. cbn. rewrite llm_abs_insert. cbn. apply ps_release.
    by rewrite (llm_abs_lookup _ _ _ Hr).
Qed.

(** ** Metrics *)

Definition l_admitted (st : LlmStage) : bool := match st with LRunning _ | LFinished => true | _ => false end.
Definition l_running (st : LlmStage) : bool := match st with LRunning _ => true | _ => false end.
Definition l_waiting (st : LlmStage) : bool := match st with LWaiting _ | LChosen _ => true | _ => false end.
Definition l_cancelled (st : LlmStage) : bool := match st with LCancelled => true | _ => false end.

Definition llm_metrics_ok (w : LlmWorld) : Prop :=
  l_admitted_total (sched w) = count_stages l_admitted (reqs w) ∧
  l_cancelled_total (sched w) = count_stages l_cancelled (reqs w).

(** A change of stage with the matching change of the counters. *)
Lemma llm_metrics_move w r st st' s :
  llm_metrics_ok w → reqs w !! r = Some st →
  l_admitted_total s = l_admitted_total (sched w) - unit_of (l_admitted st) + unit_of (l_admitted st') →
  l_cancelled_total s = l_cancelled_total (sched w) - unit_of (l_cancelled st) + unit_of (l_cancelled st') →
  llm_metrics_ok (mkLlmWorld s (<[r := st']> (reqs w))) ∧
  (size (<[r := st']> (reqs w)) <= S (size (reqs w)))%nat.
Proof.
  intros [H1 H2] Hr Ha Hc. split; [|rewrite map_size_insert_Some by eauto; lia].
  split; cbn; rewrite (count_stages_update _ _ _ _ _ Hr); lia.
Qed.

Lemma llm_step_metrics w r st clock :
  pool_ok (llm_abs w) → llm_metrics_ok w → Z.of_nat (size (reqs w)) < u64_max → reqs w !! r = Some st →
  llm_metrics_ok (exec_llm w (LvStep r clock)) ∧
  (size (reqs (exec_llm w (LvStep r clock))) <= S (size (reqs w)))%nat.
Proof.
  intros Hok Hm Hs Hr. cbn [exec_llm]. rewrite Hr. pose proof (llm_abs_lookup _ _ _ Hr) as Hl.
  destruct st as [nice canc|seq|seq|t|c| | |]; cbn [llm_step];
    try (apply (llm_metrics_move _ _ _ _ _ Hm Hr); cbn; lia).
  - unfold llm_register. destruct (_ <=? _); [destruct canc|]; apply (llm_metrics_move _ _ _ _ _ Hm Hr); cbn; lia.
  - destruct (choose clock (sched w)) as [x|]; [destruct (w_seq x =? seq)|];
      apply (llm_metrics_move _ _ _ _ _ Hm Hr); cbn; lia.
  - destruct (Z.ltb_spec (in_flight (inner (sched w))) (cores (inner (sched w)))) as [Hlt|Hge].
    + destruct (llm_commit_granted w r seq (clock 0%nat) Hok Hl Hlt) as (i & x & s & -> & _ & _ & _ & Ha & Hc).
      pose proof (count_stages_bound l_admitted (reqs w)). destruct Hm as [H1 H2].
      apply (llm_metrics_move _ _ _ _ _ (conj H1 H2) Hr); cbn; [|lia]. rewrite Ha, wrap64_small; lia.
    + unfold llm_commit. rewrite (proj2 (Z.ltb_ge _ _) Hge).
      apply (llm_metrics_move _ _ _ _ _ Hm Hr); cbn; lia.
Qed.

Lemma exec_llm_metrics w e :
  pool_ok (llm_abs w) → llm_metrics_ok w → Z.of_nat (size (reqs w)) < u64_max →
  llm_metrics_ok (exec_llm w e) ∧ (size (reqs (exec_llm w e)) <= S (size (reqs w)))%nat.
Proof.
  intros Hok Hm Hs. destruct e as [r nice canc|r clock|r|r now].
  - cbn [exec_llm]. destruct (reqs w !! r) eqn:Hr; [split; (done || lia)|].
    split; [|cbn; by rewrite map_size_insert_None]. destruct Hm as [H1 H2].
    split; cbn; rewrite count_stages_insert by done; cbn; lia.
  - destruct (reqs w !! r) as [st|] eqn:Hr; [by eapply llm_step_metrics|].
    cbn [exec_llm]. rewrite Hr. split; (done || lia).
  - cbn [exec_llm]. destruct (reqs w !! r) as [[|seq|seq|t|c| | |]|] eqn:Hr; try (split; (done || lia)).
    pose proof (count_stages_bound l_cancelled (reqs w)). destruct Hm as [H1 H2].
    apply (llm_metrics_move _ _ _ _ _ (conj H1 H2) Hr); cbn -[wrap64]; [lia|]. case_bool_decide as Hlen.
    + exfalso. rewrite <- (length_fmap w_seq), <- (length_fmap w_seq (s_waiters _)),
        (retain_fmap w_seq (λ t, negb (t =? seq))) in Hlen. revert Hlen. apply retain_shrinks.
      destruct (ticket_position (llm_abs w) r seq Hok) as (i & _ & Hi);
        [exact (llm_abs_lookup _ _ _ Hr)|]. by eapply list_elem_of_lookup_2.
    + rewrite wrap64_small; lia.
  - cbn [exec_llm]. destruct (reqs w !! r) as [[|seq|seq|t|c| | |]|] eqn:Hr; try (split; (done || lia)).
    apply (llm_metrics_move _ _ _ _ _ Hm Hr); cbn; lia.
Qed.

(** ** Reachable worlds *)

Definition llm_world_new (n max_wait : Z) : LlmWorld := mkLlmWorld (llm_with_queue_limit n max_wait) ∅.

Lemma llm_world_inv n max_wait es :
  Z.of_nat (length es) <= u64_max →
  let w := foldl exec_llm (llm_world_new n max_wait) es in
  pool_ok (llm_abs w) ∧ llm_metrics_ok w ∧ (size (reqs w) <= length es)%nat ∧
  cores (inner (sched w)) = Z.max n 1 ∧ s_max_waiters (inner (sched w)) = Z.max max_wait 1.
Proof.
  intros Hlen. cbv zeta. set (w0 := llm_world_new _ _).
  assert (pool_ok (llm_abs w0)) as Hok0.
  { unfold llm_abs, w0. cbn. rewrite omap_empty. apply pool_init_ok; lia. }
  induction es as [|e es IH] using rev_ind; [by cbn|].
  rewrite length_app in *. cbn [length] in *. destruct (IH ltac:(lia)) as (H1 & H2 & H3 & H4 & H5).
  rewrite foldl_app. cbn [foldl]. set (w := foldl _ _ _) in *.
  destruct (exec_llm_metrics w e H1 H2 ltac:(lia)) as (G1 & G2).
  destruct (@impl_reaches _ _ llm_pool w0 (es ++ [e]) Hok0) as [Hr Hok]; [rewrite length_app; cbn in *; lia|].
  destruct (preach_ok _ _ _ Hr Hok0) as (_ & _ & C1 & C2); [rewrite length_app; cbn in *; lia|].
  rewrite foldl_app in *. split_and!; [exact Hok|apply G1..|lia|exact C1|exact C2].
Qed.

Lemma llm_abs_counts (m : gmap Z LlmStage) :
  let rs := omap llm_stage_abs m in
  holders rs = count_stages l_running m ∧ Z.of_nat (length (tickets rs)) = count_stages l_waiting m.
Proof.
  cbv zeta. induction m as [|r st m Hr IH] using map_ind; [done|].
  rewrite llm_abs_insert, !count_stages_insert by done. destruct IH as [IH1 IH2].
  assert (omap llm_stage_abs m !! r = None) as Hn by (by rewrite lookup_omap, Hr).
  destruct (llm_stage_abs st) as [x|] eqn:Hst.
  - unfold holders in *. rewrite count_stages_insert, IH1, (Permutation_length (tickets_insert _ _ x Hn)), length_app by done.
    destruct st; cbn in Hst; simplify_eq; cbn; lia.
  - rewrite delete_id by done. destruct st; cbn in Hst; simplify_eq; cbn; lia.
Qed.

(** The core pool is bounded and its metrics reconcile: under any interleaving of requests,
    cancellations and releases, [in_flight] is the number of requests holding a core and never
    exceeds [cores]; [available] is the rest; the queue is the requests still waiting and never
    exceeds [max_waiters]; and the admitted and cancelled totals count exactly those requests. *)
Theorem llm_pool_accounting (n max_wait : Z) (es : list LlmEvent) :
  Z.of_nat (length es) <= u64_max →
  let w := foldl exec_llm (llm_world_new n max_wait) es in
  let s := sched w in
  in_flight (inner s) = count_stages l_running (reqs w) ∧ in_flight (inner s) <= Z.max n 1 ∧
  available s = Z.max n 1 - in_flight (inner s) ∧
  llm_waiting s = count_stages l_waiting (reqs w) ∧ llm_waiting s <= Z.max max_wait 1 ∧
  l_admitted_total s = count_stages l_admitted (reqs w) ∧
  l_cancelled_total s = count_stages l_cancelled (reqs w).
Proof.
  intros Hlen. pose proof (llm_world_inv n max_wait es Hlen) as H. cbv zeta in *.
  set (w := foldl _ _ _) in *. destruct H as ([P1 P2 P3 P4 _ _ _] & [M1 M2] & _ & Hc & Hq).
  destruct (llm_abs_counts (reqs w)) as [A1 A2]. cbn in P1, P2, P3, P4.
  apply Permutation_length in P3. rewrite length_fmap in *. unfold llm_waiting, available, sat_sub.
  split_and!; [lia..|done|done].
Qed.

(** ** Preference and aging *)

Definition monotone (clock : nat → Z) : Prop := ∀ i, clock i <= clock (S i).

Lemma monotone_le clock i j : monotone clock → (i <= j)%nat → clock i <= clock j.
Proof. intros Hm. induction 1 as [|j _ IH]; [lia|]. specialize (Hm j). lia. Qed.

Lemma effective_bound now w : -20 <= effective now w.
Proof. unfold effective. lia. Qed.

Lemma effective_antitone now now' w : now <= now' → effective now' w <= effective now w.
Proof.
  intros Hle. unfold effective, sat_sub_i8, sat_sub.
  assert (Z.max 0 (now - w_enqueued_at w) / 1000000000 <= Z.max 0 (now' - w_enqueued_at w) / 1000000000)
    by (apply Z.div_le_mono; lia). lia.
Qed.

(** After 39 seconds every valid priority is the highest. *)
Lemma effective_aged now w :
  -20 <= w_nice w <= 19 → 39 * 1000000000 <= now - w_enqueued_at w → effective now w = -20.
Proof.
  intros Hn Hw. unfold effective, sat_sub_i8, sat_sub.
  assert (39 <= Z.max 0 (now - w_enqueued_at w) / 1000000000) by (apply Z.div_le_lower_bound; lia). lia.
Qed.

Lemma min_by_elem clock i best ws : min_by_from clock i best ws ∈ best :: ws.
Proof.
  revert i best. induction ws as [|y ws IH]; intros i best; cbn; [by left|].
  match goal with |- min_by_from _ _ ?b _ ∈ _ => specialize (IH (S (S i)) b); destruct (_ || _) end;
    apply elem_of_cons in IH as [->|IH]; set_solver.
Qed.

(** Once the best is aged and no younger than [t], it stays so. *)
Lemma min_by_kept clock i best ws t :
  monotone clock → effective (clock i) best = -20 → w_seq best <= t →
  w_seq (min_by_from clock i best ws) <= t.
Proof.
  intros Hm. revert i best. induction ws as [|y ws IH]; intros i best He Ht; cbn; [done|].
  assert (∀ x j, (i <= j)%nat → effective (clock i) x = -20 → effective (clock j) x = -20) as Hstay.
  { intros x j Hj Hx. pose proof (effective_antitone _ _ x (monotone_le clock i j Hm Hj)).
    pose proof (effective_bound (clock j) x). lia. }
  rewrite He. pose proof (effective_bound (clock (S i)) y) as Hy.
  destruct (Z.ltb_spec (effective (clock (S i)) y) (-20)) as [|_]; [lia|]. cbn [orb].
  destruct (Z.eqb_spec (-20) (effective (clock (S i)) y)) as [Heq|_]; cbn [andb].
  - destruct (Z.ltb_spec (w_seq y) (w_seq best)) as [Hlt|_].
    + apply IH; [|lia]. pose proof (effective_antitone (clock (S i)) (clock (S (S i))) y (Hm _)).
      pose proof (effective_bound (clock (S (S i))) y). lia.
    + apply IH; [|done]. apply Hstay; [lia|done].
  - apply IH; [|done]. apply Hstay; [lia|done].
Qed.

Lemma min_by_aged clock i best ws y :
  monotone clock → y ∈ best :: ws → (∀ j, effective (clock j) y = -20) →
  w_seq (min_by_from clock i best ws) <= w_seq y.
Proof.
  intros Hm Hin Hy. revert i best Hin. induction ws as [|z ws IH]; intros i best Hin.
  { apply list_elem_of_singleton in Hin as ->. by apply min_by_kept. }
  apply elem_of_cons in Hin as [->|Hin]; [by apply min_by_kept|]. cbn [min_by_from].
  apply elem_of_cons in Hin as [->|Hin]; [|apply IH; by right].
  rewrite (Hy (S i)). pose proof (effective_bound (clock i) best) as Hb.
  destruct (Z.ltb_spec (-20) (effective (clock i) best)) as [_|Hle]; cbn [orb]; [by apply min_by_kept|].
  assert (effective (clock i) best = -20) as He by lia. rewrite He. cbn.
  destruct (Z.ltb_spec (w_seq z) (w_seq best)) as [_|Hge]; [by apply min_by_kept|].
  apply min_by_kept; [done| |done]. pose proof (effective_antitone _ _ best (monotone_le clock i (S (S i)) Hm ltac:(lia))).
  pose proof (effective_bound (clock (S (S i))) best). lia.
Qed.

(** With readings of one instant the choice is the least by aged priority, then arrival. *)
Lemma min_by_least now i best ws y :
  y ∈ best :: ws →
  let x := min_by_from (λ _, now) i best ws in
  effective now x < effective now y ∨ (effective now x = effective now y ∧ w_seq x <= w_seq y).
Proof.
  cbv zeta. revert i best y. induction ws as [|z ws IH]; intros i best y Hin; cbn [min_by_from].
  { apply list_elem_of_singleton in Hin as ->. lia. }
  set (b := if _ || _ then z else best).
  assert (∀ y', y' = best ∨ y' = z →
    effective now b < effective now y' ∨ (effective now b = effective now y' ∧ w_seq b <= w_seq y')) as Hb.
  { subst b. intros y' Hy'.
    destruct (Z.ltb_spec (effective now z) (effective now best)), (Z.eqb_spec (effective now best) (effective now z)),
      (Z.ltb_spec (w_seq z) (w_seq best)); cbn; destruct Hy' as [->| ->]; lia. }
  pose proof (IH (S (S i)) b b (list_elem_of_here _ _)) as Hx.
  rewrite !elem_of_cons in Hin. destruct Hin as [Hy|[Hy|Hy]].
  - specialize (Hb y (or_introl Hy)). lia.
  - specialize (Hb y (or_intror Hy)). lia.
  - apply IH. by right.
Qed.

(** A request whose ticket is chosen holds a core after at most two of its own steps. *)
Lemma chosen_gets_core w r seq clock x :
  pool_ok (llm_abs w) → choose clock (sched w) = Some x → w_seq x = seq →
  reqs w !! r = Some (LWaiting seq) ∨ reqs w !! r = Some (LChosen seq) →
  ∃ k, (k <= 2)%nat ∧ reqs (foldl exec_llm w (replicate k (LvStep r clock))) !! r = Some (LRunning (clock 1%nat)).
Proof.
  intros Hok Hc Hx Hr.
  assert (in_flight (inner (sched w)) < cores (inner (sched w))) as Hlt.
  { unfold choose in Hc. destruct (Z.ltb_spec (in_flight (inner (sched w))) (cores (inner (sched w)))); done. }
  assert (∀ w', sched w' = sched w → pool_ok (llm_abs w') → reqs w' !! r = Some (LChosen seq) →
    reqs (exec_llm w' (LvStep r clock)) !! r = Some (LRunning (clock 1%nat))) as Hrun.
  { intros w' Hs Hok' Hr'. cbn [exec_llm]. rewrite Hr'. cbn [llm_step].
    destruct (llm_commit_granted w' r seq (clock 0%nat) Hok') as (i & y & s & -> & _);
      [exact (llm_abs_lookup _ _ _ Hr')|by rewrite Hs|]. cbn. apply lookup_insert_eq. }
  destruct Hr as [Hr|Hr].
  - exists 2%nat. split; [lia|]. cbn [replicate foldl].
    assert (exec_llm w (LvStep r clock) = mkLlmWorld (sched w) (<[r := LChosen seq]> (reqs w))) as ->.
    { cbn [exec_llm]. rewrite Hr. cbn [llm_step]. by rewrite Hc, Hx, Z.eqb_refl. }
    apply Hrun; [done| |cbn; apply lookup_insert_eq]. by rewrite (llm_abs_same w r (LWaiting seq)).
  - exists 1%nat. split; [lia|]. by apply Hrun.
Qed.


(** ** A concrete history *)

(** One core: request 1 holds it and finishes; request 2 (nice 19) has waited 40 seconds when
    request 3 (nice -20) arrives. *)
Definition llm_example : list LlmEvent :=
  [LvBegin 1 0 true; LvBegin 2 19 true; LvStep 1 (λ _, 0); LvStep 1 (λ _, 1); LvStep 1 (λ _, 2);
   LvStep 2 (λ _, 3); LvBegin 3 (-20) true; LvStep 3 (λ _, 40000000000); LvRelease 1 40000000001].

Lemma llm_pool_accounting_witness :
  let s := sched (foldl exec_llm (llm_world_new 1 8) llm_example) in
  llm_waiting s <= 8 ∧ llm_waiting s = 2 ∧ l_admitted_total s = 1 ∧ available s = 1.
Proof.
  destruct (llm_pool_accounting 1 8 llm_example) as (_ & _ & _ & _ & H & _); [vm_compute; discriminate|].
  split; [exact H|]. vm_compute. repeat split; reflexivity.
Defined.


(** [acquire] panics instead of waiting when the queue is full. *)
Theorem acquire_panics_when_queue_full :
  let es := [LvBegin 1 0 true; LvBegin 2 0 false; LvStep 1 (λ _, 0); LvStep 2 (λ _, 0)] in
  reqs (foldl exec_llm (llm_world_new 1 1) es) !! 2 = Some LPanicked.
Proof. vm_compute. reflexivity. Qed.
