(* ===== verification/ContextPaging.v ===== *)
(** * Context pressure: active-prompt admission and the page model

    Models [crates/kernel/src/context_paging.rs].  An error text is represented by the values it is
    formatted from.  The wall clock is an argument of the operations that read it, and the static
    [NEXT_PAGE_ID] an argument and a result of [add_page].  Lock poisoning is not modelled. *)

From S2P Require Import Prelude.
#[local] Open Scope Z_scope.

(** Agent identifiers are UUIDs, here their 128-bit values. *)
Abbreviation AgentId := Z (only parsing).

(** ** Active-prompt admission *)

Record ActiveContextLimits := mkLimits {
  per_agent_tokens : Z;
  per_tenant_tokens : Z;
  global_tokens : Z }.

Record ActiveContextUsage := mkUsage {
  u_agent_tokens : Z;
  u_tenant_tokens : Z;
  u_global_tokens : Z;
  u_per_agent_limit : Z;
  u_per_tenant_limit : Z;
  u_global_limit : Z;
  u_rejection_count : Z }.

Record ActiveContextState := mkActive {
  ac_agents : gmap AgentId Z;
  ac_tenants : gmap string Z;
  ac_global : Z;
  ac_rejections : gmap AgentId Z }.

Definition active_default : ActiveContextState := mkActive ∅ ∅ 0 ∅.

(** The scope that refused, with the identity the message names. *)
Inductive PressureScope := ScopeAgent (id : AgentId) | ScopeTenant (id : string) | ScopeKernel.

Record ContextPressure := mkPressure {
  cp_scope : PressureScope;
  cp_would_use : Z;
  cp_limit : Z }.

(** The guard of an admitted prompt. *)
Record ActiveContextAdmission := mkAdmission {
  adm_agent : AgentId;
  adm_tenant : string;
  adm_tokens : Z }.

Definition used_by {K} `{Countable K} (m : gmap K Z) (k : K) : Z := default 0 (m !! k).

Definition admission_checks (lim : ActiveContextLimits) (st : ActiveContextState) (agent_id : AgentId)
    (tenant_id : string) : list (PressureScope * Z * Z) :=
  [(ScopeAgent agent_id, used_by (ac_agents st) agent_id, per_agent_tokens lim);
   (ScopeTenant tenant_id, used_by (ac_tenants st) tenant_id, per_tenant_tokens lim);
   (ScopeKernel, ac_global st, global_tokens lim)].

Definition over_limit (tokens : Z) (c : PressureScope * Z * Z) : bool :=
  let '(_, used, limit) := c in (0 <? limit) && (limit <? sat_add64 used tokens).

Definition try_admit (lim : ActiveContextLimits) (st : ActiveContextState) (agent_id : AgentId)
    (tenant_id : string) (tokens : Z)
    : ActiveContextState * result ContextPressure ActiveContextAdmission :=
  match find_first (over_limit tokens) (admission_checks lim st agent_id tenant_id) with
  | Some (scope, used, limit) =>
      (mkActive (ac_agents st) (ac_tenants st) (ac_global st)
         (<[agent_id := sat_add64 (used_by (ac_rejections st) agent_id) 1]> (ac_rejections st)),
       Err (mkPressure scope (sat_add64 used tokens) limit))
  | None =>
      (mkActive (<[agent_id := sat_add64 (used_by (ac_agents st) agent_id) tokens]> (ac_agents st))
         (<[tenant_id := sat_add64 (used_by (ac_tenants st) tenant_id) tokens]> (ac_tenants st))
         (sat_add64 (ac_global st) tokens) (ac_rejections st),
       Ok (mkAdmission agent_id tenant_id tokens))
  end.

Definition active_usage (lim : ActiveContextLimits) (st : ActiveContextState) (agent_id : AgentId)
    (tenant_id : string) : ActiveContextUsage :=
  mkUsage (used_by (ac_agents st) agent_id) (used_by (ac_tenants st) tenant_id) (ac_global st)
    (per_agent_tokens lim) (per_tenant_tokens lim) (global_tokens lim)
    (used_by (ac_rejections st) agent_id).

(** One map of [drop]: what remains for the key, which leaves the map at zero. *)
Definition give_back {K} `{Countable K} (m : gmap K Z) (k : K) (tokens : Z) : gmap K Z :=
  let remaining := sat_sub (used_by m k) tokens in
  if remaining =? 0 then delete k m else <[k := remaining]> m.

Definition drop_admission (st : ActiveContextState) (g : ActiveContextAdmission)
    : ActiveContextState :=
  mkActive (give_back (ac_agents st) (adm_agent g) (adm_tokens g))
    (give_back (ac_tenants st) (adm_tenant g) (adm_tokens g))
    (sat_sub (ac_global st) (adm_tokens g)) (ac_rejections st).

(** ** Pages *)

Record ContextPage := mkPage {
  pg_id : Z;
  pg_agent : Z;
  pg_content : string;
  pg_tokens : Z;
  pg_created_at : Z;
  pg_last_accessed : Z;
  pg_pinned : bool }.

Inductive PageLocation := Active | Swapped.

#[global] Instance page_location_eq_dec : EqDecision PageLocation.
Proof. solve_decision. Defined.

Record PageTableEntry := mkEntry { pte_page_id : Z; pte_location : PageLocation; pte_dirty : bool }.

Record ContextPager := mkPager {
  pgr_active : list ContextPage;
  pgr_swapped : list ContextPage;
  pgr_table : list PageTableEntry;
  pgr_max_active_tokens : Z;
  pgr_active_tokens : Z }.

Definition pager_new (max_active_tokens : Z) : ContextPager := mkPager [] [] [] max_active_tokens 0.

Definition is_page (page_id : Z) (p : ContextPage) : bool := pg_id p =? page_id.

Definition set_location (page_id : Z) (loc : PageLocation) (t : list PageTableEntry)
    : list PageTableEntry :=
  update_first (λ e, pte_page_id e =? page_id) (λ e, mkEntry (pte_page_id e) loc (pte_dirty e)) t.

(** [None] when nothing is evictable. *)
Definition evict_lru (p : ContextPager) : option ContextPager :=
  match position (λ q, negb (pg_pinned q)) (pgr_active p) with
  | Some idx =>
      match pgr_active p !! idx with
      | Some page =>
          Some (mkPager (remove_at idx (pgr_active p)) (pgr_swapped p ++ [page])
                  (set_location (pg_id page) Swapped (pgr_table p)) (pgr_max_active_tokens p)
                  (wrap32 (pgr_active_tokens p - pg_tokens page)))
      | None => None
      end
  | None => None
  end.

(** [active_tokens.saturating_add(tokens) > max_active_tokens]. *)
Definition too_full (p : ContextPager) (tokens : Z) : bool :=
  pgr_max_active_tokens p <? sat_add32 (pgr_active_tokens p) tokens.

(** The eviction loop, one unit of fuel per iteration. *)
Fixpoint evict_loop (fuel : nat) (tokens : Z) (p : ContextPager) : ContextPager :=
  match fuel with
  | O => p
  | S fuel =>
      if too_full p tokens then
        match evict_lru p with Some p' => evict_loop fuel tokens p' | None => p end
      else p
  end.

Definition make_room (tokens : Z) (p : ContextPager) : ContextPager :=
  evict_loop (S (length (pgr_active p))) tokens p.

#[local] Arguments make_room : simpl never.

(** [(content.len() as u32) / 4 + 1]. *)
Definition estimate (content : string) : Z := wrap32 (Z.of_nat (String.length content)) / 4 + 1.

Definition add_page (next_page_id now : Z) (p : ContextPager) (agent_id : Z) (content : string)
    : Z * ContextPager * Z :=
  let token_count := estimate content in
  let page_id := next_page_id in
  let p := make_room token_count p in
  let page := mkPage page_id agent_id content token_count now now false in
  let p :=
    if sat_add32 (pgr_active_tokens p) token_count <=? pgr_max_active_tokens p then
      mkPager (pgr_active p ++ [page]) (pgr_swapped p) (pgr_table p ++ [mkEntry page_id Active false])
        (pgr_max_active_tokens p) (sat_add32 (pgr_active_tokens p) token_count)
    else
      mkPager (pgr_active p) (pgr_swapped p ++ [page]) (pgr_table p ++ [mkEntry page_id Swapped false])
        (pgr_max_active_tokens p) (pgr_active_tokens p) in
  (wrap64 (next_page_id + 1), p, page_id).

Definition touch (now : Z) (q : ContextPage) : ContextPage :=
  mkPage (pg_id q) (pg_agent q) (pg_content q) (pg_tokens q) (pg_created_at q) now (pg_pinned q).

(** [idx] is computed before the evictions, which only push at the end of [swapped]. *)
Definition page_in (now : Z) (p : ContextPager) (page_id : Z) : ContextPager * option ContextPage :=
  match position (is_page page_id) (pgr_swapped p) with
  | None => (p, None)
  | Some idx =>
      let page_tokens := from_option pg_tokens 0 (pgr_swapped p !! idx) in
      let p := make_room page_tokens p in
      if too_full p page_tokens then (p, None)
      else
        match pgr_swapped p !! idx with
        | None => (p, None)
        | Some page =>
            let page := touch now page in
            (mkPager (pgr_active p ++ [page]) (remove_at idx (pgr_swapped p))
               (set_location page_id Active (pgr_table p)) (pgr_max_active_tokens p)
               (sat_add32 (pgr_active_tokens p) (pg_tokens page)),
             Some page)
        end
  end.

Definition pin (p : ContextPager) (page_id : Z) : ContextPager :=
  mkPager
    (update_first (is_page page_id)
       (λ q, mkPage (pg_id q) (pg_agent q) (pg_content q) (pg_tokens q) (pg_created_at q)
               (pg_last_accessed q) true) (pgr_active p))
    (pgr_swapped p) (pgr_table p) (pgr_max_active_tokens p) (pgr_active_tokens p).

Definition active_pages (p : ContextPager) : list ContextPage := pgr_active p.
Definition active_token_count (p : ContextPager) : Z := pgr_active_tokens p.
Definition swapped_count (p : ContextPager) : Z := Z.of_nat (length (pgr_swapped p)).
Definition total_pages (p : ContextPager) : Z :=
  wrap64 (Z.of_nat (length (pgr_active p)) + Z.of_nat (length (pgr_swapped p))).

(** ** Active-prompt admission under any interleaving *)

(** The shared state, the guards that are alive, and the agents of the refused requests. *)
Record ActiveWorld := mkAW {
  aw_state : ActiveContextState;
  aw_live : gmap Z ActiveContextAdmission;
  aw_refused : list AgentId }.

Inductive ActiveEvent :=
| AcAdmit (g : Z) (agent_id : AgentId) (tenant_id : string) (tokens : Z)
| AcDrop (g : Z).

Definition active_exec (lim : ActiveContextLimits) (w : ActiveWorld) (e : ActiveEvent) : ActiveWorld :=
  match e with
  | AcAdmit g agent tenant tokens =>
      match aw_live w !! g with
      | Some _ => w
      | None =>
          match try_admit lim (aw_state w) agent tenant tokens with
          | (st, Ok adm) => mkAW st (<[g := adm]> (aw_live w)) (aw_refused w)
          | (st, Err _) => mkAW st (aw_live w) (agent :: aw_refused w)
          end
      end
  | AcDrop g =>
      match aw_live w !! g with
      | Some adm => mkAW (drop_admission (aw_state w) adm) (delete g (aw_live w)) (aw_refused w)
      | None => w
      end
  end.

Definition active_init : ActiveWorld := mkAW active_default ∅ [].

Definition event_tokens (e : ActiveEvent) : Z :=
  match e with AcAdmit _ _ _ tokens => tokens | AcDrop _ => 0 end.

(** The tokens of the live guards of one key. *)
Definition held {K} `{Countable K} (key : ActiveContextAdmission → K) (k : K)
    (live : gmap Z ActiveContextAdmission) : Z :=
  msum (λ a, if bool_decide (key a = k) then adm_tokens a else 0) live.

Definition held_total (live : gmap Z ActiveContextAdmission) : Z := msum adm_tokens live.

Definition live_ok (live : gmap Z ActiveContextAdmission) : Prop :=
  ∀ g a, live !! g = Some a → 0 <= adm_tokens a.

(** A configured limit bounds a count; zero is no limit. *)
Definition within (limit n : Z) : Prop := 0 < limit → n <= limit.

Section scope.
Context {K : Type} `{Countable K}.
Variable key : ActiveContextAdmission → K.
Variable limit : Z.
Implicit Types (m : gmap K Z) (live : gmap Z ActiveContextAdmission).

(** A counter map counts the live tokens of every key, has no entry for an idle key, and no key holds
    more than the limit of the scope. *)
Record scope_ok m live : Prop := {
  so_used k : used_by m k = held key k live;
  so_idle k : (∀ g a, live !! g = Some a → key a ≠ k) → m !! k = None;
  so_limit k : within limit (held key k live) }.

Lemma held_nonneg k live : live_ok live → 0 <= held key k live.
Proof using Type. intros Hl. apply msum_nonneg. intros g a Ha. case_bool_decide; [by eapply Hl|lia]. Qed.

Lemma held_le_total k live : live_ok live → held key k live <= held_total live.
Proof using Type.
  intros Hl. apply msum_le. intros g a Ha. pose proof (Hl g a Ha). case_bool_decide; lia.
Qed.

Lemma held_insert k live g adm :
  live !! g = None →
  held key k (<[g := adm]> live) = (if bool_decide (key adm = k) then adm_tokens adm else 0) + held key k live.
Proof using Type. intros Hg. unfold held. by rewrite msum_insert. Qed.

Lemma held_delete k live g adm :
  live !! g = Some adm →
  held key k live = (if bool_decide (key adm = k) then adm_tokens adm else 0) + held key k (delete g live).
Proof using Type. intros Hg. unfold held. by rewrite (msum_delete _ _ _ _ Hg). Qed.

Lemma scope_admit m live g adm :
  scope_ok m live → live_ok live → live !! g = None → 0 <= adm_tokens adm →
  held_total live + adm_tokens adm <= u64_max →
  within limit (sat_add64 (used_by m (key adm)) (adm_tokens adm)) →
  scope_ok (<[key adm := sat_add64 (used_by m (key adm)) (adm_tokens adm)]> m) (<[g := adm]> live).
Proof using Type.
  intros [Hu Hi Hlim] Hl Hg Ht Hmax Hw. pose proof (held_le_total (key adm) live Hl).
  rewrite Hu in *. split; intros k; rewrite ?held_insert by done.
  - unfold used_by. destruct (decide (key adm = k)) as [<-|Hne].
    + rewrite lookup_insert_eq, bool_decide_true by done. unfold sat_add64. cbn. lia.
    + rewrite lookup_insert_ne, bool_decide_false by done. fold (used_by m k). rewrite Hu. lia.
  - intros Hk. rewrite lookup_insert_ne by (eapply Hk, lookup_insert_eq). apply Hi. intros g' a Ha.
    apply (Hk g'). rewrite lookup_insert_ne; [done|]. intros ->. congruence.
  - case_bool_decide as Hk; [subst k|by rewrite Z.add_0_l]. unfold within, sat_add64 in *. lia.
Qed.

Lemma scope_drop m live g adm :
  scope_ok m live → live_ok live → live !! g = Some adm →
  scope_ok (give_back m (key adm) (adm_tokens adm)) (delete g live).
Proof using Type.
  intros [Hu Hi Hlim] Hl Hg.
  assert (Hl' : live_ok (delete g live)).
  { intros g' a [_ Ha]%lookup_delete_Some. by eapply Hl. }
  pose proof (held_delete (key adm) live g adm Hg) as Hk. rewrite bool_decide_true in Hk by done.
  pose proof (held_nonneg (key adm) _ Hl') as Hn.
  unfold give_back, sat_sub. rewrite Hu, Hk, Z.max_r by lia.
  replace (adm_tokens adm + held key (key adm) (delete g live) - adm_tokens adm)
    with (held key (key adm) (delete g live)) by lia.
  split; intros k.
  - unfold used_by. destruct (decide (key adm = k)) as [<-|Hne].
    + case_match eqn:Hz; [rewrite lookup_delete_eq; cbn; lia|by rewrite lookup_insert_eq].
    + pose proof (held_delete k live g adm Hg) as Heq. rewrite bool_decide_false in Heq by done.
      specialize (Hu k).
      case_match; [rewrite lookup_delete_ne by done|rewrite lookup_insert_ne by done];
        fold (used_by m k); lia.
  - intros Hk'. destruct (decide (key adm = k)) as [<-|Hne].
    + assert (held key (key adm) (delete g live) = 0) as ->; [|apply lookup_delete_eq].
      apply msum_zero. intros g' a Ha. rewrite bool_decide_false; [done|]. by eapply Hk'.
    + assert (m !! k = None).
      { apply Hi. intros g' a Ha. destruct (decide (g = g')) as [<-|]; [congruence|].
        apply (Hk' g'). by rewrite lookup_delete_ne. }
      case_match; [by rewrite lookup_delete_ne|by rewrite lookup_insert_ne].
  - specialize (Hlim k). rewrite (held_delete k live g adm Hg) in Hlim. pose proof (Hl _ _ Hg).
    unfold within in *. case_bool_decide; lia.
Qed.
End scope.

Record active_ok (lim : ActiveContextLimits) (w : ActiveWorld) : Prop := {
  ao_live : live_ok (aw_live w);
  ao_agents : scope_ok adm_agent (per_agent_tokens lim) (ac_agents (aw_state w)) (aw_live w);
  ao_tenants : scope_ok adm_tenant (per_tenant_tokens lim) (ac_tenants (aw_state w)) (aw_live w);
  ao_global : ac_global (aw_state w) = held_total (aw_live w);
  ao_width : held_total (aw_live w) <= u64_max;
  ao_global_limit : within (global_tokens lim) (held_total (aw_live w));
  ao_refused a : used_by (ac_rejections (aw_state w)) a
    = Z.min u64_max (Z.of_nat (count_if (Z.eqb a) (aw_refused w))) }.

Lemma held_total_nonneg live : live_ok live → 0 <= held_total live.
Proof. intros Hl. by apply msum_nonneg. Qed.

(** What an admission that is not refused knows of its three scopes. *)
Lemma admitted_within lim st agent tenant tokens :
  find_first (over_limit tokens) (admission_checks lim st agent tenant) = None →
  within (per_agent_tokens lim) (sat_add64 (used_by (ac_agents st) agent) tokens) ∧
  within (per_tenant_tokens lim) (sat_add64 (used_by (ac_tenants st) tenant) tokens) ∧
  within (global_tokens lim) (sat_add64 (ac_global st) tokens).
Proof.
  unfold admission_checks. rewrite find_first_None, !Forall_cons. unfold over_limit, within.
  intros (?%andb_false_iff & ?%andb_false_iff & ?%andb_false_iff & _). lia.
Qed.

(** Room for a request: a global limit that keeps the counters from saturating, or a total that fits. *)
Definition room (lim : ActiveContextLimits) (total : Z) : Prop :=
  0 < global_tokens lim < u64_max ∨ total <= u64_max.

Lemma refuse_ok lim st live refused agent :
  active_ok lim (mkAW st live refused) →
  active_ok lim (mkAW (mkActive (ac_agents st) (ac_tenants st) (ac_global st)
    (<[agent := sat_add64 (used_by (ac_rejections st) agent) 1]> (ac_rejections st))) live (agent :: refused)).
Proof.
  intros []. split; [done..|]. intros a. cbn -[count_if] in *. rewrite count_cons. specialize (ao_refused0 a).
  unfold used_by in *. destruct (Z.eqb_spec a agent) as [->|Hne].
  - rewrite lookup_insert_eq. cbn. rewrite ao_refused0. unfold sat_add64. lia.
  - rewrite lookup_insert_ne by done. rewrite ao_refused0. lia.
Qed.

Lemma admit_ok lim st live refused g agent tenant tokens :
  active_ok lim (mkAW st live refused) → live !! g = None → 0 <= tokens →
  room lim (held_total live + tokens) →
  find_first (over_limit tokens) (admission_checks lim st agent tenant) = None →
  active_ok lim (mkAW
    (mkActive (<[agent := sat_add64 (used_by (ac_agents st) agent) tokens]> (ac_agents st))
       (<[tenant := sat_add64 (used_by (ac_tenants st) tenant) tokens]> (ac_tenants st))
       (sat_add64 (ac_global st) tokens) (ac_rejections st))
    (<[g := mkAdmission agent tenant tokens]> live) refused).
Proof.
  intros [] Hg Ht Hroom (Ha & Ht' & Hgl)%admitted_within. cbn in *.
  set (adm := mkAdmission agent tenant tokens). pose proof (held_total_nonneg _ ao_live0) as Hn.
  assert (Hmax : held_total live + tokens <= u64_max).
  { unfold room, within, sat_add64 in *. lia. }
  assert (Htot : held_total (<[g := adm]> live) = tokens + held_total live).
  { unfold held_total. by rewrite msum_insert. }
  split; cbn; [| | | | | |done].
  - intros g' a [[<- <-]|[_ Hg']]%lookup_insert_Some; [done|]. by eapply ao_live0.
  - by apply (scope_admit adm_agent _ _ _ g adm).
  - by apply (scope_admit adm_tenant _ _ _ g adm).
  - rewrite Htot. unfold sat_add64. lia.
  - lia.
  - rewrite Htot. unfold within, sat_add64 in *. lia.
Qed.

Lemma drop_ok lim st live refused g adm :
  active_ok lim (mkAW st live refused) → live !! g = Some adm →
  active_ok lim (mkAW (drop_admission st adm) (delete g live) refused).
Proof.
  intros [] Hg. cbn in *.
  assert (Hl : live_ok (delete g live)).
  { intros g' a [_ Ha]%lookup_delete_Some. by eapply ao_live0. }
  assert (Htot : held_total live = adm_tokens adm + held_total (delete g live)).
  { unfold held_total. by rewrite (msum_delete _ _ _ _ Hg). }
  pose proof (held_total_nonneg _ Hl). pose proof (ao_live0 _ _ Hg).
  split; cbn; [done| | | | | |done].
  - by apply (scope_drop adm_agent).
  - by apply (scope_drop adm_tenant).
  - rewrite ao_global0, Htot. unfold sat_sub. lia.
  - lia.
  - unfold within in *. lia.
Qed.

Lemma active_exec_ok lim w e :
  active_ok lim w → 0 <= event_tokens e →
  room lim (held_total (aw_live w) + event_tokens e) → active_ok lim (active_exec lim w e).
Proof.
  destruct w as [st live refused]. intros Hok Ht Hroom.
  destruct e as [g agent tenant tokens|g]; cbn in *; destruct (live !! g) eqn:Hg; [done| |by apply drop_ok|done].
  unfold try_admit. destruct (find_first _ _) as [[[scope used] limit]|] eqn:Hf; [by apply refuse_ok|by apply admit_ok].
Qed.

Lemma held_step lim w e :
  0 <= event_tokens e → live_ok (aw_live w) →
  held_total (aw_live (active_exec lim w e)) <= held_total (aw_live w) + event_tokens e.
Proof.
  intros Ht Hl. destruct e as [g agent tenant tokens|g]; cbn in *.
  - case_match eqn:Hg; [lia|]. unfold try_admit. destruct (find_first _ _) as [[[? ?] ?]|]; cbn; [lia|].
    unfold held_total. rewrite msum_insert by done. cbn. lia.
  - case_match eqn:Hg; [|lia]. cbn. pose proof (msum_delete adm_tokens _ _ _ Hg).
    pose proof (Hl _ _ Hg). unfold held_total. lia.
Qed.

Lemma active_run_ok lim es w :
  active_ok lim w → Forall (λ e, 0 <= event_tokens e) es →
  room lim (held_total (aw_live w) + zsum (event_tokens <$> es)) →
  active_ok lim (foldl (active_exec lim) w es).
Proof.
  revert w. induction es as [|e es IH]; intros w Hok Hes Hroom; [done|]. cbn in *.
  apply Forall_cons in Hes as [He Hes].
  assert (0 <= zsum (event_tokens <$> es)) by (clear -Hes; induction Hes; cbn; lia).
  pose proof (held_step lim w e He (ao_live _ _ Hok)).
  apply IH; [apply active_exec_ok; [done..|]|done|]; unfold room in *; lia.
Qed.

(** C35. After any interleaving of prompt admissions and guard drops, the counter of every
    agent, of every tenant and of the kernel is the sum of the tokens of its live guards, no
    configured limit is exceeded, an agent or tenant with no live guard has no entry left, and the
    rejection counter of an agent is the number of its refused requests.  The counters are exact as
    long as they cannot saturate: the global limit is configured below the largest [u64], or all the
    requests of the history together fit it. *)
Theorem active_context_accounting (lim : ActiveContextLimits) (es : list ActiveEvent)
    (Htok : Forall (λ e, 0 <= event_tokens e) es)
    (Hroom : room lim (zsum (event_tokens <$> es))) (agent : AgentId) (tenant : string) :
  let w := foldl (active_exec lim) active_init es in
  let u := active_usage lim (aw_state w) agent tenant in
  u_agent_tokens u = held adm_agent agent (aw_live w) ∧
  u_tenant_tokens u = held adm_tenant tenant (aw_live w) ∧
  u_global_tokens u = held_total (aw_live w) ∧
  within (u_per_agent_limit u) (u_agent_tokens u) ∧
  within (u_per_tenant_limit u) (u_tenant_tokens u) ∧
  within (u_global_limit u) (u_global_tokens u) ∧
  u_rejection_count u = Z.min u64_max (Z.of_nat (count_if (Z.eqb agent) (aw_refused w))) ∧
  ((∀ g a, aw_live w !! g = Some a → adm_agent a ≠ agent) → ac_agents (aw_state w) !! agent = None) ∧
  ((∀ g a, aw_live w !! g = Some a → adm_tenant a ≠ tenant) → ac_tenants (aw_state w) !! tenant = None).
Proof.
  intros w u.
  assert (active_ok lim w) as [_ [] [] Hg _ Hgl Hr].
  { apply active_run_ok; [|done|unfold held_total; cbn -[msum]; by rewrite msum_empty].
    assert (∀ n : Z, within n 0) by (unfold within; lia).
    split; cbn; unfold held_total; rewrite ?msum_empty; try done.
    all: split; intros; unfold held; rewrite ?msum_empty; try done. }
  cbn. rewrite Hg, so_used0, so_used1. split_and!; eauto.
Qed.

Definition example_limits : ActiveContextLimits := mkLimits 100 150 200.
Definition example_prompts : list ActiveEvent :=
  [AcAdmit 1 7 "acme" 60; AcAdmit 2 7 "acme" 50; AcAdmit 3 8 "acme" 80; AcDrop 1].

(** The second request of agent 7 is refused; after the drop the tenant holds what agent 8 holds. *)
Lemma active_context_accounting_witness :
  Forall (λ e, 0 <= event_tokens e) example_prompts ∧
  room example_limits (zsum (event_tokens <$> example_prompts)) ∧
  (let w := foldl (active_exec example_limits) active_init example_prompts in
   let u := active_usage example_limits (aw_state w) 7 "acme" in
   u_agent_tokens u = 0 ∧ u_tenant_tokens u = 80 ∧ u_rejection_count u = 1 ∧
   within (u_per_tenant_limit u) (u_tenant_tokens u) ∧ u_global_tokens u = held_total (aw_live w)).
Proof.
  assert (Ht : Forall (λ e, 0 <= event_tokens e) example_prompts) by (repeat constructor; done).
  assert (Hr : room example_limits (zsum (event_tokens <$> example_prompts))) by (left; done).
  pose proof (active_context_accounting example_limits example_prompts Ht Hr 7 "acme") as H.
  split_and!; [done..|]. destruct H as (_ & _ & Hg & _ & Hl & _).
  split_and!; [vm_compute; reflexivity..|exact Hl|exact Hg].
Defined.

(** ** The pager *)

Definition PageKey : Type := Z * Z * string.
Definition page_key (q : ContextPage) : PageKey := (pg_id q, pg_agent q, pg_content q).
Definition key_id (k : PageKey) : Z := k.1.1.

Definition unpinned (q : ContextPage) : bool := negb (pg_pinned q).
Definition tokens_of (l : list ContextPage) : Z := zsum (pg_tokens <$> l).
Definition pinned_tokens (p : ContextPager) : Z := tokens_of (retain pg_pinned (pgr_active p)).

(** The table entry of an added page: where the page is. *)
Definition entry_of (active : list ContextPage) (k : PageKey) : PageTableEntry :=
  mkEntry (key_id k) (if bool_decide (key_id k ∈ pg_id <$> active) then Active else Swapped) false.

(** [added] lists the pages ever added, in order; [now] bounds the clock readings so far. *)
Record pager_ok (now : Z) (added : list PageKey) (p : ContextPager) : Prop := {
  pk_estimate : Forall (λ q, pg_tokens q = estimate (pg_content q)) (pgr_active p ++ pgr_swapped p);
  pk_sum : pgr_active_tokens p = tokens_of (pgr_active p);
  pk_max : pgr_active_tokens p <= pgr_max_active_tokens p < u32_max;
  pk_pages : page_key <$> pgr_active p ++ pgr_swapped p ≡ₚ added;
  pk_nodup : NoDup (key_id <$> added);
  pk_table : pgr_table p = entry_of (pgr_active p) <$> added;
  pk_sorted : StronglySorted Z.le (pg_last_accessed <$> pgr_active p);
  pk_now : Forall (λ q, pg_last_accessed q <= now) (pgr_active p);
  pk_swapped : Forall (λ q, unpinned q = true) (pgr_swapped p) }.

Lemma estimate_pos content : 1 <= estimate content <= 1073741824.
Proof.
  unfold estimate, wrap32. set (n := Z.of_nat (String.length content)).
  assert (0 <= n mod (u32_max + 1) < 4294967296) by by apply Z.mod_pos_bound.
  generalize dependent (n mod (u32_max + 1)). intros m Hm. Z.to_euclidean_division_equations. lia.
Qed.

Lemma tokens_of_nonneg l : Forall (λ q, pg_tokens q = estimate (pg_content q)) l → 0 <= tokens_of l.
Proof.
  induction 1 as [|q l Hq _ IH]; unfold tokens_of in *; cbn; [lia|]. pose proof (estimate_pos (pg_content q)). lia.
Qed.

Lemma tokens_of_app l1 l2 : tokens_of (l1 ++ l2) = tokens_of l1 + tokens_of l2.
Proof. unfold tokens_of. by rewrite fmap_app, zsum_app. Qed.

Lemma tokens_of_split l : tokens_of l = tokens_of (retain pg_pinned l) + tokens_of (retain unpinned l).
Proof.
  unfold tokens_of, unpinned. induction l as [|q l IH]; cbn; [done|]. destruct (pg_pinned q); cbn; lia.
Qed.

Lemma page_ids now added p : pager_ok now added p → NoDup (pg_id <$> pgr_active p ++ pgr_swapped p).
Proof.
  intros []. replace (pg_id <$> pgr_active p ++ pgr_swapped p)
    with (key_id <$> (page_key <$> pgr_active p ++ pgr_swapped p)) by by rewrite <- list_fmap_compose.
  by rewrite pk_pages0.
Qed.

(** Relocating one page in the table. *)
Lemma set_location_table active active' added id loc :
  NoDup (key_id <$> added) →
  (∀ k, k ≠ id → k ∈ pg_id <$> active' ↔ k ∈ pg_id <$> active) →
  loc = (if bool_decide (id ∈ pg_id <$> active') then Active else Swapped) →
  set_location id loc (entry_of active <$> added) = entry_of active' <$> added.
Proof.
  intros Hnd Hk ->. unfold set_location. rewrite (update_first_key pte_page_id).
  2: { by rewrite <- list_fmap_compose. }
  rewrite <- list_fmap_compose. apply list_fmap_ext. intros i k _. unfold entry_of. cbn.
  destruct (Z.eqb_spec (key_id k) id) as [->|Hne]; [done|]. f_equal.
  by rewrite (bool_decide_ext _ _ (Hk _ Hne)).
Qed.

(** What one eviction does: the first unpinned page moves to the end of the swapped pages. *)
Lemma evict_lru_Some now added p p' :
  pager_ok now added p → evict_lru p = Some p' →
  ∃ l1 q l2, pgr_active p = l1 ++ q :: l2 ∧ Forall (λ y, unpinned y = false) l1 ∧ unpinned q = true ∧
    p' = mkPager (l1 ++ l2) (pgr_swapped p ++ [q]) (entry_of (l1 ++ l2) <$> added)
           (pgr_max_active_tokens p) (tokens_of (l1 ++ l2)) ∧ 1 <= pg_tokens q.
Proof.
  intros Hok. pose proof (page_ids _ _ _ Hok) as Hids. destruct Hok. unfold evict_lru.
  destruct (position _ _) as [idx|] eqn:Hp; [|done].
  apply position_Some in Hp as (l1 & q & l2 & Ha & -> & Hq & Hl1). rewrite Ha, list_lookup_middle by done.
  intros [= <-]. exists l1, q, l2. split_and!; [done..| |].
  - rewrite remove_at_app. rewrite Ha in *. rewrite pk_table0. f_equal.
    + apply set_location_table; [done|..].
      * intros k Hk. rewrite !fmap_app, !elem_of_app, fmap_cons, elem_of_cons. naive_solver.
      * rewrite bool_decide_false; [done|]. rewrite <- app_assoc, fmap_app in Hids.
        apply NoDup_app in Hids as (_ & Hd & Hids). cbn in Hids. apply NoDup_cons in Hids as [Hn _].
        rewrite fmap_app, elem_of_app. intros [Hin|Hin].
        { eapply Hd; [done|]. left. }
        { apply Hn. rewrite fmap_app. set_solver. }
    + rewrite pk_sum0, !tokens_of_app. unfold tokens_of at 2. cbn. fold (tokens_of l2).
      rewrite !Forall_app in pk_estimate0. destruct pk_estimate0 as [[He1 [Hq' He2]%Forall_cons] _].
      pose proof (tokens_of_nonneg _ He1). pose proof (tokens_of_nonneg _ He2).
      pose proof (estimate_pos (pg_content q)).
      rewrite pk_sum0, !tokens_of_app in pk_max0. unfold tokens_of in pk_max0 at 2. cbn in pk_max0.
      fold (tokens_of l2) in pk_max0. unfold wrap32. rewrite Z.mod_small; unfold u32_max in *; lia.
  - rewrite Ha, !Forall_app in pk_estimate0. destruct pk_estimate0 as [[_ [-> _]%Forall_cons] _].
    apply estimate_pos.
Qed.

Lemma evict_lru_None p : evict_lru p = None → Forall (λ q, unpinned q = false) (pgr_active p).
Proof.
  unfold evict_lru. destruct (position _ _) as [idx|] eqn:Hp; [|by rewrite position_None in Hp].
  apply position_Some in Hp as (l1 & q & l2 & Ha & -> & _). by rewrite Ha, list_lookup_middle.
Qed.

Lemma evict_lru_ok now added p p' : pager_ok now added p → evict_lru p = Some p' → pager_ok now added p'.
Proof.
  intros Hok Hev. pose proof (evict_lru_Some _ _ _ _ Hok Hev) as (l1 & q & l2 & Ha & _ & Hun & -> & Hq).
  destruct Hok. rewrite Ha in *. split; cbn.
  - rewrite !Forall_app, !Forall_cons in *. naive_solver.
  - done.
  - rewrite pk_sum0, !tokens_of_app in pk_max0. rewrite tokens_of_app.
    unfold tokens_of in pk_max0 at 2. cbn in pk_max0. fold (tokens_of l2) in pk_max0. lia.
  - rewrite <- pk_pages0. apply fmap_Permutation. solve_Permutation.
  - done.
  - done.
  - rewrite !fmap_app, ?fmap_cons, ?StronglySorted_app, ?StronglySorted_cons in *.
    destruct pk_sorted0 as (Hd & H1 & _ & H2). split_and!; [|done..]. intros x y Hx Hy. apply Hd; [done|by right].
  - rewrite !Forall_app, !Forall_cons in *. naive_solver.
  - by rewrite Forall_app, Forall_singleton.
Qed.

(** [p'] is [p] after some evictions: the unpinned pages leave oldest first, the pinned ones stay. *)
Definition evicted (p p' : ContextPager) : Prop :=
  pgr_max_active_tokens p' = pgr_max_active_tokens p ∧
  retain pg_pinned (pgr_active p') = retain pg_pinned (pgr_active p) ∧
  ∃ ev, pgr_swapped p' = pgr_swapped p ++ ev ∧
    retain unpinned (pgr_active p) = ev ++ retain unpinned (pgr_active p').

Lemma evicted_refl p : evicted p p.
Proof. split_and!; [done..|]. exists []. by rewrite app_nil_r. Qed.

Lemma evicted_trans p1 p2 p3 : evicted p1 p2 → evicted p2 p3 → evicted p1 p3.
Proof.
  intros (Hm & Hp & ev & Hs & Hu) (Hm' & Hp' & ev' & Hs' & Hu'). split_and!; [congruence..|].
  exists (ev ++ ev'). by rewrite Hs', Hs, Hu, Hu', !app_assoc.
Qed.

Lemma all_pinned l : Forall (λ q, unpinned q = false) l → retain pg_pinned l = l ∧ retain unpinned l = [].
Proof.
  intros Hl. split; [|by apply retain_none]. apply retain_all. eapply Forall_impl; [done|].
  intros q ?%negb_false_iff. done.
Qed.

Lemma evict_lru_evicted now added p p' : pager_ok now added p → evict_lru p = Some p' → evicted p p'.
Proof.
  intros Hok Hev. pose proof (evict_lru_Some _ _ _ _ Hok Hev) as (l1 & q & l2 & Ha & H1 & Hq & -> & _).
  unfold evicted. cbn. rewrite Ha, !retain_app. cbn. rewrite Hq. unfold unpinned in Hq.
  apply negb_true_iff in Hq. rewrite Hq. split_and!; [done..|]. exists [q].
  destruct (all_pinned _ H1) as [_ ->]. done.
Qed.

Lemma evict_loop_spec now added fuel tokens p :
  pager_ok now added p → (length (pgr_active p) < fuel)%nat →
  let p' := evict_loop fuel tokens p in
  pager_ok now added p' ∧ evicted p p' ∧
  (too_full p' tokens = false ∨ Forall (λ q, unpinned q = false) (pgr_active p')).
Proof.
  revert p. induction fuel as [|fuel IH]; intros p Hok Hf; [lia|]. cbn.
  destruct (too_full p tokens) eqn:Hfull; [|by eauto using evicted_refl].
  destruct (evict_lru p) as [p1|] eqn:Hev; [|by eauto using evicted_refl, evict_lru_None].
  destruct (IH p1) as (Hok' & Hev' & Hend).
  - by eapply evict_lru_ok.
  - pose proof (evict_lru_Some _ _ _ _ Hok Hev) as (l1 & q & l2 & Ha & _ & _ & -> & _). cbn.
    rewrite Ha, length_app in Hf. cbn in Hf. rewrite length_app. lia.
  - split_and!; [done| |done]. by eapply evicted_trans, Hev'; eapply evict_lru_evicted.
Qed.

(** The eviction loop stops, and then the request fits exactly when it fits beside the pinned pages. *)
Lemma make_room_spec now added tokens p :
  pager_ok now added p → 0 <= tokens →
  let p' := make_room tokens p in
  pager_ok now added p' ∧ evicted p p' ∧
  (too_full p' tokens = false ↔ pinned_tokens p + tokens <= pgr_max_active_tokens p) ∧
  (too_full p' tokens = true → retain unpinned (pgr_active p') = []).
Proof.
  intros Hok Ht. destruct (evict_loop_spec now added (S (length (pgr_active p))) tokens p Hok)
    as (Hok' & Hev & Hend); [lia|]. fold (make_room tokens p) in *. cbv zeta. split_and!; [done..| |].
  2: { intros Hfull. destruct Hend as [Hend|[_ Hall]%all_pinned]; [congruence|done]. }
  pose proof Hev as (Hm & Hp & _). destruct Hok' as [Hest Hsum Hmax _ _ _ _ _ _].
  rewrite tokens_of_split, Hp in Hsum. fold (pinned_tokens p) in Hsum.
  assert (0 <= tokens_of (retain unpinned (pgr_active (make_room tokens p)))).
  { apply tokens_of_nonneg. apply Forall_app in Hest as [Hest _]. rewrite Forall_forall in *.
    intros q [Hq _]%elem_of_retain. auto. }
  unfold too_full, sat_add32 in *. rewrite Z.ltb_ge in *. split; [lia|]. intros Hfit.
  destruct Hend as [Hfull|[_ Hall]%all_pinned]; [done|]. rewrite Hall in Hsum.
  change (tokens_of []) with 0 in Hsum. lia.
Qed.

(** ** Histories of a pager *)

(** [POther] is another pager of the process taking a page identifier. *)
Inductive PagerEvent :=
| PAdd (now : Z) (agent : Z) (content : string)
| PIn (now : Z) (page_id : Z)
| PPin (page_id : Z)
| POther.

Record PagerWorld := mkPW { pw_pager : ContextPager; pw_next : Z; pw_added : list PageKey }.

Definition pager_exec (w : PagerWorld) (e : PagerEvent) : PagerWorld :=
  match e with
  | PAdd now agent content =>
      let '(next, p, id) := add_page (pw_next w) now (pw_pager w) agent content in
      mkPW p next (pw_added w ++ [(id, agent, content)])
  | PIn now id => mkPW (page_in now (pw_pager w) id).1 (pw_next w) (pw_added w)
  | PPin id => mkPW (pin (pw_pager w) id) (pw_next w) (pw_added w)
  | POther => mkPW (pw_pager w) (wrap64 (pw_next w + 1)) (pw_added w)
  end.

Definition pager_init (max_active_tokens : Z) : PagerWorld := mkPW (pager_new max_active_tokens) 1 [].

(** The clock reading of an event, for events that read the clock. *)
Definition event_time (now : Z) (e : PagerEvent) : Z :=
  match e with PAdd t _ _ | PIn t _ => t | _ => now end.

(** The readings of the history never go back. *)
Fixpoint clock_ok (now : Z) (es : list PagerEvent) : Prop :=
  match es with
  | [] => True
  | e :: es => now <= event_time now e ∧ clock_ok (event_time now e) es
  end.

Lemma pager_later now now' added p : now <= now' → pager_ok now added p → pager_ok now' added p.
Proof.
  intros Hle []. split; try done. eapply Forall_impl; [done|]. cbn. lia.
Qed.

Lemma sorted_snoc now l q :
  StronglySorted Z.le (pg_last_accessed <$> l) → Forall (λ q, pg_last_accessed q <= now) l →
  pg_last_accessed q = now → StronglySorted Z.le (pg_last_accessed <$> l ++ [q]).
Proof.
  intros Hs Hn <-. rewrite fmap_app. apply StronglySorted_app. split_and!; [|done|by repeat constructor].
  intros x y (q' & -> & Hq')%list_elem_of_fmap ->%list_elem_of_singleton.
  rewrite Forall_forall in Hn. by apply Hn.
Qed.

(** A page that fits becomes the last active page. *)
Lemma activate_ok now added p q rest table :
  Forall (λ q, pg_tokens q = estimate (pg_content q)) (pgr_active p) →
  pgr_active_tokens p = tokens_of (pgr_active p) →
  StronglySorted Z.le (pg_last_accessed <$> pgr_active p) →
  Forall (λ q, pg_last_accessed q <= now) (pgr_active p) →
  pgr_max_active_tokens p < u32_max →
  Forall (λ q, pg_tokens q = estimate (pg_content q)) (q :: rest) →
  Forall (λ q, unpinned q = true) rest →
  too_full p (pg_tokens q) = false → pg_last_accessed q = now →
  page_key <$> pgr_active p ++ q :: rest ≡ₚ added → NoDup (key_id <$> added) →
  table = entry_of (pgr_active p ++ [q]) <$> added →
  pager_ok now added (mkPager (pgr_active p ++ [q]) rest table (pgr_max_active_tokens p)
    (sat_add32 (pgr_active_tokens p) (pg_tokens q))).
Proof.
  intros Hest Hsum Hs Hn Hmax [Hq Hr]%Forall_cons Hsw Hfit Hnow Hp Hnd ->.
  unfold too_full in Hfit. apply Z.ltb_ge in Hfit. split; cbn -[tokens_of].
  - rewrite !Forall_app, Forall_singleton. done.
  - rewrite tokens_of_app. unfold tokens_of at 2. cbn. unfold sat_add32 in *. lia.
  - lia.
  - by rewrite <- app_assoc.
  - done.
  - done.
  - by eapply sorted_snoc.
  - rewrite Forall_app, Forall_singleton. split; [done|lia].
  - done.
Qed.

Lemma entry_of_snoc active q (added : list PageKey) :
  (∀ k, k ∈ added → key_id k ≠ pg_id q) →
  entry_of (active ++ [q]) <$> added = entry_of active <$> added.
Proof.
  intros Hk. apply list_fmap_ext. intros i k Hi. unfold entry_of. f_equal.
  erewrite (bool_decide_ext _ _); [done|]. rewrite fmap_app, elem_of_app.
  pose proof (Hk k (list_elem_of_lookup_2 _ _ _ Hi)). set_solver.
Qed.

Definition fresh_above (next : Z) (added : list PageKey) : Prop :=
  Forall (λ k, 1 <= key_id k < next) added.

Lemma add_page_ok now added p next agent content :
  pager_ok now added p → fresh_above next added →
  pager_ok now (added ++ [(next, agent, content)]) (add_page next now p agent content).1.2.
Proof.
  intros Hok Hfr. pose proof (estimate_pos content) as Hest.
  destruct (make_room_spec now added (estimate content) p Hok) as ([] & _ & _ & _); [lia|].
  unfold add_page. cbn -[make_room estimate]. set (p' := make_room (estimate content) p) in *. clearbody p'.
  set (q := mkPage next agent content (estimate content) now now false).
  assert (Hne : ∀ k, k ∈ added → key_id k ≠ next).
  { intros k Hk. unfold fresh_above in Hfr. rewrite Forall_forall in Hfr. specialize (Hfr _ Hk). lia. }
  assert (Hnd : NoDup (key_id <$> added ++ [page_key q])).
  { rewrite fmap_app. apply NoDup_app. split_and!; [done| |by repeat constructor; set_solver].
    intros x (k & -> & Hk)%list_elem_of_fmap. cbn. rewrite list_elem_of_singleton. by apply Hne. }
  assert (Hids : next ∉ pg_id <$> pgr_active p').
  { intros (q' & Hq' & Hin)%list_elem_of_fmap. apply (Hne (page_key q')); [|done].
    rewrite <- pk_pages0, fmap_app, elem_of_app. left. by apply list_elem_of_fmap_2. }
  apply Forall_app in pk_estimate0 as [He1 He2]. case_match eqn:Hfit.
  - apply Z.leb_le in Hfit. apply (activate_ok now _ p' q (pgr_swapped p')); try done; [lia|by apply Forall_cons| | |].
    + unfold too_full. by apply Z.ltb_ge.
    + rewrite <- pk_pages0, !fmap_app. cbn. solve_Permutation.
    + rewrite fmap_app, entry_of_snoc by done. rewrite <- pk_table0. f_equal. unfold entry_of. cbn.
      rewrite bool_decide_true; [done|]. rewrite fmap_app. set_solver.
  - split; cbn -[tokens_of]; [|done|done| |done| |done|done|apply Forall_app; split; [done|by repeat constructor]].
    + rewrite !Forall_app, Forall_singleton. done.
    + rewrite app_assoc, fmap_app, pk_pages0. done.
    + rewrite fmap_app, <- pk_table0. cbn. unfold entry_of. cbn. by rewrite bool_decide_false.
Qed.


(** What [page_in] does on a swapped page [q]: it succeeds exactly when the page fits beside the pinned
    pages, and otherwise leaves only pinned pages active. *)
Lemma page_in_spec now added p l1 q l2 :
  pager_ok now added p → pgr_swapped p = l1 ++ q :: l2 →
  let '(p', r) := page_in now p (pg_id q) in
  pager_ok now added p' ∧ retain pg_pinned (pgr_active p') = retain pg_pinned (pgr_active p) ∧
  if pinned_tokens p + pg_tokens q <=? pgr_max_active_tokens p
  then r = Some (touch now q) ∧ ∃ l, pgr_active p' = l ++ [touch now q]
  else r = None ∧ retain unpinned (pgr_active p') = [].
Proof.
  intros Hok Hsw. pose proof (page_ids _ _ _ Hok) as Hids.
  assert (Hpos : position (is_page (pg_id q)) (pgr_swapped p) = Some (length l1)).
  { rewrite Hsw in Hids |- *. rewrite fmap_app in Hids. apply NoDup_app in Hids as (_ & _ & Hids).
    clear -Hids. induction l1 as [|x l1 IH]; cbn; unfold is_page in *.
    - by rewrite Z.eqb_refl.
    - cbn in Hids. apply NoDup_cons in Hids as [Hn Hids]. rewrite fmap_app in Hn.
      destruct (Z.eqb_spec (pg_id x) (pg_id q)) as [Heq|]; [set_solver|]. by rewrite IH. }
  unfold page_in. rewrite Hpos, Hsw, list_lookup_middle by done. cbn -[make_room].
  assert (1 <= pg_tokens q).
  { destruct Hok. rewrite Hsw, !Forall_app, Forall_cons in pk_estimate0.
    destruct pk_estimate0 as (_ & _ & -> & _). apply estimate_pos. }
  destruct (make_room_spec now added (pg_tokens q) p Hok) as (Hok' & Hev & Hfit & Hall); [lia|].
  set (p' := make_room (pg_tokens q) p) in *. clearbody p'. pose proof Hev as (Hm & Hp & ev & Hsw' & Hun).
  rewrite <- Z.leb_le in Hfit. destruct (too_full p' (pg_tokens q)) eqn:Hfull.
  - split_and!; [done..|]. destruct (Z.leb _ _) eqn:Hle; [by discriminate (proj2 Hfit eq_refl)|].
    auto.
  - rewrite (proj1 Hfit) by done. rewrite Hsw, <- app_assoc in Hsw'. cbn in Hsw'.
    rewrite Hsw', list_lookup_middle by done. rewrite remove_at_app. cbn -[sat_add32].
    destruct Hok'. rewrite Hsw' in *.
    apply Forall_app in pk_estimate0 as [He1 [He2 [He3 He4]%Forall_cons]%Forall_app].
    apply Forall_app in pk_swapped0 as [Hs1 [Hs2%negb_true_iff Hs3]%Forall_cons].
    split_and!; [|rewrite retain_app; cbn; by rewrite Hs2, app_nil_r, Hp|done|by eexists].
    apply (activate_ok now added p' (touch now q)); try done;
      [lia|rewrite Forall_cons, Forall_app; by split_and!|rewrite Forall_app; by split| |].
    + rewrite <- pk_pages0, !fmap_app, !fmap_cons, !fmap_app. cbn. solve_Permutation.
    + rewrite pk_table0. apply set_location_table; [done|..].
      * intros k Hk. rewrite fmap_app, elem_of_app. cbn. set_solver.
      * rewrite bool_decide_true; [done|]. rewrite fmap_app. set_solver.
Qed.

Lemma pin_ok now added p id : pager_ok now added p → pager_ok now added (pin p id).
Proof.
  intros []. unfold pin. set (f := λ q, mkPage _ _ _ _ _ _ true).
  assert (Hf : ∀ {B} (h : ContextPage → B), (∀ q, h (f q) = h q) →
    h <$> update_first (is_page id) f (pgr_active p) = h <$> pgr_active p).
  { intros B h Hh. by apply update_first_fmap. }
  assert (HF : ∀ P : Z * string * Z → Prop,
    Forall (λ q, P (pg_tokens q, pg_content q, pg_last_accessed q)) (pgr_active p) →
    Forall (λ q, P (pg_tokens q, pg_content q, pg_last_accessed q)) (update_first (is_page id) f (pgr_active p))).
  { intros P. rewrite <- !(Forall_fmap (λ q, (pg_tokens q, pg_content q, pg_last_accessed q)) P). by rewrite Hf. }
  split; cbn -[update_first].
  - rewrite Forall_app in *. destruct pk_estimate0. split; [|done].
    by apply (HF (λ x, x.1.1 = estimate x.1.2)).
  - unfold tokens_of. by rewrite Hf.
  - done.
  - rewrite fmap_app, Hf, <- fmap_app by done. done.
  - done.
  - rewrite pk_table0. apply list_fmap_ext. intros i k _. unfold entry_of. by rewrite Hf.
  - by rewrite Hf.
  - by apply (HF (λ x, x.2 <= now)).
  - done.
Qed.

(** The pages that are pinned, by identity. *)
Definition pinned_keys (p : ContextPager) : list PageKey := page_key <$> retain pg_pinned (pgr_active p).

Lemma pin_keeps p id k : k ∈ pinned_keys p → k ∈ pinned_keys (pin p id).
Proof.
  unfold pinned_keys. rewrite !list_elem_of_fmap. intros (q & -> & [Hq Hpin]%elem_of_retain). cbn -[update_first].
  induction (pgr_active p) as [|q' l IH]; [set_solver|]. cbn.
  apply elem_of_cons in Hq as [->|Hq]; destruct (is_page id q') eqn:Hid.
  - eexists. split; [|apply elem_of_retain; by split; [left|]]. done.
  - exists q'. split; [done|]. apply elem_of_retain. by split; [left|].
  - exists q. split; [done|]. apply elem_of_retain. by split; [right|].
  - destruct (IH Hq) as (q2 & ? & [Hq2 ?]%elem_of_retain). exists q2. split; [done|].
    apply elem_of_retain. by split; [right|].
Qed.

Lemma add_page_pinned now added p next agent content :
  pager_ok now added p →
  pinned_keys (add_page next now p agent content).1.2 = pinned_keys p.
Proof.
  intros Hok. pose proof (estimate_pos content).
  destruct (make_room_spec now added (estimate content) p Hok) as (_ & (_ & Hp & _) & _ & _); [lia|].
  unfold add_page, pinned_keys. cbn -[estimate]. rewrite <- Hp. case_match; cbn -[retain]; [|done].
  by rewrite retain_app, app_nil_r.
Qed.

Record pager_world_ok (now bound : Z) (w : PagerWorld) : Prop := {
  pwo_pager : pager_ok now (pw_added w) (pw_pager w);
  pwo_fresh : fresh_above (pw_next w) (pw_added w);
  pwo_next : 1 <= pw_next w <= bound }.

Lemma pager_exec_ok now bound w e :
  pager_world_ok now bound w → now <= event_time now e → bound < u64_max →
  pager_world_ok (event_time now e) (bound + 1) (pager_exec w e) ∧
  ∀ k, k ∈ pinned_keys (pw_pager w) → k ∈ pinned_keys (pw_pager (pager_exec w e)).
Proof.
  intros [Hok Hfr Hn] Ht Hb. apply (pager_later _ (event_time now e)) in Hok; [|done].
  assert (Hw : wrap64 (pw_next w + 1) = pw_next w + 1) by (apply wrap64_small; lia).
  assert (Hfr' : fresh_above (pw_next w + 1) (pw_added w)).
  { eapply Forall_impl; [exact Hfr|]. cbn. lia. }
  destruct e as [t agent content|t id|id|]; cbn in Ht, Hok |- *.
  - pose proof (add_page_ok _ _ _ _ agent content Hok Hfr) as Hadd.
    pose proof (add_page_pinned _ _ _ (pw_next w) agent content Hok) as Hpin. split.
    + split; cbn -[wrap64 add_page]; [exact Hadd| |rewrite Hw; lia].
      rewrite Hw. apply Forall_app. split; [done|]. apply Forall_singleton. cbn. lia.
    + intros k. by rewrite <- Hpin.
  - destruct (position (is_page id) (pgr_swapped (pw_pager w))) as [i|] eqn:Hpos.
    + apply position_Some in Hpos as (l1 & q & l2 & Hsw & _ & <-%Z.eqb_eq & _).
      pose proof (page_in_spec _ _ _ _ _ _ Hok Hsw) as Hpi. destruct (page_in t (pw_pager w) (pg_id q)) as [p' r].
      destruct Hpi as (Hok' & Hpin & _). split; [split; cbn; [done..|lia]|]. intros k. unfold pinned_keys. cbn.
      by rewrite Hpin.
    + unfold page_in. rewrite Hpos. split; [split; cbn; [done..|lia]|done].
  - split; [|intros k; apply pin_keeps]. split; cbn; [by apply pin_ok|done|lia].
  - split; [|done]. split; cbn -[wrap64]; rewrite ?Hw; [done..|lia].
Qed.

Fixpoint last_time (now : Z) (es : list PagerEvent) : Z :=
  match es with [] => now | e :: es => last_time (event_time now e) es end.

Lemma pager_run_ok now bound w es :
  pager_world_ok now bound w → clock_ok now es → bound + Z.of_nat (length es) <= u64_max →
  pager_world_ok (last_time now es) (bound + Z.of_nat (length es)) (foldl pager_exec w es) ∧
  ∀ k, k ∈ pinned_keys (pw_pager w) → k ∈ pinned_keys (pw_pager (foldl pager_exec w es)).
Proof.
  revert now bound w. induction es as [|e es IH]; intros now bound w Hok Hc Hb; cbn -[Z.of_nat] in *.
  { by rewrite Z.add_0_r. }
  destruct Hc as [He Hc]. destruct (pager_exec_ok now bound w e Hok He) as [Hok' Hp]; [lia|].
  destruct (IH _ _ _ Hok' Hc) as [Hok'' Hp']; [lia|]. split; [|eauto].
  by replace (bound + Z.of_nat (S (length es))) with (bound + 1 + Z.of_nat (length es)) by lia.
Qed.

Lemma pager_added w es :
  (length (pw_added (foldl pager_exec w es)) <= length (pw_added w) + length es)%nat.
Proof.
  revert w. induction es as [|e es IH]; intros w; cbn -[length]; [lia|]. rewrite IH.
  destruct e; cbn; rewrite ?length_app; cbn; lia.
Qed.

Lemma make_room_max tokens p : pgr_max_active_tokens (make_room tokens p) = pgr_max_active_tokens p.
Proof.
  unfold make_room. generalize (S (length (pgr_active p))) as fuel. intros fuel.
  revert p. induction fuel as [|fuel IH]; intros p; cbn; [done|].
  destruct (too_full p tokens), (evict_lru p) as [p'|] eqn:Hev; try done. rewrite IH.
  revert Hev. unfold evict_lru. repeat case_match; intros; simplify_eq; done.
Qed.

Lemma pager_run_max w es :
  pgr_max_active_tokens (pw_pager (foldl pager_exec w es)) = pgr_max_active_tokens (pw_pager w).
Proof.
  revert w. induction es as [|e es IH]; intros w; cbn; [done|]. rewrite IH.
  destruct e; cbn -[estimate sat_add32]; try done.
  - case_match; cbn; apply make_room_max.
  - unfold page_in. repeat case_match; cbn; try done; apply make_room_max.
Qed.

Lemma pager_init_ok now max : 0 <= max < u32_max → pager_world_ok now 1 (pager_init max).
Proof. intros Hm. split; [split|..]; cbn; try done; try constructor; lia. Qed.

(** C36. Whatever pages are added, paged in and pinned, the active token count is the sum of the
    active pages and stays within the window, every page ever added is in exactly one of the two
    places with its content, identifiers are unique, the page table tells the place of every page,
    and a pinned page never leaves the active context. *)
Theorem pager_accounting (max_tokens t0 : Z) (es es' : list PagerEvent)
    (Hmax : 0 <= max_tokens < u32_max) (Hclock : clock_ok t0 (es ++ es'))
    (Hlen : Z.of_nat (length (es ++ es')) < u64_max) :
  let w0 := foldl pager_exec (pager_init max_tokens) es in
  let w := foldl pager_exec w0 es' in
  let p := pw_pager w in
  active_token_count p = tokens_of (active_pages p) ∧
  active_token_count p <= pgr_max_active_tokens p ∧
  page_key <$> active_pages p ++ pgr_swapped p ≡ₚ pw_added w ∧
  NoDup (key_id <$> pw_added w) ∧
  pgr_table p = entry_of (active_pages p) <$> pw_added w ∧
  total_pages p = Z.of_nat (length (pw_added w)) ∧
  (∀ q, q ∈ active_pages (pw_pager w0) → pg_pinned q = true → page_key q ∈ page_key <$> active_pages p).
Proof.
  assert (Hc : ∀ t l1 l2, clock_ok t (l1 ++ l2) → clock_ok t l1 ∧ clock_ok (last_time t l1) l2).
  { intros t l1. revert t. induction l1 as [|e l1 IH]; intros t l2; cbn; [done|]. naive_solver. }
  destruct (Hc _ _ _ Hclock) as [Hc1 Hc2]. rewrite length_app in Hlen. intros w0 w p.
  destruct (pager_run_ok t0 1 _ es (pager_init_ok t0 _ Hmax) Hc1) as [Hok0 _]; [lia|].
  destruct (pager_run_ok _ _ _ es' Hok0 Hc2) as [[Hok Hfr Hn] Hpin]; [lia|]. fold w0 w in Hok, Hpin. fold p in Hok, Hpin.
  pose proof Hok as []. split_and!; try done; [apply pk_max0| |].
  - unfold total_pages. rewrite <- Nat2Z.inj_add, <- length_app, <- (length_fmap page_key), pk_pages0.
    apply wrap64_small. split; [lia|].
    pose proof (pager_added (pager_init max_tokens) (es ++ es')) as Hadd. rewrite foldl_app in Hadd.
    fold w0 w in Hadd. rewrite length_app in Hadd. cbn in Hadd. lia.
  - intros q Hq Hp. assert (Hin : page_key q ∈ pinned_keys p).
    { apply Hpin. apply list_elem_of_fmap_2, elem_of_retain. done. }
    apply list_elem_of_fmap in Hin as (q' & -> & [Hq' _]%elem_of_retain). by apply list_elem_of_fmap_2.
Qed.

(** A window of 5 tokens: the third page evicts the unpinned second one, not the pinned first one. *)
Definition example_pages : list PagerEvent := [PAdd 10 1 "system:"; PPin 1; PAdd 11 1 "hello"].
Definition example_more : list PagerEvent := [POther; PAdd 12 1 "goodbye"; PIn 13 2].

Lemma pager_accounting_witness :
  clock_ok 0 (example_pages ++ example_more) ∧
  (let w := foldl pager_exec (foldl pager_exec (pager_init 5) example_pages) example_more in
   let p := pw_pager w in
   active_token_count p = tokens_of (active_pages p) ∧ (pg_id <$> active_pages p) = [1; 2] ∧
   total_pages p = 3 ∧ (1, 1, "system:") ∈ page_key <$> active_pages p).
Proof.
  assert (Hc : clock_ok 0 (example_pages ++ example_more)) by (cbn; lia). split; [exact Hc|].
  destruct (pager_accounting 5 0 example_pages example_more) as (Hs & _ & _ & _ & _ & _ & Hp);
    [done|exact Hc|done|]. split_and!; [exact Hs|vm_compute; reflexivity..|].
  exact (Hp (mkPage 1 1 "system:" 2 10 10 true) ltac:(left) eq_refl).
Defined.

(** Paging in a page that is swapped out succeeds exactly when the page fits beside the
    pinned pages; it then returns the page asked for, with its content, as the most recent active
    page.  When it does not fit, [None] is returned and no unpinned page is left active. *)
Theorem page_in_correct (max_tokens t0 now : Z) (es : list PagerEvent) (l1 l2 : list ContextPage)
    (q : ContextPage) (Hmax : 0 <= max_tokens < u32_max) (Hclock : clock_ok t0 (es ++ [PIn now (pg_id q)]))
    (Hlen : Z.of_nat (length es) < u64_max)
    (Hsw : pgr_swapped (pw_pager (foldl pager_exec (pager_init max_tokens) es)) = l1 ++ q :: l2) :
  let p := pw_pager (foldl pager_exec (pager_init max_tokens) es) in
  let '(p', r) := page_in now p (pg_id q) in
  retain pg_pinned (active_pages p') = retain pg_pinned (active_pages p) ∧
  if pinned_tokens p + pg_tokens q <=? max_tokens
  then r = Some (touch now q) ∧ ∃ l, active_pages p' = l ++ [touch now q]
  else r = None ∧ retain unpinned (active_pages p') = [].
Proof.
  assert (Hc : clock_ok t0 es ∧ last_time t0 es <= now).
  { clear -Hclock. revert t0 Hclock. induction es as [|e es IH]; intros t0; cbn; naive_solver. }
  destruct Hc as [Hc Hnow].
  destruct (pager_run_ok t0 1 _ es (pager_init_ok t0 _ Hmax) Hc) as [[Hok _ _] _]; [lia|].
  apply (pager_later _ now) in Hok; [|done]. pose proof (page_in_spec _ _ _ _ _ _ Hok Hsw) as H.
  rewrite pager_run_max in H. cbv zeta. destruct (page_in _ _ _) as [p' r]. exact (proj2 H).
Qed.

Definition example_pager : ContextPager :=
  pw_pager (foldl pager_exec (pager_init 5) (example_pages ++ [PAdd 12 1 "goodbye"])).
Definition example_swapped : ContextPage := mkPage 2 1 "hello" 2 11 11 false.

(** Page 2 comes back when the window has room for it beside the pinned page. *)
Lemma page_in_correct_witness :
  pgr_swapped example_pager = [] ++ example_swapped :: [] ∧
  (page_in 13 example_pager (pg_id example_swapped)).2 = Some (touch 13 example_swapped) ∧
  let '(p', r) := page_in 13 example_pager (pg_id example_swapped) in
  retain pg_pinned (active_pages p') = retain pg_pinned (active_pages example_pager) ∧
  if pinned_tokens example_pager + pg_tokens example_swapped <=? 5
  then r = Some (touch 13 example_swapped) ∧ ∃ l, active_pages p' = l ++ [touch 13 example_swapped]
  else r = None ∧ retain unpinned (active_pages p') = [].
Proof.
  assert (Hs : pgr_swapped example_pager = [] ++ example_swapped :: []) by (vm_compute; reflexivity).
  assert (Hc : clock_ok 0 ((example_pages ++ [PAdd 12 1 "goodbye"]) ++ [PIn 13 (pg_id example_swapped)]))
    by (cbn; lia).
  assert (Hm : 0 <= 5 < u32_max) by done.
  split; [exact Hs|]. split; [vm_compute; reflexivity|].
  exact (page_in_correct 5 0 13 _ [] [] example_swapped Hm Hc eq_refl Hs).
Defined.

(** The page an eviction takes is a least recently used one among the unpinned pages. *)
Theorem evict_lru_least (now : Z) (added : list PageKey) (p p' : ContextPager) :
  pager_ok now added p → evict_lru p = Some p' →
  ∃ q, pgr_swapped p' = pgr_swapped p ++ [q] ∧ q ∈ active_pages p ∧ pg_pinned q = false ∧
    ∀ q', q' ∈ active_pages p → pg_pinned q' = false → pg_last_accessed q <= pg_last_accessed q'.
Proof.
  intros Hok Hev. pose proof (evict_lru_Some _ _ _ _ Hok Hev) as (l1 & q & l2 & Ha & H1 & Hq & -> & _).
  exists q. unfold active_pages. rewrite Ha. split_and!; [done|set_solver|by apply negb_true_iff|].
  intros q' Hq' Hp. destruct Hok. rewrite Ha, fmap_app, fmap_cons, StronglySorted_app, StronglySorted_cons in pk_sorted0.
  destruct pk_sorted0 as (_ & _ & Hs & _). apply elem_of_app in Hq' as [Hq'|[->|Hq']%elem_of_cons]; [|lia|].
  - rewrite Forall_forall in H1. specialize (H1 _ Hq'). unfold unpinned in H1. by rewrite Hp in H1.
  - rewrite Forall_forall in Hs. apply Hs. by apply list_elem_of_fmap_2.
Qed.
