(* ===== verification/InitSystem.v ===== *)
(** * The init system: service definitions, boot order, restart policy

    Models [crates/kernel/src/init_system.rs].  Error texts are represented by the values they are
    formatted from.  The chrono calls that print and parse RFC 3339 instants, the SHA-256 digest, and
    the digest of an encoded definition are parameters; an instant is a number of nanoseconds.  The
    iteration order of a hash map is a parameter as well, of which only is assumed that it visits
    every entry once.  Reading service files from a directory is not modelled. *)

From S2P Require Import Prelude.
From stdpp Require Import pretty.
From Stdlib Require Import Ascii.
#[local] Open Scope Z_scope.

(** Agent identifiers are UUIDs, here their 128-bit values. *)
Abbreviation AgentId := Z (only parsing).

(** ** Definitions *)

Record ExecConfig := mkExec {
  ex_provider : string;
  ex_system_prompt : string;
  ex_tools : list string;
  ex_model : option string }.

Inductive RestartPolicy := Always | OnFailure | Never.
Inductive ServiceType := Simple | Oneshot | Notify.

#[global] Instance restart_policy_eq_dec : EqDecision RestartPolicy.
Proof. solve_decision. Defined.
#[global] Instance service_type_eq_dec : EqDecision ServiceType.
Proof. solve_decision. Defined.

Definition default_restart_delay : Z := 5000.
Definition default_restart_max_delay : Z := 60000.
Definition default_restart_jitter : Z := 250.
Definition default_restart_window : Z := 60000.
Definition default_max_restarts : Z := 3.

Record ServiceConfig := mkService {
  sc_restart : RestartPolicy;
  sc_restart_delay_ms : Z;
  sc_restart_max_delay_ms : Z;
  sc_restart_jitter_ms : Z;
  sc_restart_window_ms : Z;
  sc_max_restarts : Z;
  sc_service_type : ServiceType }.

Definition service_config_default : ServiceConfig :=
  mkService OnFailure 5000 60000 250 60000 3 Simple.

Record DependencyConfig := mkDeps {
  dc_requires : list string;
  dc_wants : list string;
  dc_after : list string;
  dc_before : list string }.

Definition dependency_default : DependencyConfig := mkDeps [] [] [] [].

Record ResourceConfig := mkResources {
  rc_token_budget : option string;
  rc_max_context : option Z;
  rc_max_concurrent_tool_calls : option Z;
  rc_nice : option Z }.

Inductive IsolationLevel := Trusted | Filesystem | Process | Container.

#[global] Instance isolation_level_eq_dec : EqDecision IsolationLevel.
Proof. solve_decision. Defined.

Record SandboxConfig := mkSandbox {
  sb_workspace_dir : string;
  sb_allowed_network_hosts : option (list string);
  sb_max_disk_usage_bytes : option Z;
  sb_max_memory_bytes : option Z;
  sb_isolation_level : IsolationLevel;
  sb_container_image : option string }.

Record ServicePolicyConfig := mkPolicy {
  pc_tenant_id : string;
  pc_profile : string;
  pc_namespace : option string;
  pc_sandbox : option SandboxConfig;
  pc_secret_refs : list string }.

Definition default_tenant : string := "default".
Definition default_profile : string := "standard".
Definition policy_default : ServicePolicyConfig := mkPolicy default_tenant default_profile None None [].

Record HealthConfig := mkHealth {
  hc_startup_timeout_ms : Z;
  hc_readiness_delay_ms : Z;
  hc_liveness_interval_ms : Z;
  hc_shutdown_timeout_ms : Z }.

Definition default_startup_timeout : Z := 30000.
Definition default_liveness_interval : Z := 1000.
Definition default_shutdown_timeout : Z := 30000.
Definition health_default : HealthConfig :=
  mkHealth default_startup_timeout 0 default_liveness_interval default_shutdown_timeout.

Record ServiceDef := mkDef {
  sd_name : string;
  sd_description : option string;
  sd_exec : ExecConfig;
  sd_service : ServiceConfig;
  sd_dependencies : DependencyConfig;
  sd_resources : ResourceConfig;
  sd_policy : ServicePolicyConfig;
  sd_health : HealthConfig }.

(** ** Runtime state *)

Inductive ServiceStatus := Inactive | Starting | Running | Stopping | Failed | Restarting.

#[global] Instance service_status_eq_dec : EqDecision ServiceStatus.
Proof. solve_decision. Defined.

(** The part of a service's state that changes at run time. *)
Record ServiceRuntime := mkRuntime {
  st_status : ServiceStatus;
  st_agent_id : option AgentId;
  st_restart_count : Z;
  st_restart_attempts_total : Z;
  st_last_exit_code : option Z;
  st_desired_running : bool;
  st_ready : bool;
  st_healthy : bool;
  st_restart_exhausted : bool;
  st_last_failure : option string;
  st_next_restart_at : option string;
  st_restart_window_started_at : option string;
  st_last_transition_at : string;
  st_dependency_blocks : Z }.

Record ServiceState := mkState {
  ss_def : ServiceDef;
  ss_run : ServiceRuntime;
  ss_definition_revision : string }.

Record ServiceRuntimeInfo := mkInfo {
  ri_name : string;
  ri_run : ServiceRuntime;
  ri_definition_revision : string }.

Record ServiceMetrics := mkMetrics {
  sm_configured : Z;
  sm_desired : Z;
  sm_running : Z;
  sm_ready : Z;
  sm_healthy : Z;
  sm_failed : Z;
  sm_restarts_total : Z;
  sm_dependency_blocks_total : Z }.

Record InitSystem := mkInit {
  services : gmap string ServiceState;
  boot_order : list string;
  allowed_secret_refs : gset string }.

Definition init_new : InitSystem := mkInit ∅ [] ∅.

(** What the error texts say. *)
Inductive InitError :=
| InvalidName (name : string)
| UnsupportedProfile (name profile : string)
| ModelOverride (name : string)
| ToolAllowList (name : string)
| UnsupportedType (name : string) (t : ServiceType)
| InvalidTenant (name : string)
| InvalidNamespace (name namespace : string)
| TrustedIsolation (name : string)
| HealthTiming (name : string)
| RestartBounds (name : string)
| NiceRange (name : string)
| ResourceOverride (name : string)
| EmptyBudget (name : string)
| BudgetInteger (name : string)
| BudgetPositive (name : string)
| BudgetUnit (name : string)
| UnavailableSecret (name reference : string)
| DuplicateService (name : string)
| MissingRequirement (name required : string)
| CircularDependency (name : string).

#[global] Instance init_error_eq_dec : EqDecision InitError.
Proof. solve_decision. Defined.

(** ** Validation *)

(** [is_ascii_alphanumeric() || "-_.".contains(..)]; a byte of a longer character is refused as the
    character is. *)
Definition name_char (c : ascii) : bool :=
  let n := N_of_ascii c in
  ((48 <=? n) && (n <=? 57) || (65 <=? n) && (n <=? 90) || (97 <=? n) && (n <=? 122)
   || (n =? 45) || (n =? 95) || (n =? 46))%N.

Fixpoint all_name_chars (s : string) : bool :=
  match s with EmptyString => true | String c r => name_char c && all_name_chars r end.

Definition too_long (s : string) : bool := 128 <? Z.of_nat (String.length s).

Definition bad_name (s : string) : bool := is_blank s || too_long s || negb (all_name_chars s).

Definition supported_profile (p : string) : bool :=
  bool_decide (p ∈ ["read-only"; "standard"; "elevated"; "full-access"]).

Definition bad_health (h : HealthConfig) : bool :=
  (hc_startup_timeout_ms h =? 0) || (300000 <? hc_startup_timeout_ms h)
  || (hc_liveness_interval_ms h <? 50) || (60000 <? hc_liveness_interval_ms h)
  || (hc_shutdown_timeout_ms h =? 0) || (300000 <? hc_shutdown_timeout_ms h).

Definition bad_restart (s : ServiceConfig) : bool :=
  (sc_restart_max_delay_ms s <? sc_restart_delay_ms s)
  || (300000 <? sc_restart_max_delay_ms s)
  || (sc_restart_window_ms s <? sc_restart_delay_ms s)
  || (3600000 <? sc_restart_window_ms s)
  || (sc_restart_max_delay_ms s <? sc_restart_jitter_ms s)
  || (1000 <? sc_max_restarts s).

Definition token_budget_per_minute (d : ServiceDef) : result InitError (option Z) :=
  match rc_token_budget (sd_resources d) with
  | None => Ok None
  | Some raw =>
      let raw := trim raw in
      if bool_decide (raw = EmptyString) then Err (EmptyBudget (sd_name d))
      else
        let '(amount, unit) :=
          match split_once "/" raw with
          | Some (amount, unit) => (trim amount, trim unit)
          | None => (raw, "minute")
          end in
        match parse_u64 amount with
        | None => Err (BudgetInteger (sd_name d))
        | Some amount =>
            if amount =? 0 then Err (BudgetPositive (sd_name d))
            else if bool_decide (unit = "minute" ∨ unit = "min") then Ok (Some (Z.max amount 1))
            else if bool_decide (unit = "hour" ∨ unit = "hr")
            then Ok (Some (Z.max (sat_add64 amount 59 / 60) 1))
            else Err (BudgetUnit (sd_name d))
        end
  end.

Definition bad_secret (allowed : gset string) (reference : string) : bool :=
  is_blank reference || too_long reference || string_contains "000" reference
  || negb (bool_decide (reference ∈ allowed)).

Definition validate_definition (sys : InitSystem) (d : ServiceDef) : result InitError unit :=
  let name := sd_name d in
  _ ← ensure (negb (bad_name name)) (InvalidName name);
  _ ← ensure (supported_profile (pc_profile (sd_policy d)))
        (UnsupportedProfile name (pc_profile (sd_policy d)));
  _ ← ensure (negb (bool_decide (is_Some (ex_model (sd_exec d))))) (ModelOverride name);
  _ ← ensure (bool_decide (ex_tools (sd_exec d) = [])) (ToolAllowList name);
  _ ← ensure (bool_decide (sc_service_type (sd_service d) = Simple))
        (UnsupportedType name (sc_service_type (sd_service d)));
  _ ← ensure (negb (bad_name (pc_tenant_id (sd_policy d)))) (InvalidTenant name);
  _ ← match pc_namespace (sd_policy d) with
      | Some ns => ensure (negb (bad_name ns)) (InvalidNamespace name ns)
      | None => Ok tt
      end;
  _ ← match pc_sandbox (sd_policy d) with
      | Some sb => ensure (negb (bool_decide (sb_isolation_level sb = Trusted))) (TrustedIsolation name)
      | None => Ok tt
      end;
  _ ← ensure (negb (bad_health (sd_health d))) (HealthTiming name);
  _ ← ensure (negb (bad_restart (sd_service d))) (RestartBounds name);
  _ ← match rc_nice (sd_resources d) with
      | Some nice => ensure ((-20 <=? nice) && (nice <=? 19)) (NiceRange name)
      | None => Ok tt
      end;
  _ ← ensure (negb (bool_decide (rc_max_context (sd_resources d) = Some 0)
                    || bool_decide (rc_max_concurrent_tool_calls (sd_resources d) = Some 0)))
        (ResourceOverride name);
  _ ← token_budget_per_minute d;
  match find_first (bad_secret (allowed_secret_refs sys)) (pc_secret_refs (sd_policy d)) with
  | Some reference => Err (UnavailableSecret name reference)
  | None => Ok tt
  end.

(** ** Boot order *)

Definition sort_names (l : list string) : list string := merge_sort String.le l.

(** [Vec::dedup]: of consecutive equal elements the first is kept. *)
Fixpoint dedup (l : list string) : list string :=
  match l with
  | [] => []
  | x :: l' =>
      match l' with
      | [] => [x]
      | y :: _ => if bool_decide (x = y) then dedup l' else x :: dedup l'
      end
  end.

(** The three collections [topo_sort] threads. *)
Record TopoState := mkTopo { tp_order : list string; tp_visited : gset string; tp_visiting : gset string }.

(** Definitions by name, and runtime rows by name. *)
Definition name_le (a b : ServiceDef) : Prop := String.le (sd_name a) (sd_name b).

#[global] Instance name_le_dec : RelDecision name_le.
Proof. intros a b. unfold name_le. apply _. Defined.

Definition info_le (a b : ServiceRuntimeInfo) : Prop := String.le (ri_name a) (ri_name b).

#[global] Instance info_le_dec : RelDecision info_le.
Proof. intros a b. unfold info_le. apply _. Defined.

(** The loop over a service's dependencies, [rec] being the recursive call. *)
Fixpoint visit_deps (rec : string → TopoState → option (result InitError TopoState))
    (svcs : gmap string ServiceState) (deps : list string) (st : TopoState)
    : option (result InitError TopoState) :=
  match deps with
  | [] => Some (Ok st)
  | dep :: deps =>
      if bool_decide (is_Some (svcs !! dep)) then
        match rec dep st with
        | Some (Ok st) => visit_deps rec svcs deps st
        | r => r
        end
      else visit_deps rec svcs deps st
  end.

Section init.
(** A traversal of a hash map. *)
Variable iter : gmap string ServiceState → list (string * ServiceState).
(** chrono's [to_rfc3339] and [parse_from_rfc3339]. *)
Variable to_rfc3339 : Z → string.
Variable parse_from_rfc3339 : string → option Z.
(** [ring]'s SHA-256 of a text, and the hexadecimal digest of an encoded definition. *)
Variable sha256 : string → list Z.
Variable definition_revision : ServiceDef → string.

Definition topo_dependencies (svcs : gmap string ServiceState) (name : string) (s : ServiceState)
    : list string :=
  let d := sd_dependencies (ss_def s) in
  dedup (sort_names (dc_requires d ++ dc_wants d ++ dc_after d ++
    (retain (λ c, existsb (λ before, bool_decide (before = name)) (dc_before (sd_dependencies (ss_def c.2))))
       (iter svcs)).*1)).

(** [None] is fuel exhaustion. *)
Fixpoint topo_sort (fuel : nat) (svcs : gmap string ServiceState) (name : string) (st : TopoState)
    : option (result InitError TopoState) :=
  match fuel with
  | O => None
  | S fuel =>
      if bool_decide (name ∈ tp_visited st) then Some (Ok st)
      else if bool_decide (name ∈ tp_visiting st) then Some (Err (CircularDependency name))
      else
        let st := mkTopo (tp_order st) (tp_visited st) ({[name]} ∪ tp_visiting st) in
        match match svcs !! name with
              | Some s => visit_deps (topo_sort fuel svcs) svcs (topo_dependencies svcs name s) st
              | None => Some (Ok st)
              end with
        | Some (Ok st) =>
            Some (Ok (mkTopo (tp_order st ++ [name]) ({[name]} ∪ tp_visited st)
                        (tp_visiting st ∖ {[name]})))
        | r => r
        end
  end.

(** The loop over the sorted names. *)
Fixpoint topo_names (fuel : nat) (svcs : gmap string ServiceState) (names : list string) (st : TopoState)
    : option (result InitError TopoState) :=
  match names with
  | [] => Some (Ok st)
  | name :: names =>
      match topo_sort fuel svcs name st with
      | Some (Ok st) => topo_names fuel svcs names st
      | r => r
      end
  end.

(** The first requirement, in traversal order, that names no service. *)
Definition missing_requirement (svcs : gmap string ServiceState) : option (string * string) :=
  find_first (λ p, negb (bool_decide (is_Some (svcs !! p.2))))
    (concat ((λ e, (pair e.1) <$> dc_requires (sd_dependencies (ss_def e.2))) <$> iter svcs)).

(** One call per service deep at most, and one for a visited one. *)
Definition topo_fuel (svcs : gmap string ServiceState) : nat := S (S (size svcs)).

Definition resolve_boot_order (sys : InitSystem) : option (result InitError InitSystem) :=
  match missing_requirement (services sys) with
  | Some (name, required) => Some (Err (MissingRequirement name required))
  | None =>
      match topo_names (topo_fuel (services sys)) (services sys)
              (sort_names (iter (services sys)).*1) (mkTopo [] ∅ ∅) with
      | Some (Ok st) => Some (Ok (mkInit (services sys) (tp_order st) (allowed_secret_refs sys)))
      | Some (Err e) => Some (Err e)
      | None => None
      end
  end.

Definition reverse_boot_order (sys : InitSystem) : list string := reverse (boot_order sys).

(** [HashMap::get_mut] and an update of the state's runtime fields. *)
Definition modify (sys : InitSystem) (name : string) (f : ServiceState → ServiceRuntime) : InitSystem :=
  match services sys !! name with
  | Some s =>
      mkInit (<[name := mkState (ss_def s) (f s) (ss_definition_revision s)]> (services sys))
        (boot_order sys) (allowed_secret_refs sys)
  | None => sys
  end.

Definition runtime_new (now : Z) : ServiceRuntime :=
  mkRuntime Inactive None 0 0 None false false false false None None None (to_rfc3339 now) 0.

Definition load_service (now : Z) (sys : InitSystem) (d : ServiceDef) : InitSystem :=
  mkInit (<[sd_name d := mkState d (runtime_new now) (definition_revision d)]> (services sys))
    (boot_order sys) (allowed_secret_refs sys).

Fixpoint load_all (now : Z) (sys : InitSystem) (ds : list ServiceDef) : result InitError InitSystem :=
  match ds with
  | [] => Ok sys
  | d :: ds =>
      _ ← validate_definition sys d;
      _ ← ensure (negb (bool_decide (is_Some (services sys !! sd_name d)))) (DuplicateService (sd_name d));
      load_all now (load_service now sys d) ds
  end.

(** The fields a reload copies from the previous state of the service. *)
Definition retain_runtime (fresh existing : ServiceRuntime) : ServiceRuntime :=
  mkRuntime (st_status existing) (st_agent_id existing) (st_restart_count existing)
    (st_restart_attempts_total fresh) (st_last_exit_code existing) (st_desired_running existing)
    (st_ready existing) (st_healthy existing) (st_restart_exhausted existing)
    (st_last_failure existing) (st_next_restart_at existing)
    (st_restart_window_started_at existing) (st_last_transition_at existing)
    (st_dependency_blocks existing).

Definition retain_services (old new : gmap string ServiceState) : gmap string ServiceState :=
  map_imap (λ name s,
    Some (match old !! name with
          | Some e => mkState (ss_def s) (retain_runtime (ss_run s) (ss_run e)) (ss_definition_revision s)
          | None => s
          end)) new.

(** On an error the system is left as it is. *)
Definition replace_definitions (now : Z) (sys : InitSystem) (ds : list ServiceDef)
    : option (result InitError (InitSystem * list string)) :=
  match load_all now (mkInit ∅ [] (allowed_secret_refs sys)) ds with
  | Err e => Some (Err e)
  | Ok replacement =>
      match resolve_boot_order replacement with
      | Some (Ok replacement) =>
          Some (Ok (mkInit (retain_services (services sys) (services replacement))
                      (boot_order replacement) (allowed_secret_refs replacement),
                    boot_order replacement))
      | Some (Err e) => Some (Err e)
      | None => None
      end
  end.

Definition validate_replacement (now : Z) (sys : InitSystem) (ds : list ServiceDef)
    : option (result InitError (list string)) :=
  match replace_definitions now (mkInit ∅ [] (allowed_secret_refs sys)) ds with
  | Some (Ok (_, order)) => Some (Ok order)
  | Some (Err e) => Some (Err e)
  | None => None
  end.

Definition set_allowed_secret_refs (sys : InitSystem) (refs : list string)
    : result InitError InitSystem :=
  let refs := list_to_set refs in
  match find_first (λ p, negb (bool_decide (p.2 ∈@{gset string} refs)))
          (concat ((λ e, (pair (sd_name (ss_def e.2))) <$> pc_secret_refs (sd_policy (ss_def e.2)))
                   <$> iter (services sys))) with
  | Some (name, reference) => Err (UnavailableSecret name reference)
  | None => Ok (mkInit (services sys) (boot_order sys) refs)
  end.

(** One pass of [dependents_of]: the set grows while the services are visited. *)
Definition affected_pass (svcs : list (string * ServiceState)) (affected : gset string) : gset string :=
  foldl (λ acc e,
    if existsb (λ required, bool_decide (required ∈ acc)) (dc_requires (sd_dependencies (ss_def e.2)))
    then {[e.1]} ∪ acc else acc) affected svcs.

(** [None] is fuel exhaustion. *)
Fixpoint affected_loop (fuel : nat) (svcs : gmap string ServiceState) (affected : gset string)
    : option (gset string) :=
  match fuel with
  | O => None
  | S fuel =>
      let after := affected_pass (iter svcs) affected in
      if bool_decide (size after = size affected) then Some after else affected_loop fuel svcs after
  end.

(** Every pass but the last adds a service. *)
Definition affected_fuel (svcs : gmap string ServiceState) : nat := S (size svcs).

Definition dependents_of (sys : InitSystem) (name : string) : option (list string) :=
  (λ affected, retain (λ c, bool_decide (c ∈ affected)) (reverse_boot_order sys))
  <$> affected_loop (affected_fuel (services sys)) (services sys) {[name]}.

Definition state (sys : InitSystem) (name : string) : option ServiceState := services sys !! name.
Definition definition (sys : InitSystem) (name : string) : option ServiceDef :=
  ss_def <$> services sys !! name.
Definition status (sys : InitSystem) (name : string) : option ServiceStatus :=
  (λ s, st_status (ss_run s)) <$> services sys !! name.

Definition definitions (sys : InitSystem) : list ServiceDef :=
  merge_sort name_le ((λ e, ss_def e.2) <$> iter (services sys)).

(** ** Transitions *)

(** [x = true] when the service exists. *)
Definition known (sys : InitSystem) (name : string) : bool := bool_decide (is_Some (services sys !! name)).

Definition mark_starting (now : Z) (sys : InitSystem) (name : string) : InitSystem * bool :=
  (modify sys name (λ s, let r := ss_run s in
     mkRuntime Starting (st_agent_id r) (st_restart_count r) (st_restart_attempts_total r)
       (st_last_exit_code r) true false false false (st_last_failure r) (st_next_restart_at r)
       (st_restart_window_started_at r) (to_rfc3339 now) (st_dependency_blocks r)),
   known sys name).

Definition mark_started (now : Z) (sys : InitSystem) (name : string) (agent_id : AgentId) : InitSystem :=
  modify sys name (λ s, let r := ss_run s in
    mkRuntime Running (Some agent_id) (st_restart_count r) (st_restart_attempts_total r)
      None true false true false None None
      (st_restart_window_started_at r) (to_rfc3339 now) (st_dependency_blocks r)).

Definition mark_ready (now : Z) (sys : InitSystem) (name : string) : InitSystem * bool :=
  match services sys !! name with
  | Some s =>
      if bool_decide (st_status (ss_run s) = Running) then
        (modify sys name (λ s, let r := ss_run s in
           mkRuntime (st_status r) (st_agent_id r) (st_restart_count r) (st_restart_attempts_total r)
             (st_last_exit_code r) (st_desired_running r) true true (st_restart_exhausted r)
             (st_last_failure r) (st_next_restart_at r) (st_restart_window_started_at r)
             (to_rfc3339 now) (st_dependency_blocks r)), true)
      else (sys, false)
  | None => (sys, false)
  end.

Definition mark_failed_reason (now : Z) (sys : InitSystem) (name : string) (exit_code : Z)
    (reason : string) : InitSystem :=
  modify sys name (λ s, let r := ss_run s in
    mkRuntime Failed (st_agent_id r) (st_restart_count r) (st_restart_attempts_total r)
      (Some exit_code) (st_desired_running r) false false (st_restart_exhausted r)
      (Some reason) (st_next_restart_at r) (st_restart_window_started_at r)
      (to_rfc3339 now) (st_dependency_blocks r)).

Definition mark_failed (now : Z) (sys : InitSystem) (name : string) (exit_code : Z) : InitSystem :=
  mark_failed_reason now sys name exit_code "service failed".

Definition mark_stopping (now : Z) (sys : InitSystem) (name : string) : InitSystem * bool :=
  (modify sys name (λ s, let r := ss_run s in
     mkRuntime Stopping (st_agent_id r) (st_restart_count r) (st_restart_attempts_total r)
       (st_last_exit_code r) (st_desired_running r) false (st_healthy r) (st_restart_exhausted r)
       (st_last_failure r) (st_next_restart_at r) (st_restart_window_started_at r)
       (to_rfc3339 now) (st_dependency_blocks r)),
   known sys name).

Definition mark_stopped_with_desired (now : Z) (sys : InitSystem) (name : string) (desired : bool)
    : InitSystem * bool :=
  (modify sys name (λ s, let r := ss_run s in
     mkRuntime Inactive None (st_restart_count r) (st_restart_attempts_total r)
       (Some 0) desired false false false (st_last_failure r) None
       (st_restart_window_started_at r) (to_rfc3339 now) (st_dependency_blocks r)),
   known sys name).

Definition mark_stopped (now : Z) (sys : InitSystem) (name : string) : InitSystem * bool :=
  mark_stopped_with_desired now sys name false.

Definition policy_restarts (s : ServiceState) : bool :=
  match sc_restart (sd_service (ss_def s)) with
  | Always => true
  | OnFailure => match st_last_exit_code (ss_run s) with Some c => negb (c =? 0) | None => false end
  | Never => false
  end.

Definition should_restart (sys : InitSystem) (name : string) : bool :=
  match services sys !! name with
  | Some s =>
      if negb (st_desired_running (ss_run s)) || st_restart_exhausted (ss_run s)
         || (sc_max_restarts (sd_service (ss_def s)) <=? st_restart_count (ss_run s))
      then false else policy_restarts s
  | None => false
  end.

Definition record_restart (now : Z) (sys : InitSystem) (name : string) : InitSystem :=
  modify sys name (λ s, let r := ss_run s in
    mkRuntime Restarting (st_agent_id r) (sat_add32 (st_restart_count r) 1)
      (sat_add64 (st_restart_attempts_total r) 1) (st_last_exit_code r) (st_desired_running r)
      false false (st_restart_exhausted r) (st_last_failure r) None
      (st_restart_window_started_at r) (to_rfc3339 now) (st_dependency_blocks r)).

Definition reset_restart_budget (now : Z) (sys : InitSystem) (name : string) : InitSystem :=
  modify sys name (λ s, let r := ss_run s in
    mkRuntime (st_status r) (st_agent_id r) 0 (st_restart_attempts_total r)
      None (st_desired_running r) (st_ready r) (st_healthy r) false (st_last_failure r) None None
      (to_rfc3339 now) (st_dependency_blocks r)).

Definition clear_instance_for_restart (now : Z) (sys : InitSystem) (name : string) : InitSystem :=
  modify sys name (λ s, let r := ss_run s in
    mkRuntime Restarting None (st_restart_count r) (st_restart_attempts_total r)
      (st_last_exit_code r) (st_desired_running r) false false (st_restart_exhausted r)
      (st_last_failure r) (st_next_restart_at r) (st_restart_window_started_at r)
      (to_rfc3339 now) (st_dependency_blocks r)).

Definition clear_instance (now : Z) (sys : InitSystem) (name : string) : InitSystem :=
  modify sys name (λ s, let r := ss_run s in
    mkRuntime (st_status r) None (st_restart_count r) (st_restart_attempts_total r)
      (st_last_exit_code r) (st_desired_running r) false false (st_restart_exhausted r)
      (st_last_failure r) (st_next_restart_at r) (st_restart_window_started_at r)
      (to_rfc3339 now) (st_dependency_blocks r)).

(** [chrono::Duration::milliseconds(i64::try_from(ms).unwrap_or(i64::MAX))], in nanoseconds. *)
Definition millis (ms : Z) : Z := Z.min ms 9223372036854775807 * 1000000.

(** The clock is read once for the due time and once for the transition. *)
Definition defer_restart (now now' : Z) (sys : InitSystem) (name : string) (delay : Z) (reason : string)
    : InitSystem :=
  modify sys name (λ s, let r := ss_run s in
    mkRuntime Restarting (st_agent_id r) (st_restart_count r) (st_restart_attempts_total r)
      (st_last_exit_code r) (st_desired_running r) (st_ready r) (st_healthy r) (st_restart_exhausted r)
      (Some reason) (Some (to_rfc3339 (now + millis delay))) (st_restart_window_started_at r)
      (to_rfc3339 now') (st_dependency_blocks r)).

(** [u64::from_be_bytes] of the first eight bytes. *)
Definition be_u64 (bytes : list Z) : Z := foldl (λ acc b, acc * 256 + b) 0 (take 8 bytes).

Definition deterministic_jitter (name : string) (attempt : Z) : Z :=
  be_u64 (sha256 (name +:+ ":" +:+ pretty attempt)).

(** The restart delay of an attempt: exponential, jittered and capped. *)
Definition restart_delay (c : ServiceConfig) (name : string) (count : Z) : Z :=
  let exponent := Z.min count 31 in
  let base := Z.min (Z.min u64_max (sc_restart_delay_ms c * Z.shiftl 1 exponent)) (sc_restart_max_delay_ms c) in
  let jitter :=
    if sc_restart_jitter_ms c =? 0 then 0
    else deterministic_jitter name count mod sat_add64 (sc_restart_jitter_ms c) 1 in
  Z.min (sat_add64 base jitter) (sc_restart_max_delay_ms c).

(** Whether the restart window of the state has expired at [now]. *)
Definition window_expired (now : Z) (s : ServiceState) : bool :=
  match st_restart_window_started_at (ss_run s) ≫= parse_from_rfc3339 with
  | Some started => millis (sc_restart_window_ms (sd_service (ss_def s))) <? now - started
  | None => true
  end.

(** The state after the window test. *)
Definition roll_window (now : Z) (s : ServiceState) : ServiceRuntime :=
  let r := ss_run s in
  if window_expired now s then
    mkRuntime (st_status r) (st_agent_id r) 0 (st_restart_attempts_total r) (st_last_exit_code r)
      (st_desired_running r) (st_ready r) (st_healthy r) false (st_last_failure r)
      (st_next_restart_at r) (Some (to_rfc3339 now)) (st_last_transition_at r) (st_dependency_blocks r)
  else r.

Definition exhausted_message (c : ServiceConfig) : string :=
  "restart limit exhausted: " +:+ pretty (sc_max_restarts c) +:+ " attempts within "
  +:+ pretty (sc_restart_window_ms c) +:+ "ms".

(** One service's part of [schedule_restart]: the new runtime and the delay. *)
Definition schedule_state (now : Z) (name : string) (s : ServiceState) : ServiceRuntime * option Z :=
  if negb (st_desired_running (ss_run s)) then (ss_run s, None)
  else if negb (policy_restarts s) then (ss_run s, None)
  else
    let c := sd_service (ss_def s) in
    let r := roll_window now s in
    if sc_max_restarts c <=? st_restart_count r then
      (mkRuntime (st_status r) (st_agent_id r) (st_restart_count r) (st_restart_attempts_total r)
         (st_last_exit_code r) (st_desired_running r) (st_ready r) (st_healthy r) true
         (Some (exhausted_message c)) None (st_restart_window_started_at r) (to_rfc3339 now)
         (st_dependency_blocks r), None)
    else
      let delay := restart_delay c name (st_restart_count r) in
      (mkRuntime Restarting (st_agent_id r) (st_restart_count r) (st_restart_attempts_total r)
         (st_last_exit_code r) (st_desired_running r) (st_ready r) (st_healthy r)
         (st_restart_exhausted r) (st_last_failure r) (Some (to_rfc3339 (now + millis delay)))
         (st_restart_window_started_at r) (to_rfc3339 now) (st_dependency_blocks r), Some delay).

Definition schedule_restart (sys : InitSystem) (name : string) (now : Z) : InitSystem * option Z :=
  match services sys !! name with
  | None => (sys, None)
  | Some s => (modify sys name (λ s, (schedule_state now name s).1), (schedule_state now name s).2)
  end.

Definition restart_due (sys : InitSystem) (name : string) (now : Z) : bool :=
  match (services sys !! name ≫= λ s, st_next_restart_at (ss_run s)) ≫= parse_from_rfc3339 with
  | Some t => t <=? now
  | None => false
  end.

Definition record_dependency_block (now : Z) (sys : InitSystem) (name : string) (reason : string)
    : InitSystem :=
  modify sys name (λ s, let r := ss_run s in
    mkRuntime (st_status r) (st_agent_id r) (st_restart_count r) (st_restart_attempts_total r)
      (st_last_exit_code r) (st_desired_running r) false false (st_restart_exhausted r)
      (Some reason) (st_next_restart_at r) (st_restart_window_started_at r) (to_rfc3339 now)
      (sat_add64 (st_dependency_blocks r) 1)).

Definition changed_message : string :=
  "configuration changed while the supervisor was offline; rolling restart required".

Definition restored (row : ServiceRuntimeInfo) (s : ServiceState) : ServiceRuntime :=
  let r := ss_run s in let i := ri_run row in
  if negb (bool_decide (ri_definition_revision row = EmptyString))
     && negb (bool_decide (ri_definition_revision row = ss_definition_revision s))
  then
    mkRuntime Failed (st_agent_id i) (st_restart_count i) (st_restart_attempts_total r)
      (st_last_exit_code r) (st_desired_running i) false false (st_restart_exhausted r)
      (Some changed_message) (st_next_restart_at r) (st_restart_window_started_at r)
      (st_last_transition_at r) (st_dependency_blocks r)
  else i.

Definition restore_one (sys : InitSystem) (row : ServiceRuntimeInfo) : InitSystem :=
  modify sys (ri_name row) (restored row).

Definition restore_runtime (sys : InitSystem) (runtime : list ServiceRuntimeInfo) : InitSystem :=
  foldl restore_one sys runtime.

Definition bump (b : bool) (n : Z) : Z := wrap64 (n + if b then 1 else 0).

Definition metrics_step (m : ServiceMetrics) (e : string * ServiceState) : ServiceMetrics :=
  let r := ss_run e.2 in
  mkMetrics (sm_configured m) (bump (st_desired_running r) (sm_desired m))
    (bump (bool_decide (st_status r = Running)) (sm_running m)) (bump (st_ready r) (sm_ready m))
    (bump (st_healthy r) (sm_healthy m)) (bump (bool_decide (st_status r = Failed)) (sm_failed m))
    (sat_add64 (sm_restarts_total m) (st_restart_attempts_total r))
    (sat_add64 (sm_dependency_blocks_total m) (st_dependency_blocks r)).

Definition metrics (sys : InitSystem) : ServiceMetrics :=
  foldl metrics_step (mkMetrics (Z.of_nat (size (services sys))) 0 0 0 0 0 0 0) (iter (services sys)).

Definition list_services (sys : InitSystem) : list (string * ServiceStatus) :=
  (λ e, (e.1, st_status (ss_run e.2))) <$> iter (services sys).

Definition list_runtime (sys : InitSystem) : list ServiceRuntimeInfo :=
  merge_sort info_le
    ((λ e, mkInfo e.1 (ss_run e.2) (ss_definition_revision e.2)) <$> iter (services sys)).
End init.
