(* ===== verification/BootOrder.v ===== *)
(** * The boot order of services

    The depth-first sort of [init_system.rs] computes a topological order of the services exactly when
    there is one, whatever order the hash map is traversed in, and [dependents_of] the services that
    need a given one, directly or not, in an order in which they can be stopped. *)

From S2P Require Import Prelude InitSystem.
From stdpp Require Import pretty.
#[local] Open Scope Z_scope.

(** ** Sorting and deduplication *)

Lemma elem_of_dedup l x : x ∈ dedup l ↔ x ∈ l.
Proof.
  induction l as [|y l IH]; [done|]. cbn. destruct l as [|z l]; [done|].
  case_bool_decide as Hyz; [|set_solver]. subst z. rewrite IH. set_solver.
Qed.

Lemma elem_of_sort_names l x : x ∈ sort_names l ↔ x ∈ l.
Proof. unfold sort_names. by rewrite merge_sort_Permutation. Qed.

(** Sorting forgets the order it is given. *)
Lemma sort_names_perm l l' : l ≡ₚ l' → sort_names l = sort_names l'.
Proof.
  intros Hp. unfold sort_names. apply (Sorted_unique String.le); try apply Sorted_merge_sort, _.
  by rewrite !merge_sort_Permutation.
Qed.

Implicit Types (svcs : gmap string ServiceState) (a b name : string).

(** [a] starts after [b]: both are services, and [a] names [b] or [b] wants to be before [a]. *)
Definition starts_after svcs a b : Prop :=
  ∃ sa sb, svcs !! a = Some sa ∧ svcs !! b = Some sb ∧
    (b ∈ dc_requires (sd_dependencies (ss_def sa)) ∨ b ∈ dc_wants (sd_dependencies (ss_def sa)) ∨
     b ∈ dc_after (sd_dependencies (ss_def sa)) ∨ a ∈ dc_before (sd_dependencies (ss_def sb))).

(** ** The depth-first search *)

Record order_ok svcs (order : list string) : Prop := {
  oo_nodup : NoDup order;
  oo_services a : a ∈ order → is_Some (svcs !! a);
  oo_closed l1 a l2 b : order = l1 ++ a :: l2 → starts_after svcs a b → b ∈ l1 }.

(** [stack] holds the services whose visit is under way, the latest first. *)
Record topo_ok svcs (stack : list string) (st : TopoState) : Prop := {
  to_order : order_ok svcs (tp_order st);
  to_visited : tp_visited st = list_to_set (tp_order st);
  to_visiting : tp_visiting st = list_to_set stack;
  to_stack : NoDup stack;
  to_known a : a ∈ stack → is_Some (svcs !! a);
  to_open a : a ∈ stack → a ∉ tp_order st }.

(** Each service of the stack starts after the one visited from it. *)
Fixpoint linked svcs (stack : list string) name : Prop :=
  match stack with
  | [] => True
  | parent :: stack => starts_after svcs parent name ∧ linked svcs stack parent
  end.

Lemma linked_tc svcs stack name a : linked svcs stack name → a ∈ stack → tc (starts_after svcs) a name.
Proof.
  revert name. induction stack as [|p stack IH]; intros name; cbn; [set_solver|].
  intros [Hp Hl] [->|Ha]%elem_of_cons; [by constructor|]. eapply tc_r; [|done]. by apply IH.
Qed.

Lemma stack_bound svcs stack :
  NoDup stack → (∀ a, a ∈ stack → is_Some (svcs !! a)) → (length stack <= size svcs)%nat.
Proof.
  intros Hnd Hk. rewrite <- size_dom, <- (size_list_to_set (C:=gset string) stack) by done.
  apply subseteq_size. intros a. rewrite elem_of_list_to_set, elem_of_dom. apply Hk.
Qed.

(** What a search step that was asked for [names] establishes. *)
Definition search_post svcs (stack names : list string) (st : TopoState)
    (r : option (result InitError TopoState)) : Prop :=
  match r with
  | Some (Ok st') =>
      topo_ok svcs stack st' ∧ tp_order st `prefix_of` tp_order st' ∧
      ∀ a, a ∈ names → is_Some (svcs !! a) → a ∈ tp_order st'
  | Some (Err e) => ∃ a, e = CircularDependency a ∧ tc (starts_after svcs) a a
  | None => False
  end.

Lemma visit_deps_spec svcs stack rec deps st :
  topo_ok svcs stack st →
  (∀ dep st, dep ∈ deps → is_Some (svcs !! dep) → topo_ok svcs stack st →
     search_post svcs stack [dep] st (rec dep st)) →
  search_post svcs stack deps st (visit_deps rec svcs deps st).
Proof.
  revert st. induction deps as [|dep deps IH]; intros st Hok Hrec; cbn; [split_and!; [done..|set_solver]|].
  assert (IH' : ∀ st, topo_ok svcs stack st → search_post svcs stack deps st (visit_deps rec svcs deps st)).
  { intros st' Hok'. apply IH; [done|]. intros. apply Hrec; [by right|done..]. }
  case_bool_decide as Hdep.
  - pose proof (Hrec dep st ltac:(left) Hdep Hok) as H1. destruct (rec dep st) as [[st1|e]|]; [|done..].
    destruct H1 as (Hok1 & Hpre1 & Hin1). pose proof (IH' st1 Hok1) as H2.
    destruct (visit_deps rec svcs deps st1) as [[st2|e]|]; [|done..]. destruct H2 as (Hok2 & Hpre2 & Hin2).
    split_and!; [done|by etrans|]. intros a [->|Ha]%elem_of_cons Hk; [|by apply Hin2].
    destruct Hpre2 as [k ->]. apply elem_of_app. left. apply Hin1; [left|done].
  - pose proof (IH' st Hok) as H2. destruct (visit_deps rec svcs deps st) as [[st2|e]|]; [|done..].
    destruct H2 as (Hok2 & Hpre2 & Hin2). split_and!; [done..|].
    intros a [->|Ha]%elem_of_cons Hk; [done|by apply Hin2].
Qed.

Lemma order_snoc svcs order name :
  order_ok svcs order → is_Some (svcs !! name) → name ∉ order →
  (∀ b, starts_after svcs name b → b ∈ order) → order_ok svcs (order ++ [name]).
Proof.
  intros [Hnd Hs Hc] Hk Hni Hb. split.
  - apply NoDup_app. split_and!; [done|set_solver|by apply NoDup_singleton].
  - intros a [Ha| ->%list_elem_of_singleton]%elem_of_app; auto.
  - intros l1 a l2 b Heq Hab. destruct l2 as [|y l2 _] using rev_ind.
    + apply app_inj_tail in Heq as [-> ->]. auto.
    + rewrite app_comm_cons, app_assoc in Heq. apply app_inj_tail in Heq as [-> _]. eapply Hc; [done|exact Hab].
Qed.

Lemma topo_init_ok svcs : topo_ok svcs [] (mkTopo [] ∅ ∅).
Proof.
  split; cbn; [split|done|done|by constructor|set_solver..]; [by constructor|set_solver|].
  by intros [] ? ? ?.
Qed.

(** Entering and leaving the visit of a service. *)
Lemma topo_enter svcs stack st name :
  topo_ok svcs stack st → is_Some (svcs !! name) → name ∉ tp_visited st → name ∉ tp_visiting st →
  topo_ok svcs (name :: stack) (mkTopo (tp_order st) (tp_visited st) ({[name]} ∪ tp_visiting st)).
Proof.
  intros [Ho Hv Hvi Hs Hk Hop] Hn Hn1 Hn2. rewrite Hv, Hvi, elem_of_list_to_set in *.
  split; cbn; [done|done|done|by apply NoDup_cons|..].
  - intros a [->|Ha]%elem_of_cons; auto.
  - intros a [->|Ha]%elem_of_cons; auto.
Qed.

Lemma topo_leave svcs stack st name :
  topo_ok svcs (name :: stack) st → (∀ b, starts_after svcs name b → b ∈ tp_order st) →
  topo_ok svcs stack
    (mkTopo (tp_order st ++ [name]) ({[name]} ∪ tp_visited st) (tp_visiting st ∖ {[name]})).
Proof.
  intros [Ho Hv Hvi [Hni Hs]%NoDup_cons Hk Hop] Hb. split; cbn.
  - apply order_snoc; [done|apply Hk; left|apply Hop; left|done].
  - rewrite Hv. set_solver.
  - rewrite Hvi. cbn. set_solver.
  - done.
  - intros a Ha. apply Hk. by right.
  - intros a Ha. rewrite not_elem_of_app, list_elem_of_singleton. split; [apply Hop; by right|set_solver].
Qed.

(** [x] comes before [y] in [l]. *)
Definition precedes (l : list string) (x y : string) : Prop :=
  ∃ l1 l2 l3, l = l1 ++ x :: l2 ++ y :: l3.

(** A start order of all the services, each after what it starts after. *)
Record start_order svcs (order : list string) : Prop := {
  sto_nodup : NoDup order;
  sto_all a : a ∈ order ↔ is_Some (svcs !! a);
  sto_after a b : starts_after svcs a b → precedes order b a }.

Definition requirements_met svcs : Prop :=
  ∀ a s b, svcs !! a = Some s → b ∈ dc_requires (sd_dependencies (ss_def s)) → is_Some (svcs !! b).

Lemma order_ok_start svcs order :
  order_ok svcs order → (∀ a, is_Some (svcs !! a) → a ∈ order) → start_order svcs order.
Proof.
  intros [Hnd Hs Hc] Hall. split; [done|naive_solver|]. intros a b Hab.
  assert (Ha : a ∈ order) by (apply Hall; destruct Hab as (? & ? & ? & _); eauto).
  apply list_elem_of_split in Ha as (l1 & l2 & ->).
  pose proof (Hc l1 a l2 b eq_refl Hab) as (k1 & k2 & ->)%list_elem_of_split.
  exists k1, k2, l2. by rewrite <- app_assoc.
Qed.

Lemma precedes_index (l : list string) x y : precedes l x y →
  ∃ i j, l !! i = Some x ∧ l !! j = Some y ∧ (i < j)%nat.
Proof.
  intros (l1 & l2 & l3 & ->). exists (length l1), (length l1 + S (length l2))%nat.
  split_and!; [by apply list_lookup_middle| |lia].
  rewrite lookup_app_r by lia. replace (length l1 + S (length l2) - length l1)%nat with (S (length l2)) by lia.
  cbn. by apply list_lookup_middle.
Qed.

Lemma start_order_acyclic svcs order a : start_order svcs order → ¬ tc (starts_after svcs) a a.
Proof.
  intros [Hnd _ Haf].
  assert (Htc : ∀ x y, tc (starts_after svcs) x y →
    ∃ i j, order !! i = Some y ∧ order !! j = Some x ∧ (i < j)%nat).
  { induction 1 as [x y Hxy|x y z Hxy _ IH]; [by apply precedes_index, Haf|].
    destruct IH as (i & j & Hi & Hj & Hlt). destruct (precedes_index _ _ _ (Haf _ _ Hxy)) as (i' & j' & Hi' & Hj' & Hlt').
    rewrite NoDup_alt in Hnd. rewrite (Hnd j i' y Hj Hi') in *. exists i, j'. split_and!; [done..|lia]. }
  intros (i & j & Hi & Hj & Hlt)%Htc. rewrite NoDup_alt in Hnd. rewrite (Hnd i j a Hi Hj) in Hlt. lia.
Qed.

(** ** Dependents *)

(** [c] requires [r]. *)
Definition needs svcs (c r : string) : Prop :=
  ∃ s, svcs !! c = Some s ∧ r ∈ dc_requires (sd_dependencies (ss_def s)).

Implicit Types A : gset string.

Lemma affected_pass_mono l A : A ⊆ affected_pass l A.
Proof.
  revert A. induction l as [|e l IH]; intros A; cbn; [done|]. etrans; [|apply IH]. case_match; set_solver.
Qed.

Lemma affected_pass_step l A c s r :
  (c, s) ∈ l → r ∈ dc_requires (sd_dependencies (ss_def s)) → r ∈ A → c ∈ affected_pass l A.
Proof.
  revert A. induction l as [|e l IH]; intros A; [set_solver|]. intros [<-|Hin]%elem_of_cons Hr HA; cbn.
  - apply affected_pass_mono. rewrite (proj2 (existsb_exists _ _)); [set_solver|].
    exists r. split; [by apply list_elem_of_In|]. by apply bool_decide_eq_true.
  - apply IH; [done..|]. case_match; set_solver.
Qed.

Lemma affected_pass_sound svcs name l A :
  (∀ e, e ∈ l → svcs !! e.1 = Some e.2) → (∀ c, c ∈ A → rtc (needs svcs) c name) →
  ∀ c, c ∈ affected_pass l A → rtc (needs svcs) c name.
Proof.
  revert A. induction l as [|[c s] l IH]; intros A Hl HA; cbn; [done|]. apply IH; [intros; apply Hl; by right|].
  case_match eqn:Hex; [|done]. intros c' [->%elem_of_singleton|Hc']%elem_of_union; [|auto].
  apply existsb_exists in Hex as (r & Hr & HrA%bool_decide_eq_true). apply list_elem_of_In in Hr.
  eapply rtc_l; [|by apply HA]. exists s. split; [exact (Hl (c, s) ltac:(left))|done].
Qed.

Section order.
Variable iter : gmap string ServiceState → list (string * ServiceState).
(** A traversal visits every entry once. *)
Hypothesis iter_perm : ∀ m, iter m ≡ₚ map_to_list m.

Lemma elem_of_iter svcs name s : (name, s) ∈ iter svcs ↔ svcs !! name = Some s.
Proof using iter_perm. by rewrite iter_perm, elem_of_map_to_list. Qed.

Lemma elem_of_topo_dependencies svcs a sa b :
  svcs !! a = Some sa → is_Some (svcs !! b) →
  b ∈ topo_dependencies iter svcs a sa ↔ starts_after svcs a b.
Proof using iter_perm.
  intros Ha [sb Hb]. unfold topo_dependencies. rewrite elem_of_dedup, elem_of_sort_names, !elem_of_app.
  assert (Hbefore : b ∈ (retain (λ c, existsb (λ before, bool_decide (before = a))
    (dc_before (sd_dependencies (ss_def c.2)))) (iter svcs)).*1 ↔ a ∈ dc_before (sd_dependencies (ss_def sb))).
  { rewrite list_elem_of_fmap. split.
    - intros ([b' s] & -> & [Hin Hex]%elem_of_retain). cbn in *. apply elem_of_iter in Hin.
      assert (s = sb) as -> by congruence. apply existsb_exists in Hex as (x & Hx & Heq).
      apply bool_decide_eq_true in Heq as ->. by apply list_elem_of_In.
    - intros Hin. exists (b, sb). split; [done|]. apply elem_of_retain. split; [by apply elem_of_iter|].
      apply existsb_exists. exists a. split; [by apply list_elem_of_In|]. by apply bool_decide_eq_true. }
  rewrite Hbefore. unfold starts_after. split; [naive_solver|].
  intros (? & ? & ? & ? & ?). simplify_eq. naive_solver.
Qed.

Lemma topo_sort_spec svcs fuel stack name st :
  is_Some (svcs !! name) → topo_ok svcs stack st → linked svcs stack name →
  (size svcs < fuel + length stack)%nat →
  search_post svcs stack [name] st (topo_sort iter fuel svcs name st).
Proof using iter_perm.
  revert stack name st. induction fuel as [|fuel IH]; intros stack name st Hn Hok Hl Hf.
  { pose proof (stack_bound svcs stack (to_stack _ _ _ Hok) (to_known _ _ _ Hok)). lia. }
  cbn [topo_sort]. case_bool_decide as Hvd.
  { split_and!; [done..|]. intros a ->%list_elem_of_singleton _.
    rewrite (to_visited _ _ _ Hok) in Hvd. by apply elem_of_list_to_set in Hvd. }
  case_bool_decide as Hvg.
  { exists name. split; [done|]. apply (linked_tc svcs stack); [done|].
    rewrite (to_visiting _ _ _ Hok) in Hvg. by apply elem_of_list_to_set in Hvg. }
  destruct Hn as [s Hs]. rewrite Hs. pose proof (topo_enter _ _ _ name Hok (mk_is_Some _ _ Hs) Hvd Hvg) as Hok1.
  set (st1 := mkTopo _ _ _) in *.
  pose proof (visit_deps_spec svcs (name :: stack) (topo_sort iter fuel svcs)
    (topo_dependencies iter svcs name s) st1 Hok1) as Hvisit.
  specialize (Hvisit ltac:(intros dep st' Hdep Hkd Hok'; apply IH; [done..| |cbn; lia];
    split; [by eapply elem_of_topo_dependencies|done])).
  destruct (visit_deps _ _ _ _) as [[st2|e]|]; [|done..]. destruct Hvisit as (Hok2 & Hpre & Hin).
  split_and!.
  - apply topo_leave; [done|]. intros b Hb. assert (Hkb : is_Some (svcs !! b)) by (destruct Hb as (? & ? & ? & ? & ?); eauto).
    apply Hin; [|done]. by eapply elem_of_topo_dependencies.
  - cbn in *. by apply prefix_app_r.
  - intros a ->%list_elem_of_singleton _. cbn. set_solver.
Qed.

Lemma topo_names_spec svcs fuel names st :
  (∀ a, a ∈ names → is_Some (svcs !! a)) → topo_ok svcs [] st → (size svcs < fuel)%nat →
  search_post svcs [] names st (topo_names iter fuel svcs names st).
Proof using iter_perm.
  revert st. induction names as [|name names IH]; intros st Hn Hok Hf; cbn; [split_and!; [done..|set_solver]|].
  pose proof (topo_sort_spec svcs fuel [] name st (Hn _ ltac:(left)) Hok I ltac:(cbn; lia)) as H1.
  destruct (topo_sort _ _ _ _ _) as [[st1|e]|]; [|done..]. destruct H1 as (Hok1 & Hpre1 & Hin1).
  pose proof (IH st1 ltac:(intros; apply Hn; by right) Hok1 Hf) as H2.
  destruct (topo_names _ _ _ _ _) as [[st2|e]|]; [|done..]. destruct H2 as (Hok2 & Hpre2 & Hin2).
  split_and!; [done|by etrans|]. intros a [->|Ha]%elem_of_cons Hk; [|by apply Hin2].
  destruct Hpre2 as [k ->]. apply elem_of_app. left. apply Hin1; [left|done].
Qed.

Lemma missing_requirement_spec svcs :
  match missing_requirement iter svcs with
  | Some (a, b) =>
      ∃ s, svcs !! a = Some s ∧ b ∈ dc_requires (sd_dependencies (ss_def s)) ∧ svcs !! b = None
  | None => requirements_met svcs
  end.
Proof using iter_perm.
  unfold missing_requirement. destruct (find_first _ _) as [[a b]|] eqn:Hf.
  - apply find_first_elem in Hf as [Hin Hb]. cbn in Hb.
    apply list_elem_of_In, in_concat in Hin as (l & Hl & Hab). apply list_elem_of_In in Hl, Hab.
    apply list_elem_of_fmap in Hl as ([a' s] & -> & He%elem_of_iter).
    apply list_elem_of_fmap in Hab as (b' & [= -> ->] & Hb'). cbn in *. exists s. split_and!; [done..|].
    apply negb_true_iff, bool_decide_eq_false in Hb. by apply eq_None_not_Some.
  - apply find_first_None in Hf. intros a s b Ha Hb. rewrite Forall_forall in Hf.
    specialize (Hf (a, b)). cbn in Hf. rewrite negb_false_iff, bool_decide_eq_true in Hf. apply Hf.
    apply list_elem_of_In, in_concat. exists (pair a <$> dc_requires (sd_dependencies (ss_def s))).
    split; apply list_elem_of_In; [|by apply list_elem_of_fmap_2].
    apply (list_elem_of_fmap_2 (λ e, (pair e.1) <$> dc_requires (sd_dependencies (ss_def e.2))) _ (a, s)).
    by apply elem_of_iter.
Qed.

Lemma resolve_spec (sys : InitSystem) :
  match resolve_boot_order iter sys with
  | Some (Ok sys') =>
      services sys' = services sys ∧ allowed_secret_refs sys' = allowed_secret_refs sys ∧
      requirements_met (services sys) ∧ start_order (services sys) (boot_order sys')
  | Some (Err (MissingRequirement a b)) =>
      ∃ s, services sys !! a = Some s ∧ b ∈ dc_requires (sd_dependencies (ss_def s)) ∧
        services sys !! b = None
  | Some (Err (CircularDependency a)) =>
      requirements_met (services sys) ∧ tc (starts_after (services sys)) a a
  | _ => False
  end.
Proof using iter_perm.
  unfold resolve_boot_order. pose proof (missing_requirement_spec (services sys)) as Hm.
  destruct (missing_requirement _ _) as [[a b]|]; [done|].
  assert (Hn : ∀ a, a ∈ sort_names (iter (services sys)).*1 ↔ is_Some (services sys !! a)).
  { intros a. rewrite elem_of_sort_names, list_elem_of_fmap. split.
    - intros ([a' s] & -> & He%elem_of_iter). eauto.
    - intros [s Hs]. exists (a, s). split; [done|]. by apply elem_of_iter. }
  pose proof (topo_names_spec (services sys) (topo_fuel (services sys)) (sort_names (iter (services sys)).*1)
    (mkTopo [] ∅ ∅) ltac:(naive_solver) (topo_init_ok _) ltac:(unfold topo_fuel; lia)) as H.
  destruct (topo_names _ _ _ _ _) as [[st|e]|]; [|by destruct H as (a & -> & Hc)|done].
  destruct H as (Hok & _ & Hin). cbn. split_and!; [done..|]. apply order_ok_start; [apply Hok|].
  intros a Ha. apply Hin; [by apply Hn|done].
Qed.

(** The loop ends with the least set that holds [name] and every service requiring one of its members. *)
Lemma affected_loop_spec svcs name fuel A :
  name ∈ A → (∀ c, c ∈ A → rtc (needs svcs) c name) → A ⊆ {[name]} ∪ dom svcs →
  (size svcs + 2 <= size A + fuel)%nat →
  ∃ B, affected_loop iter fuel svcs A = Some B ∧ ∀ c, c ∈ B ↔ rtc (needs svcs) c name.
Proof using iter_perm.
  revert A. induction fuel as [|fuel IH]; intros A Hn HA Hsub Hf.
  { apply subseteq_size in Hsub. rewrite size_union_alt, size_singleton, size_difference_alt in Hsub.
    rewrite size_dom in Hsub. lia. }
  cbn. set (B := affected_pass (iter svcs) A).
  assert (Hl : ∀ e, e ∈ iter svcs → svcs !! e.1 = Some e.2) by (intros [c s]; apply elem_of_iter).
  assert (HB : ∀ c, c ∈ B → rtc (needs svcs) c name) by by apply affected_pass_sound.
  assert (HAB : A ⊆ B) by apply affected_pass_mono.
  case_bool_decide as Hsz.
  - assert (Heq : A = B).
    { apply leibniz_equiv, set_subseteq_size_equiv; [done|lia]. }
    exists B. split; [done|]. intros c. split; [auto|]. induction 1 as [c|c r name' (s & Hs & Hr) _ IHc]; [set_solver|].
    apply (affected_pass_step _ _ c s r); [by apply elem_of_iter|done|]. rewrite Heq. auto.
  - apply IH; [set_solver|done| |].
    + intros c Hc. apply HB, rtc_inv in Hc as [->|(r & (s & Hs & _) & _)]; [set_solver|].
      apply elem_of_union_r, elem_of_dom. eauto.
    + apply subseteq_size in HAB. lia.
Qed.
End order.

(** ** Traversal independence *)

Section traversals.
Variable iter iter' : gmap string ServiceState → list (string * ServiceState).
Hypothesis iter_perm : ∀ m, iter m ≡ₚ map_to_list m.
Hypothesis iter_perm' : ∀ m, iter' m ≡ₚ map_to_list m.

Lemma retain_perm {B : Type} (f : B → bool) (l l' : list B) : l ≡ₚ l' → retain f l ≡ₚ retain f l'.
Proof using Type. induction 1; cbn; repeat case_match; try done; by econstructor. Qed.

Lemma topo_dependencies_iter svcs name s :
  topo_dependencies iter svcs name s = topo_dependencies iter' svcs name s.
Proof using iter_perm iter_perm'.
  unfold topo_dependencies. f_equal. apply sort_names_perm. do 3 f_equiv. apply fmap_Permutation, retain_perm.
  by rewrite iter_perm, iter_perm'.
Qed.

Lemma topo_sort_iter fuel svcs name st : topo_sort iter fuel svcs name st = topo_sort iter' fuel svcs name st.
Proof using iter_perm iter_perm'.
  revert name st. induction fuel as [|fuel IH]; intros name st; cbn; [done|].
  assert (Hv : ∀ deps st, visit_deps (topo_sort iter fuel svcs) svcs deps st
    = visit_deps (topo_sort iter' fuel svcs) svcs deps st).
  { induction deps as [|d deps IHd]; intros st'; cbn; [done|]. rewrite IH. repeat case_match; auto. }
  destruct (svcs !! name); [|done]. by rewrite topo_dependencies_iter, Hv.
Qed.

Lemma topo_names_iter fuel svcs names st : topo_names iter fuel svcs names st = topo_names iter' fuel svcs names st.
Proof using iter_perm iter_perm'.
  revert st. induction names as [|n names IH]; intros st; cbn; [done|]. rewrite topo_sort_iter.
  repeat case_match; auto.
Qed.
End traversals.

(** ** Systems with the same definitions *)

Definition same_defs (m m' : gmap string ServiceState) : Prop := ∀ a, ss_def <$> m !! a = ss_def <$> m' !! a.

#[global] Instance same_defs_equivalence : Equivalence same_defs.
Proof. split; [done|by intros ? ? H a|intros ? ? ? H H' a; by rewrite H]. Qed.

Lemma starts_after_defs svcs a b :
  starts_after svcs a b ↔ ∃ da db, ss_def <$> svcs !! a = Some da ∧ ss_def <$> svcs !! b = Some db ∧
    (b ∈ dc_requires (sd_dependencies da) ∨ b ∈ dc_wants (sd_dependencies da) ∨
     b ∈ dc_after (sd_dependencies da) ∨ a ∈ dc_before (sd_dependencies db)).
Proof.
  unfold starts_after. split.
  - intros (sa & sb & -> & -> & H). by exists (ss_def sa), (ss_def sb).
  - intros (da & db & (sa & Ha & ->)%fmap_Some_1 & (sb & Hb & ->)%fmap_Some_1 & H). eauto.
Qed.

Lemma needs_defs svcs c r :
  needs svcs c r ↔ ∃ d, ss_def <$> svcs !! c = Some d ∧ r ∈ dc_requires (sd_dependencies d).
Proof.
  unfold needs. split.
  - intros (s & -> & H). by exists (ss_def s).
  - intros (d & (s & Hs & ->)%fmap_Some_1 & H). eauto.
Qed.

#[global] Instance starts_after_proper : Proper (same_defs ==> (=) ==> (=) ==> iff) starts_after.
Proof. intros m m' H a ? <- b ? <-. rewrite !starts_after_defs. unfold same_defs in H. by rewrite !H. Qed.

#[global] Instance needs_proper : Proper (same_defs ==> (=) ==> (=) ==> iff) needs.
Proof. intros m m' H a ? <- b ? <-. rewrite !needs_defs. unfold same_defs in H. by rewrite !H. Qed.

Lemma same_defs_is_Some m m' a : same_defs m m' → is_Some (m !! a) ↔ is_Some (m' !! a).
Proof. intros H. unfold same_defs in H. by rewrite <- !(fmap_is_Some ss_def), H. Qed.

#[global] Instance start_order_proper : Proper (same_defs ==> (=) ==> iff) start_order.
Proof.
  assert (Hd : ∀ m m' o, same_defs m m' → start_order m o → start_order m' o).
  { intros m m' o H [Hn Ha Hf]. split; [done| |].
    - intros a. by rewrite <- (same_defs_is_Some m m' a H).
    - intros a b. rewrite <- H. apply Hf. }
  intros m m' H o ? <-. split; by apply Hd.
Qed.

#[global] Instance requirements_met_proper : Proper (same_defs ==> iff) requirements_met.
Proof.
  assert (Hd : ∀ m m', same_defs m m' → requirements_met m → requirements_met m').
  { intros m m' H Hr a s b Hs Hb. rewrite <- (same_defs_is_Some m m' b H).
    assert (needs m a b) as (s' & Hs' & Hb'); [rewrite H; by exists s|]. by eapply Hr. }
  intros m m' H. split; by apply Hd.
Qed.

(** ** Histories of the supervisor's state *)

(** Every operation that changes the state, with the clock readings it makes. *)
Inductive InitEvent :=
| IvReplace (now : Z) (ds : list ServiceDef)
| IvSecrets (refs : list string)
| IvStarting (now : Z) (name : string)
| IvStarted (now : Z) (name : string) (agent : Z)
| IvReady (now : Z) (name : string)
| IvFailed (now : Z) (name : string) (code : Z) (reason : string)
| IvStopping (now : Z) (name : string)
| IvStopped (now : Z) (name : string) (desired : bool)
| IvRecordRestart (now : Z) (name : string)
| IvResetBudget (now : Z) (name : string)
| IvClearForRestart (now : Z) (name : string)
| IvClear (now : Z) (name : string)
| IvDefer (now now' : Z) (name : string) (delay : Z) (reason : string)
| IvSchedule (now : Z) (name : string)
| IvBlock (now : Z) (name : string) (reason : string)
| IvRestore (rows : list ServiceRuntimeInfo).

Section history.
Variable iter : gmap string ServiceState → list (string * ServiceState).
Variable to_rfc3339 : Z → string.
Variable parse_from_rfc3339 : string → option Z.
Variable sha256 : string → list Z.
Variable definition_revision : ServiceDef → string.

Definition init_exec (sys : InitSystem) (e : InitEvent) : InitSystem :=
  match e with
  | IvReplace now ds =>
      match replace_definitions iter to_rfc3339 definition_revision now sys ds with
      | Some (Ok (sys', _)) => sys'
      | _ => sys
      end
  | IvSecrets refs => match set_allowed_secret_refs iter sys refs with Ok sys' => sys' | Err _ => sys end
  | IvStarting now name => (mark_starting to_rfc3339 now sys name).1
  | IvStarted now name agent => mark_started to_rfc3339 now sys name agent
  | IvReady now name => (mark_ready to_rfc3339 now sys name).1
  | IvFailed now name code reason => mark_failed_reason to_rfc3339 now sys name code reason
  | IvStopping now name => (mark_stopping to_rfc3339 now sys name).1
  | IvStopped now name desired => (mark_stopped_with_desired to_rfc3339 now sys name desired).1
  | IvRecordRestart now name => record_restart to_rfc3339 now sys name
  | IvResetBudget now name => reset_restart_budget to_rfc3339 now sys name
  | IvClearForRestart now name => clear_instance_for_restart to_rfc3339 now sys name
  | IvClear now name => clear_instance to_rfc3339 now sys name
  | IvDefer now now' name delay reason => defer_restart to_rfc3339 now now' sys name delay reason
  | IvSchedule now name => (schedule_restart to_rfc3339 parse_from_rfc3339 sha256 sys name now).1
  | IvBlock now name reason => record_dependency_block to_rfc3339 now sys name reason
  | IvRestore rows => restore_runtime sys rows
  end.

(** The definitions, the order and the admitted secrets of two systems agree. *)
Definition same_graph (sys sys' : InitSystem) : Prop :=
  same_defs (services sys) (services sys') ∧ boot_order sys = boot_order sys' ∧
  allowed_secret_refs sys = allowed_secret_refs sys'.

Lemma modify_graph sys name f : same_graph (modify sys name f) sys.
Proof using Type.
  unfold modify. destruct (services sys !! name) as [s|] eqn:Hs; [|done]. split_and!; [|done..].
  intros a. cbn. destruct (decide (name = a)) as [<-|]; [by rewrite lookup_insert_eq, Hs|by rewrite lookup_insert_ne].
Qed.

Lemma same_graph_trans s1 s2 s3 : same_graph s1 s2 → same_graph s2 s3 → same_graph s1 s3.
Proof using Type. intros (H & Hb & Hr) (H' & Hb' & Hr'). split_and!; [by etrans|by etrans..]. Qed.

Lemma restore_graph sys rows : same_graph (restore_runtime sys rows) sys.
Proof using Type.
  revert sys. induction rows as [|r rows IH]; intros sys; cbn; [done|].
  eapply same_graph_trans; [apply IH|apply modify_graph].
Qed.

(** Every other operation than a reload or a change of the admitted secrets keeps the graph. *)
Lemma exec_graph sys e :
  match e with
  | IvReplace _ _ | IvSecrets _ => True
  | _ => same_graph (init_exec sys e) sys
  end.
Proof using Type.
  destruct e; cbn; try done; try apply modify_graph; [|unfold schedule_restart|apply restore_graph].
  - unfold mark_ready. repeat case_match; try done. apply modify_graph.
  - case_match; [apply modify_graph|done].
Qed.

(** ** Valid definitions *)

(** Validation looks at the system only for the admitted secrets. *)
Lemma validate_secrets sys sys' d :
  validate_definition sys d = Ok tt →
  (∀ r, r ∈ pc_secret_refs (sd_policy d) → r ∈ allowed_secret_refs sys') →
  validate_definition sys' d = Ok tt.
Proof using Type.
  unfold validate_definition. cbv zeta.
  repeat match goal with
  | |- context [ensure ?b ?e ≫= _] => destruct (ensure b e) as [[]|]; cbn [mbind result_bind]; [|done]
  | |- context [match ?o with Some _ => _ | None => Ok tt end ≫= _] =>
      destruct (match o with Some _ => _ | None => Ok tt end) as [[]|]; cbn [mbind result_bind]; [|done]
  end.
  destruct (token_budget_per_minute d); cbn [mbind result_bind]; [|done].
  destruct (find_first (bad_secret (allowed_secret_refs sys)) _) eqn:Hf; [done|]. intros _ Hall.
  rewrite (proj2 (find_first_None (bad_secret (allowed_secret_refs sys')) _)); [done|].
  apply find_first_None in Hf. rewrite Forall_forall in *. intros r Hr. specialize (Hf r Hr). specialize (Hall r Hr).
  unfold bad_secret in *. bool_hyps. rewrite (bool_decide_true (r ∈ allowed_secret_refs sys')) by done.
  by repeat match goal with H : _ = false |- _ => rewrite H; clear H end.
Qed.

(** Services are stored under their names, and their definitions pass validation. *)
Definition defs_ok (sys : InitSystem) : Prop :=
  ∀ n s, services sys !! n = Some s → sd_name (ss_def s) = n ∧ validate_definition sys (ss_def s) = Ok tt.

Record init_ok (sys : InitSystem) : Prop := {
  io_defs : defs_ok sys;
  io_met : requirements_met (services sys);
  io_order : start_order (services sys) (boot_order sys) }.

Lemma validate_ext sys sys' d :
  allowed_secret_refs sys = allowed_secret_refs sys' → validate_definition sys d = validate_definition sys' d.
Proof using Type. intros H. unfold validate_definition. by rewrite H. Qed.

Lemma defs_ok_graph sys sys' : same_graph sys sys' → defs_ok sys' → defs_ok sys.
Proof using Type.
  intros (Hd & _ & Hr) Hok n s Hs. specialize (Hd n). rewrite Hs in Hd. cbn in Hd. symmetry in Hd.
  apply fmap_Some_1 in Hd as (s' & Hs' & Heq). rewrite Heq, (validate_ext sys sys') by done. by apply Hok.
Qed.

Lemma init_ok_graph sys sys' : same_graph sys sys' → init_ok sys' → init_ok sys.
Proof using Type.
  intros Hg [Hd Hm Ho]. split; [by eapply defs_ok_graph|..]; destruct Hg as (Hs & Hb & _).
  - by rewrite Hs.
  - by rewrite Hs, Hb.
Qed.

Lemma load_all_ok now sys ds sys' :
  defs_ok sys → load_all to_rfc3339 definition_revision now sys ds = Ok sys' →
  defs_ok sys' ∧ allowed_secret_refs sys' = allowed_secret_refs sys.
Proof using Type.
  revert sys. induction ds as [|d ds IH]; intros sys Hok; cbn [load_all]; [by intros [= <-]|].
  intros ([] & Hv & ([] & _ & Hl)%bind_Ok)%bind_Ok. apply IH in Hl as [Hok' ->]; [done|].
  intros n s. cbn. rewrite (validate_ext (load_service _ _ _ _ _) sys) by done.
  intros [[<- <-]|[_ Hs]]%lookup_insert_Some; [done|by apply Hok].
Qed.

Lemma retain_services_defs old new : same_defs (retain_services old new) new.
Proof using Type.
  intros a. unfold retain_services. rewrite map_lookup_imap. destruct (new !! a) as [s|]; cbn; [|done].
  by destruct (old !! a).
Qed.

Lemma defs_ok_secrets sys refs sys' :
  set_allowed_secret_refs iter sys refs = Ok sys' → (∀ m, iter m ≡ₚ map_to_list m) → defs_ok sys → defs_ok sys'.
Proof using Type.
  unfold set_allowed_secret_refs. destruct (find_first _ _) as [[]|] eqn:Hf; [done|]. intros [= <-] Hit Hok n s Hs.
  destruct (Hok n s Hs) as [Hn Hv]. split; [done|]. eapply validate_secrets; [done|]. cbn. intros r Hr.
  apply find_first_None in Hf. rewrite Forall_forall in Hf. specialize (Hf (sd_name (ss_def s), r)).
  cbn in Hf. rewrite negb_false_iff, bool_decide_eq_true in Hf. apply Hf.
  apply list_elem_of_In, in_concat. exists (pair (sd_name (ss_def s)) <$> pc_secret_refs (sd_policy (ss_def s))).
  split; apply list_elem_of_In; [|by apply list_elem_of_fmap_2].
  apply (list_elem_of_fmap_2 (λ e, (pair (sd_name (ss_def e.2))) <$> pc_secret_refs (sd_policy (ss_def e.2))) _ (n, s)).
  by apply elem_of_iter.
Qed.

Lemma init_exec_ok sys e : (∀ m, iter m ≡ₚ map_to_list m) → init_ok sys → init_ok (init_exec sys e).
Proof using Type.
  intros Hit Hok. pose proof (exec_graph sys e) as Hg.
  destruct e; try (by eapply init_ok_graph); clear Hg; cbn.
  - unfold replace_definitions. destruct (load_all _ _ _ _ _) as [repl|] eqn:Hl; [|done].
    apply load_all_ok in Hl as [Hd Hr]; [|by intros ? ?].
    pose proof (resolve_spec iter Hit repl) as Hres. destruct (resolve_boot_order _ _) as [[repl'|]|]; [|done..].
    destruct Hres as (Hs' & Hr' & Hm & Ho).
    apply (init_ok_graph _ (mkInit (services repl) (boot_order repl') (allowed_secret_refs repl))).
    { split_and!; cbn; [|done..]. rewrite Hs'. apply retain_services_defs. }
    split; cbn; [|done..]. intros n s Hs. rewrite (validate_ext _ repl) by done. by apply Hd.
  - destruct (set_allowed_secret_refs _ _ _) as [sys'|] eqn:Hse; [|done].
    pose proof (defs_ok_secrets _ _ _ Hse Hit (io_defs _ Hok)) as Hd. destruct Hok.
    unfold set_allowed_secret_refs in Hse. destruct (find_first _ _) as [[]|]; [done|]. injection Hse as <-.
    by split.
Qed.

Lemma init_run_ok es : (∀ m, iter m ≡ₚ map_to_list m) → init_ok (foldl init_exec init_new es).
Proof using Type.
  intros Hit. assert (Hrun : ∀ sys, init_ok sys → init_ok (foldl init_exec sys es)).
  { induction es as [|e es IH]; intros sys Hok; cbn; [done|]. by apply IH, init_exec_ok. }
  apply Hrun. split; [by intros ? ?|by intros ? ? ?|]. split; cbn; [by constructor| |].
  - intros a. rewrite lookup_empty. split; [set_solver|by intros [? ?]].
  - intros a b (? & ? & Ha & _). by rewrite lookup_empty in Ha.
Qed.
End history.

(** C27. Resolving the boot order always finishes.  It gives an order in which every service occurs
    once and after everything it requires, wants or follows, whenever there is one; otherwise it names
    a requirement that is no service, or a service that starts after itself.  The order does not
    depend on how the hash map is traversed. *)
Theorem boot_order_correct (iter iter' : gmap string ServiceState → list (string * ServiceState))
    (Hiter : ∀ m, iter m ≡ₚ map_to_list m) (Hiter' : ∀ m, iter' m ≡ₚ map_to_list m) (sys : InitSystem) :
  let svcs := services sys in
  match resolve_boot_order iter sys with
  | Some (Ok sys') =>
      resolve_boot_order iter' sys = Some (Ok sys') ∧
      services sys' = svcs ∧ requirements_met svcs ∧ start_order svcs (boot_order sys') ∧
      ∀ a, ¬ tc (starts_after svcs) a a
  | Some (Err (MissingRequirement a b)) =>
      ∃ s, svcs !! a = Some s ∧ b ∈ dc_requires (sd_dependencies (ss_def s)) ∧ svcs !! b = None
  | Some (Err (CircularDependency a)) => requirements_met svcs ∧ tc (starts_after svcs) a a
  | _ => False
  end.
Proof.
  intros svcs. pose proof (resolve_spec iter Hiter sys) as H.
  destruct (resolve_boot_order iter sys) as [[sys'|e]|] eqn:Hr; [|exact H..].
  destruct H as (Hs & Ha & Hm & Ho). split_and!; [|done..|by intros a; eapply start_order_acyclic].
  rewrite <- Hr. unfold resolve_boot_order.
  pose proof (missing_requirement_spec iter Hiter svcs) as H1.
  pose proof (missing_requirement_spec iter' Hiter' svcs) as H2. fold svcs.
  destruct (missing_requirement iter svcs) as [[a b]|].
  { destruct H1 as (s & Hsa & Hb & Hn). destruct (Hm a s b Hsa Hb) as [? Hsb]. by rewrite (Hn : services sys !! b = None) in Hsb. }
  destruct (missing_requirement iter' svcs) as [[a b]|].
  { destruct H2 as (s & Hsa & Hb & Hn). destruct (Hm a s b Hsa Hb) as [? Hsb]. by rewrite (Hn : services sys !! b = None) in Hsb. }
  rewrite (topo_names_iter iter iter') by done.
  by rewrite (sort_names_perm (iter svcs).*1 (iter' svcs).*1) by (by rewrite Hiter, Hiter').
Qed.

(** ** An example system *)

Definition example_def (name : string) (deps : DependencyConfig) : ServiceDef :=
  mkDef name None (mkExec "mock" "You are a service." [] None) service_config_default deps
    (mkResources (Some "60000/hour") None None None) policy_default health_default.

(** [log] wants to start before [db]; [web] wants a [cache] that is not configured. *)
Definition example_defs : list ServiceDef :=
  [example_def "web" (mkDeps ["api"] ["cache"] [] []);
   example_def "api" (mkDeps ["db"] [] [] []);
   example_def "db" dependency_default;
   example_def "log" (mkDeps [] [] [] ["db"])].

Definition example_services : gmap string ServiceState :=
  list_to_map ((λ d, (sd_name d, mkState d (runtime_new pretty 0) "r")) <$> example_defs).

Definition example_init : InitSystem := mkInit example_services [] ∅.

Definition backwards (m : gmap string ServiceState) : list (string * ServiceState) := reverse (map_to_list m).

Lemma boot_order_correct_witness :
  (∀ m, backwards m ≡ₚ map_to_list m) ∧
  resolve_boot_order map_to_list example_init
    = Some (Ok (mkInit example_services ["log"; "db"; "api"; "web"] ∅)) ∧
  resolve_boot_order backwards example_init
    = Some (Ok (mkInit example_services ["log"; "db"; "api"; "web"] ∅)) ∧
  start_order example_services ["log"; "db"; "api"; "web"].
Proof.
  assert (Hb : ∀ m, backwards m ≡ₚ map_to_list m) by (intros m; apply reverse_Permutation).
  assert (Hr : resolve_boot_order map_to_list example_init
    = Some (Ok (mkInit example_services ["log"; "db"; "api"; "web"] ∅))) by (vm_compute; reflexivity).
  pose proof (boot_order_correct map_to_list backwards (λ m, reflexivity _) Hb example_init) as H.
  cbv zeta in H. rewrite Hr in H. destruct H as (H1 & _ & _ & H2 & _).
  exact (conj Hb (conj Hr (conj H1 H2))).
Defined.

(** After any history of reloads and transitions, [dependents_of] finishes and lists
    exactly the services that need the named one, directly or through others, itself included, each
    once, and each before every service it requires, so that stopping them in this order never takes
    away a requirement of a service still to be stopped. *)
Theorem dependents_of_correct (iter : gmap string ServiceState → list (string * ServiceState))
    (to_rfc3339 : Z → string) (parse_from_rfc3339 : string → option Z) (sha256 : string → list Z)
    (definition_revision : ServiceDef → string)
    (Hiter : ∀ m, iter m ≡ₚ map_to_list m) (es : list InitEvent) (name : string) :
  let sys := foldl (init_exec iter to_rfc3339 parse_from_rfc3339 sha256 definition_revision) init_new es in
  ∃ l, dependents_of iter sys name = Some l ∧ NoDup l ∧
    (∀ c, c ∈ l ↔ is_Some (services sys !! c) ∧ rtc (needs (services sys)) c name) ∧
    (∀ c d, c ∈ l → d ∈ l → needs (services sys) c d → precedes l c d).
Proof.
  intros sys. destruct (init_run_ok iter to_rfc3339 parse_from_rfc3339 sha256 definition_revision es Hiter)
    as [_ Hm [Hnd Hall Haf]]. fold sys in Hm, Hnd, Hall, Haf.
  destruct (affected_loop_spec iter Hiter (services sys) name (affected_fuel (services sys)) {[name]})
    as (B & HB & Hin).
  { set_solver. }
  { by intros c ->%elem_of_singleton. }
  { set_solver. }
  { rewrite size_singleton. unfold affected_fuel. lia. }
  unfold dependents_of. rewrite HB. cbn. eexists. split; [done|]. unfold reverse_boot_order. split_and!.
  - apply NoDup_retain. by rewrite reverse_Permutation.
  - intros c. rewrite elem_of_retain, bool_decide_eq_true, elem_of_reverse, Hall, Hin. done.
  - intros c d [Hc HcB]%elem_of_retain [Hd HdB]%elem_of_retain (s & Hs & Hr).
    assert (Hcd : starts_after (services sys) c d).
    { destruct (Hm c s d Hs Hr) as [sd Hsd]. exists s, sd. split_and!; [done..|]. by left. }
    destruct (Haf c d Hcd) as (l1 & l2 & l3 & ->).
    rewrite reverse_app, reverse_cons, reverse_app, reverse_cons, <- !app_assoc, !retain_app. cbn -[reverse].
    rewrite HcB, HdB. eexists _, _, _. done.
Qed.

Lemma dependents_of_correct_witness :
  (∀ m, backwards m ≡ₚ map_to_list m) ∧
  let sys := foldl (init_exec backwards pretty (λ _, None) (λ _, []) (λ _, "r")) init_new
               [IvReplace 1 example_defs; IvStarted 2 "db" 7; IvFailed 3 "db" 1 "oom"] in
  dependents_of backwards sys "db" = Some ["web"; "api"; "db"] ∧
  ∃ l, dependents_of backwards sys "db" = Some l ∧ NoDup l ∧
    (∀ c, c ∈ l ↔ is_Some (services sys !! c) ∧ rtc (needs (services sys)) c "db") ∧
    (∀ c d, c ∈ l → d ∈ l → needs (services sys) c d → precedes l c d).
Proof.
  assert (Hb : ∀ m, backwards m ≡ₚ map_to_list m) by (intros m; apply reverse_Permutation).
  split; [exact Hb|]. split; [vm_compute; reflexivity|].
  exact (dependents_of_correct backwards pretty (λ _, None) (λ _, []) (λ _, "r") Hb
    [IvReplace 1 example_defs; IvStarted 2 "db" 7; IvFailed 3 "db" 1 "oom"] "db").
Defined.
