(* ===== verification/Restart.v ===== *)
(** * Restart policy and durable service state

    The delays, the attempt budget and the due times of [schedule_restart], and the round trip of the
    runtime rows of [init_system.rs] through storage. *)

From S2P Require Import Prelude InitSystem BootOrder.
From stdpp Require Import pretty.
From Stdlib Require Import Ascii.
#[local] Open Scope Z_scope.

(** The machine-integer ranges of a configuration that passed validation. *)
Record config_ok (c : ServiceConfig) : Prop := {
  co_delay : 0 <= sc_restart_delay_ms c <= sc_restart_max_delay_ms c;
  co_max_delay : sc_restart_max_delay_ms c <= 300000;
  co_jitter : 0 <= sc_restart_jitter_ms c <= sc_restart_max_delay_ms c;
  co_window : 0 <= sc_restart_window_ms c <= 3600000;
  co_max : 0 <= sc_max_restarts c <= 1000 }.

(** Validation gives the upper bounds; the lower ones are the types'. *)
Lemma validated_config sys d :
  validate_definition sys d = Ok tt → 0 <= sc_restart_delay_ms (sd_service d) →
  0 <= sc_restart_jitter_ms (sd_service d) → 0 <= sc_restart_window_ms (sd_service d) →
  0 <= sc_max_restarts (sd_service d) → config_ok (sd_service d).
Proof.
  unfold validate_definition. intros Hv. do 9 (apply bind_Ok in Hv as ([] & _ & Hv)).
  apply bind_Ok in Hv as ([] & Hr & _). apply ensure_Ok in Hr. unfold bad_restart in Hr. bool_hyps.
  rewrite !Z.ltb_ge in *. intros. split; lia.
Qed.

(** What an attempt does to the budget: the window is rolled when it has none or when it is over, and
    the attempt is granted while the count is below the limit. *)
Definition roll (t : Z) (b : ServiceConfig * Z * option Z) : ServiceConfig * Z * option Z :=
  let '(c, n, o) := b in
  match o with
  | Some w => if millis (sc_restart_window_ms c) <? t - w then (c, 0, Some t) else b
  | None => (c, 0, Some t)
  end.

(** ** The log of granted attempts *)

Definition in_window (w : Z) (e : Z * Z) : bool := e.2 =? w.

Definition apart (width : Z) (e e' : Z * Z) : Prop := e.2 = e'.2 ∨ e.2 + width < e'.2 ∨ e'.2 + width < e.2.

Record log_ok (width limit : Z) (log : list (Z * Z)) : Prop := {
  lo_within e : e ∈ log → e.2 <= e.1 <= e.2 + width;
  lo_apart e e' : e ∈ log → e' ∈ log → apart width e e';
  lo_limit w : Z.of_nat (count_if (in_window w) log) <= limit }.

(** The state of the budget against the log, at a time not before any attempt. *)
Definition budget_ok (c : ServiceConfig) (now : Z) (log : list (Z * Z)) (b : ServiceConfig * Z * option Z) : Prop :=
  let '(c', n, o) := b in
  c' = c ∧
  match o with
  | None => log = []
  | Some w => w <= now ∧ Z.of_nat (count_if (in_window w) log) <= n ∧
      ∀ e, e ∈ log → e.2 = w ∨ e.2 + millis (sc_restart_window_ms c) < w
  end.

Lemma millis_nonneg ms : 0 <= ms → 0 <= millis ms.
Proof. unfold millis. lia. Qed.

Lemma count_zero_window log w : (∀ e, e ∈ log → e.2 ≠ w) → count_if (in_window w) log = O.
Proof. intros Hw. apply count_zero. intros e He. by apply Z.eqb_neq, Hw. Qed.

Lemma roll_ok c now t log b :
  config_ok c → now <= t → log_ok (millis (sc_restart_window_ms c)) (sc_max_restarts c) log →
  budget_ok c now log b → budget_ok c t log (roll t b).
Proof.
  intros Hc Ht Hlog. destruct b as [[c' n] [w|]]; cbn -[count_if]; intros [-> Hb].
  - pose proof (millis_nonneg (sc_restart_window_ms c) ltac:(apply Hc)).
    destruct (Z.ltb_spec (millis (sc_restart_window_ms c)) (t - w)); cbn -[count_if].
    + destruct Hb as (Hw & _ & Hall). split_and!; [done|lia| |].
      * rewrite count_zero_window; [lia|]. intros e He. specialize (Hall e He). lia.
      * intros e He. right. specialize (Hall e He). lia.
    + split; [done|]. destruct Hb as (Hw & ? & ?). split_and!; [lia|done..].
  - subst log. split_and!; [done|lia|cbn; lia|set_solver].
Qed.

(** A granted attempt extends the log. *)
Lemma grant_ok c t log n w :
  config_ok c → log_ok (millis (sc_restart_window_ms c)) (sc_max_restarts c) log →
  budget_ok c t log (c, n, Some w) → n < sc_max_restarts c → t <= w + millis (sc_restart_window_ms c) →
  log_ok (millis (sc_restart_window_ms c)) (sc_max_restarts c) ((t, w) :: log) ∧
  budget_ok c t ((t, w) :: log) (c, n + 1, Some w).
Proof.
  intros Hc [Hin Hap Hlim] (_ & Hw & Hn & Hall) Hlt Ht.
  assert (Hcnt : ∀ w', Z.of_nat (count_if (in_window w') ((t, w) :: log))
    = (if w =? w' then 1 else 0) + Z.of_nat (count_if (in_window w') log)).
  { intros w'. rewrite count_cons. unfold in_window at 1. cbn [snd]. case_match; lia. }
  split; [split|split_and!].
  - intros e [->|He]%elem_of_cons; [cbn; lia|auto].
  - unfold apart in *. intros e e' [->|He]%elem_of_cons [->|He']%elem_of_cons; cbn; [lia|..|auto].
    + specialize (Hall _ He'). lia.
    + specialize (Hall _ He). lia.
  - intros w'. rewrite Hcnt. specialize (Hlim w'). destruct (Z.eqb_spec w w') as [<-|]; lia.
  - done.
  - done.
  - rewrite Hcnt, Z.eqb_refl. lia.
  - intros e [->|He]%elem_of_cons; [by left|auto].
Qed.

Lemma roll_within c t b : config_ok c → b.1.1 = c →
  ∃ n w, roll t b = (c, n, Some w) ∧ t <= w + millis (sc_restart_window_ms c) ∧ (0 <= b.1.2 → 0 <= n).
Proof.
  destruct b as [[c' n] [w|]]; cbn; intros Hc ->.
  - pose proof (millis_nonneg (sc_restart_window_ms c) ltac:(apply Hc)).
    destruct (Z.ltb_spec (millis (sc_restart_window_ms c)) (t - w)); eexists _, _; split_and!; [done|lia|lia|done|lia|done].
  - pose proof (millis_nonneg (sc_restart_window_ms c) ltac:(apply Hc)). eexists _, _. split_and!; [done|lia|done].
Qed.

Lemma count_cover {A} (f g h : A → bool) (l : list A) :
  (∀ x, x ∈ l → f x = true → g x = true ∨ h x = true) →
  (count_if f l <= count_if g l + count_if h l)%nat.
Proof.
  induction l as [|x l IH]; intros Hx; [done|]. rewrite !count_cons.
  pose proof (IH ltac:(intros; apply Hx; [by right|done])). pose proof (Hx x ltac:(left)).
  destruct (f x), (g x), (h x); try lia; naive_solver.
Qed.

Definition granted_in (a width : Z) (e : Z * Z) : bool := (a <=? e.1) && (e.1 <=? a + width).

(** Any stretch of time as long as the window meets at most two windows. *)
Lemma log_sliding width limit log a :
  0 <= limit → log_ok width limit log →
  Z.of_nat (count_if (granted_in a width) log) <= 2 * limit.
Proof.
  intros Hl [Hin Hap Hlim].
  destruct (find_first (granted_in a width) log) as [e1|] eqn:H1.
  2: { apply find_first_None in H1. rewrite (proj2 (count_zero _ _)); [lia|]. by apply Forall_forall. }
  apply find_first_elem in H1 as [He1 Hg1].
  set (other := λ e, granted_in a width e && negb (in_window e1.2 e)).
  assert (Hcov : ∃ w2, ∀ e, e ∈ log → granted_in a width e = true →
    in_window e1.2 e = true ∨ in_window w2 e = true).
  { destruct (find_first other log) as [e2|] eqn:H2.
    - apply find_first_elem in H2 as [He2 Hg2]. unfold other in Hg2. bool_hyps. exists e2.2. intros e He Hg.
      unfold in_window, granted_in, apart in *. bool_hyps. rewrite !Z.leb_le, !Z.eqb_eq, ?Z.eqb_neq in *.
      pose proof (Hin _ He). pose proof (Hin _ He1). pose proof (Hin _ He2).
      pose proof (Hap _ _ He He1). pose proof (Hap _ _ He He2). pose proof (Hap _ _ He1 He2). lia.
    - exists 0. intros e He Hg. left. apply find_first_None in H2. rewrite Forall_forall in H2.
      specialize (H2 e He). unfold other in H2. rewrite Hg in H2. cbn in H2. by apply negb_false_iff in H2. }
  destruct Hcov as [w2 Hcov]. pose proof (count_cover _ _ _ log Hcov).
  pose proof (Hlim e1.2). pose proof (Hlim w2). lia.
Qed.

Section restart.
Variable iter : gmap string ServiceState → list (string * ServiceState).
Variable to_rfc3339 : Z → string.
Variable parse_from_rfc3339 : string → option Z.
Variable sha256 : string → list Z.
Variable definition_revision : ServiceDef → string.
(** A printed instant is parsed back. *)
Hypothesis rfc3339_roundtrip : ∀ t, parse_from_rfc3339 (to_rfc3339 t) = Some t.

Abbreviation schedule := (schedule_restart to_rfc3339 parse_from_rfc3339 sha256).
Abbreviation delay_of := (restart_delay sha256).

(** ** Delays *)

Lemma restart_delay_bounds c name count :
  config_ok c → 0 <= count →
  Z.min (sc_restart_delay_ms c * 2 ^ Z.min count 31) (sc_restart_max_delay_ms c)
    <= delay_of c name count <= sc_restart_max_delay_ms c.
Proof using Type.
  intros [] Hc. unfold restart_delay. rewrite Z.shiftl_1_l.
  assert (0 < 2 ^ Z.min count 31) by (apply Z.pow_pos_nonneg; lia).
  assert (0 <= sc_restart_delay_ms c * 2 ^ Z.min count 31) by nia.
  set (j := if sc_restart_jitter_ms c =? 0 then 0 else _).
  assert (0 <= j).
  { unfold j. case_match; [lia|]. apply Z.mod_pos_bound. unfold sat_add64, u64_max in *. lia. }
  unfold sat_add64, u64_max. lia.
Qed.

(** ** The attempt budget *)

(** What [schedule_restart] and [record_restart] look at. *)
Definition budget (sys : InitSystem) (name : string) : option (ServiceConfig * Z * option Z) :=
  (λ s, (sd_service (ss_def s), st_restart_count (ss_run s),
         st_restart_window_started_at (ss_run s) ≫= parse_from_rfc3339)) <$> services sys !! name.

(** An operation that is not a restart of the service and does not replace its definition or its
    budget. *)
Definition keeps_budget (name : string) (e : InitEvent) : Prop :=
  match e with
  | IvReplace _ _ | IvRestore _ => False
  | IvResetBudget _ n | IvRecordRestart _ n | IvSchedule _ n => n ≠ name
  | _ => True
  end.

Lemma modify_budget sys n f name :
  n ≠ name ∨ (∀ s, st_restart_count (f s) = st_restart_count (ss_run s) ∧
                   st_restart_window_started_at (f s) = st_restart_window_started_at (ss_run s)) →
  budget (modify sys n f) name = budget sys name.
Proof using Type.
  intros Hf. unfold budget, modify. destruct (services sys !! n) as [s|] eqn:Hs; [|done]. cbn.
  destruct (decide (n = name)) as [->|Hne]; [|by rewrite lookup_insert_ne].
  destruct Hf as [|Hf]; [done|]. rewrite lookup_insert_eq, Hs. cbn. by destruct (Hf s) as [-> ->].
Qed.

Lemma exec_budget sys name e :
  keeps_budget name e →
  budget (init_exec iter to_rfc3339 parse_from_rfc3339 sha256 definition_revision sys e) name = budget sys name.
Proof using Type.
  destruct e; cbn; intros Hk; try done; try (apply modify_budget; (by left) || (by right)).
  - unfold set_allowed_secret_refs. by destruct (find_first _ _) as [[]|].
  - unfold mark_ready. repeat case_match; try done. apply modify_budget. by right.
  - unfold schedule_restart. case_match; [|done]. apply modify_budget. by left.
Qed.

(** An attempt: scheduled at [t]; when a delay is granted the restart is recorded at [t']. *)
Inductive RestartEvent := RAttempt (t t' : Z) | ROther (e : InitEvent).

(** The granted attempts, with the start of the window each was granted in. *)
Record RestartWorld := mkRW { rw_sys : InitSystem; rw_log : list (Z * Z) }.

Definition window_of (sys : InitSystem) (name : string) : option Z := budget sys name ≫= snd.

Definition restart_exec (name : string) (w : RestartWorld) (e : RestartEvent) : RestartWorld :=
  match e with
  | RAttempt t t' =>
      let '(sys, granted) := schedule (rw_sys w) name t in
      match granted with
      | None => mkRW sys (rw_log w)
      | Some _ => mkRW (record_restart to_rfc3339 t' sys name) ((t, default t (window_of sys name)) :: rw_log w)
      end
  | ROther e =>
      mkRW (init_exec iter to_rfc3339 parse_from_rfc3339 sha256 definition_revision (rw_sys w) e) (rw_log w)
  end.

Lemma budget_insert sys name s :
  budget (mkInit (<[name := s]> (services sys)) (boot_order sys) (allowed_secret_refs sys)) name =
  Some (sd_service (ss_def s), st_restart_count (ss_run s),
        st_restart_window_started_at (ss_run s) ≫= parse_from_rfc3339).
Proof using Type. unfold budget. cbn. by rewrite lookup_insert_eq. Qed.

Lemma roll_window_budget t s :
  (sd_service (ss_def s), st_restart_count (roll_window to_rfc3339 parse_from_rfc3339 t s),
   st_restart_window_started_at (roll_window to_rfc3339 parse_from_rfc3339 t s) ≫= parse_from_rfc3339)
  = roll t (sd_service (ss_def s), st_restart_count (ss_run s),
            st_restart_window_started_at (ss_run s) ≫= parse_from_rfc3339).
Proof using rfc3339_roundtrip.
  unfold roll_window, window_expired, roll. destruct (st_restart_window_started_at (ss_run s) ≫= _) as [w|] eqn:Hw.
  - case_match; cbn -[mbind]; [cbn; by rewrite rfc3339_roundtrip|by rewrite Hw].
  - cbn. by rewrite rfc3339_roundtrip.
Qed.

Lemma schedule_budget sys name t b :
  budget sys name = Some b →
  let '(sys', granted) := schedule sys name t in
  match granted with
  | None => budget sys' name = Some b ∨ budget sys' name = Some (roll t b)
  | Some d => budget sys' name = Some (roll t b) ∧ (roll t b).1.2 < sc_max_restarts b.1.1 ∧
              d = delay_of b.1.1 name (roll t b).1.2
  end.
Proof using rfc3339_roundtrip.
  unfold schedule_restart, modify. intros Hb. pose proof Hb as Hb'. unfold budget in Hb'.
  destruct (services sys !! name) as [s|]; [|done]. cbn in Hb'. injection Hb' as Hb'.
  pose proof (roll_window_budget t s) as Hr. rewrite Hb' in Hr.
  unfold schedule_state. destruct (negb (st_desired_running (ss_run s))); [left; by rewrite budget_insert, <- Hb'|].
  destruct (negb (policy_restarts s)); [left; by rewrite budget_insert, <- Hb'|].
  set (r := roll_window to_rfc3339 parse_from_rfc3339 t s) in *.
  destruct (Z.leb_spec (sc_max_restarts (sd_service (ss_def s))) (st_restart_count r)) as [Hle|Hlt].
  - right. rewrite budget_insert. by rewrite <- Hr.
  - rewrite budget_insert, <- Hr, <- Hb'. cbn. done.
Qed.

Lemma record_budget sys name t c n o :
  budget sys name = Some (c, n, o) → 0 <= n < 1000 →
  budget (record_restart to_rfc3339 t sys name) name = Some (c, n + 1, o).
Proof using Type.
  unfold record_restart, modify. intros Hb Hn. pose proof Hb as Hb'. unfold budget in Hb'.
  destruct (services sys !! name) as [s|]; [|done]. cbn in Hb'. injection Hb' as <- <- <-.
  rewrite budget_insert. cbn. do 3 f_equal. unfold sat_add32, u32_max. lia.
Qed.

(** ** Histories *)

(** Times of the attempts never go back, and the other operations keep the budget. *)
Fixpoint restarts_ok (name : string) (now : Z) (es : list RestartEvent) : Prop :=
  match es with
  | [] => True
  | RAttempt t _ :: es => now <= t ∧ restarts_ok name t es
  | ROther e :: es => keeps_budget name e ∧ restarts_ok name now es
  end.

Definition restart_ok (name : string) (c : ServiceConfig) (now : Z) (w : RestartWorld) : Prop :=
  log_ok (millis (sc_restart_window_ms c)) (sc_max_restarts c) (rw_log w) ∧
  ∃ b, budget (rw_sys w) name = Some b ∧ 0 <= b.1.2 ∧ budget_ok c now (rw_log w) b.

Lemma budget_ok_later c now now' log b : now <= now' → budget_ok c now log b → budget_ok c now' log b.
Proof using Type. destruct b as [[c' n] [w|]]; cbn; [|done]. intros ? (-> & ? & ?). split; [done|split; [lia|done]]. Qed.

Lemma restart_exec_ok name c now w e :
  config_ok c → restart_ok name c now w → restarts_ok name now [e] →
  restart_ok name c (match e with RAttempt t _ => t | ROther _ => now end) (restart_exec name w e).
Proof using rfc3339_roundtrip.
  intros Hc (Hlog & b & Hb & Hn & Hbo). destruct e as [t t'|e]; cbn -[schedule_restart budget_ok].
  - intros [Ht _]. pose proof (schedule_budget (rw_sys w) name t b Hb) as Hs.
    destruct (schedule (rw_sys w) name t) as [sys [d|]].
    + destruct Hs as (Hb' & Hlt & _). pose proof (roll_ok c now t _ _ Hc Ht Hlog Hbo) as Hr.
      assert (b.1.1 = c) as Hbc by (by destruct b as [[? ?] [?|]]; destruct Hbo).
      destruct (roll_within c t b Hc Hbc) as (n & s & Hroll & Hw & Hn'). rewrite Hroll, Hbc in *.
      destruct (grant_ok c t _ n s Hc Hlog Hr Hlt Hw) as [Hlog' Hbo']. unfold window_of. rewrite Hb'.
      split; [done|]. exists (c, n + 1, Some s). cbn [rw_sys rw_log]. split_and!; [|cbn in *; lia|done].
      apply record_budget; [done|]. cbn in Hlt. destruct Hc. lia.
    + split; [done|]. destruct Hs as [Hb'|Hb'].
      * exists b. split_and!; [done..|]. by eapply budget_ok_later.
      * exists (roll t b). split_and!; [done| |by eapply roll_ok].
        assert (b.1.1 = c) as Hbc by (by destruct b as [[? ?] [?|]]; destruct Hbo).
        destruct (roll_within c t b Hc Hbc) as (n & s & -> & _ & Hn'). cbn. auto.
  - intros [Hk _]. split; [done|]. exists b. cbn [rw_sys rw_log]. by rewrite exec_budget.
Qed.

Lemma restart_run_ok name c now w es :
  config_ok c → restart_ok name c now w → restarts_ok name now es →
  ∃ now', restart_ok name c now' (foldl (restart_exec name) w es).
Proof using rfc3339_roundtrip.
  intros Hc. revert now w. induction es as [|e es IH]; intros now w Hok Hes; [by exists now|]. cbn [foldl].
  apply (IH (match e with RAttempt t _ => t | ROther _ => now end)); [|by destruct e; destruct Hes].
  apply restart_exec_ok; [done..|]. by destruct e; destruct Hes.
Qed.
End restart.


(** A granted restart of a wanted, restartable service waits at least the doubled delay of
    its attempt, capped by and never longer than the configured maximum, and becomes due exactly
    then.  A refusal leaves the state as it is when the service is not to be restarted, and otherwise
    marks the budget exhausted, after which nothing becomes due. *)
Theorem schedule_restart_correct (to_rfc3339 : Z → string) (parse_from_rfc3339 : string → option Z)
    (sha256 : string → list Z) (Hrfc : ∀ t, parse_from_rfc3339 (to_rfc3339 t) = Some t)
    (sys : InitSystem) (name : string) (s : ServiceState) (now : Z)
    (Hs : services sys !! name = Some s) (Hc : config_ok (sd_service (ss_def s)))
    (Hn : 0 <= st_restart_count (ss_run s)) :
  let c := sd_service (ss_def s) in
  let wanted := st_desired_running (ss_run s) && policy_restarts s in
  let count := st_restart_count (roll_window to_rfc3339 parse_from_rfc3339 now s) in
  let '(sys', granted) := schedule_restart to_rfc3339 parse_from_rfc3339 sha256 sys name now in
  match granted with
  | Some d =>
      wanted = true ∧ count < sc_max_restarts c ∧
      Z.min (sc_restart_delay_ms c * 2 ^ Z.min count 31) (sc_restart_max_delay_ms c)
        <= d <= sc_restart_max_delay_ms c ∧
      status sys' name = Some Restarting ∧
      ∀ t, restart_due parse_from_rfc3339 sys' name t = (now + d * 1000000 <=? t)
  | None =>
      if wanted then
        sc_max_restarts c <= count ∧ should_restart sys' name = false ∧
        ∀ t, restart_due parse_from_rfc3339 sys' name t = false
      else sys' = sys
  end.
Proof.
  intros c wanted count. fold c in Hc. unfold schedule_restart, modify. rewrite Hs.
  assert (Hcount : 0 <= count).
  { unfold count, roll_window. by case_match. }
  unfold schedule_state, wanted. fold c count.
  destruct (st_desired_running (ss_run s)) eqn:Hd; cbn [negb andb].
  2: { destruct sys, s. cbn in *. by rewrite insert_id. }
  destruct (policy_restarts s) eqn:Hp; cbn [negb andb].
  2: { destruct sys, s. cbn in *. by rewrite insert_id. }
  destruct (Z.leb_spec (sc_max_restarts c) count).
  - split; [done|]. unfold should_restart, restart_due. cbn. rewrite lookup_insert_eq. cbn.
    split; [|done]. by rewrite orb_true_r.
  - pose proof (restart_delay_bounds sha256 c name count Hc Hcount) as Hb. split_and!; [done..|apply Hb|apply Hb| |].
    + unfold status. cbn. by rewrite lookup_insert_eq.
    + intros t. unfold restart_due. cbn. rewrite lookup_insert_eq. cbn. rewrite Hrfc. f_equal.
      assert (0 <= restart_delay sha256 c name count <= 300000).
      { destruct Hc. assert (0 <= sc_restart_delay_ms c * 2 ^ Z.min count 31); [|lia].
        apply Z.mul_nonneg_nonneg; [lia|]. apply Z.pow_nonneg. lia. }
      unfold millis. lia.
Qed.

(** ** An example clock notation *)

Fixpoint show_pos (p : positive) : string :=
  match p with
  | xH => EmptyString
  | xO p => String "0"%char (show_pos p)
  | xI p => String "1"%char (show_pos p)
  end.

Fixpoint read_pos (s : string) : positive :=
  match s with
  | EmptyString => xH
  | String c s => if bool_decide (c = "0"%char) then xO (read_pos s) else xI (read_pos s)
  end.

Definition show_time (t : Z) : string :=
  match t with
  | 0 => EmptyString
  | Zpos p => String "+"%char (show_pos p)
  | Zneg p => String "-"%char (show_pos p)
  end.

Definition read_time (s : string) : option Z :=
  match s with
  | EmptyString => Some 0
  | String c s => Some (if bool_decide (c = "+"%char) then Zpos (read_pos s) else Zneg (read_pos s))
  end.

Lemma read_show_time t : read_time (show_time t) = Some t.
Proof.
  assert (Hp : ∀ p, read_pos (show_pos p) = p) by (induction p as [p IH|p IH|]; cbn; by rewrite ?IH).
  destruct t; cbn; by rewrite ?Hp.
Qed.

Definition example_loaded : InitSystem :=
  foldl (init_exec backwards show_time read_time (λ _, []) (λ _, "r")) init_new
    [IvReplace 1 example_defs; IvStarted 2 "db" 7; IvFailed 3 "db" 1 "oom"].

Definition example_attempts : list RestartEvent :=
  [RAttempt 10 11; ROther (IvStarted 12 "db" 8); ROther (IvFailed 13 "db" 1 "oom"); RAttempt 20 21;
   RAttempt 30 31; RAttempt 40 41].


Definition example_db : ServiceState :=
  mkState (example_def "db" dependency_default)
    (mkRuntime Failed (Some 7) 1 1 (Some 1) true false false false (Some "oom") None (Some (show_time 10))
       (show_time 13) 0) "r".

Definition example_alone : InitSystem := mkInit {["db" := example_db]} ["db"] ∅.

(** The second attempt of the window waits ten seconds. *)
Lemma schedule_restart_correct_witness :
  services example_alone !! "db" = Some example_db ∧ config_ok service_config_default ∧
  (schedule_restart show_time read_time (λ _, []) example_alone "db" 20).2 = Some 10000 ∧
  ∀ t, restart_due read_time (schedule_restart show_time read_time (λ _, []) example_alone "db" 20).1 "db" t
       = (20 + 10000 * 1000000 <=? t).
Proof.
  assert (Hs : services example_alone !! "db" = Some example_db) by (vm_compute; reflexivity).
  assert (Hc : config_ok service_config_default) by (split; cbn; lia).
  assert (Hg : (schedule_restart show_time read_time (λ _, []) example_alone "db" 20).2 = Some 10000)
    by (vm_compute; reflexivity).
  split; [exact Hs|split; [exact Hc|split; [exact Hg|]]].
  pose proof (schedule_restart_correct show_time read_time (λ _, []) read_show_time example_alone "db" example_db
    20 Hs Hc ltac:(cbn; lia)) as H. cbv zeta in H.
  destruct (schedule_restart show_time read_time (λ _, []) example_alone "db" 20) as [sys' granted].
  cbn [fst snd] in *. subst granted. exact (proj2 (proj2 (proj2 (proj2 H)))).
Defined.

(** ** Durable rows *)

Lemma restore_other sys rows n :
  n ∉ ri_name <$> rows → services (restore_runtime sys rows) !! n = services sys !! n.
Proof.
  revert sys. induction rows as [|r rows IH]; intros sys Hn; cbn; [done|].
  cbn in Hn. apply not_elem_of_cons in Hn as [Hne Hn].
  change (services (restore_runtime (restore_one sys r) rows) !! n = services sys !! n).
  rewrite IH by done. unfold restore_one, modify. case_match; [|done]. cbn. by rewrite lookup_insert_ne.
Qed.

Lemma restore_row sys rows r s :
  NoDup (ri_name <$> rows) → r ∈ rows → services sys !! ri_name r = Some s →
  services (restore_runtime sys rows) !! ri_name r
    = Some (mkState (ss_def s) (restored r s) (ss_definition_revision s)).
Proof.
  revert sys. induction rows as [|r' rows IH]; intros sys; [set_solver|]. cbn.
  intros [Hni Hnd]%NoDup_cons [->|Hr]%elem_of_cons Hs;
    change (foldl restore_one ?x rows) with (restore_runtime x rows).
  - rewrite restore_other by done. unfold restore_one, modify. rewrite Hs. cbn. by rewrite lookup_insert_eq.
  - apply IH; [done..|]. unfold restore_one, modify. case_match; [|done]. cbn. rewrite lookup_insert_ne; [done|].
    intros Heq. apply Hni. rewrite Heq. by apply list_elem_of_fmap_2.
Qed.

Lemma elem_of_list_runtime iter sys r :
  (∀ m, iter m ≡ₚ map_to_list m) →
  r ∈ list_runtime iter sys ↔
  ∃ s, services sys !! ri_name r = Some s ∧ r = mkInfo (ri_name r) (ss_run s) (ss_definition_revision s).
Proof.
  intros Hiter. unfold list_runtime. rewrite merge_sort_Permutation, list_elem_of_fmap. split.
  - intros ([n s] & -> & Hs%elem_of_iter); [|done]. cbn. eauto.
  - intros (s & Hs & Hr). exists (ri_name r, s). split; [done|]. by apply elem_of_iter.
Qed.

Lemma info_sorted l : StronglySorted info_le (merge_sort info_le l).
Proof.
  apply @StronglySorted_merge_sort.
  - intros a b c. unfold info_le. apply (@transitivity _ String.le _).
  - intros a b. unfold info_le. apply (total String.le).
Qed.

(** The runtime of every service forgotten and set by [f]. *)
Definition forget (f : ServiceState → ServiceRuntime) (sys : InitSystem) : InitSystem :=
  mkInit ((λ s, mkState (ss_def s) (f s) (ss_definition_revision s)) <$> services sys) (boot_order sys)
    (allowed_secret_refs sys).

(** A supervisor that starts again with the same definitions gets its state back from the
    persisted rows: restoring what [list_runtime] lists into a system that has forgotten every
    runtime field gives the system the rows were taken from, all the fields of every service
    included; and the rows are listed by name, one per service. *)
Theorem runtime_rows_roundtrip (iter : gmap string ServiceState → list (string * ServiceState))
    (Hiter : ∀ m, iter m ≡ₚ map_to_list m) (f : ServiceState → ServiceRuntime) (sys : InitSystem) :
  restore_runtime (forget f sys) (list_runtime iter sys) = sys ∧
  StronglySorted String.le (ri_name <$> list_runtime iter sys) ∧
  NoDup (ri_name <$> list_runtime iter sys).
Proof.
  assert (Hnames : ri_name <$> list_runtime iter sys ≡ₚ (map_to_list (services sys)).*1).
  { unfold list_runtime. rewrite merge_sort_Permutation, <- list_fmap_compose, Hiter. done. }
  assert (Hnd : NoDup (ri_name <$> list_runtime iter sys)) by (rewrite Hnames; apply NoDup_fst_map_to_list).
  split_and!; [|by apply (StronglySorted_fmap ri_name info_le), info_sorted|done].
  pose proof (restore_graph (forget f sys) (list_runtime iter sys)) as (_ & Hb & Hr).
  assert (Hs : services (restore_runtime (forget f sys) (list_runtime iter sys)) = services sys).
  { apply map_eq. intros n. destruct (services sys !! n) as [s|] eqn:Hn.
    - set (r := mkInfo n (ss_run s) (ss_definition_revision s)).
      assert (Hin : r ∈ list_runtime iter sys) by (apply elem_of_list_runtime; [done|]; eauto).
      rewrite (restore_row _ _ r (mkState (ss_def s) (f s) (ss_definition_revision s)) Hnd Hin)
        by (cbn; by rewrite lookup_fmap, Hn).
      cbn. unfold restored. cbn. rewrite (bool_decide_true (ss_definition_revision s = ss_definition_revision s)) by done.
      cbn. rewrite andb_false_r. by destruct s.
    - rewrite restore_other; [cbn; by rewrite lookup_fmap, Hn|]. rewrite Hnames.
      intros ([n' s] & -> & He%elem_of_map_to_list)%list_elem_of_fmap. cbn in Hn. congruence. }
  destruct (restore_runtime _ _) as [svcs order refs]. cbn in *. subst. by destruct sys.
Qed.

Lemma runtime_rows_roundtrip_witness :
  (∀ m, backwards m ≡ₚ map_to_list m) ∧
  (ri_name <$> list_runtime backwards example_loaded) = ["api"; "db"; "log"; "web"] ∧
  restore_runtime (forget (λ _, runtime_new show_time 99) example_loaded)
    (list_runtime backwards example_loaded) = example_loaded.
Proof.
  assert (Hb : ∀ m, backwards m ≡ₚ map_to_list m) by (intros m; apply reverse_Permutation).
  refine (conj Hb (conj _ _)); [vm_compute; reflexivity|].
  exact (proj1 (runtime_rows_roundtrip backwards Hb (λ _, runtime_new show_time 99) example_loaded)).
Defined.

(** ** Metrics *)

Definition run_count (f : ServiceRuntime → bool) (l : list (string * ServiceState)) : Z :=
  Z.of_nat (count_if (λ e, f (ss_run e.2)) l).

Definition run_sum (f : ServiceRuntime → Z) (l : list (string * ServiceState)) : Z :=
  zsum ((λ e, f (ss_run e.2)) <$> l).

Lemma metrics_count (g : ServiceMetrics → Z) (f : ServiceRuntime → bool) l m :
  (∀ m e, g (metrics_step m e) = bump (f (ss_run e.2)) (g m)) →
  0 <= g m → g m + Z.of_nat (length l) <= u64_max →
  g (foldl metrics_step m l) = g m + run_count f l.
Proof.
  intros Hg. revert m. induction l as [|e l IH]; intros m Hm Hl; cbn -[run_count count_if] in *.
  { unfold run_count. cbn. lia. }
  assert (Hb : g (metrics_step m e) = g m + (if f (ss_run e.2) then 1 else 0)).
  { rewrite Hg. unfold bump. apply wrap64_small. case_match; lia. }
  rewrite IH; rewrite Hb; [unfold run_count; rewrite count_cons| |]; case_match; lia.
Qed.

Lemma metrics_sum (g : ServiceMetrics → Z) (f : ServiceRuntime → Z) l m :
  (∀ m e, g (metrics_step m e) = sat_add64 (g m) (f (ss_run e.2))) →
  Forall (λ e, 0 <= f (ss_run e.2)) l → 0 <= g m <= u64_max →
  g (foldl metrics_step m l) = sat_add64 (g m) (run_sum f l).
Proof.
  intros Hg. revert m. induction l as [|e l IH]; intros m Hl Hm; cbn -[run_sum] in *.
  { unfold run_sum, sat_add64. cbn. lia. }
  apply Forall_cons in Hl as [He Hl]. rewrite IH; [|done|rewrite Hg; unfold sat_add64; lia].
  assert (0 <= run_sum f l) by (unfold run_sum; clear -Hl; induction Hl; cbn in *; lia).
  rewrite Hg. unfold run_sum in *. cbn. unfold sat_add64. lia.
Qed.

(** The service metrics count the services of each kind and add up their lifetime counters. *)
Theorem metrics_correct (iter : gmap string ServiceState → list (string * ServiceState)) (sys : InitSystem) :
  (∀ m, iter m ≡ₚ map_to_list m) → Z.of_nat (size (services sys)) <= u64_max →
  Forall (λ e, 0 <= st_restart_attempts_total (ss_run e.2) ∧ 0 <= st_dependency_blocks (ss_run e.2))
    (iter (services sys)) →
  let l := map_to_list (services sys) in
  metrics iter sys =
    mkMetrics (Z.of_nat (size (services sys))) (run_count st_desired_running l)
      (run_count (λ r, bool_decide (st_status r = Running)) l) (run_count st_ready l)
      (run_count st_healthy l) (run_count (λ r, bool_decide (st_status r = Failed)) l)
      (Z.min u64_max (run_sum st_restart_attempts_total l))
      (Z.min u64_max (run_sum st_dependency_blocks l)).
Proof.
  intros Hiter Hsz Hpos l. unfold metrics. set (m0 := mkMetrics _ 0 0 0 0 0 0 0).
  assert (Hlen : Z.of_nat (length (iter (services sys))) <= u64_max).
  { rewrite Hiter, length_map_to_list. done. }
  assert (Hcfg : ∀ l' m, sm_configured (foldl metrics_step m l') = sm_configured m).
  { induction l' as [|e l' IH]; intros m; cbn; [done|]. by rewrite IH. }
  assert (Hc : ∀ f, run_count f (iter (services sys)) = run_count f l).
  { intros f. unfold run_count. by rewrite Hiter. }
  assert (Hs : ∀ f, run_sum f (iter (services sys)) = run_sum f l).
  { intros f. unfold run_sum. by rewrite Hiter. }
  rewrite <- (Hc st_desired_running), <- (Hc st_ready), <- (Hc st_healthy), <- !Hc, <- !Hs.
  destruct (foldl metrics_step m0 (iter (services sys))) as [c d r re h f rt db] eqn:E.
  assert (Hf : ∀ g : ServiceMetrics → Z, g (foldl metrics_step m0 (iter (services sys))) = g (mkMetrics c d r re h f rt db))
    by (intros; by rewrite E).
  f_equal.
  - rewrite <- (Hf sm_configured : _ = c). apply Hcfg.
  - rewrite <- (Hf sm_desired : _ = d). by rewrite (metrics_count sm_desired st_desired_running).
  - rewrite <- (Hf sm_running : _ = r). by rewrite (metrics_count sm_running (λ r, bool_decide (st_status r = Running))).
  - rewrite <- (Hf sm_ready : _ = re). by rewrite (metrics_count sm_ready st_ready).
  - rewrite <- (Hf sm_healthy : _ = h). by rewrite (metrics_count sm_healthy st_healthy).
  - rewrite <- (Hf sm_failed : _ = f). by rewrite (metrics_count sm_failed (λ r, bool_decide (st_status r = Failed))).
  - rewrite <- (Hf sm_restarts_total : _ = rt). rewrite (metrics_sum sm_restarts_total st_restart_attempts_total);
      [done|done| |done]. eapply Forall_impl; [done|]. naive_solver.
  - rewrite <- (Hf sm_dependency_blocks_total : _ = db). rewrite (metrics_sum sm_dependency_blocks_total st_dependency_blocks);
      [done|done| |done]. eapply Forall_impl; [done|]. naive_solver.
Qed.

(** ** Reloading *)

Lemma load_all_fresh to_rfc3339 revision now sys ds sys' :
  (∀ n s, services sys !! n = Some s → st_restart_attempts_total (ss_run s) = 0) →
  load_all to_rfc3339 revision now sys ds = Ok sys' →
  ∀ n s, services sys' !! n = Some s → st_restart_attempts_total (ss_run s) = 0.
Proof.
  revert sys. induction ds as [|d ds IH]; intros sys H0; cbn [load_all]; [by intros [= <-]|].
  intros ([] & _ & ([] & _ & Hl)%bind_Ok)%bind_Ok. eapply IH; [|done]. intros n s.
  cbn. intros [[<- <-]|[_ Hs]]%lookup_insert_Some; [done|by eapply H0].
Qed.

(** A reload keeps the runtime of the services it finds again, except the lifetime restart counter,
    which is zero for every service afterwards. *)
Theorem reload_resets_lifetime_counter (iter : gmap string ServiceState → list (string * ServiceState))
    (to_rfc3339 : Z → string) (revision : ServiceDef → string) (now : Z) (sys sys' : InitSystem)
    (ds : list ServiceDef) (order : list string) (n : string) (s s' : ServiceState) :
  replace_definitions iter to_rfc3339 revision now sys ds = Some (Ok (sys', order)) →
  (∀ m, iter m ≡ₚ map_to_list m) →
  services sys !! n = Some s → services sys' !! n = Some s' →
  st_restart_attempts_total (ss_run s') = 0 ∧ st_restart_count (ss_run s') = st_restart_count (ss_run s) ∧
  st_status (ss_run s') = st_status (ss_run s) ∧ st_agent_id (ss_run s') = st_agent_id (ss_run s) ∧
  st_desired_running (ss_run s') = st_desired_running (ss_run s) ∧
  st_next_restart_at (ss_run s') = st_next_restart_at (ss_run s).
Proof.
  unfold replace_definitions. intros Hr Hiter Hs Hs'.
  destruct (load_all _ _ _ _ _) as [repl|] eqn:Hl; [|done].
  pose proof (resolve_spec iter Hiter repl) as Hres. destruct (resolve_boot_order _ _) as [[repl'|]|]; [|done..].
  destruct Hres as (Heq & _). injection Hr as <- <-. cbn in Hs'. unfold retain_services in Hs'.
  rewrite map_lookup_imap, Heq in Hs'. destruct (services repl !! n) as [s0|] eqn:H0; [|done]. cbn in Hs'.
  rewrite Hs in Hs'. injection Hs' as <-. cbn. split_and!; [|done..].
  eapply load_all_fresh; [|exact Hl|exact H0]. intros n' s1. cbn. by rewrite lookup_empty.
Qed.
