(* ===== verification/Scheduler.v ===== *)
(** * The priority scheduler

    Models [crates/kernel/src/scheduler.rs].  The two asynchronous operations are split at their await
    points: [request_resource_access] into the registration, the polls of [wait_for_turn] and the end
    of a wait that timed out or was cancelled; [schedule] into its entry, the end of a wait and the
    final admission.  Every other method is one step.  A [BinaryHeap] is the list of its entries, of
    which [peek] is the greatest; notifications only wake pollers and carry no state. *)

From S2P Require Import Prelude.
#[local] Open Scope Z_scope.

(** Agent identifiers are UUIDs, here their 128-bit values. *)
Abbreviation AgentId := Z (only parsing).
(** 1 is the highest priority and 5 the lowest. *)
Abbreviation Priority := Z (only parsing).

Definition MAX_CONCURRENT_AGENTS : Z := 10.

Definition priority_new (value : Z) : option Priority :=
  if (1 <=? value) && (value <=? 5) then Some value else None.
Definition priority_default : Priority := 3.

Inductive SchedulerError := QueueFull | AgentNotScheduled (id : AgentId) | DeadlockDetected.

(** The processor share, a constant 0.0 here, is left out. *)
Record ResourceMetrics := mkResMetrics { rm_memory_bytes : Z; rm_active_tasks : Z }.
Record SchedulerStatus := mkStatus {
  running_agents : Z;
  queued_agents : Z;
  resource_utilization : ResourceMetrics }.

(** ** Waiters *)

Record PriorityEntry := mkEntry { pe_agent : AgentId; pe_priority : Priority; pe_sequence : Z }.

#[global] Instance priority_entry_eq_dec : EqDecision PriorityEntry.
Proof. solve_decision. Defined.

(** [Ord::cmp]: a lower priority value is greater, and among equals an earlier sequence is. *)
Definition entry_cmp (a b : PriorityEntry) : comparison :=
  match pe_priority b ?= pe_priority a with
  | Eq => pe_sequence b ?= pe_sequence a
  | c => c
  end.

(** [BinaryHeap::peek]. *)
Fixpoint heap_peek (h : list PriorityEntry) : option PriorityEntry :=
  match h with
  | [] => None
  | e :: h =>
      match heap_peek h with
      | None => Some e
      | Some e' => match entry_cmp e e' with Lt => Some e' | _ => Some e end
      end
  end.

(** [BinaryHeap::pop], the greatest entry removed. *)
Definition heap_pop (h : list PriorityEntry) : list PriorityEntry :=
  match heap_peek h with
  | None => h
  | Some top =>
      match position (λ e, bool_decide (e = top)) h with Some i => remove_at i h | None => h end
  end.

(** ** State *)

Inductive AgentScheduleState := Running | Suspended | Queued.

#[global] Instance schedule_state_eq_dec : EqDecision AgentScheduleState.
Proof. solve_decision. Defined.

Record AgentScheduleInfo := mkInfo {
  as_priority : Priority;
  as_inherited_priority : option Priority;
  as_state : AgentScheduleState;
  as_throttle_delay_ms : Z }.

Record PriorityScheduler := mkSched {
  agents : gmap AgentId AgentScheduleInfo;
  holder : option AgentId;
  waiters : list PriorityEntry;
  sequence : Z;
  running_count : Z;
  under_pressure : bool }.

Definition sched_new : PriorityScheduler := mkSched ∅ None [] 0 0 false.

Definition set_agents (s : PriorityScheduler) (m : gmap AgentId AgentScheduleInfo) : PriorityScheduler :=
  mkSched m (holder s) (waiters s) (sequence s) (running_count s) (under_pressure s).
Definition set_access (s : PriorityScheduler) (h : option AgentId) (w : list PriorityEntry) : PriorityScheduler :=
  mkSched (agents s) h w (sequence s) (running_count s) (under_pressure s).
(** [fetch_add] and [fetch_sub] of the running count. *)
Definition add_running (s : PriorityScheduler) (d : Z) : PriorityScheduler :=
  mkSched (agents s) (holder s) (waiters s) (sequence s) (wrap64 (running_count s + d)) (under_pressure s).

(** [get_mut] and an update. *)
Definition with_agent (s : PriorityScheduler) (a : AgentId) (f : AgentScheduleInfo → AgentScheduleInfo)
    : PriorityScheduler :=
  set_agents s (alter f a (agents s)).

Definition set_state (st : AgentScheduleState) (i : AgentScheduleInfo) : AgentScheduleInfo :=
  mkInfo (as_priority i) (as_inherited_priority i) st (as_throttle_delay_ms i).

(** ** Priorities and throttling *)

Definition effective_priority_for (i : AgentScheduleInfo) : Priority :=
  match as_inherited_priority i with
  | Some p => if p <? as_priority i then p else as_priority i
  | None => as_priority i
  end.

Definition effective_priority (s : PriorityScheduler) (a : AgentId) : option Priority :=
  effective_priority_for <$> agents s !! a.

Definition throttle_delay (p : Priority) : Z :=
  if p =? 1 then 0 else if p =? 2 then 50 else if p =? 3 then 150
  else if p =? 4 then 300 else if p =? 5 then 500 else 0.

Definition get_throttle_delay_ms (s : PriorityScheduler) (a : AgentId) : Z :=
  default 0 (as_throttle_delay_ms <$> agents s !! a).

Definition with_throttle (d : Z) (i : AgentScheduleInfo) : AgentScheduleInfo :=
  mkInfo (as_priority i) (as_inherited_priority i) (as_state i) d.

Definition apply_throttling (s : PriorityScheduler) : PriorityScheduler :=
  set_agents s ((λ i, with_throttle (throttle_delay (effective_priority_for i)) i) <$> agents s).
Definition clear_throttling (s : PriorityScheduler) : PriorityScheduler :=
  set_agents s (with_throttle 0 <$> agents s).

Definition set_resource_pressure (s : PriorityScheduler) (pressure : bool) : PriorityScheduler :=
  let s := mkSched (agents s) (holder s) (waiters s) (sequence s) (running_count s) pressure in
  if pressure then apply_throttling s else clear_throttling s.

Definition refresh_agent_throttle (s : PriorityScheduler) (a : AgentId) : PriorityScheduler :=
  with_agent s a (λ i,
    with_throttle (if under_pressure s then throttle_delay (effective_priority_for i) else 0) i).

Definition set_inherited_priority (s : PriorityScheduler) (a : AgentId) (p : option Priority)
    : PriorityScheduler :=
  refresh_agent_throttle
    (with_agent s a (λ i, mkInfo (as_priority i) p (as_state i) (as_throttle_delay_ms i))) a.

Definition refresh_holder_inheritance (s : PriorityScheduler) : PriorityScheduler :=
  match holder s with
  | Some h => set_inherited_priority s h (pe_priority <$> heap_peek (waiters s))
  | None => s
  end.

Definition set_priority (s : PriorityScheduler) (a : AgentId) (p : Priority) : PriorityScheduler :=
  refresh_agent_throttle
    (refresh_holder_inheritance
       (with_agent s a (λ i, mkInfo p (as_inherited_priority i) (as_state i) (as_throttle_delay_ms i)))) a.

(** ** Exclusive resource access *)

(** Every entry is popped, and those of other agents are pushed back. *)
Definition remove_from_queue (s : PriorityScheduler) (a : AgentId) : PriorityScheduler :=
  set_access s (holder s) (retain (λ e, negb (pe_agent e =? a)) (waiters s)).

(** [request_resource_access] up to its wait; [true] when the agent holds the resource already. *)
Definition request_begin (s : PriorityScheduler) (a : AgentId) : PriorityScheduler * bool :=
  let priority := default priority_default (as_priority <$> agents s !! a) in
  let seq := sequence s in
  let s := mkSched (agents s) (holder s) (waiters s) (wrap64 (sequence s + 1)) (running_count s)
             (under_pressure s) in
  if bool_decide (holder s = Some a) then (s, true)
  else
    (refresh_holder_inheritance (set_access s (holder s) (mkEntry a priority seq :: waiters s)), false).

(** The agent at the front of a free resource. *)
Definition front (s : PriorityScheduler) (a : AgentId) : bool :=
  match holder s, heap_peek (waiters s) with
  | None, Some e => pe_agent e =? a
  | _, _ => false
  end.

Definition is_next_in_queue (s : PriorityScheduler) (a : AgentId) : bool :=
  bool_decide (holder s = Some a) || front s a.

(** One poll of [wait_for_turn]. *)
Definition try_acquire_resource (s : PriorityScheduler) (a : AgentId) : PriorityScheduler * bool :=
  if bool_decide (holder s = Some a) then (refresh_holder_inheritance s, true)
  else if front s a then
    (refresh_holder_inheritance (set_access s (Some a) (heap_pop (waiters s))), true)
  else (s, false).

(** The drop of a registration whose wait did not acquire: the timeout and a cancelled future. *)
Definition registration_drop (s : PriorityScheduler) (a : AgentId) : PriorityScheduler :=
  refresh_holder_inheritance (remove_from_queue s a).

Definition release_resource_access (s : PriorityScheduler) (a : AgentId) : PriorityScheduler :=
  let s := if bool_decide (holder s = Some a) then set_access s None (waiters s) else s in
  set_inherited_priority (remove_from_queue s a) a None.

(** ** Running agents *)

Definition info_default (st : AgentScheduleState) : AgentScheduleInfo := mkInfo priority_default None st 0.

Definition admit_id (s : PriorityScheduler) (a : AgentId) : PriorityScheduler :=
  set_agents s (<[a := info_default Queued]> (agents s)).

Definition set_running (s : PriorityScheduler) (a : AgentId) : PriorityScheduler :=
  match agents s !! a with
  | Some i =>
      if bool_decide (as_state i = Running) then s
      else add_running (with_agent s a (set_state Running)) 1
  | None => add_running (set_agents s (<[a := info_default Running]> (agents s))) 1
  end.

(** [set_queued] and [set_paused]: the state changes, and a running slot is given back. *)
Definition leave_running (st : AgentScheduleState) (s : PriorityScheduler) (a : AgentId) : PriorityScheduler :=
  match agents s !! a with
  | Some i =>
      let s := if bool_decide (as_state i = Running) then add_running s (-1) else s in
      with_agent s a (set_state st)
  | None => s
  end.

Definition set_queued : PriorityScheduler → AgentId → PriorityScheduler := leave_running Queued.
Definition set_paused : PriorityScheduler → AgentId → PriorityScheduler := leave_running Suspended.

Definition contains (s : PriorityScheduler) (a : AgentId) : bool := bool_decide (is_Some (agents s !! a)).

Definition schedule_state (s : PriorityScheduler) (a : AgentId) : option string :=
  (λ i, match as_state i with Running => "running" | Suspended => "paused" | Queued => "queued" end)
  <$> agents s !! a.

Definition deschedule (s : PriorityScheduler) (a : AgentId) : PriorityScheduler :=
  let s :=
    match agents s !! a with
    | Some i =>
        let s := set_agents s (delete a (agents s)) in
        if bool_decide (as_state i = Running) then add_running s (-1) else s
    | None => s
    end in
  remove_from_queue s a.

(** [schedule] up to its wait; [true] when the agent has to wait for a slot. *)
Definition schedule_begin (s : PriorityScheduler) (a : AgentId) : PriorityScheduler * bool :=
  if MAX_CONCURRENT_AGENTS <=? running_count s then
    (set_agents s (<[a := info_default Queued]> (agents s)), true)
  else (s, false).

(** A poll of [wait_for_slot]. *)
Definition slot_free (s : PriorityScheduler) : bool := running_count s <? MAX_CONCURRENT_AGENTS.

Definition schedule_timeout (s : PriorityScheduler) (a : AgentId)
    : PriorityScheduler * result SchedulerError unit :=
  (set_agents s (delete a (agents s)), Err QueueFull).

Definition schedule_commit (s : PriorityScheduler) (a : AgentId)
    : PriorityScheduler * result SchedulerError unit :=
  let s := add_running s 1 in
  (set_agents s (<[a := info_default Running]> (agents s)), Ok tt).

Definition suspend (s : PriorityScheduler) (a : AgentId) : PriorityScheduler * result SchedulerError unit :=
  match agents s !! a with
  | None => (s, Err (AgentNotScheduled a))
  | Some i =>
      if bool_decide (as_state i = Running) then
        (add_running (with_agent s a (set_state Suspended)) (-1), Ok tt)
      else (s, Err (AgentNotScheduled a))
  end.

Definition resume (s : PriorityScheduler) (a : AgentId) : PriorityScheduler * result SchedulerError unit :=
  match agents s !! a with
  | None => (s, Err (AgentNotScheduled a))
  | Some i =>
      if bool_decide (as_state i = Suspended) then
        (add_running (with_agent s a (set_state Running)) 1, Ok tt)
      else (s, Err (AgentNotScheduled a))
  end.

Definition in_state (st : AgentScheduleState) (i : AgentScheduleInfo) : bool := bool_decide (as_state i = st).

Definition get_queue_status (s : PriorityScheduler) : SchedulerStatus :=
  mkStatus (running_count s)
    (Z.of_nat (count_if (in_state Queued) (map_to_list (agents s)).*2))
    (mkResMetrics 0 (running_count s)).

(** ** Histories *)

Inductive SchedEvent :=
| SPressure (pressure : bool)
| SRequest (a : AgentId)
| SPoll (a : AgentId)
| SAbandon (a : AgentId)
| SRelease (a : AgentId)
| SPriority (a : AgentId) (p : Priority)
| SAdmit (a : AgentId)
| SRun (a : AgentId)
| SQueue (a : AgentId)
| SPause (a : AgentId)
| SDeschedule (a : AgentId)
| SScheduleBegin (a : AgentId)
| SScheduleTimeout (a : AgentId)
| SScheduleCommit (a : AgentId)
| SSuspend (a : AgentId)
| SResume (a : AgentId).

Definition sched_exec (s : PriorityScheduler) (e : SchedEvent) : PriorityScheduler :=
  match e with
  | SPressure b => set_resource_pressure s b
  | SRequest a => (request_begin s a).1
  | SPoll a => (try_acquire_resource s a).1
  | SAbandon a => registration_drop s a
  | SRelease a => release_resource_access s a
  | SPriority a p => set_priority s a p
  | SAdmit a => admit_id s a
  | SRun a => set_running s a
  | SQueue a => set_queued s a
  | SPause a => set_paused s a
  | SDeschedule a => deschedule s a
  | SScheduleBegin a => (schedule_begin s a).1
  | SScheduleTimeout a => (schedule_timeout s a).1
  | SScheduleCommit a => (schedule_commit s a).1
  | SSuspend a => (suspend s a).1
  | SResume a => (resume s a).1
  end.

Definition is_running (s : PriorityScheduler) (a : AgentId) : bool :=
  match agents s !! a with Some i => in_state Running i | None => false end.

(** An agent is (re)admitted only while it neither runs nor holds the resource; priorities are those of
    the [Priority] type. *)
Definition event_ok (s : PriorityScheduler) (e : SchedEvent) : Prop :=
  match e with
  | SAdmit a | SScheduleBegin a | SScheduleTimeout a | SScheduleCommit a =>
      is_running s a = false ∧ holder s ≠ Some a
  | SRun a => is_Some (agents s !! a) ∨ holder s ≠ Some a
  | SPriority _ p => 1 <= p <= 5
  | _ => True
  end.

Fixpoint history_ok (s : PriorityScheduler) (es : list SchedEvent) : Prop :=
  match es with
  | [] => True
  | e :: es => event_ok s e ∧ history_ok (sched_exec s e) es
  end.

Definition running_of (m : gmap AgentId AgentScheduleInfo) : Z :=
  msum (λ i, if in_state Running i then 1 else 0) m.

(** An agent's priorities are in range, and its delay is that of its effective priority under pressure
    and none otherwise; an agent admitted under pressure has none yet. *)
Definition throttle_ok (pressure : bool) (i : AgentScheduleInfo) : Prop :=
  as_throttle_delay_ms i = 0 ∨
  pressure = true ∧ as_throttle_delay_ms i = throttle_delay (effective_priority_for i).

Definition priorities_ok (i : AgentScheduleInfo) : Prop :=
  1 <= as_priority i <= 5 ∧ ∀ p, as_inherited_priority i = Some p → 1 <= p <= 5.

(** The delay of the agent [x] is about to be set. *)
Record base_ok (bound : Z) (x : option AgentId) (s : PriorityScheduler) : Prop := {
  bo_count : running_count s = running_of (agents s);
  bo_size : Z.of_nat (size (agents s)) <= bound;
  bo_priorities a i : agents s !! a = Some i → priorities_ok i;
  bo_throttle a i : agents s !! a = Some i → x = Some a ∨ throttle_ok (under_pressure s) i;
  bo_sequence : 0 <= sequence s <= bound;
  bo_waiters e : e ∈ waiters s → 1 <= pe_priority e <= 5 ∧ 0 <= pe_sequence e < sequence s;
  bo_distinct : NoDup (pe_sequence <$> waiters s) }.

(** The holder is never less urgent than a waiter. *)
Definition boost_ok (s : PriorityScheduler) : Prop :=
  ∀ h i e, holder s = Some h → agents s !! h = Some i → e ∈ waiters s →
    effective_priority_for i <= pe_priority e.

Definition sched_ok (bound : Z) (s : PriorityScheduler) : Prop := base_ok bound None s ∧ boost_ok s.

(** ** Heaps *)

(** [e] is served before [e']. *)
Definition served_first (e e' : PriorityEntry) : Prop :=
  pe_priority e < pe_priority e' ∨ pe_priority e = pe_priority e' ∧ pe_sequence e <= pe_sequence e'.

Lemma entry_cmp_spec e e' :
  match entry_cmp e e' with Lt => served_first e' e | _ => served_first e e' end.
Proof.
  unfold entry_cmp, served_first.
  destruct (Z.compare_spec (pe_priority e') (pe_priority e)); [|lia..].
  destruct (Z.compare_spec (pe_sequence e') (pe_sequence e)); lia.
Qed.

Lemma heap_peek_Some h e : heap_peek h = Some e → e ∈ h ∧ ∀ e', e' ∈ h → served_first e e'.
Proof.
  revert e. induction h as [|x h IH]; intros e; cbn; [done|].
  assert (Hrefl : ∀ y, served_first y y) by (unfold served_first; lia).
  destruct (heap_peek h) as [y|] eqn:Hy.
  - destruct (IH y eq_refl) as [Hin Hall]. pose proof (entry_cmp_spec x y) as Hc.
    destruct (entry_cmp x y); intros [= <-].
    all: split; [set_solver|]; intros e' [->|He']%elem_of_cons; try done; try by apply Hall.
    all: specialize (Hall _ He'); unfold served_first in *; lia.
  - intros [= <-]. split; [left|]. intros e' [->|He']%elem_of_cons; [done|].
    destruct h; [set_solver|]. cbn in Hy. repeat case_match; done.
Qed.

Lemma heap_peek_None h : heap_peek h = None → h = [].
Proof. destruct h as [|x h]; [done|]. cbn. repeat case_match; done. Qed.

Lemma heap_pop_perm h e : heap_peek h = Some e → h ≡ₚ e :: heap_pop h.
Proof.
  intros Hp. unfold heap_pop. rewrite Hp. destruct (heap_peek_Some _ _ Hp) as [Hin _].
  destruct (position _ h) as [i|] eqn:Hi.
  - apply position_Some in Hi as (l1 & x & l2 & -> & -> & ->%bool_decide_eq_true & _).
    rewrite remove_at_app. by rewrite Permutation_middle.
  - apply position_None in Hi. rewrite Forall_forall in Hi. specialize (Hi e Hin).
    by apply bool_decide_eq_false in Hi.
Qed.

(** ** Preservation *)

Lemma running_update m a i i' :
  m !! a = Some i →
  running_of (<[a := i']> m) = running_of m - (if in_state Running i then 1 else 0)
    + (if in_state Running i' then 1 else 0).
Proof. intros Hi. unfold running_of. by rewrite (msum_update _ _ _ _ _ Hi). Qed.

Lemma running_new m a i :
  m !! a = None → running_of (<[a := i]> m) = running_of m + (if in_state Running i then 1 else 0).
Proof. intros Hi. unfold running_of. rewrite msum_insert by done. lia. Qed.

Lemma running_gone m a i :
  m !! a = Some i → running_of (delete a m) = running_of m - (if in_state Running i then 1 else 0).
Proof. intros Hi. unfold running_of. rewrite (msum_delete _ _ _ _ Hi). lia. Qed.

Lemma running_bounds m : 0 <= running_of m <= Z.of_nat (size m).
Proof.
  unfold running_of. split; [apply msum_nonneg; intros; case_match; lia|].
  induction m as [|a i m Hi IH] using map_ind; [by rewrite msum_empty, map_size_empty|].
  rewrite msum_insert, map_size_insert_None by done. case_match; lia.
Qed.

Lemma running_alter m a f :
  (∀ i, m !! a = Some i → as_state (f i) = as_state i) → running_of (alter f a m) = running_of m.
Proof.
  intros Hf. destruct (m !! a) as [i|] eqn:Hi.
  - rewrite <- (insert_id m a i Hi) at 1. rewrite alter_insert_eq, (running_update m a i) by done.
    unfold in_state. rewrite (Hf i) by done. lia.
  - by rewrite alter_id' by (by rewrite Hi).
Qed.

Lemma size_alter (f : AgentScheduleInfo → AgentScheduleInfo) a (m : gmap AgentId AgentScheduleInfo) :
  size (alter f a m) = size m.
Proof. rewrite <- !size_dom. by rewrite dom_alter. Qed.

(** An update of one agent that leaves its scheduling state. *)
Lemma base_alter bound x y s a f :
  base_ok bound x s → (∀ i, as_state (f i) = as_state i) →
  (∀ i, priorities_ok i → priorities_ok (f i)) →
  (∀ i, agents s !! a = Some i → x = Some a ∨ throttle_ok (under_pressure s) i →
        y = Some a ∨ throttle_ok (under_pressure s) (f i)) →
  (∀ b, b ≠ a → x = Some b → y = Some b) →
  base_ok bound y (with_agent s a f).
Proof.
  intros [] Hst Hpr Hth Hxy. split; cbn; try done.
  - rewrite running_alter; [done|auto].
  - by rewrite size_alter.
  - intros b i Hi. apply lookup_alter_Some in Hi as [(<- & i' & Hi' & ->)|[_ Hi]]; eauto.
  - intros b i Hi. apply lookup_alter_Some in Hi as [(<- & i' & Hi' & ->)|[Hne Hi]]; [eauto|].
    destruct (bo_throttle0 b i Hi); [left; by apply Hxy|by right].
Qed.

Lemma base_refresh bound x s a :
  base_ok bound x s → x = None ∨ x = Some a → base_ok bound None (refresh_agent_throttle s a).
Proof.
  intros Hok Hx. apply (base_alter bound x None); [done..| |].
  - intros i _ _. right. unfold throttle_ok. cbn. destruct (under_pressure s); [by right|by left].
  - intros b Hb ->. naive_solver.
Qed.

(** [set_inherited_priority] is one update of the agent. *)
Definition boosted (pressure : bool) (p : option Priority) (i : AgentScheduleInfo) : AgentScheduleInfo :=
  let i := mkInfo (as_priority i) p (as_state i) (as_throttle_delay_ms i) in
  with_throttle (if pressure then throttle_delay (effective_priority_for i) else 0) i.

Lemma set_inherited_eq s a p : set_inherited_priority s a p = with_agent s a (boosted (under_pressure s) p).
Proof.
  unfold set_inherited_priority, refresh_agent_throttle, with_agent, set_agents. cbn. f_equal.
  by rewrite alter_alter_eq.
Qed.

Lemma base_inherited bound x s a p :
  base_ok bound x s → (∀ q, p = Some q → 1 <= q <= 5) → base_ok bound x (set_inherited_priority s a p).
Proof.
  intros Hok Hp. rewrite set_inherited_eq. apply (base_alter bound x x); try done.
  - intros i [H1 _]. split; [done|]. cbn. auto.
  - intros i _ _. right. unfold throttle_ok, boosted. cbn. destruct (under_pressure s); [by right|by left].
Qed.

Lemma peek_priority bound x s q :
  base_ok bound x s → pe_priority <$> heap_peek (waiters s) = Some q → 1 <= q <= 5.
Proof.
  intros Hok (e & [Hin _]%heap_peek_Some & ->)%fmap_Some_1. by apply (bo_waiters _ _ _ Hok).
Qed.

Lemma base_holder bound x s : base_ok bound x s → base_ok bound x (refresh_holder_inheritance s).
Proof.
  intros Hok. unfold refresh_holder_inheritance. destruct (holder s) as [h|]; [|done].
  apply base_inherited; [done|]. intros q Hq. by eapply peek_priority.
Qed.

(** The refresh establishes the boost. *)
Lemma boost_holder s : boost_ok (refresh_holder_inheritance s).
Proof.
  unfold refresh_holder_inheritance. destruct (holder s) as [h|] eqn:Hh; [|by intros h i e Hh'; rewrite Hh' in Hh].
  rewrite set_inherited_eq. intros h' i e. cbn. rewrite Hh. intros [= <-] Hi He.
  apply lookup_alter_Some in Hi as [(_ & i' & _ & ->)|[? _]]; [|done].
  destruct (heap_peek (waiters s)) as [top|] eqn:Htop; [|apply heap_peek_None in Htop; rewrite Htop in He; set_solver].
  destruct (heap_peek_Some _ _ Htop) as [_ Hall]. specialize (Hall e He).
  unfold effective_priority_for, served_first in *. cbn. case_match; lia.
Qed.

(** Updates that do not touch the priorities keep the boost. *)
Lemma boost_alter s a f :
  boost_ok s → (∀ i, effective_priority_for (f i) = effective_priority_for i) → boost_ok (with_agent s a f).
Proof.
  intros Hb Hf h i e Hh Hi He. cbn in *.
  apply lookup_alter_Some in Hi as [(<- & i' & Hi' & ->)|[_ Hi]]; [rewrite Hf|]; by eapply Hb.
Qed.

(** Fewer waiters keep everything. *)
Lemma base_access bound x s h w :
  base_ok bound x s → w ⊆+ waiters s → base_ok bound x (set_access s h w).
Proof.
  intros [] Hw. split; cbn; try done.
  - intros e He. apply bo_waiters0. by eapply elem_of_submseteq.
  - apply submseteq_Permutation in Hw as [k Hk]. rewrite Hk, fmap_app in bo_distinct0. by apply NoDup_app in bo_distinct0 as [? _].
Qed.

Lemma removed_waiters s a : waiters (remove_from_queue s a) ⊆+ waiters s.
Proof. apply sublist_submseteq, retain_sublist. Qed.

Lemma base_remove bound x s a : base_ok bound x s → base_ok bound x (remove_from_queue s a).
Proof. intros Hok. apply base_access; [done|]. apply removed_waiters. Qed.

Lemma boost_remove s a : boost_ok s → boost_ok (remove_from_queue s a).
Proof. intros Hb h i e Hh Hi [He _]%elem_of_retain. by eapply Hb. Qed.

Lemma base_weaken bound bound' x s : bound <= bound' → base_ok bound x s → base_ok bound' x s.
Proof. intros Hle []. split; try done; lia. Qed.

(** A new or replaced agent that was not running. *)
Lemma base_insert bound s a i :
  base_ok bound None s → is_running s a = false → priorities_ok i → as_throttle_delay_ms i = 0 →
  bound < u64_max →
  base_ok (bound + 1) None
    (set_agents (if in_state Running i then add_running s 1 else s) (<[a := i]> (agents s))).
Proof.
  intros [] Hr Hp Ht Hb. pose proof (running_bounds (agents s)) as Hrb.
  assert (Hrun : running_of (<[a := i]> (agents s)) = running_of (agents s) + (if in_state Running i then 1 else 0)).
  { unfold is_running in Hr. destruct (agents s !! a) as [i'|] eqn:Hi; [|by apply running_new].
    rewrite (running_update _ _ _ _ Hi), Hr. lia. }
  assert (Hsz : Z.of_nat (size (<[a := i]> (agents s))) <= bound + 1).
  { destruct (agents s !! a) eqn:Hi; [rewrite map_size_insert_Some by eauto|rewrite map_size_insert_None by done]; lia. }
  assert (Hpr : ∀ b j, <[a := i]> (agents s) !! b = Some j → priorities_ok j).
  { intros b j [[<- <-]|[_ Hj]]%lookup_insert_Some; eauto. }
  assert (Hth : ∀ b j, <[a := i]> (agents s) !! b = Some j → None = Some b ∨ throttle_ok (under_pressure s) j).
  { intros b j [[<- <-]|[_ Hj]]%lookup_insert_Some; [right; by left|eauto]. }
  destruct (in_state Running i) eqn:Hst; split; cbn; try done; try lia.
  rewrite Hrun, wrap64_small; lia.
Qed.

Lemma boost_insert s s' a i :
  boost_ok s → holder s ≠ Some a → holder s' = holder s → waiters s' = waiters s →
  agents s' = <[a := i]> (agents s) → boost_ok s'.
Proof.
  intros Hb Hh Hh' Hw' Ha' h j e. rewrite Hh', Hw', Ha'. intros Hhs Hj He.
  rewrite lookup_insert_ne in Hj by congruence. by eapply Hb.
Qed.

(** A change between running and not running, with the slot counted. *)
Lemma base_switch bound s a i st :
  base_ok bound None s → agents s !! a = Some i → bound < u64_max →
  base_ok bound None (add_running (with_agent s a (set_state st))
    ((if bool_decide (st = Running) then 1 else 0) - (if in_state Running i then 1 else 0))).
Proof.
  intros Hok Hi Hb. pose proof Hok as []. pose proof (running_bounds (<[a := set_state st i]> (agents s))) as Hrb.
  assert (Ha : alter (set_state st) a (agents s) = <[a := set_state st i]> (agents s)).
  { rewrite <- (insert_id (agents s) a i Hi) at 1. by rewrite alter_insert_eq. }
  pose proof (running_update (agents s) a i (set_state st i) Hi) as Hup.
  rewrite map_size_insert_Some in Hrb by eauto. split; cbn; try done.
  - rewrite Ha, Hup. rewrite Hup in Hrb. unfold in_state at 2 in Hup. unfold in_state in *. cbn in *.
    rewrite wrap64_small; lia.
  - by rewrite size_alter.
  - intros b j Hj. apply lookup_alter_Some in Hj as [(<- & i' & Hi' & ->)|[_ Hj]]; [|eauto].
    exact (bo_priorities0 _ _ Hi').
  - intros b j Hj. apply lookup_alter_Some in Hj as [(<- & i' & Hi' & ->)|[_ Hj]]; [|eauto].
    exact (bo_throttle0 _ _ Hi').
Qed.

Lemma base_delete bound s a :
  base_ok bound None s → bound < u64_max →
  base_ok bound None
    (let s' := set_agents s (delete a (agents s)) in if is_running s a then add_running s' (-1) else s').
Proof.
  intros [] Hb. pose proof (running_bounds (agents s)). pose proof (running_bounds (delete a (agents s))).
  assert (Hrun : running_of (delete a (agents s)) = running_of (agents s) - (if is_running s a then 1 else 0)).
  { unfold is_running. destruct (agents s !! a) as [i|] eqn:Hi; [by apply running_gone|]. rewrite delete_id by done. lia. }
  assert (Hsz : (size (delete a (agents s)) <= size (agents s))%nat).
  { apply map_subseteq_size, delete_subseteq. }
  assert (Hl : ∀ b j, delete a (agents s) !! b = Some j → agents s !! b = Some j).
  { intros b j [_ Hj]%lookup_delete_Some. done. }
  destruct (is_running s a) eqn:Hr; split; cbn; eauto; try lia. rewrite wrap64_small; lia.
Qed.

Lemma boost_delete s a s' :
  boost_ok s → holder s' = holder s → waiters s' ⊆+ waiters s → agents s' = delete a (agents s) → boost_ok s'.
Proof.
  intros Hb Hh Hw Ha h i e. rewrite Hh, Ha. intros Hhs [_ Hi]%lookup_delete_Some He.
  eapply Hb; [done..|]. by eapply elem_of_submseteq.
Qed.

Lemma boost_other s a f : boost_ok s → holder s ≠ Some a → boost_ok (with_agent s a f).
Proof.
  intros Hb Hh h i e Hhs Hi He. cbn in *. rewrite lookup_alter_ne in Hi by congruence. by eapply Hb.
Qed.

(** [set_resource_pressure] sets the delay of every agent. *)
Lemma pressure_agents s b :
  agents (set_resource_pressure s b) =
  (λ i, with_throttle (if b then throttle_delay (effective_priority_for i) else 0) i) <$> agents s.
Proof. unfold set_resource_pressure. by destruct b. Qed.

Lemma running_fmap (f : AgentScheduleInfo → AgentScheduleInfo) (m : gmap AgentId AgentScheduleInfo) :
  (∀ i, as_state (f i) = as_state i) → running_of (f <$> m) = running_of m.
Proof.
  intros Hf. unfold running_of. induction m as [|a i m Hi IH] using map_ind; [by rewrite fmap_empty|].
  rewrite fmap_insert, !msum_insert by (rewrite ?lookup_fmap, ?Hi; done). rewrite IH. unfold in_state. by rewrite Hf.
Qed.

Lemma pressure_ok bound s b : sched_ok bound s → sched_ok bound (set_resource_pressure s b).
Proof.
  intros [[] Hb]. set (f := λ i, with_throttle (if b then throttle_delay (effective_priority_for i) else 0) i).
  assert (Ha : agents (set_resource_pressure s b) = f <$> agents s) by apply pressure_agents.
  assert (Hp : under_pressure (set_resource_pressure s b) = b) by (unfold set_resource_pressure; by destruct b).
  assert (Hl : ∀ a i, agents (set_resource_pressure s b) !! a = Some i → ∃ j, agents s !! a = Some j ∧ i = f j).
  { intros a i. rewrite Ha, lookup_fmap. intros (j & Hj & ->)%fmap_Some_1. eauto. }
  split.
  - split.
    + rewrite Ha, running_fmap by done. unfold set_resource_pressure. by destruct b.
    + rewrite Ha, map_size_fmap. done.
    + intros a i (j & Hj & ->)%Hl. exact (bo_priorities0 _ _ Hj).
    + intros a i (j & Hj & ->)%Hl. right. rewrite Hp. unfold throttle_ok, f. cbn. destruct b; [by right|by left].
    + unfold set_resource_pressure. by destruct b.
    + unfold set_resource_pressure. by destruct b.
    + unfold set_resource_pressure. by destruct b.
  - intros h i e Hh (j & Hj & ->)%Hl He. change (effective_priority_for j <= pe_priority e).
    eapply Hb; [|done|]; unfold set_resource_pressure in Hh, He; by destruct b.
Qed.

Lemma request_ok bound s a : sched_ok bound s → bound < u64_max → sched_ok (bound + 1) (request_begin s a).1.
Proof.
  intros [Hok Hb] Hbd. pose proof Hok as []. unfold request_begin. set (p := default _ _).
  set (s1 := mkSched (agents s) _ _ (wrap64 (sequence s + 1)) _ _).
  assert (Hw : wrap64 (sequence s + 1) = sequence s + 1) by (apply wrap64_small; lia).
  assert (Hok1 : base_ok (bound + 1) None s1).
  { split; cbn; try done; rewrite ?Hw; try lia. intros e He. specialize (bo_waiters0 e He). lia. }
  case_bool_decide; [done|]. split; [|apply boost_holder]. apply base_holder.
  assert (Hp : 1 <= p <= 5).
  { unfold p. destruct (agents s !! a) as [i|] eqn:Hi; cbn; [exact (proj1 (bo_priorities0 _ _ Hi))|unfold priority_default; lia]. }
  destruct Hok1. split; cbn -[wrap64] in *; try done.
  - intros e [->|He]%elem_of_cons; [cbn; lia|auto].
  - apply NoDup_cons. split; [|done]. intros (e & Heq & He)%list_elem_of_fmap. specialize (bo_waiters0 e He). lia.
Qed.

Lemma poll_ok bound s a : sched_ok bound s → sched_ok bound (try_acquire_resource s a).1.
Proof.
  intros [Hok Hb]. unfold try_acquire_resource. case_bool_decide; cbn [fst]; [by split; [apply base_holder|apply boost_holder]|].
  destruct (front s a) eqn:Hf; cbn [fst]; [|done]. split; [|apply boost_holder]. apply base_holder, base_access; [done|].
  unfold front in Hf. repeat case_match; try done.
  match goal with H : heap_peek _ = Some _ |- _ => rewrite (heap_pop_perm _ _ H) at 2 end.
  by apply submseteq_cons.
Qed.

(** The change of one agent's state, whichever way it is written. *)
Lemma switch_ok bound s a i st s' :
  sched_ok bound s → agents s !! a = Some i → bound < u64_max →
  s' = add_running (with_agent s a (set_state st))
    ((if bool_decide (st = Running) then 1 else 0) - (if in_state Running i then 1 else 0)) →
  sched_ok bound s'.
Proof.
  intros [Hok Hb] Hi Hbd ->. split; [by apply base_switch|].
  exact (boost_alter s a (set_state st) Hb (λ i, eq_refl)).
Qed.

Lemma add_running_0 s : 0 <= running_count s <= u64_max → add_running s 0 = s.
Proof. intros Hs. destruct s. unfold add_running. cbn in *. by rewrite Z.add_0_r, wrap64_small. Qed.

Lemma count_range bound x s : base_ok bound x s → bound <= u64_max → 0 <= running_count s <= u64_max.
Proof. intros [] Hb. pose proof (running_bounds (agents s)). lia. Qed.

Lemma leave_ok bound st s a :
  sched_ok bound s → bound < u64_max → st ≠ Running → sched_ok bound (leave_running st s a).
Proof.
  intros Hok Hb Hst. unfold leave_running. destruct (agents s !! a) as [i|] eqn:Hi; [|done].
  apply (switch_ok bound s a i st); [done..|]. rewrite (bool_decide_false (st = Running)) by done. unfold in_state.
  case_bool_decide; [done|]. rewrite Z.sub_0_r, add_running_0; [done|].
  exact (count_range bound None s (proj1 Hok) ltac:(lia)).
Qed.

Lemma insert_ok bound s a st :
  sched_ok bound s → is_running s a = false → holder s ≠ Some a → bound < u64_max →
  sched_ok (bound + 1)
    (set_agents (if bool_decide (st = Running) then add_running s 1 else s)
       (<[a := info_default st]> (agents s))).
Proof.
  intros [Hok Hb] Hr Hh Hbd. split.
  - apply (base_insert bound s a (info_default st)); done.
  - by eapply (boost_insert s); destruct (bool_decide (st = Running)).
Qed.

Lemma delete_ok bound s a s' :
  sched_ok bound s → bound < u64_max →
  s' = (let s1 := set_agents s (delete a (agents s)) in if is_running s a then add_running s1 (-1) else s1) →
  sched_ok bound s'.
Proof.
  intros [Hok Hb] Hbd ->. split; [by apply base_delete|].
  by eapply (boost_delete s a); [done|..]; cbn; destruct (is_running s a).
Qed.

Lemma sched_weaken bound bound' s : bound <= bound' → sched_ok bound s → sched_ok bound' s.
Proof. intros Hle [Hok Hb]. split; [by eapply base_weaken|done]. Qed.

Lemma release_ok bound s a : sched_ok bound s → sched_ok bound (release_resource_access s a).
Proof.
  intros [Hok Hb]. unfold release_resource_access. split.
  - apply base_inherited; [|done]. apply base_remove. case_bool_decide; [|done]. by apply base_access.
  - rewrite set_inherited_eq. apply boost_other.
    + apply boost_remove. case_bool_decide; [|done]. by intros h i e Hh.
    + case_bool_decide; done.
Qed.

Lemma priority_ok bound s a p : sched_ok bound s → 1 <= p <= 5 → sched_ok bound (set_priority s a p).
Proof.
  intros [Hok _] Hp. unfold set_priority. split; [|by apply boost_alter; [apply boost_holder|]].
  apply (base_refresh bound (Some a)); [|by right]. apply base_holder.
  apply (base_alter bound None (Some a)); try done; [|by left]. intros i [_ Hi]. by split.
Qed.

Lemma set_running_ok bound s a :
  sched_ok bound s → is_Some (agents s !! a) ∨ holder s ≠ Some a → bound < u64_max →
  sched_ok (bound + 1) (set_running s a).
Proof.
  intros Hok Ha Hb. unfold set_running. destruct (agents s !! a) as [i|] eqn:Hi.
  - apply (sched_weaken bound); [lia|]. case_bool_decide as Hst; [done|].
    apply (switch_ok bound s a i Running); [done..|]. unfold in_state. by rewrite (bool_decide_false (as_state i = _)).
  - apply (insert_ok bound s a Running); [done| |naive_solver|done]. unfold is_running. by rewrite Hi.
Qed.

(** [suspend] and [resume]. *)
Lemma suspend_resume_ok bound s a :
  sched_ok bound s → bound < u64_max → sched_ok bound (suspend s a).1 ∧ sched_ok bound (resume s a).1.
Proof.
  intros Hok Hb. unfold suspend, resume. destruct (agents s !! a) as [i|] eqn:Hi; [|done]. split.
  - case_bool_decide as Hst; [|done]. apply (switch_ok bound s a i Suspended); [done..|].
    unfold in_state. by rewrite (bool_decide_true (as_state i = _)).
  - case_bool_decide as Hst; [|done]. apply (switch_ok bound s a i Running); [done..|].
    unfold in_state. by rewrite Hst.
Qed.

Lemma deschedule_ok bound s a : sched_ok bound s → bound < u64_max → sched_ok bound (deschedule s a).
Proof.
  intros Hok Hb. unfold deschedule. set (s1 := match agents s !! a with Some _ => _ | None => _ end).
  assert (sched_ok bound s1) as [Hok1 Hb1]; [|by split; [apply base_remove|apply boost_remove]].
  unfold s1. destruct (agents s !! a) as [i|] eqn:Hi; [|done]. apply (delete_ok bound s a); [done..|].
  unfold is_running. by rewrite Hi.
Qed.

Lemma sched_exec_ok bound s e :
  sched_ok bound s → event_ok s e → bound < u64_max → sched_ok (bound + 1) (sched_exec s e).
Proof.
  intros Hok He Hb.
  assert (Hw : ∀ s', sched_ok bound s' → sched_ok (bound + 1) s') by (intros s'; apply sched_weaken; lia).
  destruct e as [b|a|a|a|a|a p|a|a|a|a|a|a|a|a|a|a]; cbn [sched_exec event_ok] in *.
  - by apply Hw, pressure_ok.
  - by apply request_ok.
  - by apply Hw, poll_ok.
  - destruct Hok as [Hok _]. apply Hw. split; [by apply base_holder, base_remove|apply boost_holder].
  - by apply Hw, release_ok.
  - by apply Hw, priority_ok.
  - exact (insert_ok bound s a Queued Hok (proj1 He) (proj2 He) Hb).
  - by apply set_running_ok.
  - by apply Hw, leave_ok.
  - by apply Hw, leave_ok.
  - by apply Hw, deschedule_ok.
  - unfold schedule_begin. case_match; [|by apply Hw].
    exact (insert_ok bound s a Queued Hok (proj1 He) (proj2 He) Hb).
  - apply Hw, (delete_ok bound s a); [done..|]. by destruct He as [-> _].
  - exact (insert_ok bound s a Running Hok (proj1 He) (proj2 He) Hb).
  - by apply Hw, suspend_resume_ok.
  - by apply Hw, suspend_resume_ok.
Qed.

Lemma sched_run_ok bound s es :
  sched_ok bound s → history_ok s es → bound + Z.of_nat (length es) <= u64_max →
  sched_ok (bound + Z.of_nat (length es)) (foldl sched_exec s es).
Proof.
  revert bound s. induction es as [|e es IH]; intros bound s Hok Hh Hb; cbn -[Z.of_nat] in *.
  { by rewrite Z.add_0_r. }
  destruct Hh as [He Hh]. replace (bound + Z.of_nat (S (length es))) with (bound + 1 + Z.of_nat (length es)) by lia.
  apply IH; [apply sched_exec_ok; [done..|lia]|done|lia].
Qed.

Lemma sched_new_ok : sched_ok 0 sched_new.
Proof. split; [|by intros h i e Hh]. split; cbn; try done; try lia; try set_solver. by apply NoDup_nil. Qed.

Lemma throttle_delay_mono p q : 1 <= p <= q → q <= 5 → throttle_delay p <= throttle_delay q.
Proof.
  intros Hp Hq. unfold throttle_delay.
  repeat match goal with |- context [?x =? ?y] => destruct (Z.eqb_spec x y) end; lia.
Qed.

Lemma msum_count {A} (f : A → bool) (m : gmap Z A) :
  msum (λ x, if f x then 1 else 0) m = Z.of_nat (count_if f (map_to_list m).*2).
Proof.
  unfold msum. induction ((map_to_list m).*2) as [|x l IH]; [done|]. rewrite count_cons. cbn -[count_if].
  rewrite IH. destruct (f x); lia.
Qed.


(** Agent 1 holds the resource under pressure; the urgent agent 2 waits and boosts it. *)
Definition example_schedule : list SchedEvent :=
  [SAdmit 1; SAdmit 2; SPriority 1 5; SPriority 2 1; SPressure true; SRun 1; SRequest 1; SPoll 1; SRequest 2].


(** A free resource goes to the waiter that is most urgent, and among equally urgent ones
    has waited longest, and to no other agent; the entry of that waiter leaves the queue and all
    others stay.  While an agent holds the resource no other agent acquires it. *)
Theorem resource_handoff (es : list SchedEvent)
    (Hes : history_ok sched_new es) (Hlen : Z.of_nat (length es) <= u64_max) :
  let s := foldl sched_exec sched_new es in
  match holder s with
  | Some h => ∀ a, (try_acquire_resource s a).2 = bool_decide (a = h)
  | None =>
      (waiters s = [] ∧ ∀ a, (try_acquire_resource s a).2 = false) ∨
      ∃ e, e ∈ waiters s ∧
        (∀ e', e' ∈ waiters s → e' ≠ e →
           pe_priority e < pe_priority e' ∨
           pe_priority e = pe_priority e' ∧ pe_sequence e < pe_sequence e') ∧
        ∀ a, let '(s', acquired) := try_acquire_resource s a in
          acquired = bool_decide (a = pe_agent e) ∧
          (acquired = true → holder s' = Some a ∧ waiters s ≡ₚ e :: waiters s')
  end.
Proof.
  pose proof (sched_run_ok 0 sched_new es sched_new_ok Hes ltac:(lia)) as Hok. intros s. fold s in Hok.
  destruct Hok as [[] _].
  unfold try_acquire_resource, front. destruct (holder s) as [h|] eqn:Hh.
  { intros a. case_bool_decide as Ha; [by injection Ha as ->; rewrite bool_decide_true|].
    rewrite bool_decide_false; [done|]. by intros ->. }
  destruct (heap_peek (waiters s)) as [e|] eqn:He.
  2: { left. split; [by apply heap_peek_None|]. intros a. by rewrite bool_decide_false. }
  right. destruct (heap_peek_Some _ _ He) as [Hin Hall]. exists e. split_and!; [done|..].
  - intros e' He' Hne. destruct (Hall e' He') as [?|[Hp Hs]]; [by left|]. right. split; [done|].
    assert (pe_sequence e ≠ pe_sequence e'); [|lia]. intros Heq. apply Hne.
    apply list_elem_of_lookup in Hin as [i Hi], He' as [j Hj]. rewrite NoDup_alt in bo_distinct0.
    assert (i = j) as ->; [|congruence].
    apply (bo_distinct0 i j (pe_sequence e)); rewrite list_lookup_fmap; [by rewrite Hi|by rewrite Hj, Heq].
  - intros a. rewrite bool_decide_false by done. destruct (Z.eqb_spec (pe_agent e) a) as [<-|Hne].
    + rewrite bool_decide_true by done. split; [done|]. intros _.
      unfold refresh_holder_inheritance. cbn. split; [done|].
      by apply heap_pop_perm.
    + split; [|done]. rewrite bool_decide_false; [done|]. by intros ->.
Qed.

Lemma resource_handoff_witness :
  let es := [SAdmit 1; SAdmit 2; SAdmit 3; SPriority 3 1; SRequest 1; SRequest 2; SRequest 3] in
  history_ok sched_new es ∧
  let s := foldl sched_exec sched_new es in
  holder s = None ∧
  ((waiters s = [] ∧ ∀ a, (try_acquire_resource s a).2 = false) ∨
   ∃ e, e ∈ waiters s ∧
     (∀ e', e' ∈ waiters s → e' ≠ e →
        pe_priority e < pe_priority e' ∨
        pe_priority e = pe_priority e' ∧ pe_sequence e < pe_sequence e') ∧
     ∀ a, let '(s', acquired) := try_acquire_resource s a in
       acquired = bool_decide (a = pe_agent e) ∧
       (acquired = true → holder s' = Some a ∧ waiters s ≡ₚ e :: waiters s')).
Proof.
  intros es.
  assert (He : history_ok sched_new es) by (vm_compute; repeat split; discriminate).
  split; [exact He|]. intros s. assert (Hh : holder s = None) by (vm_compute; reflexivity). split; [exact Hh|].
  assert (Hl : Z.of_nat (length es) <= u64_max) by (vm_compute; discriminate).
  pose proof (resource_handoff es He Hl) as H. cbv zeta in H. change (foldl sched_exec sched_new es) with s in H.
  rewrite Hh in H. exact H.
Defined.

(** ** Observations *)

(** Two requests of one agent wait together; when the first is served and releases, the second has
    lost its place and its polls fail although nobody holds the resource. *)
Theorem release_drops_second_request :
  let s := foldl sched_exec sched_new [SRequest 1; SRequest 1; SPoll 1; SRelease 1] in
  holder s = None ∧ waiters s = [] ∧ (try_acquire_resource s 1).2 = false.
Proof. vm_compute. done. Qed.

(** Eleven agents can be marked running, although ten is the documented maximum. *)
Theorem concurrency_cap_not_enforced :
  let s := foldl sched_exec sched_new (SRun <$> [1; 2; 3; 4; 5; 6; 7; 8; 9; 10; 11]) in
  MAX_CONCURRENT_AGENTS < running_agents (get_queue_status s).
Proof. vm_compute. done. Qed.

(** Admitting a running agent again forgets that it runs and keeps its slot counted. *)
Theorem readmission_leaks_slot :
  let s := foldl sched_exec sched_new [SAdmit 1; SRun 1; SAdmit 1] in
  running_agents (get_queue_status s) = 1 ∧ is_running s 1 = false.
Proof. vm_compute. done. Qed.
