(* ===== verification/Ipc.v ===== *)
(** * Inter-agent communication

    Models [crates/kernel/src/ipc.rs].  A mailbox is the bounded channel of an agent, both ends of
    which live and are replaced together; a topic's broadcast channel has no receiver and its send has
    no effect, so a topic is its name.  A JSON value is an abstract type of which the encoded length
    is observed ([None] when it cannot be encoded), with the payload of a delegation notice as a
    function of the task; error texts that name agents are the agents they name.  Identifiers and
    clock readings are arguments.  Each method is one step: between two lock acquisitions of a method
    another thread's changes are those of another order of the steps. *)

From S2P Require Import Prelude AgentStruct Cgroups Gate.
#[local] Open Scope Z_scope.

(** Agent and task identifiers are UUIDs, here their 128-bit values. *)
Abbreviation AgentId := Z (only parsing).
Abbreviation TaskId := Z (only parsing).

Definition MAX_IPC_PAYLOAD_BYTES : Z := 64 * 1024.
Definition MAX_DEAD_LETTERS : nat := 256.
(** [mpsc::channel(256)]. *)
Definition MAILBOX_CAPACITY : nat := 256.

Inductive IpcError :=
| InvalidPayload
| PayloadTooLarge
| MailboxFull
| TopicNotFound (topic : string)
| DelegationNotFound
| AgentNotFound (id : AgentId)
| ChannelClosed
| NotAllowed (from to : AgentId)
| NotAssignee (caller : AgentId) (task : TaskId).

#[global] Instance ipc_error_eq_dec : EqDecision IpcError.
Proof. solve_decision. Defined.

Inductive DelegationStatus := Pending | InProgress | Completed | DelegationFailed (reason : string).

#[global] Instance delegation_status_eq_dec : EqDecision DelegationStatus.
Proof. solve_decision. Defined.

Record DelegatedTask := mkTask {
  dt_id : TaskId;
  dt_from : AgentId;
  dt_to : AgentId;
  dt_description : string;
  dt_status : DelegationStatus }.

(** The trait [NamespaceVisibility], for a checker whose state is [W]. *)
Class NamespaceVisibility (W : Type) := allows : W → AgentId → AgentId → bool.

(** The syscall gate is the checker the kernel installs. *)
#[global] Instance gate_visibility : NamespaceVisibility Gate := shares_namespace.

Section ipc.
Context {Value W : Type} `{NamespaceVisibility W}.
Variable to_vec_len : Value → option Z.
Variable delegation_payload : TaskId → string → Value.

Record IpcMessage := mkMessage {
  im_from : AgentId;
  im_to : AgentId;
  im_payload : Value;
  im_timestamp : Z }.

Record IpcManager := mkIpc {
  mailboxes : gmap AgentId (list IpcMessage);
  topics : gset string;
  subscriptions : gmap AgentId (list string);
  delegations : gmap TaskId DelegatedTask;
  dead_letters : list IpcMessage;
  allowed_pairs : option (gset (AgentId * AgentId));
  namespace_check : bool }.

Definition ipc_new : IpcManager := mkIpc ∅ ∅ ∅ ∅ [] None false.

Definition check_payload_bound (payload : Value) : result IpcError unit :=
  match to_vec_len payload with
  | None => Err InvalidPayload
  | Some n => ensure (n <=? MAX_IPC_PAYLOAD_BYTES) PayloadTooLarge
  end.

Definition set_namespace_visibility (m : IpcManager) : IpcManager :=
  mkIpc (mailboxes m) (topics m) (subscriptions m) (delegations m) (dead_letters m) (allowed_pairs m) true.

Definition namespace_allows (w : W) (m : IpcManager) (from to : AgentId) : bool :=
  if namespace_check m then allows w from to else true.

Definition set_mailboxes (m : IpcManager) (b : gmap AgentId (list IpcMessage)) : IpcManager :=
  mkIpc b (topics m) (subscriptions m) (delegations m) (dead_letters m) (allowed_pairs m) (namespace_check m).

Definition register_agent (m : IpcManager) (a : AgentId) : IpcManager :=
  set_mailboxes m (<[a := []]> (mailboxes m)).

Definition mentions (a : AgentId) (msg : IpcMessage) : bool :=
  negb (negb (im_from msg =? a) && negb (im_to msg =? a)).

Definition unregister_agent (m : IpcManager) (a : AgentId) : IpcManager :=
  mkIpc (delete a (mailboxes m)) (topics m) (delete a (subscriptions m))
    (filter (λ t, dt_from t.2 ≠ a ∧ dt_to t.2 ≠ a) (delegations m))
    (retain (λ msg, negb (mentions a msg)) (dead_letters m))
    (filter (λ p, p.1 ≠ a ∧ p.2 ≠ a) <$> allowed_pairs m) (namespace_check m).

Definition is_registered (m : IpcManager) (a : AgentId) : bool := bool_decide (is_Some (mailboxes m !! a)).

Definition mailbox_len (m : IpcManager) (a : AgentId) : result IpcError Z :=
  match mailboxes m !! a with
  | None => Err (AgentNotFound a)
  | Some q => Ok (Z.of_nat (length q))
  end.

Definition set_pairs (m : IpcManager) (p : option (gset (AgentId * AgentId))) : IpcManager :=
  mkIpc (mailboxes m) (topics m) (subscriptions m) (delegations m) (dead_letters m) p (namespace_check m).

Definition enable_permissions (m : IpcManager) : IpcManager := set_pairs m (Some ∅).

Definition allow_communication (m : IpcManager) (from to : AgentId) : IpcManager :=
  set_pairs m ((λ p, {[(from, to)]} ∪ p) <$> allowed_pairs m).

Definition check_permission (m : IpcManager) (from to : AgentId) : result IpcError unit :=
  match allowed_pairs m with
  | Some pairs => ensure (bool_decide ((from, to) ∈ pairs)) (NotAllowed from to)
  | None => Ok tt
  end.

(** [try_send]: the mailbox with the message, unless it is full. *)
Definition try_send (q : list IpcMessage) (msg : IpcMessage) : option (list IpcMessage) :=
  if bool_decide (length q < MAILBOX_CAPACITY)%nat then Some (q ++ [msg]) else None.

Definition bury (letters : list IpcMessage) (msg : IpcMessage) : list IpcMessage :=
  (if bool_decide (length letters = MAX_DEAD_LETTERS) then remove_at 0 letters else letters) ++ [msg].

Definition set_letters (m : IpcManager) (l : list IpcMessage) : IpcManager :=
  mkIpc (mailboxes m) (topics m) (subscriptions m) (delegations m) l (allowed_pairs m) (namespace_check m).

Definition send (now : Z) (w : W) (m : IpcManager) (from to : AgentId) (payload : Value)
    : IpcManager * result IpcError unit :=
  if negb (namespace_allows w m from to) then (m, Err (AgentNotFound to))
  else
    match check_permission m from to with
    | Err e => (m, Err e)
    | Ok _ =>
        match check_payload_bound payload with
        | Err e => (m, Err e)
        | Ok _ =>
            let msg := mkMessage from to payload now in
            match mailboxes m !! to with
            | None => (m, Err (AgentNotFound to))
            | Some q =>
                match try_send q msg with
                | Some q => (set_mailboxes m (<[to := q]> (mailboxes m)), Ok tt)
                | None => (set_letters m (bury (dead_letters m) msg), Err MailboxFull)
                end
            end
        end
    end.

Definition receive (m : IpcManager) (a : AgentId) : IpcManager * result IpcError IpcMessage :=
  match mailboxes m !! a with
  | None => (m, Err (AgentNotFound a))
  | Some [] => (m, Err ChannelClosed)
  | Some (msg :: q) => (set_mailboxes m (<[a := q]> (mailboxes m)), Ok msg)
  end.

Definition subscribe (m : IpcManager) (a : AgentId) (topic : string) : IpcManager :=
  mkIpc (mailboxes m) ({[topic]} ∪ topics m)
    (<[a := default [] (subscriptions m !! a) ++ [topic]]> (subscriptions m))
    (delegations m) (dead_letters m) (allowed_pairs m) (namespace_check m).

Definition unsubscribe (m : IpcManager) (a : AgentId) (topic : string) : IpcManager :=
  mkIpc (mailboxes m) (topics m)
    (alter (retain (λ t, negb (bool_decide (t = topic)))) a (subscriptions m))
    (delegations m) (dead_letters m) (allowed_pairs m) (namespace_check m).

(** The loop of [publish] over the subscriptions [subs], in the order they are traversed. *)
Fixpoint deliver (now : Z) (w : W) (m : IpcManager) (from : AgentId) (topic : string) (payload : Value)
    (subs : list (AgentId * list string)) : IpcManager * Z :=
  match subs with
  | [] => (m, 0)
  | (a, ts) :: subs =>
      let '(m, n) :=
        if negb (namespace_allows w m from a) then (m, 0)
        else if existsb (λ t, bool_decide (t = topic)) ts then
          match mailboxes m !! a with
          | None => (m, 0)
          | Some q =>
              match try_send q (mkMessage from a payload now) with
              | Some q => (set_mailboxes m (<[a := q]> (mailboxes m)), 1)
              | None => (m, 0)
              end
          end
        else (m, 0) in
      let '(m, k) := deliver now w m from topic payload subs in
      (m, n + k)
  end.

Definition publish (now : Z) (w : W) (m : IpcManager) (from : AgentId) (topic : string) (payload : Value)
    (subs : list (AgentId * list string)) : IpcManager * result IpcError Z :=
  match check_payload_bound payload with
  | Err e => (m, Err e)
  | Ok _ =>
      if negb (bool_decide (topic ∈ topics m)) then (m, Err (TopicNotFound topic))
      else let '(m, n) := deliver now w m from topic payload subs in (m, Ok n)
  end.

Definition set_delegations (m : IpcManager) (d : gmap TaskId DelegatedTask) : IpcManager :=
  mkIpc (mailboxes m) (topics m) (subscriptions m) d (dead_letters m) (allowed_pairs m) (namespace_check m).

Definition delegate (now : Z) (w : W) (m : IpcManager) (task_id : TaskId) (from to : AgentId)
    (description : string) : IpcManager * result IpcError TaskId :=
  match check_permission m from to with
  | Err e => (m, Err e)
  | Ok _ =>
      match send now w m from to (delegation_payload task_id description) with
      | (m, Err e) => (m, Err e)
      | (m, Ok _) =>
          (set_delegations m (<[task_id := mkTask task_id from to description Pending]> (delegations m)),
           Ok task_id)
      end
  end.

Definition complete_task (t : DelegatedTask) : DelegatedTask :=
  mkTask (dt_id t) (dt_from t) (dt_to t) (dt_description t) Completed.

(** The loop that looks for a parent delegation has no effect. *)
Definition complete_delegation (m : IpcManager) (caller : AgentId) (task_id : TaskId)
    : IpcManager * result IpcError unit :=
  match delegations m !! task_id with
  | None => (m, Err DelegationNotFound)
  | Some t =>
      if negb (caller =? dt_to t) then (m, Err (NotAssignee caller task_id))
      else (set_delegations m (<[task_id := complete_task t]> (delegations m)), Ok tt)
  end.

Definition get_delegation_status (m : IpcManager) (caller : AgentId) (task_id : TaskId)
    : option DelegationStatus :=
  match delegations m !! task_id with
  | None => None
  | Some t => if negb (caller =? dt_from t) && negb (caller =? dt_to t) then None else Some (dt_status t)
  end.
End ipc.

Arguments IpcMessage : clear implicits.
Arguments IpcManager : clear implicits.

(** ** Histories *)

(** The events of a manager.  An event that consults the namespace checker carries the checker's state
    at that time; a publication carries the traversal of the subscriptions it made. *)
Inductive IpcEvent (Value W : Type) :=
| IeInstall
| IeEnable
| IeAllow (from to : AgentId)
| IeRegister (a : AgentId)
| IeUnregister (a : AgentId)
| IeSend (now : Z) (w : W) (from to : AgentId) (payload : Value)
| IeReceive (a : AgentId)
| IeSubscribe (a : AgentId) (topic : string)
| IeUnsubscribe (a : AgentId) (topic : string)
| IePublish (now : Z) (w : W) (from : AgentId) (topic : string) (payload : Value)
    (subs : list (AgentId * list string))
| IeDelegate (now : Z) (w : W) (id : TaskId) (from to : AgentId) (description : string)
| IeComplete (caller : AgentId) (id : TaskId).

Arguments IeInstall {_ _}.
Arguments IeEnable {_ _}.
Arguments IeAllow {_ _}.
Arguments IeRegister {_ _}.
Arguments IeUnregister {_ _}.
Arguments IeSend {_ _}.
Arguments IeReceive {_ _}.
Arguments IeSubscribe {_ _}.
Arguments IeUnsubscribe {_ _}.
Arguments IePublish {_ _}.
Arguments IeDelegate {_ _}.
Arguments IeComplete {_ _}.

Section history.
Context {Value W : Type} `{NamespaceVisibility W}.
Variable to_vec_len : Value → option Z.
Variable delegation_payload : TaskId → string → Value.

Abbreviation Manager := (IpcManager Value).
Abbreviation Event := (IpcEvent Value W).
Abbreviation Message := (IpcMessage Value).
Implicit Types (m : IpcManager Value) (e : IpcEvent Value W) (a from to : Z) (q : list (IpcMessage Value)).

Definition ipc_exec m e : Manager :=
  match e with
  | IeInstall => set_namespace_visibility m
  | IeEnable => enable_permissions m
  | IeAllow from to => allow_communication m from to
  | IeRegister a => register_agent m a
  | IeUnregister a => unregister_agent m a
  | IeSend now w from to payload => (send to_vec_len now w m from to payload).1
  | IeReceive a => (receive m a).1
  | IeSubscribe a topic => subscribe m a topic
  | IeUnsubscribe a topic => unsubscribe m a topic
  | IePublish now w from topic payload subs => (publish to_vec_len now w m from topic payload subs).1
  | IeDelegate now w id from to description =>
      (delegate to_vec_len delegation_payload now w m id from to description).1
  | IeComplete caller id => (complete_delegation m caller id).1
  end.

(** A publication visits every subscription once. *)
Definition traversal_ok m e : Prop :=
  match e with
  | IePublish _ _ _ _ _ subs => subs ≡ₚ map_to_list (subscriptions m)
  | _ => True
  end.

Fixpoint traversals_ok m (es : list Event) : Prop :=
  match es with
  | [] => True
  | e :: es => traversal_ok m e ∧ traversals_ok (ipc_exec m e) es
  end.

(** ** What reaches a mailbox *)

Definition queue m a : list Message := default [] (mailboxes m !! a).

(** The gate of a direct message. *)
Definition may_send (w : W) m from to (payload : Value) : bool :=
  namespace_allows w m from to && is_ok (check_permission m from to) && is_ok (check_payload_bound to_vec_len payload).

(** The message lands in the mailbox of [to]. *)
Definition has_room m to : bool :=
  match mailboxes m !! to with
  | Some q => bool_decide (length q < MAILBOX_CAPACITY)%nat
  | None => false
  end.

(** The messages an event puts into the mailbox of [a]. *)
Definition delivered_to a m e : list Message :=
  match e with
  | IeSend now w from to payload =>
      if (to =? a) && may_send w m from to payload && has_room m to
      then [mkMessage from to payload now] else []
  | IeDelegate now w id from to description =>
      let payload := delegation_payload id description in
      if (to =? a) && may_send w m from to payload && has_room m to
      then [mkMessage from to payload now] else []
  | IePublish now w from topic payload _ =>
      if is_ok (check_payload_bound to_vec_len payload) && bool_decide (topic ∈ topics m)
         && namespace_allows w m from a
         && bool_decide (topic ∈ default [] (subscriptions m !! a)) && has_room m a
      then [mkMessage from a payload now] else []
  | _ => []
  end.

(** The message a receive takes out of it. *)
Definition received_by a m e : list Message :=
  match e with
  | IeReceive b => if b =? a then match (receive m b).2 with Ok msg => [msg] | Err _ => [] end else []
  | _ => []
  end.

Lemma send_spec now w m from to payload :
  send to_vec_len now w m from to payload =
  if may_send w m from to payload then
    match mailboxes m !! to with
    | None => (m, Err (AgentNotFound to))
    | Some q =>
        if has_room m to
        then (set_mailboxes m (<[to := q ++ [mkMessage from to payload now]]> (mailboxes m)), Ok tt)
        else (set_letters m (bury (dead_letters m) (mkMessage from to payload now)), Err MailboxFull)
    end
  else (m, Err (if negb (namespace_allows w m from to) then AgentNotFound to else
                match check_permission m from to with
                | Err e => e
                | Ok _ => match check_payload_bound to_vec_len payload with Err e => e | Ok _ => MailboxFull end
                end)).
Proof using Type.
  unfold send, may_send, has_room, try_send. destruct (namespace_allows w m from to); cbn; [|done].
  destruct (check_permission m from to); cbn; [|done]. destruct (check_payload_bound to_vec_len payload); cbn; [|done].
  destruct (mailboxes m !! to) as [q|]; [|done]. by case_bool_decide.
Qed.

Lemma queue_insert m b q a : queue (set_mailboxes m (<[b := q]> (mailboxes m))) a = if b =? a then q else queue m a.
Proof using Type.
  unfold queue. cbn. destruct (Z.eqb_spec b a) as [<-|]; [by rewrite lookup_insert_eq|by rewrite lookup_insert_ne].
Qed.

Lemma send_queue now w m from to payload a :
  queue (send to_vec_len now w m from to payload).1 a =
  queue m a ++ delivered_to a m (IeSend now w from to payload).
Proof using Type.
  rewrite send_spec. cbn [delivered_to]. destruct (may_send w m from to payload); [|by rewrite andb_false_r, app_nil_r].
  rewrite andb_true_r. destruct (mailboxes m !! to) as [q|] eqn:Hq.
  - destruct (has_room m to); [|by rewrite andb_false_r, app_nil_r]. rewrite andb_true_r. cbn [fst].
    rewrite queue_insert. destruct (Z.eqb_spec to a) as [<-|]; [|by rewrite app_nil_r]. unfold queue. by rewrite Hq.
  - unfold has_room. rewrite Hq, andb_false_r. by rewrite app_nil_r.
Qed.

(** A subscription entry that receives the publication. *)
Definition hit (w : W) m from (topic : string) (p : AgentId * list string) : bool :=
  namespace_allows w m from p.1 && existsb (λ t, bool_decide (t = topic)) p.2 && has_room m p.1.

(** One iteration of the loop. *)
Definition deliver_one now (w : W) m from (topic : string) (payload : Value) (p : AgentId * list string) : Manager :=
  if hit w m from topic p
  then set_mailboxes m (<[p.1 := queue m p.1 ++ [mkMessage from p.1 payload now]]> (mailboxes m)) else m.

Lemma deliver_cons now w m from topic payload p subs :
  deliver now w m from topic payload (p :: subs) =
  let '(m', k) := deliver now w (deliver_one now w m from topic payload p) from topic payload subs in
  (m', (if hit w m from topic p then 1 else 0) + k).
Proof using Type.
  destruct p as [b ts]. cbn. unfold deliver_one, hit, has_room, try_send, queue. cbn.
  destruct (namespace_allows w m from b); cbn; [|done]. destruct (existsb _ ts); cbn; [|done].
  destruct (mailboxes m !! b) as [q|]; cbn; [|done]. by case_bool_decide.
Qed.

Lemma deliver_one_frame now w m from topic payload p a :
  a ≠ p.1 → mailboxes (deliver_one now w m from topic payload p) !! a = mailboxes m !! a.
Proof using Type. intros Hne. unfold deliver_one. case_match; [|done]. cbn. by rewrite lookup_insert_ne. Qed.

Lemma deliver_one_queue now w m from topic payload p a :
  queue (deliver_one now w m from topic payload p) a =
  queue m a ++ if (p.1 =? a) && hit w m from topic p then [mkMessage from p.1 payload now] else [].
Proof using Type.
  unfold deliver_one. destruct (hit w m from topic p); [|by rewrite andb_false_r, app_nil_r].
  rewrite queue_insert, andb_true_r. destruct (Z.eqb_spec p.1 a) as [->|]; [done|by rewrite app_nil_r].
Qed.

Lemma hit_frame now w m from topic payload p p' :
  p'.1 ≠ p.1 → hit w (deliver_one now w m from topic payload p) from topic p' = hit w m from topic p'.
Proof using Type.
  intros Hne. unfold hit, has_room. rewrite deliver_one_frame by done. f_equal. f_equal.
  unfold deliver_one. by destruct (hit w m from topic p).
Qed.

(** The publication as a whole: every agent that is hit gets the message once, and is counted. *)
Lemma deliver_spec now w m from topic payload subs a :
  NoDup subs.*1 →
  queue (deliver now w m from topic payload subs).1 a =
    queue m a ++ (if existsb (λ p, (p.1 =? a) && hit w m from topic p) subs
                  then [mkMessage from a payload now] else []) ∧
  (deliver now w m from topic payload subs).2 = Z.of_nat (count_if (hit w m from topic) subs).
Proof using Type.
  revert m. induction subs as [|p subs IH]; intros m Hnd; [cbn; by rewrite app_nil_r|].
  cbn in Hnd. apply NoDup_cons in Hnd as [Hni Hnd]. rewrite deliver_cons, count_cons.
  specialize (IH (deliver_one now w m from topic payload p) Hnd).
  destruct (deliver now w _ from topic payload subs) as [m' k]. cbn [fst snd] in *. destruct IH as [-> ->].
  assert (Hfr : ∀ p', p' ∈ subs → hit w (deliver_one now w m from topic payload p) from topic p' = hit w m from topic p').
  { intros p' Hp'. apply hit_frame. intros Heq. apply Hni. rewrite <- Heq. by apply list_elem_of_fmap_2. }
  split.
  - rewrite deliver_one_queue, <- app_assoc. f_equal. cbn [existsb].
    assert (Hex : existsb (λ p', (p'.1 =? a) && hit w (deliver_one now w m from topic payload p) from topic p') subs
      = existsb (λ p', (p'.1 =? a) && hit w m from topic p') subs).
    { clear -Hfr. induction subs as [|p' subs IHs]; cbn; [done|]. rewrite Hfr by left. rewrite IHs; [done|].
      intros p'' Hp''. apply Hfr. by right. }
    rewrite Hex. destruct (Z.eqb_spec p.1 a) as [<-|Hne]; cbn; [|done].
    assert (existsb (λ p', (p'.1 =? p.1) && hit w m from topic p') subs = false) as ->.
    { apply not_true_iff_false. intros (p' & Hp' & Hb)%existsb_exists. apply andb_true_iff in Hb as [Heq%Z.eqb_eq _].
      apply Hni. rewrite <- Heq. apply list_elem_of_fmap_2. by apply list_elem_of_In. }
    rewrite orb_false_r, app_nil_r. done.
  - rewrite (count_ext _ (hit w m from topic) subs) by done. case_match; lia.
Qed.

Lemma hit_agent w m from topic subs a :
  subs ≡ₚ map_to_list (subscriptions m) →
  existsb (λ p, (p.1 =? a) && hit w m from topic p) subs =
  namespace_allows w m from a && bool_decide (topic ∈ default [] (subscriptions m !! a)) && has_room m a.
Proof using Type.
  intros Hp. apply eq_true_iff_eq. rewrite existsb_exists, !andb_true_iff, bool_decide_eq_true. split.
  - intros ([b ts] & Hin & Hb). apply list_elem_of_In in Hin. rewrite Hp in Hin. apply elem_of_map_to_list in Hin.
    unfold hit in Hb. cbn in Hb. rewrite !andb_true_iff, Z.eqb_eq, existsb_exists in Hb.
    destruct Hb as (-> & (Hal & t & Ht & ->%bool_decide_eq_true) & Hr). split_and!; [done| |done].
    rewrite Hin. by apply list_elem_of_In.
  - intros ((Hal & Ht) & Hr). destruct (subscriptions m !! a) as [ts|] eqn:Hs; [|set_solver].
    exists (a, ts). split; [apply list_elem_of_In; rewrite Hp; by apply elem_of_map_to_list|].
    unfold hit. cbn. rewrite !andb_true_iff, Z.eqb_eq, existsb_exists. split_and!; try done.
    exists topic. split; [by apply list_elem_of_In|]. by apply bool_decide_eq_true.
Qed.

Lemma traversal_nodup m subs : subs ≡ₚ map_to_list (subscriptions m) → NoDup subs.*1.
Proof using Type. intros ->. apply NoDup_fst_map_to_list. Qed.

(** The mailbox of [a] is not replaced. *)
Definition keeps_mailbox a e : Prop :=
  match e with IeRegister b | IeUnregister b => b ≠ a | _ => True end.

Lemma exec_queue m e a :
  traversal_ok m e → keeps_mailbox a e →
  queue m a ++ delivered_to a m e = received_by a m e ++ queue (ipc_exec m e) a.
Proof using Type.
  intros Ht Hk. destruct e as [| |f t|b|b|now w from to payload|b|b t|b t|now w from topic payload subs|now w id from to d|c id];
    cbn [delivered_to received_by ipc_exec]; rewrite ?app_nil_r, ?app_nil_l; try done.
  - cbn in Hk. unfold queue. cbn. by rewrite lookup_insert_ne.
  - cbn in Hk. unfold queue. cbn. by rewrite lookup_delete_ne.
  - by rewrite send_queue.
  - unfold receive, queue. destruct (Z.eqb_spec b a) as [->|Hne].
    + destruct (mailboxes m !! a) as [[|msg q]|] eqn:Hq; cbn; rewrite ?Hq; try done. by rewrite lookup_insert_eq.
    + cbn [app]. destruct (mailboxes m !! b) as [[|msg q]|]; cbn; try done. by rewrite lookup_insert_ne.
  - unfold publish. destruct (check_payload_bound to_vec_len payload); cbn [is_ok andb]; [|by rewrite app_nil_r].
    case_bool_decide; cbn [negb andb]; [|by rewrite app_nil_r].
    destruct (deliver_spec now w m from topic payload subs a (traversal_nodup m subs Ht)) as [Hq _].
    destruct (deliver now w m from topic payload subs) as [m' n]. cbn [fst] in *. by rewrite Hq, hit_agent.
  - unfold delegate. pose proof (send_queue now w m from to (delegation_payload id d) a) as Hs. cbn [delivered_to] in Hs.
    destruct (check_permission m from to) eqn:Hp.
    + destruct (send to_vec_len now w m from to (delegation_payload id d)) as [m' [u|er]]; cbn [fst] in *; by rewrite <- Hs.
    + unfold may_send. rewrite Hp. cbn. rewrite !andb_false_r. cbn. by rewrite app_nil_r.
  - unfold complete_delegation. by repeat case_match.
Qed.

Fixpoint deliveries a m (es : list Event) : list Message :=
  match es with [] => [] | e :: es => delivered_to a m e ++ deliveries a (ipc_exec m e) es end.
Fixpoint receipts a m (es : list Event) : list Message :=
  match es with [] => [] | e :: es => received_by a m e ++ receipts a (ipc_exec m e) es end.

Lemma run_queue m es a :
  traversals_ok m es → Forall (keeps_mailbox a) es →
  queue m a ++ deliveries a m es = receipts a m es ++ queue (foldl ipc_exec m es) a.
Proof using Type.
  revert m. induction es as [|e es IH]; intros m Ht Hk; cbn; [by rewrite app_nil_r|].
  destruct Ht as [Ht Hts]. apply Forall_cons in Hk as [Hk Hks].
  by rewrite app_assoc, exec_queue, <- app_assoc, IH, app_assoc by done.
Qed.

(** ** Bounds *)

Definition ipc_bounded m : Prop :=
  (∀ a, (length (queue m a) <= MAILBOX_CAPACITY)%nat) ∧ (length (dead_letters m) <= MAX_DEAD_LETTERS)%nat.

(** A delivery is one message, for the owner of the mailbox, from an agent it may hear, in a mailbox
    with room. *)
Lemma delivered_spec m e a msg :
  msg ∈ delivered_to a m e →
  delivered_to a m e = [msg] ∧ im_to msg = a ∧ has_room m a = true ∧
  is_ok (check_payload_bound to_vec_len (im_payload msg)) = true ∧
  match e with
  | IeSend _ w _ _ _ | IeDelegate _ w _ _ _ _ =>
      namespace_allows w m (im_from msg) a = true ∧ check_permission m (im_from msg) a = Ok tt
  | IePublish _ w _ topic _ _ =>
      namespace_allows w m (im_from msg) a = true ∧ topic ∈ default [] (subscriptions m !! a)
  | _ => False
  end.
Proof using Type.
  assert (Hok : ∀ r : result IpcError unit, is_ok r = true → r = Ok tt) by (by intros [[]|]).
  destruct e; cbn [delivered_to]; try set_solver; case_match eqn:Hb; try set_solver.
  all: unfold may_send in Hb; rewrite ?andb_true_iff, ?Z.eqb_eq, ?bool_decide_eq_true in Hb.
  all: intros ->%list_elem_of_singleton; cbn; naive_solver.
Qed.

Lemma delivered_room m e a :
  (length (queue m a) <= MAILBOX_CAPACITY)%nat →
  (length (queue m a ++ delivered_to a m e) <= MAILBOX_CAPACITY)%nat.
Proof using Type.
  intros Hq. destruct (delivered_to a m e) as [|msg l] eqn:Hd; [by rewrite app_nil_r|].
  destruct (delivered_spec m e a msg) as (Heq & _ & Hr & _); [rewrite Hd; left|].
  rewrite Hd in Heq. injection Heq as ->. unfold has_room, queue in *. destruct (mailboxes m !! a); [|done].
  apply bool_decide_eq_true in Hr. rewrite length_app. cbn in *. lia.
Qed.

Lemma bury_bound l (msg : Message) :
  (length l <= MAX_DEAD_LETTERS)%nat → (length (bury l msg) <= MAX_DEAD_LETTERS)%nat.
Proof using Type.
  intros Hl. unfold bury. rewrite length_app. case_bool_decide as Hf; [|cbn -[MAX_DEAD_LETTERS]; lia].
  unfold MAX_DEAD_LETTERS in *. destruct l; cbn in *; lia.
Qed.

Lemma send_letters now w m from to payload :
  (length (dead_letters m) <= MAX_DEAD_LETTERS)%nat →
  (length (dead_letters (send to_vec_len now w m from to payload).1) <= MAX_DEAD_LETTERS)%nat.
Proof using Type.
  intros Hl. rewrite send_spec. repeat case_match; cbn -[MAX_DEAD_LETTERS]; try done. by apply bury_bound.
Qed.

Lemma exec_letters m e :
  (length (dead_letters m) <= MAX_DEAD_LETTERS)%nat →
  (length (dead_letters (ipc_exec m e)) <= MAX_DEAD_LETTERS)%nat.
Proof using Type.
  intros Hl. destruct e as [| |f t|b|b|now w from to payload|b|b t|b t|now w from topic payload subs|now w id from to d|c id];
    cbn -[MAX_DEAD_LETTERS send delegate publish receive complete_delegation]; try done.
  - etrans; [apply retain_length|done].
  - by apply send_letters.
  - unfold receive. by repeat case_match.
  - assert (Hd : ∀ m, dead_letters (deliver now w m from topic payload subs).1 = dead_letters m).
    { induction subs as [|p subs IH]; intros m'; [done|]. rewrite deliver_cons.
      specialize (IH (deliver_one now w m' from topic payload p)).
      destruct (deliver _ _ _ _ _ _ subs) as [m'' k]. cbn [fst] in *. rewrite IH. unfold deliver_one. by case_match. }
    unfold publish. destruct (check_payload_bound to_vec_len payload); [|done]. case_match; [done|].
    specialize (Hd m). destruct (deliver _ _ _ _ _ _ subs). cbn [fst] in *. by rewrite Hd.
  - unfold delegate. destruct (check_permission m from to); [|done].
    pose proof (send_letters now w m from to (delegation_payload id d) Hl) as Hs.
    by destruct (send _ _ _ _ _ _ _) as [m' [u|er]].
  - unfold complete_delegation. by repeat case_match.
Qed.

Lemma exec_bounded m e : traversal_ok m e → ipc_bounded m → ipc_bounded (ipc_exec m e).
Proof using Type.
  intros Ht [Hq Hl]. split; [|by apply exec_letters]. intros a.
  assert (Hk : keeps_mailbox a e ∨ queue (ipc_exec m e) a = []).
  { destruct e as [| | |b|b| | | | | | |]; cbn; try by left.
    - destruct (decide (b = a)) as [->|]; [|by left]. right. unfold queue. cbn. by rewrite lookup_insert_eq.
    - destruct (decide (b = a)) as [->|]; [|by left]. right. unfold queue. cbn. by rewrite lookup_delete_eq. }
  destruct Hk as [Hk|Hk]; [|rewrite Hk; cbn; lia].
  pose proof (delivered_room m e a (Hq a)) as Hd. rewrite exec_queue in Hd by done. rewrite length_app in Hd. lia.
Qed.

Lemma run_bounded m es : traversals_ok m es → ipc_bounded m → ipc_bounded (foldl ipc_exec m es).
Proof using Type.
  revert m. induction es as [|e es IH]; intros m Ht Hb; cbn; [done|]. destruct Ht as [Ht Hts].
  by apply IH; [|apply exec_bounded].
Qed.

(** ** Installed checks stay, and every allowed pair was allowed *)

Lemma send_frame now w m from to payload :
  let m' := (send to_vec_len now w m from to payload).1 in
  namespace_check m' = namespace_check m ∧ allowed_pairs m' = allowed_pairs m ∧ delegations m' = delegations m.
Proof using Type. cbv zeta. rewrite send_spec. by repeat case_match. Qed.

Lemma deliver_frame now w m from topic payload subs :
  let m' := (deliver now w m from topic payload subs).1 in
  namespace_check m' = namespace_check m ∧ allowed_pairs m' = allowed_pairs m ∧ delegations m' = delegations m.
Proof using Type.
  cbv zeta. revert m. induction subs as [|p subs IH]; intros m; [done|]. rewrite deliver_cons.
  specialize (IH (deliver_one now w m from topic payload p)). destruct (deliver _ _ _ _ _ _ subs) as [m' k].
  cbn [fst] in *. destruct IH as (-> & -> & ->). unfold deliver_one. by case_match.
Qed.

Lemma publish_frame now w m from topic payload subs :
  let m' := (publish to_vec_len now w m from topic payload subs).1 in
  namespace_check m' = namespace_check m ∧ allowed_pairs m' = allowed_pairs m ∧ delegations m' = delegations m.
Proof using Type.
  cbv zeta. unfold publish. destruct (check_payload_bound to_vec_len payload); [|done]. case_match; [done|].
  pose proof (deliver_frame now w m from topic payload subs) as Hd. by destruct (deliver _ _ _ _ _ _ subs).
Qed.

Lemma exec_namespace m e : namespace_check m = true → namespace_check (ipc_exec m e) = true.
Proof using Type.
  intros Hn. destruct e; cbn -[send publish delegate receive complete_delegation]; try done.
  - by rewrite (proj1 (send_frame _ _ _ _ _ _)).
  - unfold receive. by repeat case_match.
  - by rewrite (proj1 (publish_frame _ _ _ _ _ _ _)).
  - unfold delegate. destruct (check_permission m from to); [|done].
    pose proof (send_frame now w m from to (delegation_payload id description)) as Hs.
    destruct (send _ _ _ _ _ _ _) as [m' [u|er]]; cbn in *; destruct Hs as (-> & _); done.
  - unfold complete_delegation. by repeat case_match.
Qed.

(** Permissions are enforced and every pair is one of [pairs]. *)
Definition pairs_within (pairs : list (AgentId * AgentId)) m : Prop :=
  ∃ p, allowed_pairs m = Some p ∧ ∀ x, x ∈ p → x ∈ pairs.

Definition allowed_by e : list (AgentId * AgentId) :=
  match e with IeAllow from to => [(from, to)] | _ => [] end.

Lemma exec_pairs pairs m e : pairs_within pairs m → pairs_within (pairs ++ allowed_by e) (ipc_exec m e).
Proof using Type.
  intros (p & Hp & Hin).
  assert (Hsame : ∀ m', allowed_pairs m' = allowed_pairs m → pairs_within (pairs ++ allowed_by e) m').
  { intros m' Hm'. exists p. rewrite Hm'. split; [done|]. intros x Hx. apply elem_of_app. auto. }
  destruct e; cbn -[send publish delegate receive complete_delegation] in *; try by apply Hsame.
  - exists ∅. split; [done|set_solver].
  - eexists. cbn. rewrite Hp. split; [done|]. intros x. set_solver.
  - eexists. cbn. rewrite Hp. split; [done|]. intros x [_ Hx]%elem_of_filter. apply elem_of_app. auto.
  - apply Hsame, send_frame.
  - apply Hsame. unfold receive. by repeat case_match.
  - apply Hsame, publish_frame.
  - apply Hsame. unfold delegate. destruct (check_permission m from to); [|done].
    pose proof (send_frame now w m from to (delegation_payload id description)) as Hs.
    destruct (send _ _ _ _ _ _ _) as [m' [u|er]]; cbn in *; apply Hs.
  - apply Hsame. unfold complete_delegation. by repeat case_match.
Qed.

Lemma run_pairs pairs m es :
  pairs_within pairs m → pairs_within (pairs ++ concat (allowed_by <$> es)) (foldl ipc_exec m es).
Proof using Type.
  revert pairs m. induction es as [|e es IH]; intros pairs m Hp; cbn; [by rewrite app_nil_r|].
  rewrite app_assoc. by apply IH, exec_pairs.
Qed.

Lemma run_namespace m es : namespace_check m = true → namespace_check (foldl ipc_exec m es) = true.
Proof using Type. revert m. induction es as [|e es IH]; intros m Hn; cbn; [done|]. by apply IH, exec_namespace. Qed.
End history.

(** Over any history in which its mailbox is not replaced, an agent receives exactly the
    messages delivered to it, in the order of their delivery and each once: what it held and what
    was delivered is what it has received and what it still holds.  No mailbox ever holds more than
    256 messages and no more than 256 dead letters are kept. *)
Theorem mailbox_fifo {Value W : Type} `{NamespaceVisibility W} (to_vec_len : Value → option Z)
    (payload_of : TaskId → string → Value) (before es : list (IpcEvent Value W)) (a : AgentId)
    (Ht : traversals_ok to_vec_len payload_of ipc_new (before ++ es)) (Hk : Forall (keeps_mailbox a) es) :
  let m := foldl (ipc_exec to_vec_len payload_of) ipc_new before in
  let m' := foldl (ipc_exec to_vec_len payload_of) m es in
  queue m a ++ deliveries to_vec_len payload_of a m es = receipts to_vec_len payload_of a m es ++ queue m' a ∧
  (length (queue m' a) <= MAILBOX_CAPACITY)%nat ∧ (length (dead_letters m') <= MAX_DEAD_LETTERS)%nat.
Proof.
  assert (Hsplit : ∀ l1 l2 m, traversals_ok to_vec_len payload_of m (l1 ++ l2) →
    traversals_ok to_vec_len payload_of m l1 ∧
    traversals_ok to_vec_len payload_of (foldl (ipc_exec to_vec_len payload_of) m l1) l2).
  { induction l1 as [|e l1 IH]; intros l2 m; cbn; [done|]. naive_solver. }
  destruct (Hsplit _ _ _ Ht) as [Ht1 Ht2]. intros m m'. split; [by apply run_queue|].
  assert (ipc_bounded (@ipc_new Value)).
  { split; [|cbn; lia]. intros b. unfold queue. cbn. rewrite lookup_empty. cbn. lia. }
  destruct (run_bounded to_vec_len payload_of _ es Ht2 (run_bounded to_vec_len payload_of _ before Ht1 H0)) as [Hq Hl].
  split; [apply Hq|apply Hl].
Qed.


(** ** Delegations *)

Section delegations.
Context {Value W : Type} `{NamespaceVisibility W}.
Variable to_vec_len : Value → option Z.
Variable delegation_payload : TaskId → string → Value.

Abbreviation run := (foldl (ipc_exec to_vec_len delegation_payload) ipc_new).

(** The task comes from a delegation that was delivered, and only its assignee has completed it. *)
Definition task_origin (es : list (IpcEvent Value W)) (id : TaskId) (t : DelegatedTask) : Prop :=
  ∃ pre now w post,
    es = pre ++ IeDelegate now w id (dt_from t) (dt_to t) (dt_description t) :: post ∧
    (delegate to_vec_len delegation_payload now w (run pre) id (dt_from t) (dt_to t) (dt_description t)).2
      = Ok id ∧
    (dt_status t = Pending ∨ dt_status t = Completed ∧ IeComplete (dt_to t) id ∈ post).

Lemma origin_snoc es id t e : task_origin es id t → task_origin (es ++ [e]) id t.
Proof using Type.
  intros (pre & now & w & post & -> & Hd & Hs). exists pre, now, w, (post ++ [e]).
  rewrite <- app_assoc. split_and!; [done..|]. set_solver.
Qed.

Lemma exec_delegations m e (id : TaskId) t :
  delegations (ipc_exec to_vec_len delegation_payload m e) !! id = Some t →
  delegations m !! id = Some t ∨
  (∃ now w from to d, e = IeDelegate now w id from to d ∧ t = mkTask id from to d Pending ∧
     (delegate to_vec_len delegation_payload now w m id from to d).2 = Ok id) ∨
  (∃ t0, e = IeComplete (dt_to t0) id ∧ delegations m !! id = Some t0 ∧ t = complete_task t0).
Proof using Type.
  destruct e; cbn -[send publish delegate receive complete_delegation]; try (by left).
  - intros [Ht _]%map_lookup_filter_Some. by left.
  - rewrite (proj2 (proj2 (send_frame to_vec_len _ _ _ _ _ _))). by left.
  - unfold receive. repeat case_match; by left.
  - rewrite (proj2 (proj2 (publish_frame to_vec_len _ _ _ _ _ _ _))). by left.
  - unfold delegate. destruct (check_permission m from to) eqn:Hp; [|by left].
    pose proof (send_frame to_vec_len now w m from to (delegation_payload id0 description)) as Hs.
    destruct (send _ _ _ _ _ _ _) as [m' [u|er]] eqn:Hsend; cbn [fst] in *; destruct Hs as (_ & _ & Hs).
    + cbn. rewrite Hs. intros [[<- <-]|[_ Ht]]%lookup_insert_Some; [|by left]. right. left.
      eexists now, w, from, to, description. split_and!; [done..|]. by rewrite Hp, Hsend.
    + rewrite Hs. by left.
  - unfold complete_delegation. destruct (delegations m !! id0) as [t0|] eqn:H0; [|by left].
    destruct (Z.eqb_spec caller (dt_to t0)) as [->|]; cbn; [|by left].
    intros [[<- <-]|[_ Ht]]%lookup_insert_Some; [|by left]. right. right. by exists t0.
Qed.

Lemma run_delegations es (id : TaskId) t : delegations (run es) !! id = Some t → task_origin es id t.
Proof using Type.
  revert id t. induction es as [|e es IH] using rev_ind; intros id t; [done|]. rewrite foldl_app. cbn [foldl].
  intros [Ht|[(now & w & from & to & d & -> & -> & Hd)|(t0 & -> & Ht0 & ->)]]%exec_delegations.
  - by apply origin_snoc, IH.
  - exists es, now, w, []. split_and!; [done..|]. by left.
  - destruct (IH _ _ Ht0) as (pre & now & w & post & -> & Hd & Hs). exists pre, now, w, (post ++ [IeComplete (dt_to t0) id]).
    cbn [complete_task dt_from dt_to dt_description dt_status]. rewrite <- app_assoc. split_and!; [done..|].
    right. split; [done|]. set_solver.
Qed.
End delegations.

(** Over any history, an agent that is told the status of a task is one of its two
    parties, and the task was delegated by the other with a notice that was delivered; the status is
    completed only if the assignee has reported it since, and pending otherwise.  To everyone else
    the answer is that for a task that does not exist. *)
Theorem delegation_authorized {Value W : Type} `{NamespaceVisibility W} (to_vec_len : Value → option Z)
    (payload_of : TaskId → string → Value) (es : list (IpcEvent Value W)) (caller : AgentId) (id : TaskId) :
  let m := foldl (ipc_exec to_vec_len payload_of) ipc_new es in
  match get_delegation_status m caller id with
  | Some st =>
      ∃ pre now w from to d post,
        es = pre ++ IeDelegate now w id from to d :: post ∧
        (delegate to_vec_len payload_of now w (foldl (ipc_exec to_vec_len payload_of) ipc_new pre)
           id from to d).2 = Ok id ∧
        (caller = from ∨ caller = to) ∧
        (st = Pending ∨ st = Completed ∧ IeComplete to id ∈ post)
  | None =>
      get_delegation_status (set_delegations m (delete id (delegations m))) caller id = None
  end.
Proof.
  intros m. unfold get_delegation_status. cbn. rewrite lookup_delete_eq.
  destruct (delegations m !! id) as [t|] eqn:Ht; [|done].
  destruct (negb (caller =? dt_from t) && negb (caller =? dt_to t)) eqn:Hc; [done|].
  destruct (run_delegations to_vec_len payload_of es id t Ht) as (pre & now & w & post & Heq & Hd & Hs).
  exists pre, now, w, (dt_from t), (dt_to t), (dt_description t), post. split_and!; [done..| |done].
  apply andb_false_iff in Hc as [Hc|Hc]; apply negb_false_iff, Z.eqb_eq in Hc; auto.
Qed.

(** ** Concrete histories *)

(** Agents 1 and 2 share namespace 5; agent 3 is alone in namespace 6. *)
Definition example_record (pid : Z) (nss : list Z) : GateRecord :=
  mkRecord pid (mkCaps 0) 1 false 1 1 true nss 1 1.
Definition example_gate : Gate :=
  set_records {[1 := example_record 1 [5]; 2 := example_record 2 [5]; 3 := example_record 3 [6]]}
    (with_mac (cgroup_manager_new 1) false []).
Abbreviation example_event := (IpcEvent Z Gate).
(** A payload is its encoded length. *)
Abbreviation example_len := (Some (A := Z)).
Abbreviation example_notice := (λ (id : Z) (_ : string), id).

Definition example_setup : list example_event :=
  [IeInstall; IeEnable; IeRegister 1; IeRegister 2; IeRegister 3; IeAllow 1 2; IeAllow 3 2;
   IeSubscribe 2 "news"].
(** The second message comes from another namespace, the fourth is too long. *)
Definition example_traffic : list example_event :=
  [IeSend 10 example_gate 1 2 100; IeSend 11 example_gate 3 2 200; IeReceive 2;
   IePublish 12 example_gate 1 "news" 300 [(2, ["news"])];
   IeSend 13 example_gate 1 2 (64 * 1024 + 1); IeDelegate 14 example_gate 77 1 2 "task"].

Lemma mailbox_fifo_witness :
  let m := foldl (ipc_exec example_len example_notice) ipc_new example_setup in
  im_payload <$> receipts example_len example_notice 2 m example_traffic ++
    queue (foldl (ipc_exec example_len example_notice) m example_traffic) 2 = [100; 300; 77].
Proof.
  cbv zeta.
  destruct (mailbox_fifo example_len example_notice example_setup example_traffic 2) as [H _];
    [vm_compute; repeat split; apply Permutation_refl|repeat constructor|].
  cbv zeta in H. rewrite <- H. vm_compute. reflexivity.
Defined.


(** An agent of another namespace is meant to be answered for like an agent that does not exist.  An
    oversized message tells the two apart: the absent agent 9 passes the namespace check, and its
    sender is told of the size instead. *)
Example oversized_message_probes :
  let m := foldl (ipc_exec example_len example_notice) ipc_new (IeInstall :: drop 2 example_setup) in
  (send example_len 13 example_gate m 1 3 (64 * 1024 + 1)).2 = Err (AgentNotFound 3) ∧
  (send example_len 13 example_gate m 1 9 (64 * 1024 + 1)).2 = Err PayloadTooLarge ∧
  (send example_len 13 example_gate m 1 9 1).2 = Err (AgentNotFound 9).
Proof. vm_compute. done. Qed.

(** Pairs bind direct messages only: with permissions enabled and no pair allowed, a publication still
    reaches its subscriber. *)
Example publication_ignores_pairs :
  let m := foldl (ipc_exec example_len example_notice) ipc_new
             [IeEnable; IeRegister 1; IeRegister 2; IeSubscribe 2 "news"] in
  (send example_len 13 example_gate m 1 2 1).2 = Err (NotAllowed 1 2) ∧
  (publish example_len 13 example_gate m 1 "news" 1 [(2, ["news"])]).2 = Ok 1.
Proof. vm_compute. done. Qed.
