(* ===== verification/QuotaLedger.v ===== *)
(** * The durable quota ledger

    Models the provider-rate accounting of [crates/kernel/src/context.rs].  A table is the map of its
    rows by primary key: the rows of [quota_receipt_scopes] are kept with the receipt they reference,
    in the order of [scope_order], since the foreign key deletes them with it.  A column that holds an
    8-byte blob is the number it encodes; the encoding and its order are [u64_blob] and below.  A method
    runs in one immediate transaction: its changes are kept when it returns [Ok] and rolled back
    otherwise ([transact]), which is also what an interrupted or failing statement leaves.  A statement
    that would violate a primary key is an error. *)

From S2P Require Import Prelude Cgroups.
From Stdlib Require Import Ascii.
#[local] Open Scope Z_scope.

(** Receipt identifiers are UUIDs, here their 128-bit values. *)
Abbreviation ReceiptId := Z (only parsing).

(** ** Fixed-width encoding of counters *)

(** [u64::to_be_bytes]. *)
Definition u64_blob (value : Z) : list Z :=
  (λ i, Z.land (Z.shiftr value (8 * i)) 255) <$> [7; 6; 5; 4; 3; 2; 1; 0].

(** [u64::from_be_bytes] of a blob of the right width. *)
Definition parse_u64_blob (blob : list Z) : option Z :=
  if bool_decide (length blob = 8%nat) then Some (foldl (λ acc b, acc * 256 + b) 0 blob) else None.

(** SQLite's order on blobs, [memcmp] and then the length. *)
Fixpoint blob_lt (a b : list Z) : bool :=
  match a, b with
  | [], [] => false
  | [], _ => true
  | _, [] => false
  | x :: a, y :: b => if x =? y then blob_lt a b else x <? y
  end.

(** ** Rows *)

Inductive ProviderRateReceiptState := Reserved | InFlight | Estimated | Reconciled.
#[global] Instance receipt_state_eq_dec : EqDecision ProviderRateReceiptState.
Proof. solve_decision. Defined.

Inductive QuotaScopeKind := Provider | Cgroup.
#[global] Instance scope_kind_eq_dec : EqDecision QuotaScopeKind.
Proof. solve_decision. Defined.

Record QuotaScopeKey := mkKey { sk_kind : QuotaScopeKind; sk_id : string }.
#[global] Instance scope_key_eq_dec : EqDecision QuotaScopeKey.
Proof. solve_decision. Defined.
#[global] Instance scope_key_countable : Countable QuotaScopeKey.
Proof.
  refine (inj_countable' (λ k, (bool_decide (sk_kind k = Provider), sk_id k))
    (λ p, mkKey (if p.1 : bool then Provider else Cgroup) p.2) _).
  by intros [[] id].
Defined.

Definition provider_global : QuotaScopeKey := mkKey Provider "global".
Definition cgroup (scope_id : string) : QuotaScopeKey := mkKey Cgroup scope_id.

Record StoredQuotaReceipt := mkReceipt {
  sr_id : ReceiptId;
  sr_epoch : Z;
  sr_state : ProviderRateReceiptState;
  sr_reserved_requests : Z;
  sr_reserved_tokens : Z;
  sr_actual_requests : option Z;
  sr_actual_tokens : option Z }.

Record StoredQuotaScope := mkScope {
  qs_key : QuotaScopeKey;
  qs_order : Z;
  qs_reserved_requests : Z;
  qs_reserved_tokens : Z;
  qs_actual_requests : option Z;
  qs_actual_tokens : option Z }.

#[global] Instance stored_receipt_eq_dec : EqDecision StoredQuotaReceipt.
Proof. solve_decision. Defined.

(** A receipt with its scope associations. *)
Abbreviation Row := (StoredQuotaReceipt * list StoredQuotaScope)%type.

Record Ledger := mkLedger {
  quota_epoch_floor : option Z;
  quota_epochs : gmap (QuotaScopeKey * Z) (Z * Z);
  quota_receipts : gmap ReceiptId Row;
  quota_refunded_receipts : gmap ReceiptId Z;
  quota_migration_fence : gset Z }.

(** A fresh store has an explicit floor. *)
Definition ledger_new : Ledger := mkLedger (Some 0) ∅ ∅ ∅ ∅.

Definition set_floor (e : Z) (l : Ledger) : Ledger :=
  mkLedger (Some e) (quota_epochs l) (quota_receipts l) (quota_refunded_receipts l) (quota_migration_fence l).
Definition set_epochs (x : gmap (QuotaScopeKey * Z) (Z * Z)) (l : Ledger) : Ledger :=
  mkLedger (quota_epoch_floor l) x (quota_receipts l) (quota_refunded_receipts l) (quota_migration_fence l).
Definition set_receipts (x : gmap ReceiptId Row) (l : Ledger) : Ledger :=
  mkLedger (quota_epoch_floor l) (quota_epochs l) x (quota_refunded_receipts l) (quota_migration_fence l).
Definition set_refunded (x : gmap ReceiptId Z) (l : Ledger) : Ledger :=
  mkLedger (quota_epoch_floor l) (quota_epochs l) (quota_receipts l) x (quota_migration_fence l).
Definition set_fence (x : gset Z) (l : Ledger) : Ledger :=
  mkLedger (quota_epoch_floor l) (quota_epochs l) (quota_receipts l) (quota_refunded_receipts l) x.

(** The messages of [quota_error], and the failure of a constraint. *)
Inductive QuotaError :=
| InvalidScopeId
| UnsupportedProviderScope
| RelativeCgroupScope
| PrimaryKeyMismatch
| MissingActual
| UnexpectedActual
| OversizedOrder
| ScopeDisagrees (id : ReceiptId) (scope : QuotaScopeKey)
| NoScopes (id : ReceiptId)
| TooManyScopes
| NonContiguous (id : ReceiptId)
| ScopeZero (id : ReceiptId)
| NotCgroupScope (id : ReceiptId)
| ReceiptDisappeared (id : ReceiptId)
| EpochDisagrees (id : ReceiptId)
| ScopeDisappeared (id : ReceiptId)
| MissingAggregate (scope : QuotaScopeKey) (epoch : Z)
| AggregateUnderflow (scope : QuotaScopeKey) (epoch : Z)
| AggregateDisagrees (scope : QuotaScopeKey) (epoch : Z)
| NoRequests
| DuplicateScope (scope : string)
| ConflictingReservation (id : ReceiptId)
| DifferentScopes (id : ReceiptId)
| RefundedReceipt (id : ReceiptId)
| UnknownReceipt (id : ReceiptId)
| RefundAfterInvocation (id : ReceiptId)
| NotMarkedInvoked (id : ReceiptId)
| OutsideReservedRange (id : ReceiptId)
| ReconciledDifferently (id : ReceiptId)
| ConflictingCharge (id : ReceiptId)
| BeforeUnixEpoch
| ConstraintViolation.

#[global] Instance quota_error_eq_dec : EqDecision QuotaError.
Proof. solve_decision. Defined.

Definition transact {A : Type} (l : Ledger) (r : result QuotaError (Ledger * A)) : Ledger * result QuotaError A :=
  match r with
  | Ok (l', a) => (l', Ok a)
  | Err e => (l, Err e)
  end.

(** ** Reading rows *)

(** Lengths are of bytes. *)
Definition validate_quota_scope_key (scope : QuotaScopeKey) : result QuotaError unit :=
  _ ← ensure (negb (bool_decide (sk_id scope = EmptyString) || (1024 <? Z.of_nat (String.length (sk_id scope)))
              || string_contains Ascii.zero (sk_id scope))) InvalidScopeId;
  match sk_kind scope with
  | Provider => ensure (bool_decide (sk_id scope = "global")) UnsupportedProviderScope
  | Cgroup => ensure (starts_with "/" (sk_id scope)) RelativeCgroupScope
  end.

(** [effective_quota_epoch]: the epoch, and the floor raised to it. *)
Definition effective_quota_epoch (l : Ledger) (requested_epoch : Z) : Z * Ledger :=
  let effective := Z.max (default 0 (quota_epoch_floor l)) requested_epoch in
  (effective, set_floor effective l).

(** The checks of [load_quota_receipt] on a row. *)
Definition check_receipt (id : ReceiptId) (r : StoredQuotaReceipt) : result QuotaError unit :=
  _ ← ensure (sr_id r =? id) PrimaryKeyMismatch;
  match sr_state r with
  | Reconciled =>
      ensure (bool_decide (is_Some (sr_actual_requests r)) && bool_decide (is_Some (sr_actual_tokens r))) MissingActual
  | _ =>
      ensure (bool_decide (sr_actual_requests r = None) && bool_decide (sr_actual_tokens r = None)) UnexpectedActual
  end.

Definition load_quota_receipt (l : Ledger) (id : ReceiptId) : result QuotaError (option Row) :=
  match quota_receipts l !! id with
  | None => Ok None
  | Some (r, scopes) => _ ← check_receipt id r; Ok (Some (r, scopes))
  end.

(** The requests of a receipt count against the provider scope only. *)
Definition requests_for (scope : QuotaScopeKey) (requests : Z) : Z :=
  match sk_kind scope with Provider => requests | Cgroup => 0 end.

Definition check_scope (r : StoredQuotaReceipt) (_ : unit) (s : StoredQuotaScope) : result QuotaError unit :=
  _ ← ensure ((0 <=? qs_order s) && (qs_order s <=? u32_max)) OversizedOrder;
  _ ← validate_quota_scope_key (qs_key s);
  ensure ((qs_reserved_requests s =? requests_for (qs_key s) (sr_reserved_requests r))
          && (qs_reserved_tokens s =? sr_reserved_tokens r)
          && bool_decide (qs_actual_requests s = requests_for (qs_key s) <$> sr_actual_requests r)
          && bool_decide (qs_actual_tokens s = sr_actual_tokens r))
    (ScopeDisagrees (sr_id r) (qs_key s)).

Fixpoint check_order (id : ReceiptId) (expected : Z) (scopes : list StoredQuotaScope) : result QuotaError unit :=
  match scopes with
  | [] => Ok tt
  | s :: scopes =>
      _ ← ensure (expected <=? u32_max) TooManyScopes;
      _ ← ensure (qs_order s =? expected) (NonContiguous id);
      _ ← (if expected =? 0 then ensure (bool_decide (qs_key s = provider_global)) (ScopeZero id)
           else ensure (bool_decide (sk_kind (qs_key s) = Cgroup)) (NotCgroupScope id));
      check_order id (expected + 1) scopes
  end.

Definition load_receipt_scopes (row : Row) : result QuotaError (list StoredQuotaScope) :=
  let '(r, scopes) := row in
  _ ← try_fold (check_scope r) scopes tt;
  _ ← ensure (negb (bool_decide (scopes = []))) (NoScopes (sr_id r));
  _ ← check_order (sr_id r) 0 scopes;
  Ok scopes.

(** The actual usage of a reconciled receipt is present in a loaded row. *)
Definition scope_contribution (r : StoredQuotaReceipt) (s : StoredQuotaScope) : Z * Z :=
  match sr_state r with
  | Reconciled => (default 0 (qs_actual_requests s), default 0 (qs_actual_tokens s))
  | _ => (qs_reserved_requests s, qs_reserved_tokens s)
  end.

(** ** Aggregates *)

Record QuotaScopeUsage := mkUsage {
  qu_requests : Z;
  qu_tokens : Z;
  reserved_receipts : Z;
  in_flight_receipts : Z;
  estimated_receipts : Z;
  reconciled_receipts : Z }.
#[global] Instance usage_eq_dec : EqDecision QuotaScopeUsage.
Proof. solve_decision. Defined.
Definition usage_zero : QuotaScopeUsage := mkUsage 0 0 0 0 0 0.

(** [ORDER BY r.id]; the text of a UUID orders as its value. *)
Definition receipt_ids (l : Ledger) : list ReceiptId := merge_sort Z.le (map_to_list (quota_receipts l)).*1.

Definition has_key (scope : QuotaScopeKey) (s : StoredQuotaScope) : bool := bool_decide (qs_key s = scope).

(** The receipts a join selects for one scope and epoch. *)
Definition in_scope (scope : QuotaScopeKey) (epoch : Z) (row : Row) : bool :=
  (sr_epoch row.1 =? epoch) && existsb (has_key scope) row.2.
Definition scope_ids (l : Ledger) (scope : QuotaScopeKey) (epoch : Z) : list ReceiptId :=
  retain (λ id, match quota_receipts l !! id with Some row => in_scope scope epoch row | None => false end)
    (receipt_ids l).

Definition count_state (st : ProviderRateReceiptState) (u : QuotaScopeUsage) : QuotaScopeUsage :=
  match st with
  | Reserved => mkUsage (qu_requests u) (qu_tokens u) (sat_add64 (reserved_receipts u) 1)
                  (in_flight_receipts u) (estimated_receipts u) (reconciled_receipts u)
  | InFlight => mkUsage (qu_requests u) (qu_tokens u) (reserved_receipts u)
                  (sat_add64 (in_flight_receipts u) 1) (estimated_receipts u) (reconciled_receipts u)
  | Estimated => mkUsage (qu_requests u) (qu_tokens u) (reserved_receipts u)
                  (in_flight_receipts u) (sat_add64 (estimated_receipts u) 1) (reconciled_receipts u)
  | Reconciled => mkUsage (qu_requests u) (qu_tokens u) (reserved_receipts u)
                  (in_flight_receipts u) (estimated_receipts u) (sat_add64 (reconciled_receipts u) 1)
  end.

(** The loop body of [compute_scope_epoch_usage]. *)
Definition add_receipt (l : Ledger) (scope : QuotaScopeKey) (epoch : Z) (u : QuotaScopeUsage) (id : ReceiptId)
    : result QuotaError QuotaScopeUsage :=
  row ← load_quota_receipt l id;
  row ← ok_or (ReceiptDisappeared id) row;
  _ ← ensure (sr_epoch row.1 =? epoch) (EpochDisagrees id);
  scopes ← load_receipt_scopes row;
  s ← ok_or (ScopeDisappeared id) (find_first (has_key scope) scopes);
  let '(requests, tokens) := scope_contribution row.1 s in
  Ok (count_state (sr_state row.1)
        (mkUsage (sat_add64 (qu_requests u) requests) (sat_add64 (qu_tokens u) tokens) (reserved_receipts u)
           (in_flight_receipts u) (estimated_receipts u) (reconciled_receipts u))).

Definition compute_scope_epoch_usage (l : Ledger) (scope : QuotaScopeKey) (epoch : Z)
    : result QuotaError QuotaScopeUsage :=
  _ ← validate_quota_scope_key scope;
  try_fold (add_receipt l scope epoch) (scope_ids l scope epoch) usage_zero.

Definition load_scope_epoch_aggregate (l : Ledger) (scope : QuotaScopeKey) (epoch : Z) : option (Z * Z) :=
  quota_epochs l !! (scope, epoch).

Definition trusted_scope_epoch_aggregate (l : Ledger) (scope : QuotaScopeKey) (epoch : Z)
    : result QuotaError (Z * Z) :=
  _ ← validate_quota_scope_key scope;
  Ok (default (0, 0) (load_scope_epoch_aggregate l scope epoch)).

Definition required_scope_epoch_aggregate (l : Ledger) (scope : QuotaScopeKey) (epoch : Z)
    : result QuotaError (Z * Z) :=
  _ ← validate_quota_scope_key scope;
  ok_or (MissingAggregate scope epoch) (load_scope_epoch_aggregate l scope epoch).

(** The loop that requires the aggregate of each scope of a receipt. *)
Definition require_aggregates (l : Ledger) (scopes : list StoredQuotaScope) (epoch : Z) : result QuotaError unit :=
  try_fold (λ _ s, _ ← required_scope_epoch_aggregate l (qs_key s) epoch; Ok tt) scopes tt.

Definition write_scope_epoch_aggregate (l : Ledger) (scope : QuotaScopeKey) (epoch requests tokens : Z)
    : result QuotaError Ledger :=
  _ ← validate_quota_scope_key scope;
  Ok (set_epochs (<[(scope, epoch) := (requests, tokens)]> (quota_epochs l)) l).

Definition usage_empty (u : QuotaScopeUsage) : bool :=
  (qu_requests u =? 0) && (qu_tokens u =? 0) && (reserved_receipts u =? 0) && (in_flight_receipts u =? 0)
  && (estimated_receipts u =? 0) && (reconciled_receipts u =? 0).

Definition write_scope_epoch_from_receipts (l : Ledger) (scope : QuotaScopeKey) (epoch : Z)
    : result QuotaError Ledger :=
  u ← compute_scope_epoch_usage l scope epoch;
  if usage_empty u then Ok (set_epochs (delete (scope, epoch) (quota_epochs l)) l)
  else Ok (set_epochs (<[(scope, epoch) := (qu_requests u, qu_tokens u)]> (quota_epochs l)) l).

(** The closure [replace]. *)
Definition replace_amount (scope : QuotaScopeKey) (epoch value previous replacement : Z) : result QuotaError Z :=
  if previous <=? replacement then Ok (sat_add64 value (replacement - previous))
  else if value <? previous - replacement then Err (AggregateUnderflow scope epoch)
  else Ok (value - (previous - replacement)).

Definition replace_scope_epoch_contribution (l : Ledger) (scope : QuotaScopeKey) (epoch : Z) (old new : Z * Z)
    : result QuotaError Ledger :=
  current ← required_scope_epoch_aggregate l scope epoch;
  if (new.1 <? old.1) && (current.1 =? u64_max) || (new.2 <? old.2) && (current.2 =? u64_max)
  then write_scope_epoch_from_receipts l scope epoch
  else
    requests ← replace_amount scope epoch current.1 old.1 new.1;
    tokens ← replace_amount scope epoch current.2 old.2 new.2;
    write_scope_epoch_aggregate l scope epoch requests tokens.

Definition validate_scope_epoch (l : Ledger) (scope : QuotaScopeKey) (epoch : Z)
    : result QuotaError QuotaScopeUsage :=
  u ← compute_scope_epoch_usage l scope epoch;
  match load_scope_epoch_aggregate l scope epoch with
  | Some v => if bool_decide (v = (qu_requests u, qu_tokens u)) then Ok u else Err (AggregateDisagrees scope epoch)
  | None => if usage_empty u then Ok u else Err (MissingAggregate scope epoch)
  end.

(** The scopes and epochs of the aggregates and of the receipts, a [BTreeSet] in the source; the order
    of the checks only selects the error. *)
Definition all_scope_epochs (l : Ledger) : list (QuotaScopeKey * Z) :=
  elements (dom (quota_epochs l) ∪
    list_to_set (map_to_list (quota_receipts l) ≫= λ p, (λ s, (qs_key s, sr_epoch p.2.1)) <$> p.2.2)).

Definition validate_all_provider_epochs (l : Ledger) : result QuotaError unit :=
  _ ← try_fold (λ _ id,
         row ← load_quota_receipt l id;
         row ← ok_or (ReceiptDisappeared id) row;
         _ ← load_receipt_scopes row; Ok tt) (receipt_ids l) tt;
  try_fold (λ _ p, _ ← validate_quota_scope_key p.1; _ ← validate_scope_epoch l p.1 p.2; Ok tt)
    (all_scope_epochs l) tt.

Definition quota_receipt_was_refunded (l : Ledger) (id : ReceiptId) : bool :=
  bool_decide (is_Some (quota_refunded_receipts l !! id)).

(** ** Reservations *)

Record ProviderRateRequest := mkRequest {
  rq_receipt_id : ReceiptId;
  rq_requested_epoch : Z;
  rq_rpm : Z;
  rq_tpm : Z;
  rq_estimated_requests : Z;
  rq_estimated_tokens : Z }.

Record ProviderRateReservation := mkReservation {
  pr_id : ReceiptId;
  pr_epoch : Z;
  pr_reserved_requests : Z;
  pr_reserved_tokens : Z;
  pr_state : ProviderRateReceiptState;
  pr_cgroup_scopes : list string }.

Inductive ProviderRateLimitDimension := Requests | Tokens | MigrationFence.

Inductive ProviderRateReserveOutcome :=
| OutReserved (reservation : ProviderRateReservation)
| OutDenied (epoch : Z) (scope : QuotaScopeKey) (dimension : ProviderRateLimitDimension)
    (used requested limit : Z).

(** The loop over the constraints before the transaction. *)
Fixpoint check_constraints (seen : list string) (cgroups : list CgroupQuotaConstraint) : result QuotaError unit :=
  match cgroups with
  | [] => Ok tt
  | c :: cgroups =>
      _ ← validate_quota_scope_key (cgroup (scope_id c));
      _ ← ensure (negb (bool_decide (scope_id c ∈ seen))) (DuplicateScope (scope_id c));
      check_constraints (scope_id c :: seen) cgroups
  end.

(** The identifier is in use: the same reservation again, or a conflict. *)
Definition reserve_again (l : Ledger) (req : ProviderRateRequest) (cgroups : list CgroupQuotaConstraint) (row : Row)
    : result QuotaError (Ledger * ProviderRateReserveOutcome) :=
  let r := row.1 in
  scopes ← load_receipt_scopes row;
  _ ← require_aggregates l scopes (sr_epoch r);
  let stored_cgroups := (λ s, sk_id (qs_key s)) <$> drop 1 scopes in
  _ ← ensure ((sr_reserved_requests r =? rq_estimated_requests req)
              && (sr_reserved_tokens r =? rq_estimated_tokens req)) (ConflictingReservation (rq_receipt_id req));
  _ ← ensure (bool_decide (stored_cgroups = scope_id <$> cgroups)) (DifferentScopes (rq_receipt_id req));
  Ok (l, OutReserved (mkReservation (sr_id r) (sr_epoch r) (sr_reserved_requests r) (sr_reserved_tokens r)
                        (sr_state r) stored_cgroups)).

(** Zero is unlimited. *)
Definition over_limit (limit used requested : Z) : bool :=
  negb (limit =? 0) && ((limit <? used) || (sat_sub limit used <? requested)).

(** The usages of the constrained scopes, in their order. *)
Fixpoint cgroup_usages (l : Ledger) (epoch : Z) (cgroups : list CgroupQuotaConstraint)
    : result QuotaError (list (CgroupQuotaConstraint * (Z * Z))) :=
  match cgroups with
  | [] => Ok []
  | c :: cgroups =>
      u ← trusted_scope_epoch_aggregate l (cgroup (scope_id c)) epoch;
      us ← cgroup_usages l epoch cgroups;
      Ok ((c, u) :: us)
  end.

(** The first limit the request does not fit. *)
Definition denial (req : ProviderRateRequest) (epoch : Z) (usage : Z * Z)
    (usages : list (CgroupQuotaConstraint * (Z * Z))) : option ProviderRateReserveOutcome :=
  if over_limit (rq_rpm req) usage.1 (rq_estimated_requests req) then
    Some (OutDenied epoch provider_global Requests usage.1 (rq_estimated_requests req) (rq_rpm req))
  else if over_limit (rq_tpm req) usage.2 (rq_estimated_tokens req) then
    Some (OutDenied epoch provider_global Tokens usage.2 (rq_estimated_tokens req) (rq_tpm req))
  else
    (λ p, OutDenied epoch (cgroup (scope_id p.1)) Tokens p.2.2 (rq_estimated_tokens req) (token_limit p.1)) <$>
      find_first (λ p, over_limit (token_limit p.1) p.2.2 (rq_estimated_tokens req)) usages.

(** The rows a reservation inserts. *)
Definition reserved_scopes (requests tokens : Z) (cgroups : list CgroupQuotaConstraint) : list StoredQuotaScope :=
  mkScope provider_global 0 requests tokens None None ::
  imap (λ i c, mkScope (cgroup (scope_id c)) (Z.of_nat i + 1) 0 tokens None None) cgroups.

Definition insert_receipt (l : Ledger) (id : ReceiptId) (row : Row) : result QuotaError Ledger :=
  match quota_receipts l !! id with
  | Some _ => Err ConstraintViolation
  | None => Ok (set_receipts (<[id := row]> (quota_receipts l)) l)
  end.

Definition write_cgroup_usages (epoch tokens : Z) (usages : list (CgroupQuotaConstraint * (Z * Z))) (l : Ledger)
    : result QuotaError Ledger :=
  try_fold (λ l p, write_scope_epoch_aggregate l (cgroup (scope_id p.1)) epoch p.2.1 (sat_add64 p.2.2 tokens))
    usages l.

(** The identifier is new. *)
Definition reserve_new (l : Ledger) (epoch : Z) (req : ProviderRateRequest) (cgroups : list CgroupQuotaConstraint)
    : result QuotaError (Ledger * ProviderRateReserveOutcome) :=
  let id := rq_receipt_id req in
  let requests := rq_estimated_requests req in
  let tokens := rq_estimated_tokens req in
  usage ← trusted_scope_epoch_aggregate l provider_global epoch;
  usages ← cgroup_usages l epoch cgroups;
  match denial req epoch usage usages with
  | Some outcome => Ok (l, outcome)
  | None =>
      l ← insert_receipt l id (mkReceipt id epoch Reserved requests tokens None None,
                               reserved_scopes requests tokens cgroups);
      l ← write_scope_epoch_aggregate l provider_global epoch (sat_add64 usage.1 requests)
            (sat_add64 usage.2 tokens);
      l ← write_cgroup_usages epoch tokens usages l;
      Ok (l, OutReserved (mkReservation id epoch requests tokens Reserved (scope_id <$> cgroups)))
  end.

Definition reserve_tx (l : Ledger) (req : ProviderRateRequest) (cgroups : list CgroupQuotaConstraint)
    : result QuotaError (Ledger * ProviderRateReserveOutcome) :=
  _ ← ensure (negb (rq_estimated_requests req =? 0)) NoRequests;
  _ ← check_constraints [] cgroups;
  _ ← ensure (Z.of_nat (length cgroups) <? u32_max) TooManyScopes;
  let '(epoch, l) := effective_quota_epoch l (rq_requested_epoch req) in
  row ← load_quota_receipt l (rq_receipt_id req);
  match row with
  | Some row => reserve_again l req cgroups row
  | None =>
      if quota_receipt_was_refunded l (rq_receipt_id req) then Err (RefundedReceipt (rq_receipt_id req))
      else if bool_decide (epoch ∈ quota_migration_fence l) then
        Ok (l, OutDenied epoch provider_global MigrationFence 0 0 0)
      else reserve_new l epoch req cgroups
  end.

Definition reserve_provider_rate_attempts_with_cgroups (l : Ledger) (req : ProviderRateRequest)
    (cgroups : list CgroupQuotaConstraint) : Ledger * result QuotaError ProviderRateReserveOutcome :=
  transact l (reserve_tx l req cgroups).

(** ** The life of a receipt *)

Definition set_sr_state (st : ProviderRateReceiptState) (r : StoredQuotaReceipt) : StoredQuotaReceipt :=
  mkReceipt (sr_id r) (sr_epoch r) st (sr_reserved_requests r) (sr_reserved_tokens r) (sr_actual_requests r)
    (sr_actual_tokens r).

(** [UPDATE quota_receipts SET state = ?]. *)
Definition update_state (st : ProviderRateReceiptState) (id : ReceiptId) (l : Ledger) : Ledger :=
  set_receipts (alter (λ row, (set_sr_state st row.1, row.2)) id (quota_receipts l)) l.

Definition delete_receipt (id : ReceiptId) (l : Ledger) : Ledger :=
  set_receipts (delete id (quota_receipts l)) l.

(** A row that must exist, with its scopes and their aggregates. *)
Definition load_live (l : Ledger) (id : ReceiptId) : result QuotaError Row :=
  row ← load_quota_receipt l id;
  row ← ok_or (UnknownReceipt id) row;
  scopes ← load_receipt_scopes row;
  _ ← require_aggregates l scopes (sr_epoch row.1);
  Ok row.

Definition mark_provider_rate_invoked (l : Ledger) (id : ReceiptId) : Ledger * result QuotaError unit :=
  transact l (
    row ← load_live l id;
    if bool_decide (sr_state row.1 = Reserved) then Ok (update_state InFlight id l, tt) else Ok (l, tt)).

Definition insert_refunded (id : ReceiptId) (epoch : Z) (l : Ledger) : result QuotaError Ledger :=
  match quota_refunded_receipts l !! id with
  | Some _ => Err ConstraintViolation
  | None => Ok (set_refunded (<[id := epoch]> (quota_refunded_receipts l)) l)
  end.

(** The loop that takes a refunded receipt out of its aggregates. *)
Definition withdraw (row : Row) (l : Ledger) : result QuotaError Ledger :=
  try_fold (λ l s, replace_scope_epoch_contribution l (qs_key s) (sr_epoch row.1) (scope_contribution row.1 s) (0, 0))
    row.2 l.

Definition refund_provider_rate_before_invocation (l : Ledger) (id : ReceiptId) : Ledger * result QuotaError unit :=
  transact l (
    row ← load_quota_receipt l id;
    match row with
    | None => if quota_receipt_was_refunded l id then Ok (l, tt) else Err (UnknownReceipt id)
    | Some _ =>
        row ← load_live l id;
        _ ← ensure (bool_decide (sr_state row.1 = Reserved)) (RefundAfterInvocation id);
        l ← insert_refunded id (sr_epoch row.1) l;
        l ← withdraw row (delete_receipt id l);
        Ok (l, tt)
    end).

Definition retain_provider_rate_estimate (l : Ledger) (id : ReceiptId) : Ledger * result QuotaError unit :=
  transact l (
    row ← load_live l id;
    match sr_state row.1 with
    | InFlight => Ok (update_state Estimated id l, tt)
    | Estimated | Reconciled => Ok (l, tt)
    | Reserved => Err (NotMarkedInvoked id)
    end).

(** The two updates of a reconciliation, on the receipt and on its scopes. *)
Definition reconcile_receipt (requests tokens : Z) (r : StoredQuotaReceipt) : StoredQuotaReceipt :=
  mkReceipt (sr_id r) (sr_epoch r) Reconciled (sr_reserved_requests r) (sr_reserved_tokens r) (Some requests)
    (Some tokens).
Definition reconcile_scope (requests tokens : Z) (s : StoredQuotaScope) : StoredQuotaScope :=
  mkScope (qs_key s) (qs_order s) (qs_reserved_requests s) (qs_reserved_tokens s)
    (Some (requests_for (qs_key s) requests)) (Some tokens).
Definition reconcile_row (requests tokens : Z) (row : Row) : Row :=
  (reconcile_receipt requests tokens row.1, reconcile_scope requests tokens <$> row.2).

Definition restate (requests tokens : Z) (row : Row) (l : Ledger) : result QuotaError Ledger :=
  try_fold (λ l s, replace_scope_epoch_contribution l (qs_key s) (sr_epoch row.1) (scope_contribution row.1 s)
                     (requests_for (qs_key s) requests, tokens)) row.2 l.

Definition reconcile_provider_rate_inner (l : Ledger) (id : ReceiptId) (actual_requests : option Z)
    (actual_tokens : Z) : Ledger * result QuotaError unit :=
  transact l (
    row ← load_quota_receipt l id;
    row ← ok_or (UnknownReceipt id) row;
    scopes ← load_receipt_scopes row;
    let r := row.1 in
    let actual_requests := default (sr_reserved_requests r) actual_requests in
    _ ← ensure (negb ((actual_requests =? 0) || (sr_reserved_requests r <? actual_requests)))
          (OutsideReservedRange id);
    _ ← require_aggregates l scopes (sr_epoch r);
    match sr_state r with
    | Reconciled =>
        _ ← ensure (bool_decide (sr_actual_requests r = Some actual_requests)
                    && bool_decide (sr_actual_tokens r = Some actual_tokens)) (ReconciledDifferently id);
        Ok (l, tt)
    | InFlight | Estimated =>
        l ← restate actual_requests actual_tokens row
              (set_receipts (alter (reconcile_row actual_requests actual_tokens) id (quota_receipts l)) l);
        Ok (l, tt)
    | Reserved => Err (NotMarkedInvoked id)
    end).

Definition reconcile_provider_rate (l : Ledger) (id : ReceiptId) (actual_tokens : Z) :=
  reconcile_provider_rate_inner l id None actual_tokens.
Definition reconcile_provider_rate_attempts (l : Ledger) (id : ReceiptId) (actual_requests actual_tokens : Z) :=
  reconcile_provider_rate_inner l id (Some actual_requests) actual_tokens.

(** ** Direct charges and usage *)

Definition charge_again (l : Ledger) (id : ReceiptId) (tokens : Z) (row : Row) : result QuotaError (Ledger * unit) :=
  let r := row.1 in
  scopes ← load_receipt_scopes row;
  _ ← require_aggregates l scopes (sr_epoch r);
  _ ← ensure ((sr_reserved_requests r =? 0) && (sr_reserved_tokens r =? 0)
              && bool_decide (sr_state r = Reconciled) && bool_decide (sr_actual_requests r = Some 0)
              && bool_decide (sr_actual_tokens r = Some tokens)
              && bool_decide (qs_key <$> scopes = [provider_global])) (ConflictingCharge id);
  Ok (l, tt).

Definition charge_provider_rate_tokens (l : Ledger) (id : ReceiptId) (requested_epoch tokens : Z)
    : Ledger * result QuotaError unit :=
  transact l (
    let '(epoch, l) := effective_quota_epoch l requested_epoch in
    row ← load_quota_receipt l id;
    match row with
    | Some row => charge_again l id tokens row
    | None =>
        if quota_receipt_was_refunded l id then Err (RefundedReceipt id)
        else
          aggregate ← trusted_scope_epoch_aggregate l provider_global epoch;
          l ← insert_receipt l id (mkReceipt id epoch Reconciled 0 0 (Some 0) (Some tokens),
                                   [mkScope provider_global 0 0 0 (Some 0) (Some tokens)]);
          l ← write_scope_epoch_aggregate l provider_global epoch aggregate.1 (sat_add64 aggregate.2 tokens);
          Ok (l, tt)
    end).

Definition provider_rate_usage (l : Ledger) (requested_epoch : Z) : Ledger * result QuotaError (Z * QuotaScopeUsage) :=
  transact l (
    let '(epoch, l) := effective_quota_epoch l requested_epoch in
    u ← validate_scope_epoch l provider_global epoch;
    Ok (l, (epoch, u))).

(** ** Recovery and pruning *)

Record ProviderRateRecovery := mkRecovery {
  effective_epoch : Z;
  refunded_reserved : Z;
  retained_in_flight_estimates : Z }.

Definition live_state (st : ProviderRateReceiptState) : bool :=
  match st with Reserved | InFlight => true | Estimated | Reconciled => false end.

Definition is_live (row : Row) : bool := live_state (sr_state row.1).

Definition live_ids (l : Ledger) : list ReceiptId :=
  retain (λ id, match quota_receipts l !! id with Some row => is_live row | None => false end) (receipt_ids l).

(** The ledger, the report and the affected scopes. *)
Abbreviation Recovering := (Ledger * ProviderRateRecovery * gset (QuotaScopeKey * Z))%type.

Definition recover_one (s : Recovering) (id : ReceiptId) : result QuotaError Recovering :=
  let '(l, rec, affected) := s in
  row ← load_quota_receipt l id;
  row ← ok_or (ReceiptDisappeared id) row;
  scopes ← load_receipt_scopes row;
  let r := row.1 in
  let affected := affected ∪ list_to_set ((λ s, (qs_key s, sr_epoch r)) <$> scopes) in
  match sr_state r with
  | Reserved =>
      l ← insert_refunded id (sr_epoch r) l;
      Ok (delete_receipt id l,
          mkRecovery (effective_epoch rec) (sat_add64 (refunded_reserved rec) 1) (retained_in_flight_estimates rec),
          affected)
  | InFlight =>
      Ok (update_state Estimated id l,
          mkRecovery (effective_epoch rec) (refunded_reserved rec) (sat_add64 (retained_in_flight_estimates rec) 1),
          affected)
  | Estimated | Reconciled => Ok (l, rec, affected)
  end.

Definition recover_provider_rate_state (l : Ledger) (requested_epoch : Z)
    : Ledger * result QuotaError ProviderRateRecovery :=
  transact l (
    let '(epoch, l) := effective_quota_epoch l requested_epoch in
    _ ← validate_all_provider_epochs l;
    s ← try_fold recover_one (live_ids l) (l, mkRecovery epoch 0 0, ∅);
    let '(l, rec, affected) := s in
    l ← try_fold (λ l p, write_scope_epoch_from_receipts l p.1 p.2) (elements affected) l;
    Ok (l, rec)).

(** The epochs below the bound that any table mentions, in increasing order. *)
Definition prune_candidates (l : Ledger) (before_epoch : Z) : list Z :=
  merge_sort Z.le (elements (filter (λ e, e < before_epoch)
    (list_to_set ((map_to_list (quota_epochs l)).*1.*2) ∪
     list_to_set ((λ p : ReceiptId * Row, sr_epoch p.2.1) <$> map_to_list (quota_receipts l)) ∪
     list_to_set ((map_to_list (quota_refunded_receipts l)).*2) ∪
     quota_migration_fence l : gset Z))).

Definition epoch_active (l : Ledger) (epoch : Z) : bool :=
  existsb (λ p : ReceiptId * Row, (sr_epoch p.2.1 =? epoch) && is_live p.2) (map_to_list (quota_receipts l)).

Definition prune_epoch (epoch : Z) (l : Ledger) : Ledger :=
  mkLedger (quota_epoch_floor l)
    (filter (λ p, p.1.2 ≠ epoch) (quota_epochs l))
    (filter (λ p : ReceiptId * Row, ¬ (sr_epoch p.2.1 = epoch ∧ is_live p.2 = false)) (quota_receipts l))
    (filter (λ p, p.2 ≠ epoch) (quota_refunded_receipts l))
    (quota_migration_fence l ∖ {[epoch]}).

Definition prune_one (s : Ledger * Z) (epoch : Z) : Ledger * Z :=
  if epoch_active s.1 epoch then s else (prune_epoch epoch s.1, sat_add64 s.2 1).

Definition prune_provider_rate_epochs (l : Ledger) (before_epoch : Z) : Ledger * result QuotaError Z :=
  transact l (
    _ ← validate_all_provider_epochs l;
    Ok (foldl prune_one (l, 0) (prune_candidates l before_epoch))).

(** ** Migration and erasure *)

Definition PROVIDER_RATE_EPOCH_SECONDS : Z := 60.

Definition install_current_quota_migration_fence (l : Ledger) (now_seconds : Z) : Ledger * result QuotaError unit :=
  transact l (
    _ ← ensure (0 <=? now_seconds) BeforeUnixEpoch;
    let current_epoch := now_seconds / PROVIDER_RATE_EPOCH_SECONDS in
    let effective := Z.max (default 0 (quota_epoch_floor l)) current_epoch in
    Ok (set_floor (Z.max (default effective (quota_epoch_floor l)) effective)
          (set_fence (quota_migration_fence l ∪ {[effective]}) l), tt)).

(** The rows of cgroup scopes that an erasure deletes. *)
Definition erase_scopes (erased : string → bool) (l : Ledger) : Ledger :=
  let gone (k : QuotaScopeKey) := match sk_kind k with Cgroup => erased (sk_id k) | Provider => false end in
  set_epochs (filter (λ p, gone p.1.1 = false) (quota_epochs l))
    (set_receipts ((λ row : Row, (row.1, retain (λ s, negb (gone (qs_key s))) row.2)) <$> quota_receipts l) l).

Definition agent_scope (agent_id scope : string) : bool := ends_with ("/agent/" +:+ agent_id) scope.

Definition quota_scope_segment (value : string) : string :=
  replace_char "/"%char "~1" (replace_char "~"%char "~0" value).
Definition tenant_scope (tenant_id scope : string) : bool :=
  let root := "/tenant/" +:+ quota_scope_segment tenant_id in
  bool_decide (scope = root) || starts_with (root +:+ "/") scope.
