(* ===== verification/QuotaInv.v ===== *)
(** * The quota ledger keeps its books

    The incremental aggregates of [QuotaLedger] against the receipts they summarise: the rows every
    operation leaves load without error, each stored aggregate is the saturating sum of the receipts of
    its scope and epoch, and recovery and the audits of the ledger therefore succeed in every state a
    history reaches. *)

From S2P Require Import Prelude Cgroups QuotaLedger.
#[local] Open Scope Z_scope.

(** ** Totals *)

(** What a row adds to a scope in an epoch: requests and tokens. *)
Definition contribution (scope : QuotaScopeKey) (epoch : Z) (row : Row) : Z * Z :=
  if sr_epoch row.1 =? epoch then
    match find_first (has_key scope) row.2 with
    | Some s => scope_contribution row.1 s
    | None => (0, 0)
    end
  else (0, 0).

Definition total (part : Z * Z → Z) (l : Ledger) (scope : QuotaScopeKey) (epoch : Z) : Z :=
  msum (λ row, part (contribution scope epoch row)) (quota_receipts l).

Definition count_in (st : ProviderRateReceiptState) (l : Ledger) (scope : QuotaScopeKey) (epoch : Z) : Z :=
  msum (λ row, if in_scope scope epoch row && bool_decide (sr_state row.1 = st) then 1 else 0) (quota_receipts l).

Definition aggregate (l : Ledger) (scope : QuotaScopeKey) (epoch : Z) : Z * Z :=
  (Z.min u64_max (total fst l scope epoch), Z.min u64_max (total snd l scope epoch)).

(** The six exact figures of a scope, and their saturation. *)
Definition capped (a b c d e f : Z) : QuotaScopeUsage :=
  mkUsage (Z.min u64_max a) (Z.min u64_max b) (Z.min u64_max c) (Z.min u64_max d) (Z.min u64_max e) (Z.min u64_max f).

Definition exact_usage (l : Ledger) (scope : QuotaScopeKey) (epoch : Z) : QuotaScopeUsage :=
  capped (total fst l scope epoch) (total snd l scope epoch) (count_in Reserved l scope epoch)
    (count_in InFlight l scope epoch) (count_in Estimated l scope epoch) (count_in Reconciled l scope epoch).

(** ** Well-formed rows *)

Definition opt_u64 (o : option Z) : Prop := ∀ z, o = Some z → is_u64 z.

Record row_ok (id : Z) (row : Row) : Prop := {
  ro_receipt : check_receipt id row.1 = Ok tt;
  ro_scopes : load_receipt_scopes row = Ok row.2;
  ro_nodup : NoDup (qs_key <$> row.2);
  ro_reserved : is_u64 (sr_reserved_requests row.1) ∧ is_u64 (sr_reserved_tokens row.1);
  ro_actual : opt_u64 (sr_actual_requests row.1) ∧ opt_u64 (sr_actual_tokens row.1) }.

Definition rows_ok (l : Ledger) : Prop := map_Forall row_ok (quota_receipts l).

(** The aggregate a scope and epoch may have. *)
Definition entry_ok (l : Ledger) (scope : QuotaScopeKey) (epoch : Z) (o : option (Z * Z)) : Prop :=
  match o with
  | Some v => v = aggregate l scope epoch
  | None => ∀ id row, quota_receipts l !! id = Some row → in_scope scope epoch row = false
  end.

Record ledger_ok (l : Ledger) : Prop := {
  lo_rows : rows_ok l;
  lo_entries : ∀ s e, entry_ok l s e (quota_epochs l !! (s, e));
  lo_keys : ∀ s e v, quota_epochs l !! (s, e) = Some v → validate_quota_scope_key s = Ok tt;
  lo_refunded : ∀ id, is_Some (quota_refunded_receipts l !! id) → quota_receipts l !! id = None;
  lo_epochs : ∀ id row, quota_receipts l !! id = Some row → sr_epoch row.1 <= default 0 (quota_epoch_floor l) }.

(** ** Loops *)

Lemma result_unit (m : result QuotaError unit) u : m = Ok u ↔ m = Ok tt.
Proof. by destruct u. Qed.

Lemma sat_capped a b : 0 <= b → sat_add64 (Z.min u64_max a) b = Z.min u64_max (a + b).
Proof. unfold sat_add64. lia. Qed.

(** The scopes of a row that loads. *)
Lemma scopes_checked row ss :
  load_receipt_scopes row = Ok ss →
  ss = row.2 ∧ Forall (λ s, check_scope row.1 tt s = Ok tt) row.2 ∧ row.2 ≠ [] ∧
  check_order (sr_id row.1) 0 row.2 = Ok tt.
Proof.
  destruct row as [r scopes]. unfold load_receipt_scopes. cbn [fst snd]. intros H.
  apply bind_Ok in H as (u & Hf & H). apply bind_Ok in H as (u' & Hn & H). apply bind_Ok in H as (u'' & Ho & H).
  injection H as ->. apply result_unit in Hf, Ho. apply ensure_Ok, negb_true_iff, bool_decide_eq_false in Hn.
  split_and!; try done. apply (try_fold_unit (check_scope r tt)). rewrite <- Hf. f_equal.
Qed.

Lemma load_scopes_intro row :
  Forall (λ s, check_scope row.1 tt s = Ok tt) row.2 → row.2 ≠ [] → check_order (sr_id row.1) 0 row.2 = Ok tt →
  load_receipt_scopes row = Ok row.2.
Proof.
  destruct row as [r ss]. cbn [fst snd]. intros Hf Hn Ho. unfold load_receipt_scopes.
  assert (try_fold (check_scope r) ss tt = Ok tt) as -> by exact (proj2 (try_fold_unit (check_scope r tt) ss) Hf).
  rewrite Ho. cbn. by rewrite bool_decide_eq_false_2.
Qed.

Lemma check_scope_spec r s :
  check_scope r tt s = Ok tt ↔
  0 <= qs_order s <= u32_max ∧ validate_quota_scope_key (qs_key s) = Ok tt ∧
  qs_reserved_requests s = requests_for (qs_key s) (sr_reserved_requests r) ∧
  qs_reserved_tokens s = sr_reserved_tokens r ∧
  qs_actual_requests s = requests_for (qs_key s) <$> sr_actual_requests r ∧
  qs_actual_tokens s = sr_actual_tokens r.
Proof.
  unfold check_scope. rewrite !bind_unit, !ensure_Ok, !andb_true_iff, !bool_decide_eq_true.
  rewrite !Z.leb_le, !Z.eqb_eq. tauto.
Qed.

Lemma row_scope id row s :
  row_ok id row → s ∈ row.2 → check_scope row.1 tt s = Ok tt.
Proof.
  intros Hr Hs. destruct (scopes_checked _ _ (ro_scopes _ _ Hr)) as (_ & Hf & _).
  rewrite Forall_forall in Hf. auto.
Qed.

Lemma row_key_valid id row s : row_ok id row → s ∈ row.2 → validate_quota_scope_key (qs_key s) = Ok tt.
Proof. intros Hr Hs. by apply (row_scope _ _ _ Hr), check_scope_spec in Hs as (_ & Hs & _). Qed.

Lemma requests_for_u64 k z : is_u64 z → is_u64 (requests_for k z).
Proof. unfold requests_for, is_u64, u64_max. destruct (sk_kind k); lia. Qed.

Lemma contribution_range id row s :
  row_ok id row → s ∈ row.2 → is_u64 (scope_contribution row.1 s).1 ∧ is_u64 (scope_contribution row.1 s).2.
Proof.
  intros Hr Hs. pose proof (row_scope _ _ _ Hr Hs) as (_ & _ & H1 & H2 & H3 & H4)%check_scope_spec.
  destruct Hr as [_ _ _ [Hr1 Hr2] [Ha1 Ha2]]. unfold scope_contribution.
  assert (is_u64 0) by (unfold is_u64, u64_max; lia).
  assert (∀ o, opt_u64 o → is_u64 (default 0 o)) as Hd by (intros [z|] Ho; cbn; [by apply Ho|done]).
  destruct (sr_state row.1); cbn [fst snd]; rewrite ?H1, ?H2, ?H3, ?H4; split; auto using requests_for_u64.
  apply Hd. intros z. destruct (sr_actual_requests row.1) as [x|] eqn:Hx; [|done]. cbn. intros [= <-].
  by apply requests_for_u64, Ha1.
Qed.

Lemma find_key_spec scope (ss : list StoredQuotaScope) s :
  find_first (has_key scope) ss = Some s → s ∈ ss ∧ qs_key s = scope.
Proof. intros [Hs Hk]%find_first_elem. by apply bool_decide_eq_true in Hk. Qed.

Lemma find_key scope (ss : list StoredQuotaScope) s :
  NoDup (qs_key <$> ss) → s ∈ ss → qs_key s = scope → find_first (has_key scope) ss = Some s.
Proof.
  induction ss as [|t ss IH]; cbn; [by intros _ ?%elem_of_nil|]. intros [Hn Hnd]%NoDup_cons Hs Hk.
  unfold has_key at 1. apply elem_of_cons in Hs as [<-|Hs]; [by rewrite bool_decide_eq_true_2|].
  rewrite bool_decide_eq_false_2; [auto|]. intros Ht. apply Hn. rewrite Ht, <- Hk. by apply list_elem_of_fmap_2.
Qed.

Lemma in_scope_spec scope epoch row :
  in_scope scope epoch row = true ↔ sr_epoch row.1 = epoch ∧ ∃ s, s ∈ row.2 ∧ qs_key s = scope.
Proof.
  unfold in_scope. rewrite andb_true_iff, Z.eqb_eq, existsb_exists.
  setoid_rewrite <- list_elem_of_In. unfold has_key. setoid_rewrite bool_decide_eq_true. done.
Qed.

Lemma in_scope_false scope epoch row : in_scope scope epoch row = false → contribution scope epoch row = (0, 0).
Proof.
  intros Hin. unfold contribution. destruct (Z.eqb_spec (sr_epoch row.1) epoch) as [He|]; [|done].
  destruct (find_first (has_key scope) row.2) as [s|] eqn:Hf; [|done].
  apply find_key_spec in Hf as [Hs Hk]. exfalso. apply not_true_iff_false in Hin. apply Hin, in_scope_spec. eauto.
Qed.

Lemma contribution_own id row s :
  row_ok id row → s ∈ row.2 → contribution (qs_key s) (sr_epoch row.1) row = scope_contribution row.1 s.
Proof.
  intros Hr Hs. unfold contribution. rewrite Z.eqb_refl, (find_key _ _ s); [done| |done|done]. apply Hr.
Qed.

Lemma contribution_u64 id row scope epoch :
  row_ok id row → is_u64 (contribution scope epoch row).1 ∧ is_u64 (contribution scope epoch row).2.
Proof.
  intros Hr. unfold contribution. case_match; [|unfold is_u64, u64_max; cbn; lia].
  destruct (find_first _ _) as [s|] eqn:Hf; [|unfold is_u64, u64_max; cbn; lia].
  apply find_key_spec in Hf as [Hs _]. eapply contribution_range; eauto.
Qed.

Lemma total_nonneg l scope epoch : rows_ok l → 0 <= total fst l scope epoch ∧ 0 <= total snd l scope epoch.
Proof.
  intros Hl. split; apply msum_nonneg; intros id row Hr; apply Hl in Hr;
    destruct (contribution_u64 _ _ scope epoch Hr) as [H1 H2]; unfold is_u64 in *; lia.
Qed.

Lemma total_absent l scope epoch part :
  part (0, 0) = 0 → entry_ok l scope epoch None → total part l scope epoch = 0.
Proof.
  intros Hp Hn. apply msum_zero. intros id row Hr. by rewrite (in_scope_false _ _ _ (Hn id row Hr)).
Qed.

(** ** The recomputation is exact *)

Definition amount (l : Ledger) (g : Row → Z) (id : Z) : Z :=
  match quota_receipts l !! id with Some row => g row | None => 0 end.

Lemma receipt_ids_perm l : receipt_ids l ≡ₚ (map_to_list (quota_receipts l)).*1.
Proof. apply merge_sort_Permutation. Qed.

Lemma amount_total l g : zsum (amount l g <$> receipt_ids l) = msum g (quota_receipts l).
Proof.
  rewrite receipt_ids_perm. unfold msum. f_equal. rewrite <- !list_fmap_compose. apply list_fmap_ext.
  intros i [id row] Hi%list_elem_of_lookup_2%elem_of_map_to_list. cbn. unfold amount. by rewrite Hi.
Qed.

Lemma amount_retain l g (P : Z → bool) ids :
  (∀ id, id ∈ ids → P id = false → amount l g id = 0) →
  zsum (amount l g <$> retain P ids) = zsum (amount l g <$> ids).
Proof.
  induction ids as [|id ids IH]; intros H; cbn; [done|].
  rewrite <- IH by (intros; apply H; [by right|done]).
  destruct (P id) eqn:HP; cbn; [done|]. rewrite (H id); [lia|by left|done].
Qed.

Lemma scope_amount l g scope epoch :
  (∀ row, in_scope scope epoch row = false → g row = 0) →
  zsum (amount l g <$> scope_ids l scope epoch) = msum g (quota_receipts l).
Proof.
  intros Hg. rewrite <- amount_total. apply amount_retain. intros id _. unfold amount.
  destruct (quota_receipts l !! id); [apply Hg|done].
Qed.

Definition state_in (st : ProviderRateReceiptState) (scope : QuotaScopeKey) (epoch : Z) (row : Row) : Z :=
  if in_scope scope epoch row && bool_decide (sr_state row.1 = st) then 1 else 0.

Lemma load_row l id row :
  rows_ok l → quota_receipts l !! id = Some row → load_quota_receipt l id = Ok (Some row).
Proof.
  intros Hl Hr. unfold load_quota_receipt. rewrite Hr. destruct row as [r ss].
  apply Hl, ro_receipt in Hr. cbn in Hr. by rewrite Hr.
Qed.

Lemma add_receipt_exact l scope epoch id row a b c d e f :
  rows_ok l → quota_receipts l !! id = Some row → in_scope scope epoch row = true →
  add_receipt l scope epoch (capped a b c d e f) id =
  Ok (capped (a + (contribution scope epoch row).1) (b + (contribution scope epoch row).2)
        (c + state_in Reserved scope epoch row) (d + state_in InFlight scope epoch row)
        (e + state_in Estimated scope epoch row) (f + state_in Reconciled scope epoch row)).
Proof.
  intros Hl Hr Hin. unfold add_receipt. rewrite (load_row l id row Hl Hr). cbn.
  pose proof (proj1 (in_scope_spec _ _ _) Hin) as [He (s & Hs & Hk)]. apply Hl in Hr.
  rewrite (proj2 (Z.eqb_eq _ _) He). cbn. rewrite (ro_scopes _ _ Hr). cbn.
  rewrite (find_key _ _ s (ro_nodup _ _ Hr) Hs Hk). cbn.
  rewrite <- Hk, <- He, (contribution_own id row s Hr Hs).
  destruct (contribution_range id row s Hr Hs) as [H1 H2]. destruct (scope_contribution row.1 s) as [x y].
  unfold is_u64 in *. cbn in *. rewrite !sat_capped by lia. f_equal.
  unfold state_in. rewrite He, Hk, Hin.
  destruct (sr_state row.1); repeat case_bool_decide; try done; cbn; unfold capped; f_equal;
    unfold sat_add64; lia.
Qed.

Lemma fold_receipts l scope epoch ids a b c d e f :
  rows_ok l →
  (∀ id, id ∈ ids → ∃ row, quota_receipts l !! id = Some row ∧ in_scope scope epoch row = true) →
  try_fold (add_receipt l scope epoch) ids (capped a b c d e f) =
  Ok (capped (a + zsum (amount l (λ row, (contribution scope epoch row).1) <$> ids))
        (b + zsum (amount l (λ row, (contribution scope epoch row).2) <$> ids))
        (c + zsum (amount l (state_in Reserved scope epoch) <$> ids))
        (d + zsum (amount l (state_in InFlight scope epoch) <$> ids))
        (e + zsum (amount l (state_in Estimated scope epoch) <$> ids))
        (f + zsum (amount l (state_in Reconciled scope epoch) <$> ids))).
Proof.
  intros Hl. revert a b c d e f. induction ids as [|id ids IH]; intros a b c d e f Hids; cbn.
  - by rewrite !Z.add_0_r.
  - destruct (Hids id) as (row & Hr & Hin); [by left|].
    rewrite (add_receipt_exact l scope epoch id row) by done. cbn.
    rewrite IH by (intros id' Hid'; apply Hids; by right). f_equal. unfold amount at 7 9 11 13 15 17.
    rewrite Hr. by rewrite !Z.add_assoc.
Qed.

Lemma scope_ids_in l scope epoch id :
  id ∈ scope_ids l scope epoch → ∃ row, quota_receipts l !! id = Some row ∧ in_scope scope epoch row = true.
Proof. intros [_ H]%elem_of_retain. destruct (quota_receipts l !! id) as [row|] eqn:Hr; [eauto|done]. Qed.

Lemma compute_exact l scope epoch :
  rows_ok l → validate_quota_scope_key scope = Ok tt →
  compute_scope_epoch_usage l scope epoch = Ok (exact_usage l scope epoch).
Proof.
  intros Hl Hv. unfold compute_scope_epoch_usage. rewrite Hv. cbn.
  change usage_zero with (capped 0 0 0 0 0 0). rewrite fold_receipts by auto using scope_ids_in.
  f_equal. unfold exact_usage, capped.
  rewrite !scope_amount; [done|..]; intros row Hin; unfold state_in; by rewrite ?(in_scope_false _ _ _ Hin), ?Hin.
Qed.

Lemma counts_nonneg l scope epoch st : 0 <= count_in st l scope epoch.
Proof. apply msum_nonneg. intros id row _. by case_match. Qed.

Lemma count_positive l scope epoch id row :
  quota_receipts l !! id = Some row → in_scope scope epoch row = true →
  1 <= count_in (sr_state row.1) l scope epoch.
Proof.
  intros Hr Hin. unfold count_in. rewrite (msum_delete _ _ _ _ Hr), Hin, bool_decide_eq_true_2 by done.
  cbn. assert (0 <= msum (λ row0, if in_scope scope epoch row0 && bool_decide (sr_state row0.1 = sr_state row.1)
    then 1 else 0) (delete id (quota_receipts l))); [|lia]. apply msum_nonneg. intros ? ? _. by case_match.
Qed.

Lemma usage_empty_spec l scope epoch :
  usage_empty (exact_usage l scope epoch) = true ↔ entry_ok l scope epoch None.
Proof.
  unfold usage_empty, exact_usage, capped. cbn -[u64_max]. rewrite !andb_true_iff, !Z.eqb_eq.
  assert (u64_max = 18446744073709551615) as Hm by done. split.
  - intros [[[[[_ _] H1] H2] H3] H4] id row Hr. destruct (in_scope scope epoch row) eqn:Hin; [|done].
    pose proof (count_positive l scope epoch id row Hr Hin) as Hp. destruct (sr_state row.1); lia.
  - intros Hn. rewrite !(total_absent l scope epoch) by done.
    assert (∀ st, count_in st l scope epoch = 0) as Hc.
    { intros st. apply msum_zero. intros id row Hr. by rewrite (Hn id row Hr). }
    rewrite !Hc. by split_and!.
Qed.

(** The ledger with the aggregate of one scope and epoch brought up to date. *)
Definition updated (l : Ledger) (scope : QuotaScopeKey) (epoch : Z) (l' : Ledger) : Prop :=
  ∃ m, l' = set_epochs m l ∧ entry_ok l scope epoch (m !! (scope, epoch)) ∧
    ∀ k, k ≠ (scope, epoch) → m !! k = quota_epochs l !! k.

Lemma write_from_receipts_ok l scope epoch :
  rows_ok l → validate_quota_scope_key scope = Ok tt →
  ∃ l', write_scope_epoch_from_receipts l scope epoch = Ok l' ∧ updated l scope epoch l'.
Proof.
  intros Hl Hv. unfold write_scope_epoch_from_receipts. rewrite compute_exact by done. cbn.
  destruct (usage_empty (exact_usage l scope epoch)) eqn:Hu.
  - eexists. split; [done|]. eexists. split; [done|]. rewrite lookup_delete_eq.
    split; [by apply usage_empty_spec|]. intros k Hk. by rewrite lookup_delete_ne.
  - eexists. split; [done|]. eexists. split; [done|]. rewrite lookup_insert_eq. split; [done|].
    intros k Hk. by rewrite lookup_insert_ne.
Qed.

Lemma replace_amount_exact scope epoch a old new :
  0 <= old <= a → 0 <= new <= u64_max → (new < old → a < u64_max) →
  replace_amount scope epoch (Z.min u64_max a) old new = Ok (Z.min u64_max (a - old + new)).
Proof.
  intros Ha Hn Hs. unfold replace_amount, sat_add64.
  destruct (Z.leb_spec old new); [f_equal; lia|]. destruct (Z.ltb_spec (Z.min u64_max a) (old - new)); [lia|].
  f_equal. lia.
Qed.

(** The exact figures behind a stored aggregate that is one contribution behind. *)
Definition behind (l : Ledger) (scope : QuotaScopeKey) (epoch : Z) (old new : Z * Z) : Prop :=
  ∃ a b, quota_epochs l !! (scope, epoch) = Some (Z.min u64_max a, Z.min u64_max b) ∧
    0 <= old.1 <= a ∧ 0 <= old.2 <= b ∧ is_u64 new.1 ∧ is_u64 new.2 ∧
    total fst l scope epoch = a - old.1 + new.1 ∧ total snd l scope epoch = b - old.2 + new.2.

Lemma replace_total_ok l scope epoch old new :
  rows_ok l → validate_quota_scope_key scope = Ok tt → behind l scope epoch old new →
  ∃ l', replace_scope_epoch_contribution l scope epoch old new = Ok l' ∧ updated l scope epoch l'.
Proof.
  intros Hl Hv (a & b & Ha & H1 & H2 & Hn1 & Hn2 & T1 & T2).
  unfold replace_scope_epoch_contribution, required_scope_epoch_aggregate, load_scope_epoch_aggregate.
  rewrite Hv, Ha. cbn -[u64_max].
  destruct (_ || _) eqn:Hs; [by apply write_from_receipts_ok|].
  apply orb_false_iff in Hs as [Hs1 Hs2]. rewrite andb_false_iff, Z.ltb_ge, Z.eqb_neq in Hs1, Hs2.
  rewrite !replace_amount_exact by (unfold is_u64 in *; lia). cbn -[u64_max].
  unfold write_scope_epoch_aggregate. rewrite Hv. cbn -[u64_max].
  eexists. split; [done|]. eexists. split; [done|]. rewrite lookup_insert_eq. split; [|by intros; rewrite lookup_insert_ne].
  cbn -[u64_max]. unfold aggregate. by rewrite T1, T2.
Qed.

(** The loops of refunds and reconciliations. *)
Lemma replace_loop_ok l epoch (ss : list StoredQuotaScope) (old new : StoredQuotaScope → Z * Z) :
  rows_ok l → NoDup (qs_key <$> ss) →
  (∀ s, s ∈ ss → validate_quota_scope_key (qs_key s) = Ok tt ∧ behind l (qs_key s) epoch (old s) (new s)) →
  ∃ m, try_fold (λ l s, replace_scope_epoch_contribution l (qs_key s) epoch (old s) (new s)) ss l =
         Ok (set_epochs m l) ∧
    (∀ s, s ∈ ss → entry_ok l (qs_key s) epoch (m !! (qs_key s, epoch))) ∧
    (∀ k, (∀ s, s ∈ ss → k ≠ (qs_key s, epoch)) → m !! k = quota_epochs l !! k).
Proof.
  revert l. induction ss as [|s ss IH]; intros l Hl Hnd Hs; cbn [try_fold].
  - exists (quota_epochs l). split; [by destruct l|]. split; [by intros s ?%elem_of_nil|done].
  - apply NoDup_cons in Hnd as [Hn Hnd]. destruct (Hs s) as [Hv Hb]; [by left|].
    destruct (replace_total_ok l (qs_key s) epoch (old s) (new s) Hl Hv Hb) as (l' & -> & m & -> & Hm & Hk). cbn.
    assert (Hne : ∀ t, t ∈ ss → (qs_key t, epoch) ≠ (qs_key s, epoch)).
    { intros t Ht [= Heq]. apply Hn. rewrite <- Heq. by apply list_elem_of_fmap_2. }
    destruct (IH (set_epochs m l)) as (m' & Hf & He & Ho); [done|done| |].
    { intros t Ht. destruct (Hs t) as [Hvt (a & b & Hab & Hrest)]; [by right|]. split; [done|]. exists a, b.
      cbn. by rewrite Hk by auto. }
    exists m'. rewrite Hf. split; [done|]. split.
    + intros t [->|Ht]%elem_of_cons; [|by apply (He t)]. rewrite Ho; [done|]. intros t Ht Heq.
      by apply (Hne t Ht).
    + intros k Hks. rewrite Ho by (intros t Ht; apply Hks; by right). cbn. apply Hk, Hks. by left.
Qed.

(** ** What holds of a ledger in order *)

Lemma require_ok l id row :
  ledger_ok l → quota_receipts l !! id = Some row → require_aggregates l row.2 (sr_epoch row.1) = Ok tt.
Proof.
  intros Hl Hr. unfold require_aggregates.
  apply (try_fold_unit (λ s, _ ← required_scope_epoch_aggregate l (qs_key s) (sr_epoch row.1); Ok tt)).
  apply Forall_forall. intros s Hs. unfold required_scope_epoch_aggregate, load_scope_epoch_aggregate.
  rewrite (row_key_valid id row s (lo_rows _ Hl _ _ Hr) Hs). cbn.
  pose proof (lo_entries l Hl (qs_key s) (sr_epoch row.1)) as He.
  destruct (quota_epochs l !! _) as [v|]; [done|]. exfalso. specialize (He id row Hr).
  apply not_true_iff_false in He. apply He, in_scope_spec. eauto.
Qed.

Lemma load_live_ok l id row :
  ledger_ok l → quota_receipts l !! id = Some row → load_live l id = Ok row.
Proof.
  intros Hl Hr. unfold load_live. rewrite (load_row l id row (lo_rows _ Hl) Hr). cbn.
  rewrite (ro_scopes _ _ (lo_rows _ Hl _ _ Hr)). cbn. by rewrite (require_ok l id row Hl Hr).
Qed.

Lemma load_live_None l id : quota_receipts l !! id = None → load_live l id = Err (UnknownReceipt id).
Proof. intros Hr. unfold load_live, load_quota_receipt. by rewrite Hr. Qed.

Lemma validate_scope_ok l scope epoch :
  ledger_ok l → validate_quota_scope_key scope = Ok tt →
  validate_scope_epoch l scope epoch = Ok (exact_usage l scope epoch).
Proof.
  intros Hl Hv. unfold validate_scope_epoch, load_scope_epoch_aggregate. rewrite compute_exact by (apply Hl || done).
  cbn. pose proof (lo_entries l Hl scope epoch) as He. destruct (quota_epochs l !! _) as [v|].
  - by rewrite bool_decide_eq_true_2 by apply He.
  - by rewrite (proj2 (usage_empty_spec l scope epoch) He).
Qed.

Lemma trusted_ok l scope epoch :
  ledger_ok l → validate_quota_scope_key scope = Ok tt →
  trusted_scope_epoch_aggregate l scope epoch = Ok (aggregate l scope epoch).
Proof.
  intros Hl Hv. unfold trusted_scope_epoch_aggregate, load_scope_epoch_aggregate. rewrite Hv. cbn. f_equal.
  pose proof (lo_entries l Hl scope epoch) as He. destruct (quota_epochs l !! _) as [v|]; cbn; [by rewrite He|].
  unfold aggregate. by rewrite !total_absent by done.
Qed.

Lemma elem_receipt_ids l id : id ∈ receipt_ids l ↔ is_Some (quota_receipts l !! id).
Proof.
  rewrite receipt_ids_perm, list_elem_of_fmap. split.
  - intros ([? row] & -> & Hr%elem_of_map_to_list). by exists row.
  - intros [row Hr]. exists (id, row). split; [done|]. by apply elem_of_map_to_list.
Qed.

Lemma all_scopes_valid l s e : ledger_ok l → (s, e) ∈ all_scope_epochs l → validate_quota_scope_key s = Ok tt.
Proof.
  intros Hl. unfold all_scope_epochs. rewrite elem_of_elements, elem_of_union, elem_of_dom, elem_of_list_to_set.
  intros [[v Hv]|([id row] & Hs & Hr%elem_of_map_to_list)%list_elem_of_bind]; [by eapply lo_keys|].
  apply list_elem_of_fmap in Hs as (t & [= -> ->] & Ht). eapply row_key_valid; [by apply (lo_rows _ Hl)|done].
Qed.

(** The audit of the whole ledger succeeds. *)
Lemma validate_all_ok l : ledger_ok l → validate_all_provider_epochs l = Ok tt.
Proof.
  intros Hl. unfold validate_all_provider_epochs.
  assert (try_fold (λ (_ : unit) id, row ← load_quota_receipt l id; row ← ok_or (ReceiptDisappeared id) row;
    _ ← load_receipt_scopes row; Ok tt) (receipt_ids l) tt = Ok tt) as ->.
  { apply (try_fold_unit (λ id, row ← load_quota_receipt l id; row ← ok_or (ReceiptDisappeared id) row;
      _ ← load_receipt_scopes row; Ok tt)).
    apply Forall_forall. intros id [row Hr]%elem_receipt_ids. rewrite (load_row l id row (lo_rows _ Hl) Hr). cbn.
    by rewrite (ro_scopes _ _ (lo_rows _ Hl _ _ Hr)). }
  cbn. apply (try_fold_unit (λ p, _ ← validate_quota_scope_key p.1; _ ← validate_scope_epoch l p.1 p.2; Ok tt)).
  apply Forall_forall. intros [s e] Hse. pose proof (all_scopes_valid l s e Hl Hse) as Hv. cbn. rewrite Hv. cbn.
  by rewrite validate_scope_ok.
Qed.

(** ** Preservation *)

Lemma entry_transfer l l' s e o :
  total fst l' s e = total fst l s e → total snd l' s e = total snd l s e →
  (entry_ok l s e None → entry_ok l' s e None) → entry_ok l s e o → entry_ok l' s e o.
Proof. intros H1 H2 H3. destruct o as [v|]; [|done]. cbn. unfold aggregate. by rewrite H1, H2. Qed.

Lemma total_insert l l' id row part s e :
  quota_receipts l' = <[id := row]> (quota_receipts l) → quota_receipts l !! id = None →
  total part l' s e = part (contribution s e row) + total part l s e.
Proof. intros Hl' Hid. unfold total. rewrite Hl'. by rewrite msum_insert. Qed.

Lemma total_delete l l' id row part s e :
  quota_receipts l' = delete id (quota_receipts l) → quota_receipts l !! id = Some row →
  total part l' s e = total part l s e - part (contribution s e row).
Proof. intros Hl' Hid. unfold total. rewrite Hl', (msum_delete _ (quota_receipts l) id row Hid). lia. Qed.

Lemma total_replace l l' id row row' part s e :
  quota_receipts l' = <[id := row']> (quota_receipts l) → quota_receipts l !! id = Some row →
  total part l' s e = total part l s e - part (contribution s e row) + part (contribution s e row').
Proof. intros Hl' Hid. unfold total. rewrite Hl'. by rewrite (msum_update _ _ _ row). Qed.

(** Only the floor is raised. *)
Lemma floor_ok l e : default 0 (quota_epoch_floor l) <= e → ledger_ok l → ledger_ok (set_floor e l).
Proof.
  intros He [H1 H2 H3 H4 H5]. split; try done. intros id row Hr. cbn. specialize (H5 id row Hr). lia.
Qed.

(** The loop over the scopes of a receipt restores the order that changing the receipt broke. *)
Lemma loop_restores l epoch (ss : list StoredQuotaScope) (old new : StoredQuotaScope → Z * Z) :
  rows_ok l → NoDup (qs_key <$> ss) →
  (∀ s, s ∈ ss → validate_quota_scope_key (qs_key s) = Ok tt ∧ behind l (qs_key s) epoch (old s) (new s)) →
  (∀ s e, (∀ t, t ∈ ss → (s, e) ≠ (qs_key t, epoch)) → entry_ok l s e (quota_epochs l !! (s, e))) →
  (∀ s e v, quota_epochs l !! (s, e) = Some v → validate_quota_scope_key s = Ok tt) →
  (∀ id, is_Some (quota_refunded_receipts l !! id) → quota_receipts l !! id = None) →
  (∀ id row, quota_receipts l !! id = Some row → sr_epoch row.1 <= default 0 (quota_epoch_floor l)) →
  ∃ m, try_fold (λ l s, replace_scope_epoch_contribution l (qs_key s) epoch (old s) (new s)) ss l =
         Ok (set_epochs m l) ∧ ledger_ok (set_epochs m l).
Proof.
  intros Hl Hnd Hs Hother Hkeys Href Hep.
  destruct (replace_loop_ok l epoch ss old new Hl Hnd Hs) as (m & Hf & Hin & Hout). exists m. split; [done|].
  assert (Hcase : ∀ s e, (∃ t, t ∈ ss ∧ (s, e) = (qs_key t, epoch)) ∨ (∀ t, t ∈ ss → (s, e) ≠ (qs_key t, epoch))).
  { intros s e. destruct (decide (Exists (λ t, (s, e) = (qs_key t, epoch)) ss)) as [Hx|Hx].
    - left. by apply Exists_exists in Hx as (t & Ht & Heq); exists t.
    - right. intros t Ht Heq. apply Hx, Exists_exists. eauto. }
  split; try done.
  - intros s e. destruct (Hcase s e) as [(t & Ht & [= -> ->])|Hn]; [by apply (Hin t)|].
    cbn. rewrite Hout by done. by apply Hother.
  - intros s e v Hv. cbn in Hv. destruct (Hcase s e) as [(t & Ht & [= -> ->])|Hn]; [by apply Hs|].
    rewrite Hout in Hv by done. eauto.
Qed.

(** *** Changes of state *)

Lemma state_row_ok id row st :
  row_ok id row → sr_state row.1 ≠ Reconciled → st ≠ Reconciled → row_ok id (set_sr_state st row.1, row.2).
Proof.
  destruct row as [r ss]. intros [H1 H2 H3 H4 H5] Hr Hst. split; try done.
  revert H1. unfold check_receipt. cbn in *. rewrite !bind_unit. by destruct (sr_state r), st.
Qed.

Lemma state_contribution s e row st :
  sr_state row.1 ≠ Reconciled → st ≠ Reconciled → contribution s e (set_sr_state st row.1, row.2) = contribution s e row.
Proof.
  intros Hr Hst. unfold contribution, scope_contribution. cbn. repeat case_match; congruence.
Qed.

Lemma replace_row_ok l id row row' :
  ledger_ok l → quota_receipts l !! id = Some row → row_ok id row' → sr_epoch row'.1 = sr_epoch row.1 →
  (∀ s e, in_scope s e row' = in_scope s e row) → (∀ s e, contribution s e row' = contribution s e row) →
  ledger_ok (set_receipts (<[id := row']> (quota_receipts l)) l).
Proof.
  intros Hl Hr Hok He Hin Hc. destruct Hl as [H1 H2 H3 H4 H5]. split; try done; cbn.
  - by apply map_Forall_insert_2.
  - intros s e. refine (entry_transfer l _ s e _ _ _ _ (H2 s e)).
    + rewrite (total_replace l _ id row row') by done. rewrite Hc. lia.
    + rewrite (total_replace l _ id row row') by done. rewrite Hc. lia.
    + intros Hn id' row0; cbn; intros [[<- <-]|[_ Hr0]]%lookup_insert_Some; [rewrite Hin; by apply (Hn id)|by apply (Hn id')].
  - intros id' Hid. rewrite lookup_insert_ne; [by apply H4|]. intros <-. apply H4 in Hid. congruence.
  - intros id' row0 [[<- <-]|[_ Hr0]]%lookup_insert_Some; [rewrite He; eauto|eauto].
Qed.

Lemma update_state_ok l id row st :
  ledger_ok l → quota_receipts l !! id = Some row → sr_state row.1 ≠ Reconciled → st ≠ Reconciled →
  ledger_ok (update_state st id l).
Proof.
  intros Hl Hr Hs Hst. unfold update_state.
  replace (alter _ id (quota_receipts l)) with (<[id := (set_sr_state st row.1, row.2)]> (quota_receipts l)).
  - apply (replace_row_ok l id row); auto using state_contribution. by apply state_row_ok; [apply Hl|..].
  - apply map_eq. intros i. destruct (decide (i = id)) as [->|].
    + by rewrite lookup_insert_eq, lookup_alter_eq, Hr.
    + by rewrite lookup_insert_ne, lookup_alter_ne.
Qed.

Lemma mark_cases l id :
  ledger_ok l →
  (∃ r, mark_provider_rate_invoked l id = (l, r)) ∨
  ∃ row, quota_receipts l !! id = Some row ∧ sr_state row.1 = Reserved ∧
    mark_provider_rate_invoked l id = (update_state InFlight id l, Ok tt).
Proof.
  intros Hl. unfold mark_provider_rate_invoked. destruct (quota_receipts l !! id) as [row|] eqn:Hr.
  - rewrite (load_live_ok l id row Hl Hr). cbn -[update_state].
    case_bool_decide as Hs; [|left; eexists; done]. right. by exists row.
  - rewrite load_live_None by done. left. by eexists.
Qed.

Lemma mark_ok l id : ledger_ok l → ledger_ok (mark_provider_rate_invoked l id).1.
Proof.
  intros Hl. destruct (mark_cases l id Hl) as [(r & ->)|(row & Hr & Hs & ->)]; [done|].
  apply (update_state_ok l id row); congruence.
Qed.

Lemma retain_cases l id :
  ledger_ok l →
  (∃ r, retain_provider_rate_estimate l id = (l, r)) ∨
  ∃ row, quota_receipts l !! id = Some row ∧ sr_state row.1 = InFlight ∧
    retain_provider_rate_estimate l id = (update_state Estimated id l, Ok tt).
Proof.
  intros Hl. unfold retain_provider_rate_estimate. destruct (quota_receipts l !! id) as [row|] eqn:Hr.
  - rewrite (load_live_ok l id row Hl Hr). cbn -[update_state].
    destruct (sr_state row.1) eqn:Hs; try (left; eexists; done). right. by exists row.
  - rewrite load_live_None by done. left. by eexists.
Qed.

Lemma retain_ok l id : ledger_ok l → ledger_ok (retain_provider_rate_estimate l id).1.
Proof.
  intros Hl. destruct (retain_cases l id Hl) as [(r & ->)|(row & Hr & Hs & ->)]; [done|].
  apply (update_state_ok l id row); congruence.
Qed.

(** *** Refunds *)

Lemma contribution_elsewhere s e row :
  (∀ t, t ∈ row.2 → (s, e) ≠ (qs_key t, sr_epoch row.1)) → in_scope s e row = false.
Proof.
  intros Hn. apply not_true_iff_false. intros [He (t & Ht & Hk)]%in_scope_spec. apply (Hn t Ht). congruence.
Qed.

Lemma entry_present l id row t :
  ledger_ok l → quota_receipts l !! id = Some row → t ∈ row.2 →
  quota_epochs l !! (qs_key t, sr_epoch row.1) = Some (aggregate l (qs_key t) (sr_epoch row.1)).
Proof.
  intros Hl Hr Ht. pose proof (lo_entries l Hl (qs_key t) (sr_epoch row.1)) as He.
  destruct (quota_epochs l !! _) as [v|]; [by rewrite He|]. exfalso. specialize (He id row Hr).
  apply not_true_iff_false in He. apply He, in_scope_spec. eauto.
Qed.

Lemma contribution_le_total l id row s e :
  rows_ok l → quota_receipts l !! id = Some row →
  0 <= (contribution s e row).1 <= total fst l s e ∧ 0 <= (contribution s e row).2 <= total snd l s e.
Proof.
  intros Hl Hr. destruct (contribution_u64 id row s e (Hl _ _ Hr)) as [H1 H2]. unfold is_u64 in *.
  unfold total. rewrite !(msum_delete _ _ id row Hr).
  assert (0 <= msum (λ row, (contribution s e row).1) (delete id (quota_receipts l)) ∧
          0 <= msum (λ row, (contribution s e row).2) (delete id (quota_receipts l))); [|lia].
  split; apply msum_nonneg; intros id' row' [_ Hr']%lookup_delete_Some;
    destruct (contribution_u64 id' row' s e (Hl _ _ Hr')); unfold is_u64 in *; lia.
Qed.

(** The ledger between the deletion of a reserved receipt and the loop over its scopes. *)
Lemma withdraw_ok l id row :
  ledger_ok l → quota_receipts l !! id = Some row →
  let l1 := delete_receipt id (set_refunded (<[id := sr_epoch row.1]> (quota_refunded_receipts l)) l) in
  ∃ m, withdraw row l1 = Ok (set_epochs m l1) ∧ ledger_ok (set_epochs m l1).
Proof.
  intros Hl Hr l1. pose proof (lo_rows _ Hl _ _ Hr) as Hrow. apply loop_restores.
  - by apply map_Forall_delete, Hl.
  - apply Hrow.
  - intros t Ht. split; [by eapply row_key_valid|].
    destruct (contribution_le_total l id row (qs_key t) (sr_epoch row.1) (lo_rows _ Hl) Hr) as [H1 H2].
    eexists _, _. split; [by apply (entry_present l id row)|]. rewrite (contribution_own id row t Hrow Ht) in H1, H2.
    rewrite !(total_delete l l1 id row), (contribution_own id row t Hrow Ht) by done. cbn [fst snd].
    unfold is_u64, u64_max. split_and!; lia.
  - intros s e Hn. apply contribution_elsewhere in Hn. pose proof (in_scope_false _ _ _ Hn) as Hc.
    refine (entry_transfer l _ s e _ _ _ _ (lo_entries l Hl s e)).
    + rewrite (total_delete l l1 id row), Hc by done. cbn. lia.
    + rewrite (total_delete l l1 id row), Hc by done. cbn. lia.
    + intros Hnone id' row'; cbn; intros [_ Hr']%lookup_delete_Some. by apply (Hnone id').
  - apply Hl.
  - intros id' [x Hx]. cbn in Hx. apply lookup_insert_Some in Hx as [[<- <-]|[Hne Hx]]; cbn; [by rewrite lookup_delete_eq|].
    rewrite lookup_delete_ne by done. apply Hl. by exists x.
  - intros id' row'; cbn; intros [_ Hr']%lookup_delete_Some. by apply (lo_epochs l Hl id').
Qed.

Lemma not_refunded l id row :
  ledger_ok l → quota_receipts l !! id = Some row → quota_refunded_receipts l !! id = None.
Proof.
  intros Hl Hr. destruct (quota_refunded_receipts l !! id) eqn:He; [|done].
  rewrite (lo_refunded l Hl id) in Hr by (by rewrite He). done.
Qed.

Lemma insert_refunded_ok l id row :
  ledger_ok l → quota_receipts l !! id = Some row →
  insert_refunded id (sr_epoch row.1) l = Ok (set_refunded (<[id := sr_epoch row.1]> (quota_refunded_receipts l)) l).
Proof. intros Hl Hr. unfold insert_refunded. by rewrite (not_refunded l id row Hl Hr). Qed.

(** A refund of a reserved receipt succeeds. *)
Lemma refund_spec l id row :
  ledger_ok l → quota_receipts l !! id = Some row → sr_state row.1 = Reserved →
  ∃ m, refund_provider_rate_before_invocation l id =
    (set_epochs m (delete_receipt id (set_refunded (<[id := sr_epoch row.1]> (quota_refunded_receipts l)) l)), Ok tt) ∧
    ledger_ok (set_epochs m (delete_receipt id (set_refunded (<[id := sr_epoch row.1]> (quota_refunded_receipts l)) l))).
Proof.
  intros Hl Hr Hs. destruct (withdraw_ok l id row Hl Hr) as (m & Hw & Hok). exists m. split; [|done].
  unfold refund_provider_rate_before_invocation. rewrite (load_row l id row (lo_rows _ Hl) Hr). cbn.
  rewrite (load_live_ok l id row Hl Hr). cbn. rewrite bool_decide_eq_true_2 by done. cbn.
  rewrite (insert_refunded_ok l id row Hl Hr). cbn. by rewrite Hw.
Qed.

Lemma refund_cases l id :
  ledger_ok l →
  (∃ r, refund_provider_rate_before_invocation l id = (l, r)) ∨
  ∃ row m, let l' := set_epochs m (delete_receipt id
                       (set_refunded (<[id := sr_epoch row.1]> (quota_refunded_receipts l)) l)) in
    quota_receipts l !! id = Some row ∧ sr_state row.1 = Reserved ∧
    refund_provider_rate_before_invocation l id = (l', Ok tt) ∧ ledger_ok l'.
Proof.
  intros Hl. destruct (quota_receipts l !! id) as [row|] eqn:Hr.
  - destruct (decide (sr_state row.1 = Reserved)) as [Hs|Hs].
    + destruct (refund_spec l id row Hl Hr Hs) as (m & -> & Hok). right. by exists row, m.
    + unfold refund_provider_rate_before_invocation. rewrite (load_row l id row (lo_rows _ Hl) Hr). cbn.
      rewrite (load_live_ok l id row Hl Hr). cbn. rewrite bool_decide_eq_false_2 by done. left. by eexists.
  - unfold refund_provider_rate_before_invocation, load_quota_receipt. rewrite Hr. cbn.
    left. case_match; by eexists.
Qed.

Lemma refund_ok l id : ledger_ok l → ledger_ok (refund_provider_rate_before_invocation l id).1.
Proof. intros Hl. by destruct (refund_cases l id Hl) as [(r & ->)|(row & m & _ & _ & -> & Hok)]. Qed.

(** *** Reconciliation *)

Lemma check_order_fmap id n (f : StoredQuotaScope → StoredQuotaScope) (ss : list StoredQuotaScope) :
  (∀ s, qs_order (f s) = qs_order s ∧ qs_key (f s) = qs_key s) → check_order id n (f <$> ss) = check_order id n ss.
Proof.
  intros Hf. revert n. induction ss as [|s ss IH]; intros n; [done|]. rewrite fmap_cons. cbn [check_order].
  destruct (Hf s) as [-> ->]. by rewrite IH.
Qed.

Lemma reconcile_keys req tok (ss : list StoredQuotaScope) : qs_key <$> (reconcile_scope req tok <$> ss) = qs_key <$> ss.
Proof. rewrite <- list_fmap_compose. by apply list_fmap_ext. Qed.

Lemma reconcile_row_ok id row req tok :
  row_ok id row → is_u64 req → is_u64 tok → row_ok id (reconcile_row req tok row).
Proof.
  destruct row as [r ss]. intros [H1 H2 H3 H4 H5] Hreq Htok. split; cbn [reconcile_row fst snd].
  - revert H1. unfold check_receipt. rewrite !bind_unit. cbn. intros [H1 _]. by split.
  - apply scopes_checked in H2 as (_ & Hf & Hn & Ho). apply load_scopes_intro; cbn [fst snd].
    + apply Forall_fmap. eapply Forall_impl; [exact Hf|]. intros s Hs. cbn.
      apply check_scope_spec in Hs as (? & ? & ? & ? & _ & _). by apply check_scope_spec.
    + by destruct ss.
    + unfold reconcile_row. cbn [fst snd]. by rewrite check_order_fmap.
  - by rewrite reconcile_keys.
  - done.
  - split; intros z; cbn; by intros [= <-].
Qed.

Lemma find_fmap scope (f : StoredQuotaScope → StoredQuotaScope) (ss : list StoredQuotaScope) :
  (∀ s, qs_key (f s) = qs_key s) → find_first (has_key scope) (f <$> ss) = f <$> find_first (has_key scope) ss.
Proof.
  intros Hf. induction ss as [|s ss IH]; [done|]. rewrite fmap_cons. cbn [find_first]. unfold has_key at 1 3.
  rewrite Hf. case_bool_decide; [done|apply IH].
Qed.

Lemma reconcile_contribution s e row req tok :
  contribution s e (reconcile_row req tok row) =
  if in_scope s e row then (requests_for s req, tok) else (0, 0).
Proof.
  destruct (in_scope s e row) eqn:Hin.
  - apply in_scope_spec in Hin as [He (t & Ht & Hk)]. unfold contribution. cbn. rewrite He, Z.eqb_refl.
    rewrite find_fmap by done. destruct (find_first (has_key s) row.2) as [u|] eqn:Hf.
    + apply find_key_spec in Hf as [_ <-]. done.
    + rewrite find_first_None, Forall_forall in Hf. specialize (Hf t Ht). by apply bool_decide_eq_false in Hf.
  - apply in_scope_false. rewrite <- Hin. unfold in_scope. cbn. f_equal. induction row.2 as [|t ss IH]; [done|].
    cbn. by rewrite <- IH.
Qed.

Lemma restate_ok l id row req tok :
  ledger_ok l → quota_receipts l !! id = Some row → is_u64 req → is_u64 tok →
  let l1 := set_receipts (<[id := reconcile_row req tok row]> (quota_receipts l)) l in
  ∃ m, restate req tok row l1 = Ok (set_epochs m l1) ∧ ledger_ok (set_epochs m l1).
Proof.
  intros Hl Hr Hreq Htok l1. pose proof (lo_rows _ Hl _ _ Hr) as Hrow.
  assert (Hrows : rows_ok l1) by (apply map_Forall_insert_2; [by apply reconcile_row_ok|apply Hl]).
  apply loop_restores; [done|apply Hrow| | |apply Hl| |].
  - intros t Ht. split; [by eapply row_key_valid|].
    destruct (contribution_le_total l id row (qs_key t) (sr_epoch row.1) (lo_rows _ Hl) Hr) as [H1 H2].
    eexists _, _. split; [by apply (entry_present l id row)|]. rewrite (contribution_own id row t Hrow Ht) in H1, H2.
    rewrite !(total_replace l l1 id row (reconcile_row req tok row)), reconcile_contribution by done.
    rewrite (contribution_own id row t Hrow Ht).
    assert (in_scope (qs_key t) (sr_epoch row.1) row = true) as -> by (apply in_scope_spec; eauto).
    split_and!; cbn [fst snd]; auto using requests_for_u64; lia.
  - intros s e Hn. apply contribution_elsewhere in Hn. pose proof (in_scope_false _ _ _ Hn) as Hc.
    assert (Hc' : contribution s e (reconcile_row req tok row) = (0, 0)) by (by rewrite reconcile_contribution, Hn).
    refine (entry_transfer l _ s e _ _ _ _ (lo_entries l Hl s e)).
    + rewrite (total_replace l l1 id row (reconcile_row req tok row)), Hc, Hc' by done. cbn. lia.
    + rewrite (total_replace l l1 id row (reconcile_row req tok row)), Hc, Hc' by done. cbn. lia.
    + intros Hnone id' row'; cbn; intros [[<- <-]|[_ Hr']]%lookup_insert_Some; [|by apply (Hnone id')].
      rewrite <- Hn. unfold in_scope. cbn. f_equal. clear. induction row.2 as [|t ss IH]; [done|].
      cbn. by rewrite IH.
  - intros id' Hid. cbn. rewrite lookup_insert_ne; [by apply Hl|]. intros <-. apply (lo_refunded l Hl) in Hid. congruence.
  - intros id' row'; cbn. intros [[<- <-]|[_ Hr']]%lookup_insert_Some; cbn; by eapply (lo_epochs l Hl).
Qed.

(** The range a reported number of requests must be in. *)
Definition reconcile_valid (row : Row) (requests : option Z) : Prop :=
  0 < default (sr_reserved_requests row.1) requests <= sr_reserved_requests row.1.

Lemma alter_row (f : Row → Row) (m : gmap Z Row) id row : m !! id = Some row → alter f id m = <[id := f row]> m.
Proof.
  intros Hr. apply map_eq. intros i. destruct (decide (i = id)) as [->|].
  - by rewrite lookup_insert_eq, lookup_alter_eq, Hr.
  - by rewrite lookup_insert_ne, lookup_alter_ne.
Qed.

(** A reconciliation within the reserved requests of an invoked receipt succeeds. *)
Lemma reconcile_spec l id row requests tok :
  ledger_ok l → quota_receipts l !! id = Some row → reconcile_valid row requests → is_u64 tok →
  sr_state row.1 = InFlight ∨ sr_state row.1 = Estimated →
  let req := default (sr_reserved_requests row.1) requests in
  let l1 := set_receipts (<[id := reconcile_row req tok row]> (quota_receipts l)) l in
  ∃ m, reconcile_provider_rate_inner l id requests tok = (set_epochs m l1, Ok tt) ∧ ledger_ok (set_epochs m l1).
Proof.
  intros Hl Hr Hv Htok Hs req l1. pose proof (lo_rows _ Hl _ _ Hr) as Hrow.
  assert (Hreq : is_u64 req) by (destruct (ro_reserved _ _ Hrow); unfold reconcile_valid, is_u64 in *; lia).
  destruct (restate_ok l id row req tok Hl Hr Hreq Htok) as (m & Hm & Hok). exists m. split; [|done].
  unfold reconcile_provider_rate_inner. rewrite (load_row l id row (lo_rows _ Hl) Hr). cbn.
  rewrite (ro_scopes _ _ Hrow). cbn. fold req.
  assert ((req =? 0) || (sr_reserved_requests row.1 <? req) = false) as ->.
  { unfold reconcile_valid in Hv. fold req in Hv. rewrite orb_false_iff, Z.eqb_neq, Z.ltb_ge. lia. }
  cbn. rewrite (require_ok l id row Hl Hr). cbn. rewrite (alter_row _ _ _ _ Hr).
  destruct Hs as [-> | ->]; rewrite Hm; done.
Qed.

Lemma reconcile_cases l id requests tok :
  ledger_ok l → is_u64 tok → opt_u64 requests →
  (∃ r, reconcile_provider_rate_inner l id requests tok = (l, r)) ∨
  ∃ row m, let req := default (sr_reserved_requests row.1) requests in
    let l' := set_epochs m (set_receipts (<[id := reconcile_row req tok row]> (quota_receipts l)) l) in
    quota_receipts l !! id = Some row ∧ 0 < req <= sr_reserved_requests row.1 ∧
    (sr_state row.1 = InFlight ∨ sr_state row.1 = Estimated) ∧
    reconcile_provider_rate_inner l id requests tok = (l', Ok tt) ∧ ledger_ok l'.
Proof.
  intros Hl Htok Hq. destruct (quota_receipts l !! id) as [row|] eqn:Hr.
  2: { unfold reconcile_provider_rate_inner, load_quota_receipt. rewrite Hr. left. by eexists. }
  set (req := default (sr_reserved_requests row.1) requests).
  assert (Hq0 : 0 <= req).
  { unfold req. pose proof (ro_reserved _ _ (lo_rows _ Hl _ _ Hr)) as [Hu _].
    destruct requests as [z|]; cbn; [by apply (Hq z)|apply Hu]. }
  destruct (decide (0 < req <= sr_reserved_requests row.1 ∧ (sr_state row.1 = InFlight ∨ sr_state row.1 = Estimated)))
    as [[Hv Hs]|Hn].
  { destruct (reconcile_spec l id row requests tok Hl Hr) as (m & -> & Hok); try done. right. by exists row, m. }
  left. unfold reconcile_provider_rate_inner. rewrite (load_row l id row (lo_rows _ Hl) Hr). cbn.
  rewrite (ro_scopes _ _ (lo_rows _ Hl _ _ Hr)). cbn. fold req.
  destruct ((req =? 0) || (sr_reserved_requests row.1 <? req)) eqn:Hv; [by eexists|].
  rewrite orb_false_iff, Z.eqb_neq, Z.ltb_ge in Hv. cbn. rewrite (require_ok l id row Hl Hr). cbn.
  destruct (sr_state row.1); [by eexists|exfalso; apply Hn; split; [lia|auto]..|].
  destruct (_ && _); by eexists.
Qed.

Lemma reconcile_ok l id requests tok : ledger_ok l → is_u64 tok → opt_u64 requests →
  ledger_ok (reconcile_provider_rate_inner l id requests tok).1.
Proof.
  intros Hl Htok Hq.
  by destruct (reconcile_cases l id requests tok Hl Htok Hq) as [(r & ->)|(row & m & _ & _ & _ & -> & Hok)].
Qed.

(** *** New receipts *)

(** What a receipt counts for: its estimate until it is reconciled, and then the actual usage. *)
Definition spent (row : Row) : Z * Z :=
  match sr_state row.1 with
  | Reconciled => (default 0 (sr_actual_requests row.1), default 0 (sr_actual_tokens row.1))
  | _ => (sr_reserved_requests row.1, sr_reserved_tokens row.1)
  end.

Lemma contribution_spec id row s e :
  row_ok id row →
  contribution s e row = if in_scope s e row then (requests_for s (spent row).1, (spent row).2) else (0, 0).
Proof.
  intros Hr. destruct (in_scope s e row) eqn:Hin; [|by apply in_scope_false].
  apply in_scope_spec in Hin as [<- (t & Ht & <-)]. rewrite (contribution_own id row t Hr Ht).
  pose proof (row_scope _ _ _ Hr Ht) as (_ & _ & H1 & H2 & H3 & H4)%check_scope_spec.
  unfold scope_contribution, spent. rewrite H1, H2, H3, H4. destruct (sr_state row.1); cbn; try done.
  f_equal. destruct (sr_actual_requests row.1); cbn; [done|]. by destruct (qs_key t) as [[] ?].
Qed.

Lemma insert_row_ok l id row m :
  ledger_ok l → quota_receipts l !! id = None → quota_refunded_receipts l !! id = None → row_ok id row →
  sr_epoch row.1 <= default 0 (quota_epoch_floor l) →
  (∀ s, s ∈ row.2 → m !! (qs_key s, sr_epoch row.1) =
     Some (sat_add64 (aggregate l (qs_key s) (sr_epoch row.1)).1 (requests_for (qs_key s) (spent row).1),
           sat_add64 (aggregate l (qs_key s) (sr_epoch row.1)).2 (spent row).2)) →
  (∀ k, (∀ s, s ∈ row.2 → k ≠ (qs_key s, sr_epoch row.1)) → m !! k = quota_epochs l !! k) →
  ledger_ok (set_epochs m (set_receipts (<[id := row]> (quota_receipts l)) l)).
Proof.
  intros Hl Hid Href Hrow He Hin Hout. set (l' := set_epochs _ _).
  assert (Hlook : ∀ s e, in_scope s e row = true → ∃ t, t ∈ row.2 ∧ qs_key t = s ∧ sr_epoch row.1 = e)
    by (intros s e [? (t & ? & ?)]%in_scope_spec; eauto).
  assert (Helse : ∀ s e, in_scope s e row = false → m !! (s, e) = quota_epochs l !! (s, e)).
  { intros s e Hx. apply Hout. intros t Ht [= -> ->]. apply not_true_iff_false in Hx. apply Hx, in_scope_spec. eauto. }
  split; cbn.
  - apply map_Forall_insert_2; [done|apply Hl].
  - intros s e. pose proof (contribution_spec id row s e Hrow) as Hc.
    destruct (in_scope s e row) eqn:Hsc.
    + destruct (Hlook s e Hsc) as (t & Ht & <- & <-). rewrite (Hin t Ht). cbn.
      unfold aggregate. rewrite !(total_insert l l' id row) by done. rewrite Hc. cbn -[u64_max].
      destruct (contribution_u64 id row (qs_key t) (sr_epoch row.1) Hrow) as [Hu1 Hu2]. rewrite Hc in Hu1, Hu2.
      unfold is_u64 in *. cbn in Hu1, Hu2. rewrite !sat_capped by lia. f_equal; f_equal; lia.
    + rewrite (Helse s e Hsc). refine (entry_transfer l _ s e _ _ _ _ (lo_entries l Hl s e)).
      * rewrite (total_insert l l' id row), Hc by done. cbn. lia.
      * rewrite (total_insert l l' id row), Hc by done. cbn. lia.
      * intros Hn id' row'; cbn; intros [[<- <-]|[_ Hr']]%lookup_insert_Some; [done|by apply (Hn id')].
  - intros s e v Hv. destruct (in_scope s e row) eqn:Hsc.
    + destruct (Hlook s e Hsc) as (t & Ht & <- & <-). by eapply row_key_valid.
    + rewrite (Helse s e Hsc) in Hv. by eapply lo_keys.
  - intros id' Hs. rewrite lookup_insert_ne; [by apply Hl|]. intros <-. rewrite Href in Hs. by destruct Hs.
  - intros id' row'. intros [[<- <-]|[_ Hr']]%lookup_insert_Some; [done|by eapply (lo_epochs l Hl)].
Qed.

(** *** Reservations *)

Lemma check_constraints_spec seen cs :
  check_constraints seen cs = Ok tt ↔
  Forall (λ c, validate_quota_scope_key (cgroup (scope_id c)) = Ok tt) cs ∧
  NoDup (scope_id <$> cs) ∧ (∀ c, c ∈ cs → scope_id c ∉ seen).
Proof.
  revert seen. induction cs as [|c cs IH]; intros seen; cbn.
  - split; [|done]. intros _. split_and!; [constructor|constructor|]. by intros c ?%elem_of_nil.
  - rewrite !bind_unit, ensure_Ok, negb_true_iff, bool_decide_eq_false, IH, Forall_cons, NoDup_cons.
    rewrite list_elem_of_fmap. set_solver.
Qed.

Lemma reserved_keys requests tokens cs :
  qs_key <$> reserved_scopes requests tokens cs = provider_global :: ((λ c, cgroup (scope_id c)) <$> cs).
Proof.
  unfold reserved_scopes. cbn. f_equal. rewrite fmap_imap. unfold compose. cbn.
  generalize 0%nat. induction cs as [|c cs IH]; intros n; cbn; [done|]. by rewrite <- (IH n).
Qed.

Lemma cgroup_key_inj : Inj (=) (=) cgroup.
Proof. by intros a b [= ->]. Qed.

Lemma reserved_nodup requests tokens cs :
  NoDup (scope_id <$> cs) → NoDup (qs_key <$> reserved_scopes requests tokens cs).
Proof.
  intros Hnd. rewrite reserved_keys. apply NoDup_cons. split.
  - by intros (c & Hc & _)%list_elem_of_fmap.
  - rewrite (list_fmap_compose scope_id cgroup). apply NoDup_fmap_2; [apply cgroup_key_inj|done].
Qed.

Lemma check_order_imap id tokens (k : nat) cs :
  Z.of_nat (k + length cs) <= u32_max →
  check_order id (Z.of_nat k + 1)
    (imap (λ i c, mkScope (cgroup (scope_id c)) (Z.of_nat (k + i) + 1) 0 tokens None None) cs) = Ok tt.
Proof.
  revert k. induction cs as [|c cs IH]; intros k Hk; [done|]. cbn [imap check_order]. cbn [length] in Hk.
  rewrite (proj2 (Z.leb_le _ _)) by lia. cbn.
  rewrite (proj2 (Z.eqb_eq (Z.of_nat (k + 0) + 1) _)) by lia. cbn.
  rewrite (proj2 (Z.eqb_neq _ 0)), bool_decide_eq_true_2 by (done || lia). cbn.
  replace (Z.of_nat k + 1 + 1) with (Z.of_nat (S k) + 1) by lia.
  rewrite <- (IH (S k)) by lia. f_equal. apply imap_ext. intros i x _. cbn. by rewrite Nat.add_succ_r.
Qed.

Lemma reserved_row_ok id epoch requests tokens cs :
  Forall (λ c, validate_quota_scope_key (cgroup (scope_id c)) = Ok tt) cs → NoDup (scope_id <$> cs) →
  Z.of_nat (length cs) < u32_max → is_u64 requests → is_u64 tokens →
  row_ok id (mkReceipt id epoch Reserved requests tokens None None, reserved_scopes requests tokens cs).
Proof.
  intros Hv Hnd Hlen Hr Ht. split; cbn [fst snd]; [| |by apply reserved_nodup|done|done].
  - unfold check_receipt. cbn. by rewrite Z.eqb_refl.
  - apply load_scopes_intro; [|done|].
    + cbn [fst snd]. constructor; [by apply check_scope_spec|]. apply Forall_lookup. intros i s.
      rewrite list_lookup_imap. destruct (cs !! i) as [c|] eqn:Hc; cbn; [|done]. intros [= <-].
      pose proof (lookup_lt_Some _ _ _ Hc) as Hi. apply check_scope_spec. cbn. split; [unfold u32_max in *; lia|].
      split_and!; try done. by eapply Forall_lookup_1 in Hv.
    + unfold reserved_scopes. cbn [fst snd check_order]. cbn. by apply (check_order_imap id tokens 0); cbn; lia.
Qed.

Lemma cgroup_usages_ok l epoch cs :
  ledger_ok l → Forall (λ c, validate_quota_scope_key (cgroup (scope_id c)) = Ok tt) cs →
  cgroup_usages l epoch cs = Ok ((λ c, (c, aggregate l (cgroup (scope_id c)) epoch)) <$> cs).
Proof.
  intros Hl. induction 1 as [|c cs Hc _ IH]; [done|]. cbn. rewrite (trusted_ok l _ epoch Hl Hc). cbn. by rewrite IH.
Qed.

Lemma write_ok l scope epoch requests tokens :
  validate_quota_scope_key scope = Ok tt →
  write_scope_epoch_aggregate l scope epoch requests tokens =
  Ok (set_epochs (<[(scope, epoch) := (requests, tokens)]> (quota_epochs l)) l).
Proof. intros Hv. unfold write_scope_epoch_aggregate. by rewrite Hv. Qed.

Lemma write_usages_ok epoch tokens (us : list (CgroupQuotaConstraint * (Z * Z))) l :
  NoDup ((λ p, scope_id p.1) <$> us) →
  Forall (λ p, validate_quota_scope_key (cgroup (scope_id p.1)) = Ok tt) us →
  ∃ m, write_cgroup_usages epoch tokens us l = Ok (set_epochs m l) ∧
    (∀ p, p ∈ us → m !! (cgroup (scope_id p.1), epoch) = Some (p.2.1, sat_add64 p.2.2 tokens)) ∧
    (∀ k, (∀ p, p ∈ us → k ≠ (cgroup (scope_id p.1), epoch)) → m !! k = quota_epochs l !! k).
Proof.
  unfold write_cgroup_usages. revert l. induction us as [|p us IH]; intros l Hnd Hv; cbn [try_fold].
  - exists (quota_epochs l). split; [by destruct l|]. split; [by intros p ?%elem_of_nil|done].
  - apply NoDup_cons in Hnd as [Hn Hnd]. apply Forall_cons in Hv as [Hp Hv].
    rewrite (write_ok l _ epoch _ _ Hp). cbn.
    destruct (IH (set_epochs (<[(cgroup (scope_id p.1), epoch) := (p.2.1, sat_add64 p.2.2 tokens)]> (quota_epochs l)) l)
      Hnd Hv) as (m & -> & Hin & Hout).
    exists m. split; [done|]. split.
    + intros q [->|Hq]%elem_of_cons; [|by apply Hin]. rewrite Hout; [cbn; by rewrite lookup_insert_eq|].
      intros q Hq [= Heq]. apply Hn. rewrite Heq. by apply (list_elem_of_fmap_2 (λ p, scope_id p.1)).
    + intros k Hk. rewrite Hout by (intros q Hq; apply Hk; by right). cbn.
      rewrite lookup_insert_ne; [done|]. intros Heq. by apply (Hk p); [left|].
Qed.

(** The outcome of a reservation under a new identifier. *)
Definition reserve_outcome (l : Ledger) (epoch : Z) (req : ProviderRateRequest) (cs : list CgroupQuotaConstraint)
    : option ProviderRateReserveOutcome :=
  denial req epoch (aggregate l provider_global epoch)
    ((λ c, (c, aggregate l (cgroup (scope_id c)) epoch)) <$> cs).

Definition reserved_row (req : ProviderRateRequest) (epoch : Z) (cs : list CgroupQuotaConstraint) : Row :=
  (mkReceipt (rq_receipt_id req) epoch Reserved (rq_estimated_requests req) (rq_estimated_tokens req) None None,
   reserved_scopes (rq_estimated_requests req) (rq_estimated_tokens req) cs).

Definition request_u64 (req : ProviderRateRequest) : Prop :=
  is_u64 (rq_requested_epoch req) ∧ is_u32 (rq_rpm req) ∧ is_u64 (rq_tpm req) ∧
  is_u64 (rq_estimated_requests req) ∧ is_u64 (rq_estimated_tokens req).

Lemma elem_reserved requests tokens cs s :
  s ∈ reserved_scopes requests tokens cs →
  qs_key s = provider_global ∨ ∃ c, c ∈ cs ∧ qs_key s = cgroup (scope_id c).
Proof.
  intros Hs. assert (qs_key s ∈ qs_key <$> reserved_scopes requests tokens cs) as Hk by by apply list_elem_of_fmap_2.
  rewrite reserved_keys in Hk. apply elem_of_cons in Hk as [Hk|(c & Hk & Hc)%list_elem_of_fmap]; eauto.
Qed.

Lemma reserved_elem requests tokens cs c :
  c ∈ cs → ∃ s, s ∈ reserved_scopes requests tokens cs ∧ qs_key s = cgroup (scope_id c).
Proof.
  intros Hc. assert (cgroup (scope_id c) ∈ qs_key <$> reserved_scopes requests tokens cs) as Hk.
  { rewrite reserved_keys. right. by apply (list_elem_of_fmap_2 (λ c, cgroup (scope_id c))). }
  apply list_elem_of_fmap in Hk as (s & -> & Hs). eauto.
Qed.

Record reservable (l : Ledger) (epoch : Z) (req : ProviderRateRequest) (cs : list CgroupQuotaConstraint) : Prop := {
  rv_ledger : ledger_ok l;
  rv_new : quota_receipts l !! rq_receipt_id req = None;
  rv_fresh : quota_refunded_receipts l !! rq_receipt_id req = None;
  rv_epoch : epoch <= default 0 (quota_epoch_floor l);
  rv_request : request_u64 req;
  rv_valid : Forall (λ c, validate_quota_scope_key (cgroup (scope_id c)) = Ok tt) cs;
  rv_nodup : NoDup (scope_id <$> cs);
  rv_length : Z.of_nat (length cs) < u32_max }.

Definition granted (req : ProviderRateRequest) (epoch : Z) (cs : list CgroupQuotaConstraint)
    : ProviderRateReserveOutcome :=
  OutReserved (mkReservation (rq_receipt_id req) epoch (rq_estimated_requests req) (rq_estimated_tokens req)
    Reserved (scope_id <$> cs)).

Lemma provider_valid : validate_quota_scope_key provider_global = Ok tt.
Proof. by vm_compute. Qed.

Lemma reserve_new_spec l epoch req cs :
  reservable l epoch req cs →
  match reserve_outcome l epoch req cs with
  | Some o => reserve_new l epoch req cs = Ok (l, o)
  | None =>
      ∃ m, let l' := set_epochs m (set_receipts (<[rq_receipt_id req := reserved_row req epoch cs]>
                       (quota_receipts l)) l) in
        reserve_new l epoch req cs = Ok (l', granted req epoch cs) ∧ ledger_ok l'
  end.
Proof.
  intros [Hl Hid Href He (_ & _ & _ & Hr & Ht) Hv Hnd Hlen]. unfold reserve_new.
  rewrite (trusted_ok l _ epoch Hl provider_valid), (cgroup_usages_ok l epoch cs Hl Hv). cbn.
  fold (reserve_outcome l epoch req cs). destruct (reserve_outcome l epoch req cs) as [o|]; [done|].
  unfold insert_receipt. rewrite Hid. cbn. rewrite (write_ok _ _ _ _ _ provider_valid). cbn.
  set (l1 := set_epochs _ _).
  destruct (write_usages_ok epoch (rq_estimated_tokens req)
    ((λ c, (c, aggregate l (cgroup (scope_id c)) epoch)) <$> cs) l1) as (m & -> & Hin & Hout).
  { by rewrite <- list_fmap_compose. }
  { by apply Forall_fmap. }
  cbn. exists m. split; [done|].
  apply (insert_row_ok l (rq_receipt_id req) (reserved_row req epoch cs) m); try done.
  - by apply reserved_row_ok.
  - intros s Hs. cbn [reserved_row fst snd sr_epoch]. apply elem_reserved in Hs as [->|(c & Hc & ->)].
    + rewrite Hout; [cbn; by rewrite lookup_insert_eq|]. by intros p (c & -> & _)%list_elem_of_fmap.
    + specialize (Hin (c, aggregate l (cgroup (scope_id c)) epoch)). cbn [fst snd] in Hin. rewrite Hin.
      * do 2 f_equal. unfold sat_add64, aggregate. cbn -[u64_max]. lia.
      * by apply (list_elem_of_fmap_2 (λ c, (c, aggregate l (cgroup (scope_id c)) epoch))).
  - intros k Hk. cbn [reserved_row fst snd sr_epoch] in Hk. rewrite Hout.
    + cbn. rewrite lookup_insert_ne; [done|]. intros Heq.
      apply (Hk (mkScope provider_global 0 (rq_estimated_requests req) (rq_estimated_tokens req) None None)); [by left|done].
    + intros p (c & -> & Hc)%list_elem_of_fmap. destruct (reserved_elem (rq_estimated_requests req)
        (rq_estimated_tokens req) cs c Hc) as (s & Hs & Hks). cbn. rewrite <- Hks. by apply Hk.
Qed.

(** Every answer of a reservation: an error rolls back, and only a granted one changes the receipts. *)
Lemma reserve_cases l req cs :
  ledger_ok l → request_u64 req →
  let epoch := Z.max (default 0 (quota_epoch_floor l)) (rq_requested_epoch req) in
  let l1 := set_floor epoch l in
  (∃ e, reserve_provider_rate_attempts_with_cgroups l req cs = (l, Err e)) ∨
  (∃ o, reserve_provider_rate_attempts_with_cgroups l req cs = (l1, Ok o) ∧
     ∀ r, o = OutReserved r → is_Some (quota_receipts l !! rq_receipt_id req)) ∨
  (reservable l1 epoch req cs ∧ 0 < rq_estimated_requests req ∧ (epoch ∉ quota_migration_fence l) ∧
   reserve_outcome l1 epoch req cs = None ∧
   ∃ m, let l' := set_epochs m (set_receipts (<[rq_receipt_id req := reserved_row req epoch cs]>
                    (quota_receipts l)) l1) in
     reserve_provider_rate_attempts_with_cgroups l req cs = (l', Ok (granted req epoch cs)) ∧ ledger_ok l').
Proof.
  intros Hl Hreq epoch l1. assert (Hl1 : ledger_ok l1) by (apply floor_ok; [unfold epoch; lia|done]).
  unfold reserve_provider_rate_attempts_with_cgroups, reserve_tx.
  destruct (negb (rq_estimated_requests req =? 0)) eqn:Hz; [|left; eexists; done]. cbn.
  destruct (check_constraints [] cs) as [[]|e] eqn:Hc; [|left; eexists; done]. cbn.
  destruct (Z.of_nat (length cs) <? u32_max) eqn:Hlen; [|left; eexists; done]. cbn. fold epoch. fold l1.
  apply check_constraints_spec in Hc as (Hv & Hnd & _). apply Z.ltb_lt in Hlen.
  rewrite negb_true_iff, Z.eqb_neq in Hz.
  destruct (quota_receipts l !! rq_receipt_id req) as [row|] eqn:Hr.
  - rewrite (load_row l1 _ row (lo_rows _ Hl1) Hr). cbn. unfold reserve_again.
    destruct (load_receipt_scopes row) as [ss|e]; [|left; eexists; done]. cbn.
    destruct (require_aggregates l1 ss _) as [[]|e]; [|left; eexists; done]. cbn.
    destruct (_ && _); [|left; eexists; done]. cbn. case_bool_decide; [|left; eexists; done]. cbn.
    right. left. eexists. split; [done|]. intros r _. by eexists.
  - unfold load_quota_receipt. cbn. rewrite Hr. cbn. destruct (quota_receipt_was_refunded l1 _) eqn:Hf; [left; eexists; done|].
    case_bool_decide as Hfence; [right; left; eexists; split; done|].
    apply bool_decide_eq_false, eq_None_not_Some in Hf.
    assert (Hrv : reservable l1 epoch req cs) by (split; try done; cbn; lia).
    pose proof (reserve_new_spec l1 epoch req cs Hrv) as Hn. destruct (reserve_outcome l1 epoch req cs) as [o|] eqn:Ho.
    + rewrite Hn. cbn. right. left. exists o. split; [done|]. intros r ->. exfalso. clear -Ho.
      unfold reserve_outcome, denial in Ho. repeat case_match; try done. by destruct (find_first _ _).
    + destruct Hn as (m & -> & Hok). right. right. split_and!; try done; [|by exists m].
      destruct Hreq as (_ & _ & _ & [? ?] & _). lia.
Qed.

Lemma reserve_ok l req cs :
  ledger_ok l → request_u64 req → ledger_ok (reserve_provider_rate_attempts_with_cgroups l req cs).1.
Proof.
  intros Hl Hreq. destruct (reserve_cases l req cs Hl Hreq) as [(e & ->)|[(o & -> & _)|(_ & _ & _ & _ & m & -> & Hok)]];
    [done| |done]. apply floor_ok; [lia|done].
Qed.
