(* ===== verification/QuotaHistory.v ===== *)
(** * Histories of the quota ledger

    Direct charges, recovery, pruning, erasure and migration keep the ledger in order; the theorems on
    histories: the books are exact and every audit succeeds, limits are respected, recovery returns
    exactly what was never started, and a retried reservation is the same reservation. *)

From S2P Require Import Prelude Cgroups QuotaLedger QuotaInv.
#[local] Open Scope Z_scope.

(** ** Direct charges *)

Definition charged_row (id epoch tokens : Z) : Row :=
  (mkReceipt id epoch Reconciled 0 0 (Some 0) (Some tokens),
   [mkScope provider_global 0 0 0 (Some 0) (Some tokens)]).

Lemma charged_row_ok id epoch tokens : is_u64 tokens → row_ok id (charged_row id epoch tokens).
Proof.
  intros Ht. assert (is_u64 0) by (unfold is_u64, u64_max; lia). split; cbn [charged_row fst snd].
  - unfold check_receipt. cbn. by rewrite Z.eqb_refl.
  - apply load_scopes_intro; [|done|done]. constructor; [|constructor]. by apply check_scope_spec.
  - apply NoDup_singleton.
  - done.
  - split; intros z; cbn; by intros [= <-].
Qed.

Lemma charge_cases l id requested tokens :
  ledger_ok l → is_u64 tokens →
  let epoch := Z.max (default 0 (quota_epoch_floor l)) requested in
  let l1 := set_floor epoch l in
  (∃ e, charge_provider_rate_tokens l id requested tokens = (l, Err e)) ∨
  charge_provider_rate_tokens l id requested tokens = (l1, Ok tt) ∨
  (quota_receipts l !! id = None ∧
   ∃ m, let l' := set_epochs m (set_receipts (<[id := charged_row id epoch tokens]> (quota_receipts l)) l1) in
     charge_provider_rate_tokens l id requested tokens = (l', Ok tt) ∧ ledger_ok l').
Proof.
  intros Hl Ht epoch l1. assert (Hl1 : ledger_ok l1) by (apply floor_ok; [unfold epoch; lia|done]).
  unfold charge_provider_rate_tokens. cbn -[charge_again]. fold epoch. fold l1.
  destruct (quota_receipts l !! id) as [row|] eqn:Hr.
  - rewrite (load_row l1 _ row (lo_rows _ Hl1) Hr). cbn. unfold charge_again.
    destruct (load_receipt_scopes row) as [ss|e]; [|left; eexists; done]. cbn.
    destruct (require_aggregates l1 ss _) as [[]|e]; [|left; eexists; done]. cbn.
    destruct (_ && _); [by right; left|left; eexists; done].
  - unfold load_quota_receipt. cbn. rewrite Hr. cbn.
    destruct (quota_receipt_was_refunded l1 id) eqn:Hf; [left; eexists; done|].
    apply bool_decide_eq_false, eq_None_not_Some in Hf.
    rewrite (trusted_ok l1 _ epoch Hl1 provider_valid). cbn. unfold insert_receipt. cbn. rewrite Hr. cbn.
    rewrite (write_ok _ _ _ _ _ provider_valid). cbn. right. right. split; [done|]. eexists. split; [done|].
    apply (insert_row_ok l1 id (charged_row id epoch tokens)); try done.
    + by apply charged_row_ok.
    + intros s Hs%list_elem_of_singleton. subst s. cbn -[u64_max]. rewrite lookup_insert_eq. do 2 f_equal.
      unfold sat_add64, aggregate. cbn -[u64_max]. lia.
    + intros k Hk. cbn. rewrite lookup_insert_ne; [done|]. intros <-. by eapply Hk; [by apply list_elem_of_singleton|].
Qed.

Lemma charge_ok l id requested tokens :
  ledger_ok l → is_u64 tokens → ledger_ok (charge_provider_rate_tokens l id requested tokens).1.
Proof.
  intros Hl Ht. destruct (charge_cases l id requested tokens Hl Ht) as [(e & ->)|[->|(_ & m & -> & Hok)]]; [done| |done].
  apply floor_ok; [lia|done].
Qed.

Lemma usage_spec l requested :
  ledger_ok l →
  let epoch := Z.max (default 0 (quota_epoch_floor l)) requested in
  provider_rate_usage l requested = (set_floor epoch l, Ok (epoch, exact_usage l provider_global epoch)).
Proof.
  intros Hl epoch. unfold provider_rate_usage. cbn. fold epoch.
  rewrite validate_scope_ok; [done|apply floor_ok; [unfold epoch; lia|done]|apply provider_valid].
Qed.

(** ** Recovery *)

(** What recovery leaves of a row. *)
Definition recovered (row : Row) : option Row :=
  match sr_state row.1 with
  | Reserved => None
  | InFlight => Some (set_sr_state Estimated row.1, row.2)
  | Estimated | Reconciled => Some row
  end.

Definition state_at (l : Ledger) (st : ProviderRateReceiptState) (id : Z) : bool :=
  match quota_receipts l !! id with Some row => bool_decide (sr_state row.1 = st) | None => false end.

Lemma recovered_row_ok id row row' : row_ok id row → recovered row = Some row' → row_ok id row'.
Proof.
  unfold recovered. intros Hr. destruct (sr_state row.1) eqn:Hs; intros [= <-]; [|done..].
  by apply state_row_ok; [|congruence|].
Qed.

Definition recover_step (l : Ledger) (id : Z) (row : Row) : Ledger :=
  match sr_state row.1 with
  | Reserved => delete_receipt id (set_refunded (<[id := sr_epoch row.1]> (quota_refunded_receipts l)) l)
  | InFlight => update_state Estimated id l
  | Estimated | Reconciled => l
  end.

Definition one_if (b : bool) : Z := if b then 1 else 0.

Definition scope_epochs (row : Row) : gset (QuotaScopeKey * Z) :=
  list_to_set ((λ s, (qs_key s, sr_epoch row.1)) <$> row.2).

Lemma elem_scope_epochs row s e : (s, e) ∈ scope_epochs row ↔ in_scope s e row = true.
Proof.
  unfold scope_epochs. rewrite elem_of_list_to_set, list_elem_of_fmap, in_scope_spec. naive_solver.
Qed.

(** One receipt of the loop. *)
Lemma recover_one_ok l ep a b aff id row :
  rows_ok l → quota_receipts l !! id = Some row → quota_refunded_receipts l !! id = None →
  recover_one (l, mkRecovery ep (Z.min u64_max a) (Z.min u64_max b), aff) id =
  Ok (recover_step l id row,
      mkRecovery ep (Z.min u64_max (a + one_if (state_at l Reserved id)))
        (Z.min u64_max (b + one_if (state_at l InFlight id))),
      aff ∪ scope_epochs row).
Proof.
  intros Hl Hr Href. unfold recover_one, state_at, recover_step. rewrite (load_row l id row Hl Hr), Hr. cbn.
  rewrite (ro_scopes _ _ (Hl _ _ Hr)). cbn -[u64_max].
  destruct (sr_state row.1); repeat case_bool_decide; try done; cbn -[u64_max].
  - unfold insert_refunded. rewrite Href. cbn -[u64_max]. rewrite sat_capped by lia. by rewrite Z.add_0_r.
  - rewrite sat_capped by lia. by rewrite Z.add_0_r.
  - by rewrite !Z.add_0_r.
  - by rewrite !Z.add_0_r.
Qed.

Lemma recover_step_receipts l id row j :
  quota_receipts l !! id = Some row →
  quota_receipts (recover_step l id row) !! j = if decide (j = id) then recovered row else quota_receipts l !! j.
Proof.
  intros Hr. unfold recover_step, recovered. destruct (decide (j = id)) as [->|Hj].
  - destruct (sr_state row.1); cbn; [by rewrite lookup_delete_eq|by rewrite lookup_alter_eq, Hr|done|done].
  - destruct (sr_state row.1); cbn; [by rewrite lookup_delete_ne|by rewrite lookup_alter_ne|done|done].
Qed.

Lemma recover_step_refunded l id row j :
  quota_refunded_receipts (recover_step l id row) !! j =
  if decide (j = id ∧ sr_state row.1 = Reserved) then Some (sr_epoch row.1) else quota_refunded_receipts l !! j.
Proof.
  unfold recover_step. destruct (decide _) as [[-> ->]|Hn]; cbn; [by rewrite lookup_insert_eq|].
  destruct (sr_state row.1); cbn; try done. rewrite lookup_insert_ne; [done|]. intros ->. by destruct Hn.
Qed.

Lemma recover_step_frame l id row :
  quota_epochs (recover_step l id row) = quota_epochs l ∧
  quota_epoch_floor (recover_step l id row) = quota_epoch_floor l ∧
  quota_migration_fence (recover_step l id row) = quota_migration_fence l.
Proof. unfold recover_step. by destruct (sr_state row.1). Qed.

Lemma recover_step_rows l id row :
  rows_ok l → quota_receipts l !! id = Some row → rows_ok (recover_step l id row).
Proof.
  intros Hl Hr j row'. rewrite (recover_step_receipts l id row j Hr).
  destruct (decide (j = id)) as [->|]; [|apply Hl]. apply recovered_row_ok. by apply Hl.
Qed.

(** The whole loop: the ledger, the report and the affected scopes. *)
Lemma recover_loop_ok ids l ep a b aff :
  rows_ok l → NoDup ids →
  (∀ id, id ∈ ids → is_Some (quota_receipts l !! id) ∧ quota_refunded_receipts l !! id = None) →
  ∃ l' aff', try_fold recover_one ids (l, mkRecovery ep (Z.min u64_max a) (Z.min u64_max b), aff) =
      Ok (l', mkRecovery ep (Z.min u64_max (a + Z.of_nat (count_if (state_at l Reserved) ids)))
                (Z.min u64_max (b + Z.of_nat (count_if (state_at l InFlight) ids))), aff') ∧
    quota_epochs l' = quota_epochs l ∧ quota_epoch_floor l' = quota_epoch_floor l ∧
    quota_migration_fence l' = quota_migration_fence l ∧
    (∀ j, quota_receipts l' !! j =
       if decide (j ∈ ids) then quota_receipts l !! j ≫= recovered else quota_receipts l !! j) ∧
    (∀ j, quota_refunded_receipts l' !! j =
       if decide (j ∈ ids ∧ state_at l Reserved j = true) then (λ row, sr_epoch row.1) <$> quota_receipts l !! j
       else quota_refunded_receipts l !! j) ∧
    (∀ s e, (s, e) ∈ aff' ↔
       (s, e) ∈ aff ∨ ∃ id row, id ∈ ids ∧ quota_receipts l !! id = Some row ∧ in_scope s e row = true).
Proof.
  revert l a b aff. induction ids as [|id ids IH]; intros l a b aff Hl Hnd Hids; cbn [try_fold].
  - exists l, aff. cbn -[u64_max]. rewrite !Z.add_0_r. split_and!; try done.
    intros s e. split; [by left|]. intros [?|(id & _ & Hid & _)]; [done|by apply elem_of_nil in Hid].
  - apply NoDup_cons in Hnd as [Hn Hnd]. destruct (Hids id) as [[row Hr] Href]; [by left|].
    rewrite (recover_one_ok l ep a b aff id row Hl Hr Href). cbn [mbind result_bind].
    pose proof (recover_step_receipts l id row) as Hrec.
    assert (Hst : ∀ st j, j ∈ ids → state_at (recover_step l id row) st j = state_at l st j).
    { intros st j Hj. unfold state_at. rewrite Hrec by done. destruct (decide (j = id)) as [->|]; done. }
    destruct (IH (recover_step l id row) (a + one_if (state_at l Reserved id)) (b + one_if (state_at l InFlight id))
      (aff ∪ scope_epochs row)) as (l' & aff' & Hf & H1 & H2 & H3 & H4 & H5 & H6).
    { by apply recover_step_rows. }
    { done. }
    { intros j Hj. rewrite Hrec, recover_step_refunded by done.
      destruct (decide (j = id)) as [->|Hne]; [done|]. rewrite decide_False by naive_solver. apply Hids. by right. }
    exists l', aff'. destruct (recover_step_frame l id row) as (F1 & F2 & F3). split_and!; try congruence.
    + rewrite Hf. do 4 f_equal; rewrite count_cons, (count_ext _ _ ids (Hst _)); unfold one_if; case_match; lia.
    + intros j. rewrite H4, Hrec by done. destruct (decide (j = id)) as [->|Hne].
      * rewrite decide_False, decide_True, Hr by (done || by left). done.
      * destruct (decide (j ∈ ids)); [by rewrite decide_True by (by right)|]. rewrite decide_False; [done|].
        by intros [?|?]%elem_of_cons.
    + intros j. rewrite H5, Hrec, recover_step_refunded by done. destruct (decide (j = id)) as [->|Hne].
      * rewrite (decide_False (P := id ∈ ids ∧ _)) by tauto. unfold state_at. rewrite Hr. cbn.
        destruct (decide (sr_state row.1 = Reserved)) as [Hs|Hs].
        -- rewrite !decide_True; [done| |done]. split; [by left|]. by apply bool_decide_eq_true.
        -- rewrite !decide_False; [done| |tauto]. intros [_ ?%bool_decide_eq_true]. done.
      * rewrite (decide_False (P := j = id ∧ _)) by tauto.
        destruct (decide (j ∈ ids)) as [Hj|Hj].
        -- rewrite (Hst Reserved j Hj). destruct (state_at l Reserved j).
           ++ rewrite !decide_True; [done|split; [by right|done]|done].
           ++ by rewrite !decide_False by naive_solver.
        -- rewrite !decide_False; [done| |tauto]. intros [[?|?]%elem_of_cons _]; done.
    + intros s e. rewrite H6, elem_of_union, elem_scope_epochs. split.
      * intros [[?|?]|(j & row' & Hj & Hr' & Hin)]; [by left|right; exists id, row; split_and!; [by left|done..]|].
        right. exists j, row'. split; [by right|]. split; [|done]. rewrite Hrec in Hr' by done.
        destruct (decide (j = id)) as [->|]; done.
      * intros [?|(j & row' & [->|Hj]%elem_of_cons & Hr' & Hin)]; [by left; left| |].
        -- left. right. congruence.
        -- right. exists j, row'. rewrite Hrec by done. split_and!; [done| |done]. rewrite decide_False; [done|].
           intros ->. done.
Qed.

Lemma write_all_ok (ks : list (QuotaScopeKey * Z)) l :
  rows_ok l → (∀ s e, (s, e) ∈ ks → validate_quota_scope_key s = Ok tt) →
  ∃ m, try_fold (λ l p, write_scope_epoch_from_receipts l p.1 p.2) ks l = Ok (set_epochs m l) ∧
    (∀ s e, (s, e) ∈ ks → entry_ok l s e (m !! (s, e))) ∧ (∀ k, k ∉ ks → m !! k = quota_epochs l !! k).
Proof.
  revert l. induction ks as [|[s e] ks IH]; intros l Hl Hv; cbn [try_fold fst snd].
  - exists (quota_epochs l). split; [by destruct l|]. split; [by intros s e ?%elem_of_nil|done].
  - destruct (write_from_receipts_ok l s e Hl) as (l' & -> & m & -> & Hm & Hk); [apply (Hv s e); by left|].
    cbn [mbind result_bind]. destruct (IH (set_epochs m l)) as (m' & -> & Hin & Hout); [done| |].
    { intros s' e' Hs. apply (Hv s' e'). by right. }
    exists m'. split; [done|]. split.
    + intros s' e' Hs. destruct (decide ((s', e') ∈ ks)) as [?|Hn]; [by apply Hin|].
      apply elem_of_cons in Hs as [[= -> ->]|?]; [|done]. rewrite Hout by done. apply Hm.
    + intros k [Hk1 Hk2]%not_elem_of_cons. rewrite Hout by done. by apply Hk.
Qed.

Lemma elem_live_ids l id : id ∈ live_ids l ↔ ∃ row, quota_receipts l !! id = Some row ∧ is_live row = true.
Proof.
  unfold live_ids. rewrite elem_of_retain, elem_receipt_ids. split.
  - intros [[row Hr] Hl]. rewrite Hr in Hl. eauto.
  - intros (row & Hr & Hl). by rewrite Hr.
Qed.

Lemma live_ids_nodup l : NoDup (live_ids l).
Proof. apply NoDup_retain. rewrite receipt_ids_perm. apply NoDup_fst_map_to_list. Qed.

Lemma recovered_dead row : is_live row = false → recovered row = Some row.
Proof. unfold is_live, recovered. by destruct (sr_state row.1). Qed.

(** Sums over the recovered receipts where no live receipt takes part. *)
Lemma recovered_total l l' part s e :
  part (0, 0) = 0 → quota_receipts l' = omap recovered (quota_receipts l) →
  (∀ id row, quota_receipts l !! id = Some row → is_live row = true → in_scope s e row = false) →
  total part l' s e = total part l s e.
Proof.
  intros Hp Hl' Hn. unfold total. rewrite Hl', msum_omap. apply msum_ext. intros id row Hr.
  destruct (is_live row) eqn:Hlive; [|by rewrite recovered_dead].
  pose proof (Hn id row Hr Hlive) as Hin. rewrite (in_scope_false _ _ _ Hin).
  unfold recovered. destruct (sr_state row.1); try by rewrite ?(in_scope_false _ _ _ Hin).
  rewrite in_scope_false; [done|]. exact Hin.
Qed.

Definition refunds (l : Ledger) : Z := msum (λ row : Row, one_if (bool_decide (sr_state row.1 = Reserved))) (quota_receipts l).
Definition in_flights (l : Ledger) : Z := msum (λ row : Row, one_if (bool_decide (sr_state row.1 = InFlight))) (quota_receipts l).

Lemma count_live_ids l st :
  live_state st = true →
  Z.of_nat (count_if (state_at l st) (live_ids l)) =
  msum (λ row : Row, one_if (bool_decide (sr_state row.1 = st))) (quota_receipts l).
Proof.
  intros Hst. rewrite <- amount_total. unfold live_ids. generalize (receipt_ids l) as ids.
  induction ids as [|id ids IH]; [done|]. rewrite fmap_cons. cbn [retain zsum]. rewrite <- IH.
  unfold amount, is_live at 1. destruct (quota_receipts l !! id) as [row|] eqn:Hr; [|lia].
  destruct (live_state (sr_state row.1)) eqn:Hlive.
  - rewrite count_cons. unfold state_at at 1. rewrite Hr. unfold one_if. case_bool_decide; lia.
  - rewrite bool_decide_eq_false_2; [cbn; lia|]. intros Heq. congruence.
Qed.

(** Once the aggregates of the affected scopes are recomputed, the recovered ledger is in order. *)
Lemma recovered_ok (l l2 : Ledger) (m : gmap (QuotaScopeKey * Z) (Z * Z)) (aff : gset (QuotaScopeKey * Z)) :
  ledger_ok l → rows_ok l2 → quota_receipts l2 = omap recovered (quota_receipts l) →
  quota_epochs l2 = quota_epochs l → default 0 (quota_epoch_floor l) <= default 0 (quota_epoch_floor l2) →
  (∀ j, quota_refunded_receipts l2 !! j =
     if decide (state_at l Reserved j = true) then (λ row, sr_epoch row.1) <$> quota_receipts l !! j
     else quota_refunded_receipts l !! j) →
  (∀ s e, (s, e) ∈ aff ↔ ∃ id row, quota_receipts l !! id = Some row ∧ is_live row = true ∧ in_scope s e row = true) →
  (∀ s e, (s, e) ∈ elements aff → entry_ok l2 s e (m !! (s, e))) →
  (∀ k, k ∉ elements aff → m !! k = quota_epochs l2 !! k) →
  ledger_ok (set_epochs m l2).
Proof.
  intros Hl Hrows Hr2 He2 Hfl Href Haff Hin Hout.
  assert (Hback : ∀ j row, quota_receipts l2 !! j = Some row → ∃ row0, quota_receipts l !! j = Some row0 ∧
    recovered row0 = Some row ∧ sr_epoch row.1 = sr_epoch row0.1 ∧ ∀ s e, in_scope s e row = in_scope s e row0).
  { intros j row. rewrite Hr2, lookup_omap. destruct (quota_receipts l !! j) as [row0|]; [|done]. cbn. intros Hrec.
    exists row0. split_and!; [done|done|..]; unfold recovered in Hrec; by destruct (sr_state row0.1); simplify_eq. }
  split; [done| | | |].
  - intros s e. cbn. destruct (decide ((s, e) ∈ elements aff)) as [Hs|Hs]; [by apply Hin|].
    rewrite (Hout _ Hs), He2. rewrite elem_of_elements, Haff in Hs.
    assert (∀ id row, quota_receipts l !! id = Some row → is_live row = true → in_scope s e row = false) as Hno.
    { intros id row Hr Hlive. apply not_true_iff_false. intros Hsc. apply Hs. eauto. }
    refine (entry_transfer l _ s e _ _ _ _ (lo_entries l Hl s e)); [by apply recovered_total..|].
    intros Hn id row Hr. destruct (Hback id row Hr) as (row0 & Hr0 & _ & _ & ->). by apply (Hn id).
  - intros s e v. cbn. destruct (decide ((s, e) ∈ elements aff)) as [Hs|Hs].
    + intros _. rewrite elem_of_elements, Haff in Hs. destruct Hs as (id & row & Hr & _ & [_ (t & Ht & <-)]%in_scope_spec).
      by eapply row_key_valid; [apply (lo_rows _ Hl id row Hr)|].
    + rewrite (Hout _ Hs), He2. apply Hl.
  - intros j Hj. cbn in *. rewrite Href in Hj. rewrite Hr2, lookup_omap. destruct (decide _) as [Hs|Hs].
    + unfold state_at in Hs. destruct (quota_receipts l !! j) as [row|]; [|done]. apply bool_decide_eq_true in Hs.
      cbn. unfold recovered. by rewrite Hs.
    + by rewrite (lo_refunded l Hl j Hj).
  - intros j row Hr. cbn. destruct (Hback j row Hr) as (row0 & Hr0 & _ & -> & _).
    pose proof (lo_epochs l Hl j row0 Hr0). lia.
Qed.

(** Recovery of a ledger in order succeeds, whatever it holds. *)
Lemma recover_spec l requested :
  ledger_ok l →
  let epoch := Z.max (default 0 (quota_epoch_floor l)) requested in
  ∃ l', recover_provider_rate_state l requested =
      (l', Ok (mkRecovery epoch (Z.min u64_max (refunds l)) (Z.min u64_max (in_flights l)))) ∧
    ledger_ok l' ∧ quota_epoch_floor l' = Some epoch ∧ quota_migration_fence l' = quota_migration_fence l ∧
    quota_receipts l' = omap recovered (quota_receipts l) ∧
    (∀ j, quota_refunded_receipts l' !! j =
       if decide (state_at l Reserved j = true) then (λ row, sr_epoch row.1) <$> quota_receipts l !! j
       else quota_refunded_receipts l !! j).
Proof.
  intros Hl epoch. set (l1 := set_floor epoch l).
  assert (Hl1 : ledger_ok l1) by (apply floor_ok; [unfold epoch; lia|done]).
  destruct (recover_loop_ok (live_ids l1) l1 epoch 0 0 ∅) as (l2 & aff & Hf & F1 & F2 & F3 & Hrec & Href & Haff).
  { apply Hl1. }
  { apply live_ids_nodup. }
  { intros id (row & Hr & _)%elem_live_ids. split; [by exists row|]. by apply (not_refunded l1 id row). }
  assert (Hr2 : quota_receipts l2 = omap recovered (quota_receipts l)).
  { apply map_eq. intros j. rewrite Hrec, lookup_omap. cbn. destruct (decide (j ∈ live_ids l1)) as [|Hn]; [done|].
    destruct (quota_receipts l !! j) as [row|] eqn:Hj; [|done]. cbn. rewrite recovered_dead; [done|].
    apply not_true_iff_false. intros Hlive. apply Hn, elem_live_ids. eauto. }
  assert (Hrows : rows_ok l2).
  { intros j row. rewrite Hr2, lookup_omap. destruct (quota_receipts l !! j) as [row0|] eqn:Hj; [|done]. cbn.
    apply recovered_row_ok. by apply (lo_rows _ Hl). }
  destruct (write_all_ok (elements aff) l2 Hrows) as (m & Hw & Hin & Hout).
  { intros s e Hse%elem_of_elements. apply Haff in Hse as [?|(id & row & _ & Hr & Hs)]; [set_solver|].
    apply in_scope_spec in Hs as [_ (t & Ht & <-)]. by eapply row_key_valid; [apply (lo_rows _ Hl id row Hr)|]. }
  assert (Href2 : ∀ j, quota_refunded_receipts l2 !! j =
    if decide (state_at l Reserved j = true) then (λ row, sr_epoch row.1) <$> quota_receipts l !! j
    else quota_refunded_receipts l !! j).
  { intros j. rewrite Href. destruct (decide (state_at l Reserved j = true)) as [Hs|Hs].
    - rewrite decide_True; [done|]. split; [|done]. apply elem_live_ids. unfold state_at in Hs.
      destruct (quota_receipts l !! j) as [row|] eqn:Hj; [|done]. apply bool_decide_eq_true in Hs.
      exists row. split; [done|]. unfold is_live. by rewrite Hs.
    - rewrite decide_False; [done|]. by intros [_ ?]. }
  exists (set_epochs m l2). split_and!; [| |cbn; by rewrite F2|done|done|done].
  - unfold recover_provider_rate_state. cbn -[u64_max]. fold epoch. fold l1. rewrite validate_all_ok by done.
    cbn -[u64_max]. replace 0 with (Z.min u64_max 0) by done. rewrite Hf. cbn -[u64_max]. rewrite Hw.
    cbn -[u64_max]. rewrite !count_live_ids by done. done.
  - apply (recovered_ok l l2 m aff); try done; [rewrite F2; cbn; lia|]. intros s e. rewrite Haff. split.
    + intros [?|(id & row & (? & Hr & ?)%elem_live_ids & Hr' & ?)]; [set_solver|]. exists id, row. cbn in *. naive_solver.
    + intros (id & row & Hr & Hlive & Hs). right. exists id, row. split; [|done]. apply elem_live_ids. eauto.
Qed.

(** ** Pruning *)

Lemma active_false l epoch id row :
  epoch_active l epoch = false → quota_receipts l !! id = Some row → sr_epoch row.1 = epoch → is_live row = false.
Proof.
  intros Ha Hr He. apply not_true_iff_false. intros Hlive. apply not_true_iff_false in Ha. apply Ha.
  apply existsb_exists. exists (id, row). rewrite <- list_elem_of_In, elem_of_map_to_list. split; [done|].
  cbn. by rewrite Hlive, He, Z.eqb_refl.
Qed.

Lemma pruned_receipt l epoch id row :
  epoch_active l epoch = false →
  quota_receipts (prune_epoch epoch l) !! id = Some row ↔ quota_receipts l !! id = Some row ∧ sr_epoch row.1 ≠ epoch.
Proof.
  intros Ha. cbn. rewrite map_lookup_filter_Some. cbn. split.
  - intros [Hr Hn]. split; [done|]. intros He. apply Hn. split; [done|]. by eapply active_false.
  - intros [Hr Hn]. split; [done|]. by intros [? _].
Qed.

Lemma pruned_total l epoch part s e :
  part (0, 0) = 0 → e ≠ epoch → total part (prune_epoch epoch l) s e = total part l s e.
Proof.
  intros Hp He. unfold total. cbn. apply msum_filter. intros id row Hr Hn. apply dec_stable in Hn as [Hx _]. cbn in Hx.
  unfold contribution. rewrite (proj2 (Z.eqb_neq _ _)) by congruence. done.
Qed.

Lemma prune_epoch_ok l epoch : ledger_ok l → epoch_active l epoch = false → ledger_ok (prune_epoch epoch l).
Proof.
  intros Hl Ha. pose proof (pruned_receipt l epoch) as Hrec. split.
  - intros id row [Hr _]%Hrec; [by apply Hl|done].
  - intros s e. destruct (decide (e = epoch)) as [->|He]; cbn -[filter].
    + destruct (filter _ (quota_epochs l) !! _) as [v|] eqn:Hv.
      { apply map_lookup_filter_Some in Hv as [_ Hv]. done. }
      intros id row [_ Hr]%Hrec; [|done]. unfold in_scope. by rewrite (proj2 (Z.eqb_neq _ _)).
    + assert (filter (λ p, p.1.2 ≠ epoch) (quota_epochs l) !! (s, e) = quota_epochs l !! (s, e)) as ->.
      { destruct (quota_epochs l !! (s, e)) as [v|] eqn:Hv; [by apply map_lookup_filter_Some|].
        apply map_lookup_filter_None. by left. }
      refine (entry_transfer l _ s e _ _ _ _ (lo_entries l Hl s e)); [by apply pruned_total..|].
      intros Hn id row [Hr _]%Hrec; [by apply (Hn id)|done].
  - intros s e v [Hv _]%map_lookup_filter_Some. by eapply lo_keys.
  - intros id [x [Hx _]%map_lookup_filter_Some]. destruct (quota_receipts (prune_epoch epoch l) !! id) as [row|] eqn:Hr; [|done].
    apply Hrec in Hr as [Hr _]; [|done]. rewrite (lo_refunded l Hl id) in Hr by (by exists x). done.
  - intros id row [Hr _]%Hrec; [|done]. by apply (lo_epochs l Hl id).
Qed.

Lemma prune_fold_ok es s : ledger_ok s.1 → ledger_ok (foldl prune_one s es).1.
Proof.
  revert s. induction es as [|e es IH]; intros s Hs; [done|]. cbn. apply IH. unfold prune_one.
  destruct (epoch_active s.1 e) eqn:Ha; [done|]. by apply prune_epoch_ok.
Qed.

Lemma prune_value l before :
  ledger_ok l →
  prune_provider_rate_epochs l before =
  ((foldl prune_one (l, 0) (prune_candidates l before)).1, Ok (foldl prune_one (l, 0) (prune_candidates l before)).2).
Proof.
  intros Hl. unfold prune_provider_rate_epochs. rewrite validate_all_ok by done. cbn.
  by destruct (foldl prune_one (l, 0) _).
Qed.

(** ** Migration and erasure *)

Lemma fence_ok l now : ledger_ok l → ledger_ok (install_current_quota_migration_fence l now).1.
Proof.
  intros Hl. unfold install_current_quota_migration_fence. destruct (ensure _ _) as [[]|]; cbn; [|done].
  destruct Hl as [H1 H2 H3 H4 H5]. split; try done. intros id row Hr. cbn.
  specialize (H5 id row Hr). destruct (quota_epoch_floor l); cbn in *; lia.
Qed.

Definition gone (erased : string → bool) (k : QuotaScopeKey) : bool :=
  match sk_kind k with Cgroup => erased (sk_id k) | Provider => false end.

(** The scopes an erasure deletes from a receipt come after those it keeps. *)
Definition erases_leaves (erased : string → bool) (l : Ledger) : Prop :=
  ∀ id row, quota_receipts l !! id = Some row → retain (λ s, negb (gone erased (qs_key s))) row.2 `prefix_of` row.2.

Lemma check_order_app id n ss ss' : check_order id n (ss ++ ss') = Ok tt → check_order id n ss = Ok tt.
Proof.
  revert n. induction ss as [|s ss IH]; intros n; [done|]. cbn [app check_order]. rewrite !bind_unit. naive_solver.
Qed.

Lemma erased_row_ok erased id row :
  row_ok id row → retain (λ s, negb (gone erased (qs_key s))) row.2 `prefix_of` row.2 →
  row_ok id (row.1, retain (λ s, negb (gone erased (qs_key s))) row.2).
Proof.
  destruct row as [r ss]. intros [H1 H2 H3 H4 H5] Hp. cbn [fst snd] in *. split; try done; cbn [fst snd].
  - apply scopes_checked in H2 as (_ & Hf & Hn & Ho). cbn [fst snd] in *. apply load_scopes_intro; cbn [fst snd].
    + apply Forall_forall. intros s [Hs _]%elem_of_retain. rewrite Forall_forall in Hf. auto.
    + destruct ss as [|s ss]; [done|]. cbn [check_order] in Ho. rewrite !bind_unit in Ho.
      destruct Ho as (_ & _ & Hk & _). cbn in Hk. apply ensure_Ok, bool_decide_eq_true in Hk. cbn. unfold gone at 1. by rewrite Hk.
    + destruct Hp as [k Hk]. rewrite Hk in Ho. by eapply check_order_app.
  - destruct Hp as [k Hk]. rewrite Hk, fmap_app in H3. by apply NoDup_app in H3 as [H3 _].
Qed.

Lemma find_retain (P : StoredQuotaScope → bool) scope ss :
  (∀ s, qs_key s = scope → P s = true) → find_first (has_key scope) (retain P ss) = find_first (has_key scope) ss.
Proof.
  intros HP. induction ss as [|s ss IH]; [done|]. cbn. unfold has_key at 2. case_bool_decide as Hk.
  - rewrite (HP s Hk). cbn. unfold has_key. by rewrite bool_decide_eq_true_2.
  - destruct (P s); [|done]. cbn. unfold has_key at 1. by rewrite bool_decide_eq_false_2.
Qed.

Lemma erase_in_scope erased row s e :
  in_scope s e (row.1, retain (λ t, negb (gone erased (qs_key t))) row.2) = in_scope s e row && negb (gone erased s).
Proof.
  apply eq_bool_prop_intro. rewrite !Is_true_true, andb_true_iff, !in_scope_spec. cbn. setoid_rewrite elem_of_retain.
  rewrite !negb_true_iff. setoid_rewrite negb_true_iff. naive_solver.
Qed.

Lemma erase_ok erased l : ledger_ok l → erases_leaves erased l → ledger_ok (erase_scopes erased l).
Proof.
  intros Hl Hleaf. fold (gone erased).
  assert (Hrec : ∀ id row, quota_receipts (erase_scopes erased l) !! id = Some row → ∃ row0,
    quota_receipts l !! id = Some row0 ∧ row = (row0.1, retain (λ t, negb (gone erased (qs_key t))) row0.2)).
  { intros id row. cbn. rewrite lookup_fmap. destruct (quota_receipts l !! id) as [row0|]; [|done]. cbn.
    intros [= <-]. eauto. }
  split.
  - intros id row (row0 & Hr & ->)%Hrec. apply erased_row_ok; [by apply Hl|by apply (Hleaf id)].
  - intros s e. cbn -[filter]. destruct (gone erased s) eqn:Hg.
    + destruct (filter _ (quota_epochs l) !! _) as [v|] eqn:Hv.
      { apply map_lookup_filter_Some in Hv as [_ Hv]. cbn in Hv. unfold gone in Hg. congruence. }
      intros id row (row0 & _ & ->)%Hrec. by rewrite erase_in_scope, Hg, andb_false_r.
    + match goal with |- entry_ok _ _ _ ?x => assert (x = quota_epochs l !! (s, e)) as -> end.
      { destruct (quota_epochs l !! (s, e)) as [v|] eqn:Hv; [by apply map_lookup_filter_Some|].
        apply map_lookup_filter_None. by left. }
      assert (∀ part, total part (erase_scopes erased l) s e = total part l s e) as Ht.
      { intros part. unfold total. cbn. rewrite msum_fmap. apply msum_ext. intros id row _. unfold contribution. cbn.
        rewrite find_retain; [done|]. intros t Ht. cbn. rewrite Ht. unfold gone in Hg. by rewrite Hg. }
      refine (entry_transfer l _ s e _ _ _ _ (lo_entries l Hl s e)); [by rewrite Ht..|].
      intros Hn id row (row0 & Hr & ->)%Hrec. rewrite erase_in_scope. by rewrite (Hn id row0 Hr).
  - intros s e v [Hv _]%map_lookup_filter_Some. by eapply lo_keys.
  - intros id Hid. cbn in *. rewrite lookup_fmap. by rewrite (lo_refunded l Hl id Hid).
  - intros id row (row0 & Hr & ->)%Hrec. exact (lo_epochs l Hl id row0 Hr).
Qed.

(** ** Histories *)

(** The calls of the ledger.  An erasure carries the test of the scopes it deletes. *)
Inductive LedgerEvent :=
| LeReserve (req : ProviderRateRequest) (cgroups : list CgroupQuotaConstraint)
| LeMark (id : Z)
| LeRefund (id : Z)
| LeRetain (id : Z)
| LeReconcile (id : Z) (requests : option Z) (tokens : Z)
| LeCharge (id requested tokens : Z)
| LeUsage (requested : Z)
| LeRecover (requested : Z)
| LePrune (before : Z)
| LeFence (now : Z)
| LeErase (erased : string → bool).

Definition ledger_exec (l : Ledger) (e : LedgerEvent) : Ledger :=
  match e with
  | LeReserve req cgroups => (reserve_provider_rate_attempts_with_cgroups l req cgroups).1
  | LeMark id => (mark_provider_rate_invoked l id).1
  | LeRefund id => (refund_provider_rate_before_invocation l id).1
  | LeRetain id => (retain_provider_rate_estimate l id).1
  | LeReconcile id requests tokens => (reconcile_provider_rate_inner l id requests tokens).1
  | LeCharge id requested tokens => (charge_provider_rate_tokens l id requested tokens).1
  | LeUsage requested => (provider_rate_usage l requested).1
  | LeRecover requested => (recover_provider_rate_state l requested).1
  | LePrune before => (prune_provider_rate_epochs l before).1
  | LeFence now => (install_current_quota_migration_fence l now).1
  | LeErase erased => erase_scopes erased l
  end.

(** Arguments are of their machine types; scopes are erased from the leaves. *)
Definition event_ok (l : Ledger) (e : LedgerEvent) : Prop :=
  match e with
  | LeReserve req _ => request_u64 req
  | LeReconcile _ requests tokens => opt_u64 requests ∧ is_u64 tokens
  | LeCharge _ _ tokens => is_u64 tokens
  | LeErase erased => erases_leaves erased l
  | _ => True
  end.

Fixpoint history_ok (l : Ledger) (es : list LedgerEvent) : Prop :=
  match es with
  | [] => True
  | e :: es => event_ok l e ∧ history_ok (ledger_exec l e) es
  end.

Lemma exec_ok l e : ledger_ok l → event_ok l e → ledger_ok (ledger_exec l e).
Proof.
  intros Hl He. destruct e; cbn [ledger_exec event_ok] in *.
  - by apply reserve_ok.
  - by apply mark_ok.
  - by apply refund_ok.
  - by apply retain_ok.
  - by apply reconcile_ok; destruct He.
  - by apply charge_ok.
  - rewrite usage_spec by done. apply floor_ok; [lia|done].
  - by destruct (recover_spec l requested Hl) as (l' & -> & Hok & _).
  - rewrite prune_value by done. by apply prune_fold_ok.
  - by apply fence_ok.
  - by apply erase_ok.
Qed.

Lemma ledger_new_ok : ledger_ok ledger_new.
Proof.
  split.
  - intros id row. cbn. by rewrite lookup_empty.
  - intros s e. cbn. rewrite lookup_empty. intros id row. cbn. by rewrite lookup_empty.
  - intros s e v. cbn. by rewrite lookup_empty.
  - intros id _. cbn. by rewrite lookup_empty.
  - intros id row. cbn. by rewrite lookup_empty.
Qed.

Lemma run_ok l es : ledger_ok l → history_ok l es → ledger_ok (foldl ledger_exec l es).
Proof.
  revert l. induction es as [|e es IH]; intros l Hl Hes; [done|]. destruct Hes as [He Hes]. cbn.
  apply IH; [by apply exec_ok|done].
Qed.

(** ** Sums that only reservations increase *)

Section measure.
Variable g : Row → Z.
Hypothesis g_nonneg : ∀ id row, row_ok id row → 0 <= g row.
Hypothesis g_state : ∀ row st, sr_state row.1 ≠ Reconciled → st ≠ Reconciled → g (set_sr_state st row.1, row.2) = g row.
Hypothesis g_reconcile : ∀ id row req tok,
  row_ok id row → sr_state row.1 ≠ Reconciled → 0 <= req <= sr_reserved_requests row.1 → is_u64 tok →
  g (reconcile_row req tok row) <= g row.
Hypothesis g_charge : ∀ id e tok, is_u64 tok → g (charged_row id e tok) <= 0.
Hypothesis g_erase : ∀ id row erased, row_ok id row →
  g (row.1, retain (λ s, negb (gone erased (qs_key s))) row.2) <= g row.

Abbreviation size l := (msum g (quota_receipts l)).

Lemma size_subset l (m : gmap Z Row) : rows_ok l → m ⊆ quota_receipts l → msum g m <= size l.
Proof using g_nonneg.
  intros Hl. assert (map_Forall row_ok (quota_receipts l)) as Hr by done. revert Hr. clear Hl.
  generalize (quota_receipts l) as m2. revert m. refine (map_ind _ _ _).
  - intros m2 Hr _. rewrite msum_empty. apply msum_nonneg. intros id row Hrow. eapply g_nonneg. by apply Hr.
  - intros id row m Hid IH m2 Hr Hsub. assert (m2 !! id = Some row) as H2.
    { eapply lookup_weaken; [apply lookup_insert_eq|done]. }
    rewrite msum_insert by done. rewrite (msum_delete g m2 id row H2).
    assert (msum g m <= msum g (delete id m2)); [|lia]. apply IH; [by apply map_Forall_delete|].
    apply map_subseteq_spec. intros j x Hj. rewrite lookup_delete_ne by (intros ->; congruence).
    eapply lookup_weaken; [|exact Hsub]. by rewrite lookup_insert_ne by (intros ->; congruence).
Qed.

Lemma update_state_size st id l row :
  quota_receipts l !! id = Some row → sr_state row.1 ≠ Reconciled → st ≠ Reconciled →
  size (update_state st id l) = size l.
Proof using g_state.
  intros Hr Hs Hst. unfold update_state. cbn. rewrite (alter_row _ _ _ _ Hr), (msum_update g _ id row) by done.
  rewrite g_state by done. lia.
Qed.

Lemma prune_subset es s : quota_receipts (foldl prune_one s es).1 ⊆ quota_receipts s.1.
Proof using Type.
  revert s. induction es as [|e es IH]; intros s; [done|]. cbn. etrans; [apply IH|]. unfold prune_one.
  destruct (epoch_active s.1 e); [done|]. cbn. apply map_filter_subseteq.
Qed.

Lemma mark_size l id : ledger_ok l → size (mark_provider_rate_invoked l id).1 <= size l.
Proof using g_state.
  intros Hl. destruct (mark_cases l id Hl) as [(r & ->)|(row & Hr & Hs & ->)]; [done|]. cbn -[update_state].
  by rewrite (update_state_size _ id l row) by congruence.
Qed.

Lemma retain_size l id : ledger_ok l → size (retain_provider_rate_estimate l id).1 <= size l.
Proof using g_state.
  intros Hl. destruct (retain_cases l id Hl) as [(r & ->)|(row & Hr & Hs & ->)]; [done|]. cbn -[update_state].
  by rewrite (update_state_size _ id l row) by congruence.
Qed.

Lemma refund_size l id : ledger_ok l → size (refund_provider_rate_before_invocation l id).1 <= size l.
Proof using g_nonneg.
  intros Hl. destruct (refund_cases l id Hl) as [(r & ->)|(row & m & _ & _ & -> & _)]; [done|].
  apply size_subset; [apply Hl|]. apply delete_subseteq.
Qed.

Lemma reconcile_size l id requests tok :
  ledger_ok l → is_u64 tok → opt_u64 requests → size (reconcile_provider_rate_inner l id requests tok).1 <= size l.
Proof using g_reconcile.
  intros Hl Ht Hq. destruct (reconcile_cases l id requests tok Hl Ht Hq) as [(r & ->)|(row & m & Hr & Hv & Hs & -> & _)];
    [done|]. cbn. rewrite (msum_update g _ id row) by done.
  assert (g (reconcile_row (default (sr_reserved_requests row.1) requests) tok row) <= g row); [|lia].
  apply (g_reconcile id); [by apply (lo_rows _ Hl)|by destruct Hs as [-> | ->]|lia|done].
Qed.

Lemma recover_size l requested : ledger_ok l → size (recover_provider_rate_state l requested).1 <= size l.
Proof using g_nonneg g_state.
  intros Hl. destruct (recover_spec l requested Hl) as (l' & -> & _ & _ & _ & Hr & _). cbn. rewrite Hr, msum_omap.
  apply msum_le. intros id row Hrow. unfold recovered. destruct (sr_state row.1) eqn:Hs; try done.
  - apply (g_nonneg id). by apply (lo_rows _ Hl).
  - by rewrite g_state by congruence.
Qed.

Lemma charge_size l id requested tok : ledger_ok l → is_u64 tok → size (charge_provider_rate_tokens l id requested tok).1 <= size l.
Proof using g_charge.
  intros Hl Ht. destruct (charge_cases l id requested tok Hl Ht) as [(e & ->)|[->|(Hid & m & -> & _)]]; [done..|].
  cbn -[charged_row]. rewrite msum_insert by done.
  pose proof (g_charge id (Z.max (default 0 (quota_epoch_floor l)) requested) tok Ht). lia.
Qed.

(** A reservation that a history grants: the ledger it sees and the limits it passes. *)
Definition grants (l : Ledger) (req : ProviderRateRequest) (cs : list CgroupQuotaConstraint) : Prop :=
  let epoch := Z.max (default 0 (quota_epoch_floor l)) (rq_requested_epoch req) in
  let l1 := set_floor epoch l in
  reservable l1 epoch req cs ∧ reserve_outcome l1 epoch req cs = None ∧
  quota_receipts (ledger_exec l (LeReserve req cs)) = <[rq_receipt_id req := reserved_row req epoch cs]> (quota_receipts l).

Lemma measure_step l e :
  ledger_ok l → event_ok l e →
  size (ledger_exec l e) <= size l ∨ ∃ req cs, e = LeReserve req cs ∧ grants l req cs.
Proof using g_nonneg g_state g_reconcile g_charge g_erase.
  intros Hl He. destruct e; cbn [ledger_exec event_ok] in *.
  - destruct (reserve_cases l req cgroups Hl He) as [(e & H)|[(o & H & _)|(H1 & _ & _ & H2 & m & H3 & _)]].
    + left. by rewrite H.
    + left. by rewrite H.
    + right. exists req, cgroups. split; [done|]. split; [done|]. split; [done|]. cbn [ledger_exec]. by rewrite H3.
  - left. by apply mark_size.
  - left. by apply refund_size.
  - left. by apply retain_size.
  - left. by apply reconcile_size; destruct He.
  - left. by apply charge_size.
  - left. by rewrite usage_spec.
  - left. by apply recover_size.
  - left. rewrite prune_value by done. apply size_subset; [apply Hl|]. apply prune_subset.
  - left. unfold install_current_quota_migration_fence. by destruct (ensure _ _) as [[]|].
  - left. cbn. rewrite msum_fmap. apply msum_le. intros id row Hr. apply (g_erase id). by apply (lo_rows _ Hl).
Qed.

(** A bound that every granted reservation keeps is kept. *)
Lemma measure_bounded l es limit :
  ledger_ok l → history_ok l es → size l <= limit →
  (∀ l' req cs, ledger_ok l' → LeReserve req cs ∈ es → grants l' req cs → size l' <= limit →
     size l' + g (reserved_row req (Z.max (default 0 (quota_epoch_floor l')) (rq_requested_epoch req)) cs) <= limit) →
  size (foldl ledger_exec l es) <= limit.
Proof using g_nonneg g_state g_reconcile g_charge g_erase.
  revert l. induction es as [|e es IH]; intros l Hl Hes Hb Hg; [done|]. destruct Hes as [He Hes]. cbn [foldl].
  apply IH; [by apply exec_ok|done| |intros l' req cs Hl' Hin; apply Hg; [done|by right]].
  destruct (measure_step l e Hl He) as [Hle|(req & cs & -> & Hgr)]; [lia|].
  pose proof Hgr as (Hrv & _ & Hrec). rewrite Hrec, msum_insert by exact (rv_new _ _ _ _ Hrv).
  specialize (Hg l req cs Hl (list_elem_of_here _ _) Hgr Hb). lia.
Qed.
End measure.

(** ** The two measures of a limit *)

Definition requests_in (epoch : Z) (row : Row) : Z := (contribution provider_global epoch row).1.

(** The tokens of a receipt up to its estimate, and what it reported beyond it. *)
Definition estimated_in (scope : QuotaScopeKey) (epoch : Z) (row : Row) : Z :=
  if in_scope scope epoch row then Z.min (spent row).2 (sr_reserved_tokens row.1) else 0.
Definition overrun_in (scope : QuotaScopeKey) (epoch : Z) (row : Row) : Z :=
  if in_scope scope epoch row then Z.max 0 ((spent row).2 - sr_reserved_tokens row.1) else 0.
Definition overrun (l : Ledger) (scope : QuotaScopeKey) (epoch : Z) : Z :=
  msum (overrun_in scope epoch) (quota_receipts l).

Lemma spent_u64 id row : row_ok id row → is_u64 (spent row).1 ∧ is_u64 (spent row).2.
Proof.
  intros [_ _ _ [H1 H2] [H3 H4]]. assert (is_u64 0) by (unfold is_u64, u64_max; lia).
  assert (∀ o, opt_u64 o → is_u64 (default 0 o)) by (intros [z|] Ho; cbn; [by apply Ho|done]).
  unfold spent. destruct (sr_state row.1); cbn; auto.
Qed.

Lemma total_split l scope epoch :
  rows_ok l → total snd l scope epoch = msum (estimated_in scope epoch) (quota_receipts l) + overrun l scope epoch.
Proof.
  intros Hl. unfold total, overrun. rewrite <- msum_plus. apply msum_ext. intros id row Hr.
  rewrite (contribution_spec id row scope epoch (Hl _ _ Hr)). unfold estimated_in, overrun_in.
  destruct (in_scope scope epoch row); cbn; lia.
Qed.

Lemma spent_live row : sr_state row.1 ≠ Reconciled → spent row = (sr_reserved_requests row.1, sr_reserved_tokens row.1).
Proof. unfold spent. by destruct (sr_state row.1). Qed.

Lemma reconcile_in_scope s e req tok row : in_scope s e (reconcile_row req tok row) = in_scope s e row.
Proof. unfold in_scope. cbn. f_equal. induction row.2 as [|t ss IH]; [done|]. cbn. by rewrite <- IH. Qed.

Lemma over_limit_false limit used requested :
  limit ≠ 0 → 0 <= requested → over_limit limit used requested = false → used + requested <= limit.
Proof.
  intros Hl Hr. unfold over_limit, sat_sub. rewrite andb_false_iff, negb_false_iff, orb_false_iff, Z.eqb_eq, !Z.ltb_ge.
  lia.
Qed.

(** A reservation that is not denied fits every limit. *)
Lemma outcome_fits l epoch req cs :
  request_u64 req → reserve_outcome l epoch req cs = None →
  (rq_rpm req ≠ 0 → (aggregate l provider_global epoch).1 + rq_estimated_requests req <= rq_rpm req) ∧
  (rq_tpm req ≠ 0 → (aggregate l provider_global epoch).2 + rq_estimated_tokens req <= rq_tpm req) ∧
  (∀ c, c ∈ cs → token_limit c ≠ 0 →
     (aggregate l (cgroup (scope_id c)) epoch).2 + rq_estimated_tokens req <= token_limit c).
Proof.
  intros (_ & _ & _ & [H1 _] & [H2 _]). unfold reserve_outcome, denial.
  destruct (over_limit (rq_rpm req) _ _) eqn:Hr; [done|]. destruct (over_limit (rq_tpm req) _ _) eqn:Ht; [done|].
  destruct (find_first _ _) as [p|] eqn:Hf; [done|]. intros _. rewrite find_first_None, Forall_fmap, Forall_forall in Hf.
  split_and!; [by intros; apply over_limit_false..|]. intros c Hc Hn. specialize (Hf c Hc). cbn in Hf.
  by apply over_limit_false.
Qed.

Lemma reserved_ok l epoch req cs : reservable l epoch req cs → row_ok (rq_receipt_id req) (reserved_row req epoch cs).
Proof. intros [_ _ _ _ (_ & _ & _ & ? & ?) ? ? ?]. by apply reserved_row_ok. Qed.

Lemma requests_bounded es rpm epoch :
  history_ok ledger_new es → 0 < rpm <= u32_max → (∀ req cs, LeReserve req cs ∈ es → rq_rpm req = rpm) →
  total fst (foldl ledger_exec ledger_new es) provider_global epoch <= rpm.
Proof.
  intros Hes Hrpm Hall. apply (measure_bounded (requests_in epoch)).
  - intros id row Hr. by apply (contribution_u64 id).
  - intros row st H1 H2. unfold requests_in. by rewrite state_contribution.
  - intros id row req tok Hr Hs Hreq _. unfold requests_in.
    rewrite reconcile_contribution, (contribution_spec id row _ _ Hr), (spent_live row Hs). case_match; cbn; lia.
  - intros id e tok _. unfold requests_in, contribution. by case_match.
  - intros id row erased _. unfold requests_in, contribution. cbn. by rewrite find_retain by (by intros s ->).
  - apply ledger_new_ok.
  - done.
  - cbn. rewrite msum_empty. lia.
  - intros l req cs Hl Hin (Hrv & Ho & _) Hb. set (ep := Z.max _ _) in *.
    destruct (outcome_fits _ _ _ _ (rv_request _ _ _ _ Hrv) Ho) as [Hfit _].
    rewrite (Hall req cs Hin) in Hfit. specialize (Hfit ltac:(lia)). unfold aggregate in Hfit. cbn [fst] in Hfit.
    change (total fst (set_floor ep l) provider_global ep) with (total fst l provider_global ep) in Hfit.
    unfold requests_in at 2. rewrite (contribution_spec _ _ _ _ (reserved_ok _ _ _ _ Hrv)).
    destruct (in_scope provider_global epoch _) eqn:Hs; [|cbn; lia]. apply in_scope_spec in Hs as [He _]. cbn in He.
    rewrite He in Hfit. change (msum (requests_in epoch) (quota_receipts l)) with (total fst l provider_global epoch).
    change (msum (requests_in epoch) (quota_receipts l) <= rpm) with (total fst l provider_global epoch <= rpm) in Hb.
    cbn -[total]. unfold u32_max, u64_max in *. lia.
Qed.

(** Every reservation against the scope is made under this limit of tokens. *)
Definition limited (scope : QuotaScopeKey) (limit : Z) (es : list LedgerEvent) : Prop :=
  ∀ req cs, LeReserve req cs ∈ es →
    (scope = provider_global → rq_tpm req = limit) ∧
    ∀ c, c ∈ cs → cgroup (scope_id c) = scope → token_limit c = limit.

(** A granted reservation in the scope fits what the aggregate leaves. *)
Lemma grant_fits l epoch req cs scope limit :
  reservable l epoch req cs → reserve_outcome l epoch req cs = None → limit ≠ 0 →
  (scope = provider_global → rq_tpm req = limit) → (∀ c, c ∈ cs → cgroup (scope_id c) = scope → token_limit c = limit) →
  in_scope scope epoch (reserved_row req epoch cs) = true →
  (aggregate l scope epoch).2 + rq_estimated_tokens req <= limit.
Proof.
  intros Hrv Ho Hl Hp Hc [_ (s & Hs & <-)]%in_scope_spec.
  destruct (outcome_fits _ _ _ _ (rv_request _ _ _ _ Hrv) Ho) as (_ & H1 & H2).
  apply elem_reserved in Hs as [Hk|(c & Hin & Hk)]; rewrite Hk in *.
  - specialize (Hp eq_refl). rewrite Hp in H1. by apply H1.
  - specialize (Hc c Hin eq_refl). rewrite <- Hc. apply H2; [done|]. by rewrite Hc.
Qed.

Lemma tokens_bounded es scope limit epoch :
  history_ok ledger_new es → 0 < limit <= u64_max → limited scope limit es →
  msum (estimated_in scope epoch) (quota_receipts (foldl ledger_exec ledger_new es)) <= limit.
Proof.
  intros Hes Hlim Hall. apply (measure_bounded (estimated_in scope epoch)).
  - intros id row Hr. unfold estimated_in. destruct (spent_u64 id row Hr) as [_ [? _]].
    destruct (ro_reserved _ _ Hr) as [_ [? _]]. case_match; lia.
  - intros row st H1 H2. unfold estimated_in. rewrite !spent_live by done. done.
  - intros id row req tok Hr Hs _ _. unfold estimated_in. rewrite reconcile_in_scope, (spent_live row Hs).
    case_match; cbn; lia.
  - intros id e tok [Ht _]. unfold estimated_in. case_match; [|done]. cbn. lia.
  - intros id row erased Hr. unfold estimated_in. rewrite erase_in_scope. destruct (spent_u64 id row Hr) as [_ [? _]].
    destruct (ro_reserved _ _ Hr) as [_ [? _]]. unfold spent in *. cbn [fst] in *.
    destruct (in_scope scope epoch row), (gone erased scope); cbn -[Z.min]; lia.
  - apply ledger_new_ok.
  - done.
  - cbn. rewrite msum_empty. lia.
  - intros l req cs Hl Hin (Hrv & Ho & _) Hb. set (ep := Z.max _ _) in *. destruct (Hall req cs Hin) as [H1 H2].
    unfold estimated_in at 2. destruct (in_scope scope epoch _) eqn:Hs; [|lia].
    pose proof (proj1 (in_scope_spec _ _ _) Hs) as [He _]. cbn in He. rewrite <- He in Hs.
    pose proof (grant_fits _ _ _ _ scope limit Hrv Ho ltac:(lia) H1 H2 Hs) as Hf. unfold aggregate in Hf. cbn [snd] in Hf.
    change (total snd (set_floor ep l) scope ep) with (total snd l scope ep) in Hf.
    rewrite He, (total_split l scope epoch (lo_rows _ Hl)) in Hf.
    assert (0 <= overrun l scope epoch) by (apply msum_nonneg; intros; unfold overrun_in; case_match; lia).
    cbn [spent reserved_row fst snd sr_state sr_reserved_tokens]. lia.
Qed.

(** C6. After any history of calls, erasures and interrupted transactions, the ledger's books
    balance: every stored aggregate is the saturating sum of what the receipts of its scope and epoch
    count for, a scope without an aggregate has no receipts, the audit of the whole ledger passes, and
    reading usage, recovery and pruning therefore never fail. *)
Theorem ledger_exact (es : list LedgerEvent) (Hes : history_ok ledger_new es) :
  let l := foldl ledger_exec ledger_new es in
  (∀ s e, match quota_epochs l !! (s, e) with
          | Some v => v = (Z.min u64_max (total fst l s e), Z.min u64_max (total snd l s e))
          | None => ∀ id row, quota_receipts l !! id = Some row → in_scope s e row = false
          end) ∧
  validate_all_provider_epochs l = Ok tt ∧
  ∀ requested, is_ok (provider_rate_usage l requested).2 = true ∧
    is_ok (recover_provider_rate_state l requested).2 = true ∧ is_ok (prune_provider_rate_epochs l requested).2 = true.
Proof.
  intros l. assert (Hl : ledger_ok l) by (apply run_ok; [apply ledger_new_ok|done]).
  split; [apply (lo_entries l Hl)|]. split; [by apply validate_all_ok|]. intros requested.
  destruct (recover_spec l requested Hl) as (l' & -> & _). by rewrite usage_spec, prune_value.
Qed.

(** C7. If every reservation is made under the same limit of requests, the requests charged in any
    epoch never exceed it, whatever is reconciled, refunded, recovered, pruned or erased.  If every
    reservation against a scope is made under the same limit of tokens, the tokens charged to the scope
    in any epoch exceed it at most by what providers reported beyond the estimates. *)
Theorem quota_limits_respected (es : list LedgerEvent) (rpm : Z) (scope : QuotaScopeKey) (limit epoch : Z)
    (Hes : history_ok ledger_new es) (Hrpm : 0 < rpm <= u32_max) (Hlimit : 0 < limit <= u64_max)
    (Hr : ∀ req cs, LeReserve req cs ∈ es → rq_rpm req = rpm) (Hs : limited scope limit es) :
  let l := foldl ledger_exec ledger_new es in
  total fst l provider_global epoch <= rpm ∧ total snd l scope epoch <= limit + overrun l scope epoch.
Proof.
  intros l. split; [by apply requests_bounded|].
  rewrite total_split by (apply run_ok; [apply ledger_new_ok|done]).
  pose proof (tokens_bounded es scope limit epoch Hes Hlimit Hs). unfold l. lia.
Qed.

(** ** Recovery *)

(** What the receipts that never started count for. *)
Definition reserved_total (part : Z * Z → Z) (l : Ledger) (scope : QuotaScopeKey) (epoch : Z) : Z :=
  msum (λ row, if bool_decide (sr_state row.1 = Reserved) then part (contribution scope epoch row) else 0)
    (quota_receipts l).

Lemma recovered_totals l l' part s e :
  quota_receipts l' = omap recovered (quota_receipts l) →
  total part l' s e = total part l s e - reserved_total part l s e.
Proof.
  intros Hl'. unfold total, reserved_total. rewrite Hl', msum_omap.
  enough (msum (λ row, part (contribution s e row)) (quota_receipts l) =
    msum (λ row, match recovered row with Some y => part (contribution s e y) | None => 0 end +
      (if bool_decide (sr_state row.1 = Reserved) then part (contribution s e row) else 0)) (quota_receipts l)) as Heq
    by (rewrite Heq, msum_plus; lia).
  apply msum_ext. intros id row _. unfold recovered. destruct (sr_state row.1) eqn:Hs; case_bool_decide; try done; try lia.
  rewrite state_contribution by congruence. lia.
Qed.

Lemma recovered_again row row' : recovered row = Some row' → recovered row' = Some row'.
Proof. unfold recovered. destruct (sr_state row.1) eqn:Hs; intros [= <-]; cbn; by rewrite ?Hs. Qed.

(** C22. Recovery after a crash, in any state a history reaches, succeeds; it returns exactly the
    reservations whose provider call never started, each remembered so that it cannot be replayed, keeps
    the full estimate of every call that may have happened, leaves finished receipts alone, and takes
    from each scope and epoch exactly what the returned reservations counted for.  Recovering again
    changes no receipt and reports nothing. *)
Theorem recovery_exact (es : list LedgerEvent) (requested : Z) (Hes : history_ok ledger_new es) :
  let l := foldl ledger_exec ledger_new es in
  let l' := (recover_provider_rate_state l requested).1 in
  (recover_provider_rate_state l requested).2 =
    Ok (mkRecovery (Z.max (default 0 (quota_epoch_floor l)) requested)
          (Z.min u64_max (refunds l)) (Z.min u64_max (in_flights l))) ∧
  (∀ id, quota_receipts l' !! id = quota_receipts l !! id ≫= recovered) ∧
  (∀ id row, quota_receipts l !! id = Some row → sr_state row.1 = Reserved →
     quota_refunded_receipts l' !! id = Some (sr_epoch row.1)) ∧
  (∀ part s e, total part l' s e = total part l s e - reserved_total part l s e) ∧
  ∀ requested', quota_receipts (recover_provider_rate_state l' requested').1 = quota_receipts l' ∧
    (recover_provider_rate_state l' requested').2 =
      Ok (mkRecovery (Z.max (default 0 (quota_epoch_floor l')) requested') 0 0).
Proof.
  intros l l'. assert (Hl : ledger_ok l) by (apply run_ok; [apply ledger_new_ok|done]).
  destruct (recover_spec l requested Hl) as (l1 & Heq & Hl1 & _ & _ & Hr & Href). unfold l'. rewrite Heq. cbn [fst snd].
  assert (Hdead : ∀ id row, quota_receipts l1 !! id = Some row → recovered row = Some row).
  { intros id row. rewrite Hr, lookup_omap. destruct (quota_receipts l !! id) as [row0|]; [|done]. apply recovered_again. }
  split_and!; [done| | | |].
  - intros id. by rewrite Hr, lookup_omap.
  - intros id row Hid Hs. rewrite Href, Hid. rewrite decide_True; [done|]. unfold state_at. rewrite Hid.
    by apply bool_decide_eq_true.
  - intros part s e. by apply recovered_totals.
  - intros requested'. destruct (recover_spec l1 requested' Hl1) as (l2 & -> & _ & _ & _ & Hr2 & _). cbn [fst snd]. split.
    + apply map_eq. intros id. rewrite Hr2, lookup_omap. destruct (quota_receipts l1 !! id) as [row|] eqn:Hid; [|done].
      by apply (Hdead id).
    + assert (∀ id row, quota_receipts l1 !! id = Some row → sr_state row.1 ≠ Reserved ∧ sr_state row.1 ≠ InFlight) as Hn.
      { intros id row Hid. specialize (Hdead id row Hid). unfold recovered in Hdead. destruct (sr_state row.1) eqn:Hs; try done.
        injection Hdead as Hx. by rewrite <- Hx in Hs. }
      unfold refunds, in_flights. rewrite !msum_zero; [done| |]; intros id row Hid;
        by rewrite bool_decide_eq_false_2 by apply (Hn id row Hid).
Qed.

(** ** Retries *)

Lemma reserved_ids requests tokens cs :
  (λ s, sk_id (qs_key s)) <$> drop 1 (reserved_scopes requests tokens cs) = scope_id <$> cs.
Proof.
  change (λ s, sk_id (qs_key s)) with (sk_id ∘ qs_key). rewrite list_fmap_compose, fmap_drop, reserved_keys.
  transitivity (sk_id <$> ((λ c, cgroup (scope_id c)) <$> cs)); [done|]. by rewrite <- list_fmap_compose.
Qed.

Definition reservation_of (row : Row) : ProviderRateReservation :=
  mkReservation (sr_id row.1) (sr_epoch row.1) (sr_reserved_requests row.1) (sr_reserved_tokens row.1)
    (sr_state row.1) ((λ s, sk_id (qs_key s)) <$> drop 1 row.2).

(** The receipt was made for this reservation. *)
Definition matches (row : Row) (req : ProviderRateRequest) (cs : list CgroupQuotaConstraint) : bool :=
  (sr_reserved_requests row.1 =? rq_estimated_requests req) && (sr_reserved_tokens row.1 =? rq_estimated_tokens req)
  && bool_decide ((λ s, sk_id (qs_key s)) <$> drop 1 row.2 = scope_id <$> cs).

(** The checks before the transaction. *)
Definition well_formed (req : ProviderRateRequest) (cs : list CgroupQuotaConstraint) : Prop :=
  rq_estimated_requests req ≠ 0 ∧ check_constraints [] cs = Ok tt ∧ Z.of_nat (length cs) < u32_max.

Lemma reserve_well_formed l req cs l' o :
  reserve_provider_rate_attempts_with_cgroups l req cs = (l', Ok o) → well_formed req cs.
Proof.
  unfold reserve_provider_rate_attempts_with_cgroups, reserve_tx.
  destruct (negb (rq_estimated_requests req =? 0)) eqn:Hz; [|done]. cbn.
  destruct (check_constraints [] cs) as [[]|e] eqn:Hc; [|done]. cbn.
  destruct (Z.of_nat (length cs) <? u32_max) eqn:Hlen; [|done]. intros _.
  rewrite negb_true_iff, Z.eqb_neq in Hz. apply Z.ltb_lt in Hlen. done.
Qed.

Lemma reserve_existing l req cs row :
  ledger_ok l → quota_receipts l !! rq_receipt_id req = Some row → well_formed req cs →
  if matches row req cs then
    reserve_provider_rate_attempts_with_cgroups l req cs =
      (set_floor (Z.max (default 0 (quota_epoch_floor l)) (rq_requested_epoch req)) l, Ok (OutReserved (reservation_of row)))
  else ∃ e, reserve_provider_rate_attempts_with_cgroups l req cs = (l, Err e).
Proof.
  intros Hl Hr (Hz & Hc & Hlen). unfold reserve_provider_rate_attempts_with_cgroups, reserve_tx.
  rewrite (proj2 (Z.eqb_neq _ _) Hz), Hc, (proj2 (Z.ltb_lt _ _) Hlen). cbn. set (l1 := set_floor _ l).
  assert (Hl1 : ledger_ok l1) by (apply floor_ok; [lia|done]).
  rewrite (load_row l1 _ row (lo_rows _ Hl1) Hr). cbn. unfold reserve_again, matches.
  rewrite (ro_scopes _ _ (lo_rows _ Hl1 _ _ Hr)). cbn. rewrite (require_ok l1 _ row Hl1 Hr). cbn.
  destruct ((sr_reserved_requests row.1 =? _) && (sr_reserved_tokens row.1 =? _)); cbn; [|by eexists].
  case_bool_decide; [done|by eexists].
Qed.

(** After a reservation succeeds its receipt is the one it reports. *)
Lemma reserve_receipt l req cs l' r :
  ledger_ok l → request_u64 req → reserve_provider_rate_attempts_with_cgroups l req cs = (l', Ok (OutReserved r)) →
  ∃ row, quota_receipts l' !! rq_receipt_id req = Some row ∧ matches row req cs = true ∧ reservation_of row = r.
Proof.
  intros Hl Hq Heq. pose proof (reserve_well_formed _ _ _ _ _ Heq) as Hw.
  destruct (quota_receipts l !! rq_receipt_id req) as [row|] eqn:Hr.
  - pose proof (reserve_existing l req cs row Hl Hr Hw) as He. destruct (matches row req cs) eqn:Hm.
    + rewrite He in Heq. injection Heq as <- <-. exists row. done.
    + destruct He as [e He]. congruence.
  - destruct (reserve_cases l req cs Hl Hq) as [(e & He)|[(o & He & Ho)|(_ & _ & _ & _ & m & He & _)]].
    + congruence.
    + rewrite He in Heq. injection Heq as <- ->. destruct (Ho r eq_refl). congruence.
    + rewrite He in Heq. injection Heq as <- <-. eexists. cbn. rewrite lookup_insert_eq. split; [done|].
      unfold matches, reservation_of, reserved_row. cbn -[reserved_scopes drop]. rewrite reserved_ids.
      by rewrite !Z.eqb_refl, bool_decide_eq_true_2.
Qed.

Lemma constraints_ids cs cs' :
  scope_id <$> cs' = scope_id <$> cs → check_constraints [] cs = Ok tt → check_constraints [] cs' = Ok tt.
Proof.
  rewrite !check_constraints_spec. intros Heq (Hv & Hnd & _).
  assert (Forall (λ i, validate_quota_scope_key (cgroup i) = Ok tt) (scope_id <$> cs)) as Hi by by apply Forall_fmap.
  split_and!; [|by rewrite Heq|by intros c _ ?%elem_of_nil]. rewrite <- Heq in Hi. by apply Forall_fmap in Hi.
Qed.

(** The checks before the transaction fail without an effect. *)
Lemma reserve_ill_formed l req cs :
  ¬ well_formed req cs → ∃ e, reserve_provider_rate_attempts_with_cgroups l req cs = (l, Err e).
Proof.
  intros Hn. destruct (reserve_provider_rate_attempts_with_cgroups l req cs) as [l' [o|e]] eqn:Heq.
  - by apply reserve_well_formed in Heq.
  - exists e. unfold reserve_provider_rate_attempts_with_cgroups, transact in Heq. repeat case_match; by simplify_eq.
Qed.

(** A reservation can be retried: once an identifier has been granted, reserving it again with
    the same estimates and scopes gives the same reservation, at its original epoch, under whatever
    limits and clock the retry is made, and charges nothing more; reserving it for a different estimate
    or other scopes fails and changes nothing. *)
Theorem reservation_idempotent (es : list LedgerEvent) (req req' : ProviderRateRequest)
    (cs cs' : list CgroupQuotaConstraint) (r : ProviderRateReservation) (Hes : history_ok ledger_new es)
    (Hq : request_u64 req) (Hid : rq_receipt_id req' = rq_receipt_id req) :
  let l := foldl ledger_exec ledger_new es in
  let l1 := (reserve_provider_rate_attempts_with_cgroups l req cs).1 in
  (reserve_provider_rate_attempts_with_cgroups l req cs).2 = Ok (OutReserved r) →
  if (rq_estimated_requests req' =? rq_estimated_requests req) && (rq_estimated_tokens req' =? rq_estimated_tokens req)
     && bool_decide (scope_id <$> cs' = scope_id <$> cs)
  then
    reserve_provider_rate_attempts_with_cgroups l1 req' cs' =
      (set_floor (Z.max (default 0 (quota_epoch_floor l1)) (rq_requested_epoch req')) l1, Ok (OutReserved r))
  else ∃ e, reserve_provider_rate_attempts_with_cgroups l1 req' cs' = (l1, Err e).
Proof.
  intros l l1. assert (Hl : ledger_ok l) by (apply run_ok; [apply ledger_new_ok|done]).
  assert (Hl1 : ledger_ok l1) by by apply reserve_ok. unfold l1 in *.
  destruct (reserve_provider_rate_attempts_with_cgroups l req cs) as [l2 o] eqn:Heq. cbn [fst snd] in *. intros ->.
  destruct (reserve_receipt l req cs l2 r Hl Hq Heq) as (row & Hr & Hm & <-). rewrite <- Hid in Hr.
  destruct (reserve_well_formed _ _ _ _ _ Heq) as (Hz & Hc & Hlen).
  unfold matches in Hm. rewrite !andb_true_iff, !Z.eqb_eq, bool_decide_eq_true in Hm. destruct Hm as [[M1 M2] M3].
  destruct (decide (well_formed req' cs')) as [Hw|Hw].
  - pose proof (reserve_existing l2 req' cs' row Hl1 Hr Hw) as He. unfold matches in He.
    rewrite M1, M2, M3, (Z.eqb_sym (rq_estimated_requests req)), (Z.eqb_sym (rq_estimated_tokens req)) in He.
    rewrite (bool_decide_ext _ (scope_id <$> cs' = scope_id <$> cs)) in He by done. exact He.
  - destruct (_ && _) eqn:Hsame; [|by apply reserve_ill_formed]. exfalso. apply Hw.
    rewrite !andb_true_iff, !Z.eqb_eq, bool_decide_eq_true in Hsame. destruct Hsame as [[S1 S2] S3].
    split; [by rewrite S1|]. split; [by eapply constraints_ids|]. apply (f_equal length) in S3. rewrite !length_fmap in S3. lia.
Qed.

(** ** The life of a receipt *)

(** The changes of state an event may make: [None] is the deletion of the receipt. *)
Definition transition (e : LedgerEvent) (id epoch : Z) (st : ProviderRateReceiptState)
    (next : option ProviderRateReceiptState) : Prop :=
  match st, next with
  | Reserved, Some InFlight => e = LeMark id
  | Reserved, None => e = LeRefund id ∨ ∃ t, e = LeRecover t
  | InFlight, Some Estimated => e = LeRetain id ∨ ∃ t, e = LeRecover t
  | (InFlight | Estimated), Some Reconciled => ∃ requests tokens, e = LeReconcile id requests tokens
  | (Estimated | Reconciled), None => ∃ before, e = LePrune before ∧ epoch < before
  | InFlight, None => False
  | _, Some st' => st' = st
  end.

Definition same_terms (r r' : StoredQuotaReceipt) : Prop :=
  sr_epoch r' = sr_epoch r ∧ sr_reserved_requests r' = sr_reserved_requests r ∧
  sr_reserved_tokens r' = sr_reserved_tokens r.

(** What an event makes of a receipt. *)
Definition lives (e : LedgerEvent) (id : Z) (row : Row) (o : option Row) : Prop :=
  transition e id (sr_epoch row.1) (sr_state row.1) ((λ row', sr_state row'.1) <$> o) ∧
  ∀ row', o = Some row' → same_terms row.1 row'.1.

Lemma lives_same e id row : lives e id row (Some row).
Proof. split; [|by intros row' [= <-]]. cbn. by destruct (sr_state row.1). Qed.

Lemma lives_state e id row st :
  transition e id (sr_epoch row.1) (sr_state row.1) (Some st) → lives e id row (Some (set_sr_state st row.1, row.2)).
Proof. intros Ht. split; [done|]. by intros row' [= <-]. Qed.

Lemma candidate_below l before e : e ∈ prune_candidates l before → e < before.
Proof. unfold prune_candidates. rewrite merge_sort_Permutation, elem_of_elements, elem_of_filter. tauto. Qed.

(** Pruning deletes a receipt only when it is finished and its epoch is among those pruned. *)
Lemma prune_fold_receipt es s id row :
  quota_receipts s.1 !! id = Some row →
  quota_receipts (foldl prune_one s es).1 !! id = Some row ∨
  quota_receipts (foldl prune_one s es).1 !! id = None ∧ is_live row = false ∧ sr_epoch row.1 ∈ es.
Proof.
  revert s. induction es as [|e es IH]; intros s Hr; [by left|]. cbn [foldl].
  assert (quota_receipts (prune_one s e).1 !! id = Some row ∨
    quota_receipts (prune_one s e).1 !! id = None ∧ is_live row = false ∧ sr_epoch row.1 = e) as [Hs|(Hn & Hd & He)].
  { unfold prune_one. destruct (epoch_active s.1 e) eqn:Ha; [by left|]. cbn -[prune_epoch].
    destruct (decide (sr_epoch row.1 = e)) as [He|He].
    - right. split_and!; [|by eapply active_false|done].
      destruct (quota_receipts (prune_epoch e s.1) !! id) as [row'|] eqn:Hr'; [|done].
      apply pruned_receipt in Hr' as [Hr' Hx]; [|done]. congruence.
    - left. by apply pruned_receipt. }
  - destruct (IH _ Hs) as [?|(? & ? & ?)]; [by left|]. right. split_and!; try done. by right.
  - right. split_and!; [|done|rewrite He; by left].
    destruct (quota_receipts (foldl prune_one (prune_one s e) es).1 !! id) as [row'|] eqn:Hr'; [|done].
    rewrite (lookup_weaken _ _ _ _ Hr' (prune_subset es _)) in Hn. done.
Qed.

Lemma lives_alter e id i row st l :
  quota_receipts l !! id = Some row →
  (i = id → transition e id (sr_epoch row.1) (sr_state row.1) (Some st)) →
  lives e id row (quota_receipts (update_state st i l) !! id).
Proof.
  intros Hr Ht. cbn. destruct (decide (i = id)) as [->|Hne].
  - rewrite lookup_alter_eq, Hr. cbn. by apply lives_state, Ht.
  - rewrite lookup_alter_ne, Hr by done. apply lives_same.
Qed.

Lemma recovered_lives t id row : lives (LeRecover t) id row (recovered row).
Proof.
  unfold recovered. destruct (sr_state row.1) eqn:Hs.
  - split; [|done]. rewrite Hs. cbn. eauto.
  - apply lives_state. rewrite Hs. cbn. eauto.
  - apply lives_same.
  - apply lives_same.
Qed.

Lemma exec_lives l e id row :
  ledger_ok l → event_ok l e → quota_receipts l !! id = Some row →
  lives e id row (quota_receipts (ledger_exec l e) !! id).
Proof.
  intros Hl He Hr. destruct e as [req cs|i|i|i|i requests tok|i t tok|t|t|t|t|erased]; cbn [ledger_exec event_ok] in *.
  - destruct (reserve_cases l req cs Hl He) as [(x & ->)|[(o & -> & _)|(Hrv & _ & _ & _ & m & -> & _)]];
      cbn; rewrite ?Hr; [apply lives_same..|]. rewrite lookup_insert_ne, Hr; [apply lives_same|].
    pose proof (rv_new _ _ _ _ Hrv) as Hn. cbn in Hn. intros <-. congruence.
  - destruct (mark_cases l i Hl) as [(x & ->)|(row0 & Hr0 & Hs & ->)]; cbn -[update_state]; [rewrite Hr; apply lives_same|].
    apply lives_alter; [done|]. intros ->. assert (row0 = row) as -> by congruence. by rewrite Hs.
  - destruct (refund_cases l i Hl) as [(x & ->)|(row0 & m & Hr0 & Hs & -> & _)]; cbn; [rewrite Hr; apply lives_same|].
    destruct (decide (i = id)) as [->|]; [|rewrite lookup_delete_ne, Hr by done; apply lives_same].
    rewrite lookup_delete_eq. assert (row0 = row) as -> by congruence. split; [|done]. rewrite Hs. cbn. by left.
  - destruct (retain_cases l i Hl) as [(x & ->)|(row0 & Hr0 & Hs & ->)]; cbn -[update_state]; [rewrite Hr; apply lives_same|].
    apply lives_alter; [done|]. intros ->. assert (row0 = row) as -> by congruence. rewrite Hs. cbn. by left.
  - destruct He as [Hq Ht]. destruct (reconcile_cases l i requests tok Hl Ht Hq) as [(x & ->)|(row0 & m & Hr0 & _ & Hs & -> & _)];
      cbn; [rewrite Hr; apply lives_same|].
    destruct (decide (i = id)) as [->|]; [|rewrite lookup_insert_ne, Hr by done; apply lives_same].
    rewrite lookup_insert_eq. assert (row0 = row) as -> by congruence. split; [|by intros row' [= <-]].
    destruct Hs as [-> | ->]; cbn; eauto.
  - destruct (charge_cases l i t tok Hl He) as [(x & ->)|[->|(Hn & m & -> & _)]]; cbn; rewrite ?Hr; [apply lives_same..|].
    rewrite lookup_insert_ne, Hr; [apply lives_same|]. intros <-. congruence.
  - rewrite usage_spec by done. cbn. rewrite Hr. apply lives_same.
  - destruct (recover_spec l t Hl) as (l' & -> & _ & _ & _ & Hrec & _). cbn. rewrite Hrec, lookup_omap, Hr.
    apply recovered_lives.
  - rewrite prune_value by done. cbn. destruct (prune_fold_receipt (prune_candidates l t) (l, 0) id row Hr)
      as [->|(-> & Hd & Hin)]; [apply lives_same|]. apply candidate_below in Hin. split; [|done].
    unfold is_live in Hd. destruct (sr_state row.1); try done; cbn; eauto.
  - unfold install_current_quota_migration_fence. destruct (ensure _ _) as [[]|]; cbn; rewrite Hr; apply lives_same.
  - cbn. rewrite lookup_fmap, Hr. cbn. split; [|by intros row' [= <-]]. cbn. by destruct (sr_state row.1).
Qed.

Lemma prune_fold_floor es s : quota_epoch_floor (foldl prune_one s es).1 = quota_epoch_floor s.1.
Proof.
  revert s. induction es as [|e es IH]; intros s; [done|]. cbn. rewrite IH. unfold prune_one.
  by destruct (epoch_active s.1 e).
Qed.

Lemma exec_floor l e :
  ledger_ok l → event_ok l e →
  default 0 (quota_epoch_floor l) <= default 0 (quota_epoch_floor (ledger_exec l e)).
Proof.
  intros Hl He. destruct e as [req cs|i|i|i|i requests tok|i t tok|t|t|t|t|erased]; cbn [ledger_exec event_ok] in *.
  - destruct (reserve_cases l req cs Hl He) as [(x & ->)|[(o & -> & _)|(_ & _ & _ & _ & m & -> & _)]]; cbn; lia.
  - by destruct (mark_cases l i Hl) as [(x & ->)|(row0 & Hr0 & Hs & ->)].
  - by destruct (refund_cases l i Hl) as [(x & ->)|(row0 & m & Hr0 & Hs & -> & _)].
  - by destruct (retain_cases l i Hl) as [(x & ->)|(row0 & Hr0 & Hs & ->)].
  - destruct He as [Hq Ht].
    by destruct (reconcile_cases l i requests tok Hl Ht Hq) as [(x & ->)|(row0 & m & _ & _ & _ & -> & _)].
  - destruct (charge_cases l i t tok Hl He) as [(x & ->)|[->|(_ & m & -> & _)]]; cbn; lia.
  - rewrite usage_spec by done. cbn. lia.
  - destruct (recover_spec l t Hl) as (l' & -> & _ & Hf & _). cbn. rewrite Hf. cbn. lia.
  - rewrite prune_value by done. cbn. by rewrite prune_fold_floor.
  - unfold install_current_quota_migration_fence. destruct (ensure _ _) as [[]|]; cbn; [|done].
    destruct (quota_epoch_floor l); cbn; lia.
  - done.
Qed.

Lemma history_snoc l es e :
  history_ok l (es ++ [e]) → history_ok l es ∧ event_ok (foldl ledger_exec l es) e.
Proof. revert l. induction es as [|e' es IH]; intros l; cbn; naive_solver. Qed.

(** A receipt is only ever changed along its life: it is marked invoked from its
    reservation, its estimate is retained or reconciled only once it was invoked, and its epoch and
    estimates never change.  It leaves the ledger by a refund or by recovery while it is merely reserved,
    and by pruning of its epoch once it is finished; a receipt whose provider call may be running is
    never dropped.  The epoch floor never moves back. *)
Theorem receipt_lifecycle (es : list LedgerEvent) (e : LedgerEvent) (id : Z) (row : Row)
    (Hes : history_ok ledger_new (es ++ [e])) :
  let l := foldl ledger_exec ledger_new es in
  let l' := ledger_exec l e in
  default 0 (quota_epoch_floor l) <= default 0 (quota_epoch_floor l') ∧
  (quota_receipts l !! id = Some row →
   transition e id (sr_epoch row.1) (sr_state row.1) ((λ row', sr_state row'.1) <$> quota_receipts l' !! id) ∧
   ∀ row', quota_receipts l' !! id = Some row' → same_terms row.1 row'.1).
Proof.
  intros l l'. destruct (history_snoc _ _ _ Hes) as [Hes' He].
  assert (Hl : ledger_ok l) by (apply run_ok; [apply ledger_new_ok|done]).
  split; [by apply exec_floor|]. intros Hr. by apply exec_lives.
Qed.

(** ** Erasure by tenant *)

(** Below a scope that a tenant's erasure deletes, everything is deleted. *)
Lemma tenant_scope_below tenant scope r :
  tenant_scope tenant scope = true → tenant_scope tenant (scope +:+ "/" +:+ r) = true.
Proof.
  unfold tenant_scope. rewrite !orb_true_iff, !bool_decide_eq_true, !starts_with_spec.
  assert (∀ a b c, (a +:+ b) +:+ c = a +:+ (b +:+ c)) as Happ.
  { intros a b c. induction a as [|x a IH]; [done|]. rewrite !app_cons_string. by rewrite IH. }
  intros [-> |[x ->]]; right; [exists r|exists (x +:+ "/" +:+ r)]; by rewrite ?Happ.
Qed.

(** ** The encoding of counters *)

Definition blob_value (acc : Z) (blob : list Z) : Z := foldl (λ acc b, acc * 256 + b) acc blob.

Lemma blob_value_acc acc blob : blob_value acc blob = acc * 256 ^ Z.of_nat (length blob) + blob_value 0 blob.
Proof.
  revert acc. induction blob as [|b blob IH]; intros acc; [cbn; lia|].
  unfold blob_value in *. cbn [foldl length]. rewrite (IH (acc * 256 + b)), (IH (0 * 256 + b)).
  rewrite Nat2Z.inj_succ, Z.pow_succ_r by lia. lia.
Qed.

Lemma blob_value_range blob : Forall (λ b, 0 <= b < 256) blob → 0 <= blob_value 0 blob < 256 ^ Z.of_nat (length blob).
Proof.
  induction 1 as [|b blob Hb _ IH]; [done|]. change (blob_value 0 (b :: blob)) with (blob_value (0 * 256 + b) blob).
  rewrite blob_value_acc. cbn [length]. rewrite Nat2Z.inj_succ, Z.pow_succ_r by lia. nia.
Qed.

Lemma blob_lt_value a b :
  length a = length b → Forall (λ x, 0 <= x < 256) a → Forall (λ x, 0 <= x < 256) b →
  blob_lt a b = (blob_value 0 a <? blob_value 0 b).
Proof.
  revert b. induction a as [|x a IH]; intros [|y b] Hlen Ha Hb; try done. injection Hlen as Hlen.
  apply Forall_cons in Ha as [Hx Ha]. apply Forall_cons in Hb as [Hy Hb]. cbn [blob_lt].
  change (blob_value 0 (x :: a)) with (blob_value (0 * 256 + x) a).
  change (blob_value 0 (y :: b)) with (blob_value (0 * 256 + y) b). rewrite !(blob_value_acc (0 * 256 + _)).
  pose proof (blob_value_range a Ha). pose proof (blob_value_range b Hb). rewrite Hlen in *.
  destruct (Z.eqb_spec x y) as [->|Hne].
  - rewrite IH by done. apply eq_bool_prop_intro. rewrite !Is_true_true, !Z.ltb_lt. lia.
  - apply eq_bool_prop_intro. rewrite !Is_true_true, !Z.ltb_lt. nia.
Qed.

Lemma byte_step z i j : j = i + 1 → 0 <= i → Z.shiftr z (8 * j) * 256 + Z.land (Z.shiftr z (8 * i)) 255 = Z.shiftr z (8 * i).
Proof.
  intros -> Hi. replace (8 * (i + 1)) with (8 * i + 8) by lia. rewrite <- Z.shiftr_shiftr by lia.
  generalize (Z.shiftr z (8 * i)) as y. intros y. change 255 with (Z.ones 8).
  rewrite Z.land_ones, Z.shiftr_div_pow2 by lia. pose proof (Z.div_mod y 256). change (2 ^ 8) with 256. lia.
Qed.

Lemma u64_blob_value z : is_u64 z → blob_value 0 (u64_blob z) = z.
Proof.
  intros Hz. unfold u64_blob, blob_value. cbn [foldl fmap list_fmap].
  assert (0 * 256 + Z.land (Z.shiftr z (8 * 7)) 255 = Z.shiftr z (8 * 7)) as ->.
  { rewrite <- (byte_step z 7 8) at 2 by lia. f_equal. rewrite (Z.shiftr_div_pow2 z) by lia.
    rewrite Z.div_small; [done|]. unfold is_u64, u64_max in Hz. change (2 ^ (8 * 8)) with 18446744073709551616. lia. }
  rewrite (byte_step z 6), (byte_step z 5), (byte_step z 4), (byte_step z 3), (byte_step z 2), (byte_step z 1),
    (byte_step z 0) by (done || lia). apply Z.shiftr_0_r.
Qed.

Lemma u64_blob_bytes z : Forall (λ b, 0 <= b < 256) (u64_blob z).
Proof.
  apply Forall_fmap, Forall_forall. intros i _. cbn. change 255 with (Z.ones 8). rewrite Z.land_ones by lia.
  apply Z.mod_pos_bound. lia.
Qed.

(** The encoding is read back, and SQLite's order on it is that of the numbers, which the queries on
    epochs rely on. *)
Theorem u64_blob_codec (a b : Z) (Ha : is_u64 a) (Hb : is_u64 b) :
  parse_u64_blob (u64_blob a) = Some a ∧ blob_lt (u64_blob a) (u64_blob b) = (a <? b).
Proof.
  split.
  - unfold parse_u64_blob. rewrite bool_decide_eq_true_2 by done. f_equal. by apply u64_blob_value.
  - rewrite blob_lt_value, !u64_blob_value; auto using u64_blob_bytes.
Qed.

(** ** Concrete histories *)

Definition demo_scopes : list CgroupQuotaConstraint := [mkConstraint "/" 0; mkConstraint "/tenant/a" 1000].
Definition demo_request (id epoch tokens : Z) : ProviderRateRequest := mkRequest id epoch 60 5000 1 tokens.

(** The first call reports more than its estimate, the third does not fit the tenant's limit, the
    fourth is being made when the process stops. *)
Definition demo_history : list LedgerEvent :=
  [LeReserve (demo_request 1 5 300) demo_scopes; LeMark 1; LeReconcile 1 None 450;
   LeReserve (demo_request 2 5 400) demo_scopes; LeReserve (demo_request 3 5 200) demo_scopes;
   LeReserve (demo_request 4 4 100) demo_scopes; LeMark 4; LeErase (tenant_scope "b")].

Lemma demo_request_ok id epoch tokens : 0 <= epoch <= 10 → 0 <= tokens <= 1000 → request_u64 (demo_request id epoch tokens).
Proof. intros He Ht. unfold request_u64, is_u64, is_u32, u64_max, u32_max. cbn. lia. Qed.

#[local] Instance stored_scope_eq_dec : EqDecision StoredQuotaScope.
Proof. solve_decision. Defined.

Lemma erases_leaves_test erased l :
  forallb (λ p : Z * Row, bool_decide (retain (λ s, negb (gone erased (qs_key s))) p.2.2 `prefix_of` p.2.2))
    (map_to_list (quota_receipts l)) = true → erases_leaves erased l.
Proof.
  rewrite forallb_forall. intros H id row Hr. apply elem_of_map_to_list, list_elem_of_In, H in Hr.
  by apply bool_decide_eq_true in Hr.
Qed.

Lemma demo_history_ok : history_ok ledger_new demo_history.
Proof.
  assert (∀ tok, 0 <= tok <= 1000 → is_u64 tok) as Hu by (unfold is_u64, u64_max; lia).
  unfold demo_history. cbn [history_ok event_ok].
  split; [apply demo_request_ok; lia|]. split; [exact I|]. split; [split; [intros z [=]|apply Hu; lia]|].
  split; [apply demo_request_ok; lia|]. split; [apply demo_request_ok; lia|]. split; [apply demo_request_ok; lia|].
  split; [exact I|]. split; [|exact I]. apply erases_leaves_test. vm_compute. reflexivity.
Qed.

Definition demo_ledger : Ledger := foldl ledger_exec ledger_new demo_history.

Lemma ledger_exact_witness :
  quota_epochs demo_ledger !! (cgroup "/tenant/a", 5) = Some (0, 950) ∧
  Z.min u64_max (total snd demo_ledger (cgroup "/tenant/a") 5) = 950 ∧
  validate_all_provider_epochs demo_ledger = Ok tt.
Proof.
  destruct (ledger_exact demo_history demo_history_ok) as (H & Hv & _). fold demo_ledger in H, Hv.
  assert (quota_epochs demo_ledger !! (cgroup "/tenant/a", 5) = Some (0, 950)) as Hq by (vm_compute; reflexivity).
  specialize (H (cgroup "/tenant/a") 5). rewrite Hq in H. apply (f_equal snd) in H. cbn [snd] in H.
  split; [exact Hq|]. split; [symmetry; exact H|exact Hv].
Defined.

Lemma demo_limited : limited (cgroup "/tenant/a") 1000 demo_history.
Proof.
  intros req cs Hin. unfold demo_history in Hin. rewrite !elem_of_cons, elem_of_nil in Hin.
  assert (cs = demo_scopes) as -> by naive_solver. split; [done|].
  intros c Hc. unfold demo_scopes in Hc. rewrite !elem_of_cons, elem_of_nil in Hc.
  destruct Hc as [->|[->|[]]]; [|done]. intros [=].
Qed.

(** The tenant is charged 950 tokens of its 1000, of which 150 were not in an estimate. *)
Lemma quota_limits_respected_witness :
  total fst demo_ledger provider_global 5 <= 60 ∧
  total snd demo_ledger (cgroup "/tenant/a") 5 <= 1000 + overrun demo_ledger (cgroup "/tenant/a") 5 ∧
  overrun demo_ledger (cgroup "/tenant/a") 5 = 150.
Proof.
  destruct (quota_limits_respected demo_history 60 (cgroup "/tenant/a") 1000 5 demo_history_ok) as [H1 H2].
  - split; [reflexivity|discriminate].
  - split; [reflexivity|discriminate].
  - intros req cs Hin. unfold demo_history in Hin. rewrite !elem_of_cons, elem_of_nil in Hin.
    naive_solver.
  - exact demo_limited.
  - split; [exact H1|]. split; [exact H2|]. vm_compute. reflexivity.
Defined.

(** The second reservation was never started; the fourth may have been. *)
Lemma recovery_exact_witness :
  quota_receipts (recover_provider_rate_state demo_ledger 6).1 !! 2 = None ∧
  ((λ row : Row, sr_state row.1) <$> quota_receipts (recover_provider_rate_state demo_ledger 6).1 !! 4) = Some Estimated ∧
  (recover_provider_rate_state demo_ledger 6).2 = Ok (mkRecovery 6 1 1).
Proof.
  destruct (recovery_exact demo_history 6 demo_history_ok) as (H1 & H2 & _). fold demo_ledger in H1, H2.
  split; [rewrite H2; vm_compute; reflexivity|]. split; [rewrite H2; vm_compute; reflexivity|].
  rewrite H1. vm_compute. reflexivity.
Defined.

Lemma reservation_idempotent_witness :
  (reserve_provider_rate_attempts_with_cgroups
     (reserve_provider_rate_attempts_with_cgroups demo_ledger (demo_request 9 5 50) demo_scopes).1
     (mkRequest 9 7 1 1 1 50) demo_scopes).2 = Ok (OutReserved (mkReservation 9 5 1 50 Reserved ["/"; "/tenant/a"])).
Proof.
  pose proof (reservation_idempotent demo_history (demo_request 9 5 50) (mkRequest 9 7 1 1 1 50) demo_scopes demo_scopes
    (mkReservation 9 5 1 50 Reserved ["/"; "/tenant/a"]) demo_history_ok (demo_request_ok 9 5 50 ltac:(lia) ltac:(lia))
    eq_refl) as H.
  cbv zeta in H. fold demo_ledger in H. specialize (H ltac:(vm_compute; reflexivity)).
  cbn [rq_estimated_requests rq_estimated_tokens demo_request] in H. rewrite !Z.eqb_refl, bool_decide_eq_true_2 in H by reflexivity.
  cbn [andb] in H. rewrite H. reflexivity.
Defined.

Lemma receipt_lifecycle_witness :
  transition (LeMark 2) 2 5 Reserved
    ((λ row' : Row, sr_state row'.1) <$> quota_receipts (ledger_exec demo_ledger (LeMark 2)) !! 2) ∧
  ((λ row' : Row, sr_state row'.1) <$> quota_receipts (ledger_exec demo_ledger (LeMark 2)) !! 2) = Some InFlight.
Proof.
  destruct (receipt_lifecycle demo_history (LeMark 2) 2 (reserved_row (demo_request 2 5 400) 5 demo_scopes)) as [_ H].
  - assert (∀ l es e, history_ok l es → event_ok (foldl ledger_exec l es) e → history_ok l (es ++ [e])) as Happ.
    { intros l es e. revert l. induction es as [|x es IH]; intros l; cbn; [done|]. intros [? ?] ?. split; [done|].
      by apply IH. }
    apply Happ; [exact demo_history_ok|exact I].
  - destruct H as [H _]; [vm_compute; reflexivity|]. split; [exact H|]. vm_compute. reflexivity.
Defined.

(** A refunded identifier is meant never to be used for another request.  Pruning its epoch forgets it:
    identifier 1 is reserved again, for more. *)
Example pruned_refund_is_forgotten :
  let l := foldl ledger_exec ledger_new
             [LeReserve (demo_request 1 5 300) []; LeRefund 1; LeReserve (demo_request 1 6 700) []] in
  (reserve_provider_rate_attempts_with_cgroups l (demo_request 1 7 700) []).2 = Err (RefundedReceipt 1) ∧
  (reserve_provider_rate_attempts_with_cgroups (ledger_exec l (LePrune 7)) (demo_request 1 7 700) []).2 =
    Ok (OutReserved (mkReservation 1 7 1 700 Reserved [])).
Proof. vm_compute. done. Qed.
