(* ===== verification/RateLimit.v ===== *)
(** * The provider rate limiter

    Models [crates/kernel/src/rate_limit.rs] and [quota_clock.rs] over the durable ledger.  The admission
    loop is split where other tasks can run: its entry, the top of the loop, the poll that waits for a
    concurrency permit, the reservation, the pruning that follows it, the last checks, the handling of a
    denial and the wait for capacity.  What a step reads from its surroundings (cancellation, membership
    notifications, the clock, a fresh identifier, whether a storage statement fails) is its argument.  A
    future that is dropped is dropped at an await point.  The semaphore and the capacity channel live as
    long as the limiter, so they are never closed. *)

From S2P Require Import Prelude Cgroups QuotaLedger QuotaInv QuotaHistory.
#[local] Open Scope Z_scope.

(** ** Clocks *)

Definition QUOTA_EPOCH_MILLIS : Z := 60000.
Definition quota_epoch (unix_millis : Z) : Z := unix_millis / QUOTA_EPOCH_MILLIS.

(** [SystemQuotaClock::now_unix_millis]: the high-water mark and the observation of the system clock. *)
Definition system_now (last_seen observed : Z) : Z * Z :=
  let observed := Z.min observed u64_max in
  (Z.max last_seen observed, Z.max last_seen observed).

(** ** Data *)

Record RateLimitConfig := mkConfig { cf_rpm : Z; cf_tpm : Z; cf_max_concurrent : Z }.
Definition rate_limit_default : RateLimitConfig := mkConfig 60 100000 3.

Inductive StorageFailure := PriorFailure | LedgerFailure (e : QuotaError) | StatementFailure.

Inductive RateLimitError :=
| RequestExceedsTpm (requested limit : Z)
| RequestExceedsCgroupTpm (scope : string) (requested limit : Z)
| QuotaExhausted (scope : QuotaScopeKey) (dimension : ProviderRateLimitDimension)
    (used requested limit retry_at_unix_ms : Z)
| RateCancelled
| MembershipChanged
| StorageUnavailable (reason : StorageFailure)
| NotInvoked
| AlreadyInvoked.

Record Denials := mkDenials {
  denied_provider_requests : Z;
  denied_provider_tokens : Z;
  denied_cgroup_requests : Z;
  denied_cgroup_tokens : Z;
  denied_migration_fence : Z }.

Record RateLimiter := mkLimiter {
  rl_config : RateLimitConfig;
  rl_permits : Z;
  rl_store : Ledger;
  rl_healthy : bool;
  capacity_changed : Z;
  last_pruned_epoch : Z;
  rl_denied : Denials }.

(** [Semaphore::MAX_PERMITS]. *)
Definition MAX_PERMITS : Z := 2305843009213693951.

Definition capacity (c : RateLimitConfig) : Z :=
  if cf_max_concurrent c =? 0 then MAX_PERMITS else cf_max_concurrent c.

Definition set_store (l : Ledger) (rl : RateLimiter) : RateLimiter :=
  mkLimiter (rl_config rl) (rl_permits rl) l (rl_healthy rl) (capacity_changed rl) (last_pruned_epoch rl) (rl_denied rl).
Definition add_permits (n : Z) (rl : RateLimiter) : RateLimiter :=
  mkLimiter (rl_config rl) (rl_permits rl + n) (rl_store rl) (rl_healthy rl) (capacity_changed rl)
    (last_pruned_epoch rl) (rl_denied rl).
Definition set_unhealthy (rl : RateLimiter) : RateLimiter :=
  mkLimiter (rl_config rl) (rl_permits rl) (rl_store rl) false (capacity_changed rl) (last_pruned_epoch rl) (rl_denied rl).
Definition notify_capacity (rl : RateLimiter) : RateLimiter :=
  mkLimiter (rl_config rl) (rl_permits rl) (rl_store rl) (rl_healthy rl) (wrap64 (capacity_changed rl + 1))
    (last_pruned_epoch rl) (rl_denied rl).
Definition set_pruned (e : Z) (rl : RateLimiter) : RateLimiter :=
  mkLimiter (rl_config rl) (rl_permits rl) (rl_store rl) (rl_healthy rl) (capacity_changed rl)
    (Z.max (last_pruned_epoch rl) e) (rl_denied rl).
Definition set_denied (d : Denials) (rl : RateLimiter) : RateLimiter :=
  mkLimiter (rl_config rl) (rl_permits rl) (rl_store rl) (rl_healthy rl) (capacity_changed rl) (last_pruned_epoch rl) d.

(** Recovery and pruning, then a limiter with all its permits. *)
Definition with_store (c : RateLimitConfig) (l : Ledger) (now : Z) : Ledger * result RateLimitError RateLimiter :=
  match recover_provider_rate_state l (quota_epoch now) with
  | (l, Err e) => (l, Err (StorageUnavailable (LedgerFailure e)))
  | (l, Ok recovery) =>
      match prune_provider_rate_epochs l (effective_epoch recovery) with
      | (l, Err e) => (l, Err (StorageUnavailable (LedgerFailure e)))
      | (l, Ok _) => (l, Ok (mkLimiter c (capacity c) l true 0 (effective_epoch recovery) (mkDenials 0 0 0 0 0)))
      end
  end.

(** A storage operation whose failure, of a statement or of the ledger, poisons the limiter. *)
Definition store_op {A : Type} (fault : bool) (f : Ledger → Ledger * result QuotaError A) (rl : RateLimiter)
    : RateLimiter * result RateLimitError A :=
  if fault then (set_unhealthy rl, Err (StorageUnavailable StatementFailure))
  else
    match f (rl_store rl) with
    | (l, Ok a) => (set_store l rl, Ok a)
    | (l, Err e) => (set_unhealthy (set_store l rl), Err (StorageUnavailable (LedgerFailure e)))
    end.

Definition prune_if_epoch_advanced (fault : bool) (epoch : Z) (rl : RateLimiter)
    : RateLimiter * result RateLimitError unit :=
  if epoch <=? last_pruned_epoch rl then (rl, Ok tt)
  else
    match store_op fault (λ l, prune_provider_rate_epochs l epoch) rl with
    | (rl, Err e) => (rl, Err e)
    | (rl, Ok _) => (set_pruned epoch rl, Ok tt)
    end.

(** [fetch_add] wraps. *)
Definition record_denial (kind : QuotaScopeKind) (dimension : ProviderRateLimitDimension) (rl : RateLimiter) : RateLimiter :=
  let d := rl_denied rl in
  set_denied
    match kind, dimension with
    | _, MigrationFence => mkDenials (denied_provider_requests d) (denied_provider_tokens d) (denied_cgroup_requests d)
                             (denied_cgroup_tokens d) (wrap64 (denied_migration_fence d + 1))
    | Provider, Requests => mkDenials (wrap64 (denied_provider_requests d + 1)) (denied_provider_tokens d)
                              (denied_cgroup_requests d) (denied_cgroup_tokens d) (denied_migration_fence d)
    | Provider, Tokens => mkDenials (denied_provider_requests d) (wrap64 (denied_provider_tokens d + 1))
                            (denied_cgroup_requests d) (denied_cgroup_tokens d) (denied_migration_fence d)
    | Cgroup, Tokens => mkDenials (denied_provider_requests d) (denied_provider_tokens d) (denied_cgroup_requests d)
                          (wrap64 (denied_cgroup_tokens d + 1)) (denied_migration_fence d)
    | Cgroup, Requests => mkDenials (denied_provider_requests d) (denied_provider_tokens d)
                            (wrap64 (denied_cgroup_requests d + 1)) (denied_cgroup_tokens d) (denied_migration_fence d)
    end rl.

(** ** Guards *)

(** A live guard holds a permit and a reservation. *)
Record RateLimitGuard := mkGuard { gd_reservation : ProviderRateReservation; gd_invoked : bool }.

Definition mark_invoked (fault : bool) (rl : RateLimiter) (g : RateLimitGuard)
    : RateLimiter * RateLimitGuard * result RateLimitError unit :=
  if gd_invoked g then (rl, g, Ok tt)
  else
    match store_op fault (λ l, mark_provider_rate_invoked l (pr_id (gd_reservation g))) rl with
    | (rl, Err e) => (rl, g, Err e)
    | (rl, Ok _) => (rl, mkGuard (gd_reservation g) true, Ok tt)
    end.

(** [Drop]: the permit is released last. *)
Definition drop_guard (fault : bool) (rl : RateLimiter) (g : RateLimitGuard) : RateLimiter :=
  let r := gd_reservation g in
  let refundable := negb (gd_invoked g) && bool_decide (pr_state r = Reserved) in
  let '(rl, res) :=
    if refundable then store_op fault (λ l, refund_provider_rate_before_invocation l (pr_id r)) rl
    else store_op fault (λ l, retain_provider_rate_estimate l (pr_id r)) rl in
  let rl := match res with Ok _ => if refundable then notify_capacity rl else rl | Err _ => rl end in
  add_permits 1 rl.

Definition refund (fault : bool) (rl : RateLimiter) (g : RateLimitGuard) : RateLimiter * result RateLimitError unit :=
  if gd_invoked g then (drop_guard fault rl g, Err AlreadyInvoked)
  else
    match store_op fault (λ l, refund_provider_rate_before_invocation l (pr_id (gd_reservation g))) rl with
    | (rl, Err e) => (add_permits 1 rl, Err e)
    | (rl, Ok _) => (add_permits 1 (notify_capacity rl), Ok tt)
    end.

(** [reconcile] and [reconcile_attempts]. *)
Definition reconcile (fault : bool) (actual_requests : option Z) (actual_tokens : Z) (rl : RateLimiter)
    (g : RateLimitGuard) : RateLimiter * result RateLimitError unit :=
  if negb (gd_invoked g) then (drop_guard fault rl g, Err NotInvoked)
  else
    match store_op fault (λ l, reconcile_provider_rate_inner l (pr_id (gd_reservation g)) actual_requests actual_tokens) rl with
    | (rl, Err e) => (add_permits 1 rl, Err e)
    | (rl, Ok _) => (add_permits 1 (notify_capacity rl), Ok tt)
    end.

Definition retain_estimate (fault : bool) (rl : RateLimiter) (g : RateLimitGuard) : RateLimiter * result RateLimitError unit :=
  if negb (gd_invoked g) then (drop_guard fault rl g, Err NotInvoked)
  else
    match store_op fault (λ l, retain_provider_rate_estimate l (pr_id (gd_reservation g))) rl with
    | (rl, Err e) => (add_permits 1 rl, Err e)
    | (rl, Ok _) => (add_permits 1 rl, Ok tt)
    end.


(** [acquire_tokens]: the guard is marked before it is returned, and dropped when that fails. *)
Definition acquire_tokens_return (fault fault_drop : bool) (rl : RateLimiter) (g : RateLimitGuard)
    : RateLimiter * result RateLimitError RateLimitGuard :=
  match mark_invoked fault rl g with
  | (rl, g, Ok _) => (rl, Ok g)
  | (rl, g, Err e) => (drop_guard fault_drop rl g, Err e)
  end.

(** ** Admission *)

Definition ensure_healthy (rl : RateLimiter) : result RateLimitError unit :=
  ensure (rl_healthy rl) (StorageUnavailable PriorFailure).

(** The arguments of [acquire_tokens_with_cgroups_cancellable_inner]; [aa_member] is whether it watches
    the membership of its cgroup. *)
Record AcqArgs := mkArgs {
  aa_requests : Z;
  aa_tokens : Z;
  aa_cgroups : list CgroupQuotaConstraint;
  aa_member : bool;
  aa_wait : bool }.

(** What a step observes. *)
Record Env := mkEnv {
  ev_cancelled : bool;
  ev_changed : bool;
  ev_notified : bool;
  ev_granted : bool;
  ev_now : Z;
  ev_id : Z;
  ev_fault_reserve : bool;
  ev_fault_prune : bool;
  ev_fault_refund : bool }.

(** Where an admission is.  [seen] is the generation its subscription to the capacity channel has seen. *)
Inductive AcqPhase :=
| AcqEntry
| AcqTop (seen : Z)
| AcqSelect (seen : Z)
| AcqPermit (seen : Z)
| AcqReserved (g : RateLimitGuard)
| AcqPruned (g : RateLimitGuard)
| AcqDenied (seen epoch : Z) (scope : QuotaScopeKey) (dimension : ProviderRateLimitDimension) (used requested limit : Z)
| AcqWait (seen deadline : Z)
| AcqDone (r : result RateLimitError RateLimitGuard).

Definition membership_changed (a : AcqArgs) (e : Env) : bool := aa_member a && ev_changed e.

Definition acq_entry (a : AcqArgs) (e : Env) (rl : RateLimiter) : RateLimiter * AcqPhase :=
  if membership_changed a e then (rl, AcqDone (Err MembershipChanged))
  else if (0 <? cf_tpm (rl_config rl)) && (cf_tpm (rl_config rl) <? aa_tokens a) then
    (record_denial Provider Tokens rl, AcqDone (Err (RequestExceedsTpm (aa_tokens a) (cf_tpm (rl_config rl)))))
  else
    match find_first (λ c, (0 <? token_limit c) && (token_limit c <? aa_tokens a)) (aa_cgroups a) with
    | Some c =>
        if membership_changed a e then (rl, AcqDone (Err MembershipChanged))
        else (record_denial Cgroup Tokens rl, AcqDone (Err (RequestExceedsCgroupTpm (scope_id c) (aa_tokens a) (token_limit c))))
    | None =>
        if ev_cancelled e then (rl, AcqDone (Err RateCancelled)) else (rl, AcqTop (capacity_changed rl))
    end.

Definition acq_top (a : AcqArgs) (e : Env) (seen : Z) (rl : RateLimiter) : RateLimiter * AcqPhase :=
  match ensure_healthy rl with
  | Err err => (rl, AcqDone (Err err))
  | Ok _ =>
      if ev_cancelled e then (rl, AcqDone (Err RateCancelled))
      else if membership_changed a e then (rl, AcqDone (Err MembershipChanged))
      else (rl, AcqSelect seen)
  end.

(** One poll of the [select!]: the semaphore hands out a permit when it has one and it is this waiter's
    turn. *)
Definition acq_select (a : AcqArgs) (e : Env) (seen : Z) (rl : RateLimiter) : RateLimiter * AcqPhase :=
  if ev_cancelled e then (rl, AcqDone (Err RateCancelled))
  else if aa_member a && ev_notified e then (rl, AcqDone (Err MembershipChanged))
  else if ev_granted e && (0 <? rl_permits rl) then (add_permits (-1) rl, AcqPermit seen)
  else (rl, AcqSelect seen).

Definition acq_request (a : AcqArgs) (e : Env) (rl : RateLimiter) : ProviderRateRequest :=
  mkRequest (ev_id e) (quota_epoch (ev_now e)) (cf_rpm (rl_config rl)) (cf_tpm (rl_config rl)) (aa_requests a) (aa_tokens a).

Definition acq_permit (a : AcqArgs) (e : Env) (seen : Z) (rl : RateLimiter) : RateLimiter * AcqPhase :=
  if ev_cancelled e then (add_permits 1 rl, AcqDone (Err RateCancelled))
  else if membership_changed a e then (add_permits 1 rl, AcqDone (Err MembershipChanged))
  else
    match store_op (ev_fault_reserve e)
            (λ l, reserve_provider_rate_attempts_with_cgroups l (acq_request a e rl) (aa_cgroups a)) rl with
    | (rl, Err err) => (add_permits 1 rl, AcqDone (Err err))
    | (rl, Ok (OutReserved r)) => (rl, AcqReserved (mkGuard r false))
    | (rl, Ok (OutDenied epoch scope dimension used requested limit)) =>
        (rl, AcqDenied seen epoch scope dimension used requested limit)
    end.

(** The guard owns the permit from here on, and a failure drops it. *)
Definition acq_reserved (e : Env) (g : RateLimitGuard) (rl : RateLimiter) : RateLimiter * AcqPhase :=
  match prune_if_epoch_advanced (ev_fault_prune e) (pr_epoch (gd_reservation g)) rl with
  | (rl, Err err) => (drop_guard (ev_fault_refund e) rl g, AcqDone (Err err))
  | (rl, Ok _) => (rl, AcqPruned g)
  end.

Definition acq_pruned (a : AcqArgs) (e : Env) (g : RateLimitGuard) (rl : RateLimiter) : RateLimiter * AcqPhase :=
  let abandon err :=
    match refund (ev_fault_refund e) rl g with
    | (rl, Err err') => (rl, AcqDone (Err err'))
    | (rl, Ok _) => (rl, AcqDone (Err err))
    end in
  if ev_cancelled e then abandon RateCancelled
  else if membership_changed a e then abandon MembershipChanged
  else (rl, AcqDone (Ok g)).

Definition acq_denied (a : AcqArgs) (e : Env) (seen epoch : Z) (scope : QuotaScopeKey)
    (dimension : ProviderRateLimitDimension) (used requested limit : Z) (rl : RateLimiter) : RateLimiter * AcqPhase :=
  let rl := record_denial (sk_kind scope) dimension rl in
  match prune_if_epoch_advanced (ev_fault_prune e) epoch rl with
  | (rl, Err err) => (add_permits 1 rl, AcqDone (Err err))
  | (rl, Ok _) =>
      let rl := add_permits 1 rl in
      let deadline := Z.min u64_max (Z.min u64_max (epoch + 1) * QUOTA_EPOCH_MILLIS) in
      if negb (aa_wait a) then (rl, AcqDone (Err (QuotaExhausted scope dimension used requested limit deadline)))
      else (rl, AcqWait seen deadline)
  end.

Definition acq_wait (a : AcqArgs) (e : Env) (seen deadline : Z) (rl : RateLimiter) : RateLimiter * AcqPhase :=
  if ev_cancelled e then (rl, AcqDone (Err RateCancelled))
  else if aa_member a && ev_notified e then (rl, AcqDone (Err MembershipChanged))
  else if deadline <=? ev_now e then (rl, AcqTop seen)
  else if negb (capacity_changed rl =? seen) then (rl, AcqTop (capacity_changed rl))
  else (rl, AcqWait seen deadline).

(** [acquire_tokens_with_cgroups_cancellable_inner], one step. *)
Definition acquire_step (a : AcqArgs) (e : Env) (rl : RateLimiter) (p : AcqPhase) : RateLimiter * AcqPhase :=
  match p with
  | AcqEntry => acq_entry a e rl
  | AcqTop seen => acq_top a e seen rl
  | AcqSelect seen => acq_select a e seen rl
  | AcqPermit seen => acq_permit a e seen rl
  | AcqReserved g => acq_reserved e g rl
  | AcqPruned g => acq_pruned a e g rl
  | AcqDenied seen epoch scope dimension used requested limit =>
      acq_denied a e seen epoch scope dimension used requested limit rl
  | AcqWait seen deadline => acq_wait a e seen deadline rl
  | AcqDone _ => (rl, p)
  end.

(** ** Usage *)

Record RateLimitStats := mkStats {
  st_epoch : Z;
  requests_this_minute : Z;
  tokens_this_minute : Z;
  rpm_limit : Z;
  tpm_limit : Z;
  concurrent_available : Z;
  max_concurrent : Z;
  st_reserved : Z;
  st_in_flight : Z;
  st_estimated : Z;
  st_reconciled : Z;
  st_denied : Denials;
  st_healthy : bool }.

Definition try_stats (fault fault_prune : bool) (now : Z) (rl : RateLimiter)
    : RateLimiter * result RateLimitError RateLimitStats :=
  match ensure_healthy rl with
  | Err e => (rl, Err e)
  | Ok _ =>
      match store_op fault (λ l, provider_rate_usage l (quota_epoch now)) rl with
      | (rl, Err e) => (rl, Err e)
      | (rl, Ok (epoch, u)) =>
          match prune_if_epoch_advanced fault_prune epoch rl with
          | (rl, Err e) => (rl, Err e)
          | (rl, Ok _) =>
              let c := rl_config rl in
              (rl, Ok (mkStats epoch (qu_requests u) (qu_tokens u) (cf_rpm c) (cf_tpm c)
                         (if cf_max_concurrent c =? 0 then 0 else Z.land (rl_permits rl) u32_max) (cf_max_concurrent c)
                         (reserved_receipts u) (in_flight_receipts u) (estimated_receipts u) (reconciled_receipts u) (rl_denied rl) true))
          end
      end
  end.

(** A failure is reported as unhealthy and at the limits. *)
Definition stats (fault fault_prune : bool) (now now' : Z) (rl : RateLimiter) : RateLimiter * RateLimitStats :=
  match try_stats fault fault_prune now rl with
  | (rl, Ok s) => (rl, s)
  | (rl, Err _) =>
      let c := rl_config rl in
      (rl, mkStats (quota_epoch now') (cf_rpm c) (cf_tpm c) (cf_rpm c) (cf_tpm c) 0 (cf_max_concurrent c) 0 0 0 0
             (rl_denied rl) false)
  end.

Definition try_is_limited (fault fault_prune : bool) (now : Z) (rl : RateLimiter) : RateLimiter * result RateLimitError bool :=
  match try_stats fault fault_prune now rl with
  | (rl, Err e) => (rl, Err e)
  | (rl, Ok s) =>
      let c := rl_config rl in
      (rl, Ok (((0 <? cf_rpm c) && (cf_rpm c <=? requests_this_minute s))
               || ((0 <? cf_tpm c) && (cf_tpm c <=? tokens_this_minute s))))
  end.

Definition is_limited (fault fault_prune : bool) (now : Z) (rl : RateLimiter) : RateLimiter * bool :=
  if (cf_rpm (rl_config rl) =? 0) && (cf_tpm (rl_config rl) =? 0) then (rl, false)
  else
    match try_is_limited fault fault_prune now rl with
    | (rl, Ok b) => (rl, b)
    | (rl, Err _) => (rl, true)
    end.

Definition try_record_tokens (fault : bool) (id now tokens : Z) (rl : RateLimiter) : RateLimiter * result RateLimitError unit :=
  match ensure_healthy rl with
  | Err e => (rl, Err e)
  | Ok _ => store_op fault (λ l, charge_provider_rate_tokens l id (quota_epoch now) tokens) rl
  end.

Definition record_tokens (fault : bool) (id now tokens : Z) (rl : RateLimiter) : RateLimiter :=
  (try_record_tokens fault id now tokens rl).1.

(** ** The limiter with its callers *)

(** The admissions by caller.  The guard of an admission that returned one is the caller's until it is
    consumed, and the entry goes with it. *)
Record RateWorld := mkRate { rw_limiter : RateLimiter; rw_calls : gmap Z (AcqArgs * AcqPhase) }.

Inductive RateEvent :=
| RwCall (c : Z) (a : AcqArgs)
| RwStep (c : Z) (e : Env)
| RwAbort (c : Z)
| RwInvoke (c : Z) (fault fault_drop : bool)
| RwMark (c : Z) (fault : bool)
| RwRefund (c : Z) (fault : bool)
| RwReconcile (c : Z) (fault : bool) (requests : option Z) (tokens : Z)
| RwRetain (c : Z) (fault : bool)
| RwDrop (c : Z) (fault : bool)
| RwRecord (fault : bool) (id now tokens : Z)
| RwStats (fault fault_prune : bool) (now : Z)
| RwErase (erased : string → bool).

(** Whether a future in this phase is at an await point. *)
Definition droppable (p : AcqPhase) : bool :=
  match p with AcqEntry | AcqSelect _ | AcqWait _ _ | AcqDone (Err _) => true | _ => false end.

(** A caller uses up its guard. *)
Definition consume (w : RateWorld) (c : Z) (f : RateLimiter → RateLimitGuard → RateLimiter) : RateWorld :=
  match rw_calls w !! c with
  | Some (_, AcqDone (Ok g)) => mkRate (f (rw_limiter w) g) (delete c (rw_calls w))
  | _ => w
  end.

Definition rate_exec (w : RateWorld) (ev : RateEvent) : RateWorld :=
  match ev with
  | RwCall c a =>
      match rw_calls w !! c with
      | None => mkRate (rw_limiter w) (<[c := (a, AcqEntry)]> (rw_calls w))
      | Some _ => w
      end
  | RwStep c e =>
      match rw_calls w !! c with
      | Some (a, p) =>
          let '(rl, p') := acquire_step a e (rw_limiter w) p in mkRate rl (<[c := (a, p')]> (rw_calls w))
      | None => w
      end
  | RwAbort c =>
      match rw_calls w !! c with
      | Some (_, p) => if droppable p then mkRate (rw_limiter w) (delete c (rw_calls w)) else w
      | None => w
      end
  | RwInvoke c fault fault_drop =>
      match rw_calls w !! c with
      | Some (a, AcqDone (Ok g)) =>
          let '(rl, r) := acquire_tokens_return fault fault_drop (rw_limiter w) g in
          mkRate rl (<[c := (a, AcqDone r)]> (rw_calls w))
      | _ => w
      end
  | RwMark c fault =>
      match rw_calls w !! c with
      | Some (a, AcqDone (Ok g)) =>
          let '(rl, g', _) := mark_invoked fault (rw_limiter w) g in mkRate rl (<[c := (a, AcqDone (Ok g'))]> (rw_calls w))
      | _ => w
      end
  | RwRefund c fault => consume w c (λ rl g, (refund fault rl g).1)
  | RwReconcile c fault requests tokens => consume w c (λ rl g, (reconcile fault requests tokens rl g).1)
  | RwRetain c fault => consume w c (λ rl g, (retain_estimate fault rl g).1)
  | RwDrop c fault => consume w c (drop_guard fault)
  | RwRecord fault id now tokens => mkRate (record_tokens fault id now tokens (rw_limiter w)) (rw_calls w)
  | RwStats fault fault_prune now => mkRate (try_stats fault fault_prune now (rw_limiter w)).1 (rw_calls w)
  | RwErase erased => mkRate (set_store (erase_scopes erased (rl_store (rw_limiter w))) (rw_limiter w)) (rw_calls w)
  end.
