(* ===== verification/RateInv.v ===== *)
(** * Permits, receipts and guards of the rate limiter

    The invariant that ties the semaphore of the limiter, the live receipts of its ledger and the guards
    its callers hold, kept by every event of a [RateWorld], and what follows: the concurrency bound, that
    no receipt is leaked while the limiter is healthy, that only a failing statement or an ill-formed
    request poisons it, and that an admission with room left is granted. *)

From S2P Require Import Prelude Cgroups QuotaLedger QuotaInv QuotaHistory RateLimit.
#[local] Open Scope Z_scope.

(** ** Live receipts of a ledger *)

(** Whether a live receipt is invoked, and the requests it reserves. *)
Definition live_row (row : Row) : option (bool * Z) :=
  match sr_state row.1 with
  | Reserved => Some (false, sr_reserved_requests row.1)
  | InFlight => Some (true, sr_reserved_requests row.1)
  | Estimated | Reconciled => None
  end.

Definition live (l : Ledger) : gmap Z (bool * Z) := omap live_row (quota_receipts l).

Lemma live_lookup l id : live l !! id = quota_receipts l !! id ≫= live_row.
Proof. apply lookup_omap. Qed.

Lemma live_receipts l l' : quota_receipts l' = quota_receipts l → live l' = live l.
Proof. unfold live. by intros ->. Qed.

Lemma live_update l l' id row :
  quota_receipts l' = <[id := row]> (quota_receipts l) → live l' = partial_alter (λ _, live_row row) id (live l).
Proof.
  intros Hr. apply map_eq. intros j. rewrite live_lookup, Hr. destruct (decide (j = id)) as [->|Hj].
  - by rewrite lookup_insert_eq, lookup_partial_alter_eq.
  - by rewrite lookup_insert_ne, lookup_partial_alter_ne, live_lookup.
Qed.

Lemma live_state_update l st id row :
  quota_receipts l !! id = Some row →
  live (update_state st id l) = partial_alter (λ _, live_row (set_sr_state st row.1, row.2)) id (live l).
Proof. intros Hr. unfold update_state. rewrite (alter_row _ _ _ _ Hr). by apply (live_update l). Qed.

Lemma live_delete l id : live (delete_receipt id l) = delete id (live l).
Proof.
  apply map_eq. intros j. rewrite live_lookup. cbn. destruct (decide (j = id)) as [->|Hj].
  - by rewrite !lookup_delete_eq.
  - by rewrite !lookup_delete_ne, live_lookup.
Qed.

Lemma live_Some l id (b : bool) (n : Z) :
  live l !! id = Some (b, n) →
  ∃ row, quota_receipts l !! id = Some row ∧ sr_state row.1 = (if b then InFlight else Reserved) ∧
    sr_reserved_requests row.1 = n.
Proof.
  rewrite live_lookup. destruct (quota_receipts l !! id) as [row|]; [|done]. cbn. unfold live_row.
  destruct (sr_state row.1) eqn:Hs; try done; intros [= <- <-]; eauto.
Qed.

(** ** The ledger operations on live receipts *)

Lemma live_mark l id n :
  ledger_ok l → live l !! id = Some (false, n) →
  ∃ l', mark_provider_rate_invoked l id = (l', Ok tt) ∧ live l' = <[id := (true, n)]> (live l) ∧ ledger_ok l'.
Proof.
  intros Hl (row & Hr & Hs & Hn)%live_Some. exists (update_state InFlight id l).
  split; [|split].
  - unfold mark_provider_rate_invoked. rewrite (load_live_ok l id row Hl Hr). cbn -[update_state].
    by rewrite bool_decide_eq_true_2.
  - rewrite (live_state_update l _ id row Hr). cbn. by rewrite Hn.
  - apply (update_state_ok l id row); congruence.
Qed.

Lemma live_refund l id n :
  ledger_ok l → live l !! id = Some (false, n) →
  ∃ l', refund_provider_rate_before_invocation l id = (l', Ok tt) ∧ live l' = delete id (live l) ∧ ledger_ok l'.
Proof.
  intros Hl (row & Hr & Hs & Hn)%live_Some. destruct (refund_spec l id row Hl Hr Hs) as (m & -> & Hok).
  eexists. split; [done|]. split; [|done]. rewrite <- live_delete. by apply live_receipts.
Qed.

Lemma live_retain l id n :
  ledger_ok l → live l !! id = Some (true, n) →
  ∃ l', retain_provider_rate_estimate l id = (l', Ok tt) ∧ live l' = delete id (live l) ∧ ledger_ok l'.
Proof.
  intros Hl (row & Hr & Hs & Hn)%live_Some. exists (update_state Estimated id l).
  split; [|split].
  - unfold retain_provider_rate_estimate. rewrite (load_live_ok l id row Hl Hr). cbn -[update_state]. by rewrite Hs.
  - by rewrite (live_state_update l _ id row Hr).
  - apply (update_state_ok l id row); congruence.
Qed.

(** A reconciliation is refused, or it ends the receipt; it is not refused within the reservation. *)
Lemma live_reconcile l id n requests tok :
  ledger_ok l → live l !! id = Some (true, n) → is_u64 tok → opt_u64 requests →
  (∃ e, reconcile_provider_rate_inner l id requests tok = (l, Err e) ∧ ¬ 0 < default n requests <= n) ∨
  ∃ l', reconcile_provider_rate_inner l id requests tok = (l', Ok tt) ∧ live l' = delete id (live l) ∧ ledger_ok l'.
Proof.
  intros Hl (row & Hr & Hs & Hn)%live_Some Ht Hq. destruct (decide (0 < default n requests <= n)) as [Hv|Hv].
  - right. destruct (reconcile_spec l id row requests tok Hl Hr) as (m & -> & Hok); [by rewrite <- Hn in Hv|done|by left|].
    eexists. split; [done|]. split; [|done].
    by rewrite (live_update l _ id (reconcile_row (default (sr_reserved_requests row.1) requests) tok row)).
  - left. destruct (reconcile_cases l id requests tok Hl Ht Hq) as [([[]|e] & He)|(row' & m & Hr' & Hreq & _)].
    + exfalso. revert He. unfold reconcile_provider_rate_inner. rewrite (load_row l id row (lo_rows _ Hl) Hr). cbn.
      rewrite (ro_scopes _ _ (lo_rows _ Hl _ _ Hr)). cbn. rewrite Hn.
      destruct (_ || _) eqn:Hb; [done|]. rewrite orb_false_iff, Z.eqb_neq, Z.ltb_ge in Hb.
      destruct requests as [z|]; cbn in *; [specialize (Hq z eq_refl); unfold is_u64 in Hq; lia|].
      pose proof (ro_reserved _ _ (lo_rows _ Hl _ _ Hr)) as [Hu _]. unfold is_u64 in Hu. lia.
    + eauto.
    + exfalso. apply Hv. rewrite Hr in Hr'. injection Hr' as <-. by rewrite <- Hn.
Qed.

Lemma live_floor e l : live (set_floor e l) = live l.
Proof. done. Qed.

(** A well-formed reservation with a fresh identifier comes to the limits, or to a fenced epoch. *)
Lemma reserve_fresh l req cs :
  ledger_ok l → request_u64 req → quota_receipts l !! rq_receipt_id req = None →
  quota_refunded_receipts l !! rq_receipt_id req = None → well_formed req cs →
  let epoch := Z.max (default 0 (quota_epoch_floor l)) (rq_requested_epoch req) in
  reserve_provider_rate_attempts_with_cgroups l req cs =
    (if bool_decide (epoch ∈ quota_migration_fence l) then
       (set_floor epoch l, Ok (OutDenied epoch provider_global MigrationFence 0 0 0))
     else transact l (reserve_new (set_floor epoch l) epoch req cs)) ∧
  reservable (set_floor epoch l) epoch req cs.
Proof.
  intros Hl Hq Hid Href (Hz & Hc & Hlen) epoch. split.
  - unfold reserve_provider_rate_attempts_with_cgroups, reserve_tx.
    rewrite (proj2 (Z.eqb_neq _ _) Hz), Hc, (proj2 (Z.ltb_lt _ _) Hlen). cbn -[reserve_new].
    unfold load_quota_receipt. cbn -[reserve_new]. rewrite Hid. cbn -[reserve_new].
    unfold quota_receipt_was_refunded. cbn -[reserve_new]. rewrite Href. cbn -[reserve_new]. subst epoch. by case_bool_decide.
  - apply check_constraints_spec in Hc as (Hv & Hnd & _). split; try done. apply floor_ok; [lia|done].
Qed.

(** A reservation with a fresh identifier. *)
Lemma live_reserve l req cs :
  ledger_ok l → request_u64 req → quota_receipts l !! rq_receipt_id req = None →
  quota_refunded_receipts l !! rq_receipt_id req = None →
  match reserve_provider_rate_attempts_with_cgroups l req cs with
  | (l', Err e) => l' = l ∧ ¬ well_formed req cs
  | (l', Ok (OutReserved r)) =>
      ledger_ok l' ∧ pr_id r = rq_receipt_id req ∧ pr_state r = Reserved ∧ live l !! pr_id r = None ∧
      live l' = <[pr_id r := (false, pr_reserved_requests r)]> (live l)
  | (l', Ok (OutDenied _ _ _ _ _ _)) => ledger_ok l' ∧ live l' = live l
  end.
Proof.
  intros Hl Hq Hid Href. pose proof (reserve_cases l req cs Hl Hq) as [(e & He)|[(o & He & Ho)|(_ & _ & _ & _ & m & He & Hok)]];
    rewrite He.
  - split; [done|]. intros Hwf. revert He. destruct (reserve_fresh l req cs Hl Hq Hid Href Hwf) as [-> Hrv].
    case_bool_decide; [done|]. pose proof (reserve_new_spec _ _ req cs Hrv) as Hn. destruct (reserve_outcome _ _ req cs).
    + by rewrite Hn.
    + destruct Hn as (m & -> & _). done.
  - assert (Hl1 : ledger_ok (set_floor (Z.max (default 0 (quota_epoch_floor l)) (rq_requested_epoch req)) l))
      by (apply floor_ok; [lia|done]).
    destruct o as [r|]; [|done]. destruct (Ho r eq_refl). congruence.
  - cbn -[reserved_row live set_epochs]. split; [done|]. split; [done|]. split; [done|]. split.
    + by rewrite live_lookup, Hid.
    + by erewrite (live_update l); [|done].
Qed.

Lemma live_charge l id requested tokens :
  ledger_ok l → is_u64 tokens →
  ledger_ok (charge_provider_rate_tokens l id requested tokens).1 ∧
  live (charge_provider_rate_tokens l id requested tokens).1 = live l ∧
  (quota_receipts l !! id = None → quota_refunded_receipts l !! id = None →
   ∃ l', charge_provider_rate_tokens l id requested tokens = (l', Ok tt)).
Proof.
  intros Hl Ht. split; [by apply charge_ok|]. split.
  - destruct (charge_cases l id requested tokens Hl Ht) as [(e & ->)|[->|(Hid & m & -> & Hok)]]; [done..|].
    erewrite (live_update l) by done. change (delete id (live l) = live l). apply delete_id. by rewrite live_lookup, Hid.
  - intros Hid Href. destruct (charge_cases l id requested tokens Hl Ht) as [(e & He)|[->|(_ & m & -> & _)]]; [|by eexists..].
    exfalso. revert He. unfold charge_provider_rate_tokens, load_quota_receipt. cbn. rewrite Hid. cbn.
    unfold quota_receipt_was_refunded. cbn. rewrite Href. cbn.
    assert (Hl1 : ledger_ok (set_floor (Z.max (default 0 (quota_epoch_floor l)) requested) l)) by (apply floor_ok; [lia|done]).
    rewrite (trusted_ok _ _ _ Hl1 provider_valid). cbn. unfold insert_receipt. cbn. rewrite Hid. cbn.
    by rewrite (write_ok _ _ _ _ _ provider_valid).
Qed.

Lemma live_prune l before :
  ledger_ok l →
  ∃ l' n, prune_provider_rate_epochs l before = (l', Ok n) ∧ ledger_ok l' ∧ live l' = live l.
Proof.
  intros Hl. rewrite prune_value by done. eexists _, _. split; [done|]. split; [by apply prune_fold_ok|].
  apply map_eq. intros id. rewrite !live_lookup. destruct (quota_receipts l !! id) as [row|] eqn:Hr.
  - destruct (prune_fold_receipt (prune_candidates l before) (l, 0) id row Hr) as [-> |(-> & Hd & _)]; [done|].
    cbn. unfold is_live, live_row in *. by destruct (sr_state row.1).
  - destruct (quota_receipts (foldl _ _ _).1 !! id) as [row|] eqn:Hr'; [|done].
    apply (lookup_weaken _ (quota_receipts l)) in Hr'; [congruence|]. apply prune_subset.
Qed.

Lemma live_erase erased l : live (erase_scopes erased l) = live l.
Proof.
  apply map_eq. intros id. rewrite !live_lookup. cbn. rewrite lookup_fmap. by destruct (quota_receipts l !! id).
Qed.

(** ** Limiter operations *)

(** An operation that adds [n] permits and leaves the live receipts [lv]; it keeps the limiter healthy
    when [fine]. *)
Record moved (fine : Prop) (n : Z) (lv : gmap Z (bool * Z)) (rl rl' : RateLimiter) : Prop := {
  mv_config : rl_config rl' = rl_config rl;
  mv_permits : rl_permits rl' = rl_permits rl + n;
  mv_healthy : rl_healthy rl' = true → rl_healthy rl = true;
  mv_fine : fine → rl_healthy rl' = rl_healthy rl;
  mv_ledger : ledger_ok (rl_store rl');
  mv_live : live (rl_store rl') = lv }.

Definition rl_live (rl : RateLimiter) : gmap Z (bool * Z) := live (rl_store rl).

Lemma moved_refl fine rl : ledger_ok (rl_store rl) → moved fine 0 (rl_live rl) rl rl.
Proof. intros Hl. split; try done. lia. Qed.

Lemma moved_unhealthy rl : ledger_ok (rl_store rl) → moved False 0 (rl_live rl) rl (set_unhealthy rl).
Proof. intros Hl. split; try done. cbn. lia. Qed.

Lemma moved_store fine l rl : ledger_ok l → moved fine 0 (live l) rl (set_store l rl).
Proof. intros Hl. split; try done. cbn. lia. Qed.

Lemma moved_weaken (fine fine' : Prop) n lv rl rl' : (fine' → fine) → moved fine n lv rl rl' → moved fine' n lv rl rl'.
Proof. intros Hf []. split; auto. Qed.

Lemma moved_permits fine n k lv rl rl' : moved fine n lv rl rl' → moved fine (n + k) lv rl (add_permits k rl').
Proof. intros []. split; auto. cbn. lia. Qed.

Lemma moved_notify fine n lv rl rl' : moved fine n lv rl rl' → moved fine n lv rl (notify_capacity rl').
Proof. by intros []. Qed.

Lemma moved_denied fine n lv rl rl' kind dimension :
  moved fine n lv rl rl' → moved fine n lv rl (record_denial kind dimension rl').
Proof. by intros []. Qed.

Lemma moved_trans fine fine' n n' lv rl rl1 rl2 :
  moved fine n (rl_live rl1) rl rl1 → moved fine' n' lv rl1 rl2 → moved (fine ∧ fine') (n + n') lv rl rl2.
Proof.
  intros [] []. split; auto; [congruence|lia|]. intros [? ?]. transitivity (rl_healthy rl1); auto.
Qed.

(** A storage operation that fails only by a fault. *)
Lemma store_op_ok {A} fault (f : Ledger → Ledger * result QuotaError A) rl l' x :
  ledger_ok (rl_store rl) → f (rl_store rl) = (l', Ok x) → ledger_ok l' →
  fault = true ∧ store_op fault f rl = (set_unhealthy rl, Err (StorageUnavailable StatementFailure)) ∨
  fault = false ∧ store_op fault f rl = (set_store l' rl, Ok x).
Proof. intros _ Hf _. unfold store_op. destruct fault; [by left|right]. by rewrite Hf. Qed.

Lemma prune_moved fault epoch rl :
  ledger_ok (rl_store rl) →
  let r := prune_if_epoch_advanced fault epoch rl in
  moved (fault = false) 0 (rl_live rl) rl r.1 ∧ (fault = false → r.2 = Ok tt) ∧
  (∀ e, r.2 = Err e → rl_healthy r.1 = false).
Proof.
  intros Hl. unfold prune_if_epoch_advanced. destruct (epoch <=? _); [by split; [apply moved_refl|]|].
  destruct (live_prune (rl_store rl) epoch Hl) as (l' & n & Hp & Hok & Hlive).
  destruct (store_op_ok fault (λ l, prune_provider_rate_epochs l epoch) rl l' n Hl Hp Hok) as [[-> ->]|[-> ->]]; cbn.
  - split; [|done]. eapply moved_weaken; [|by apply moved_unhealthy]. done.
  - split; [|done]. pose proof (moved_store (false = false) l' rl Hok) as []. by split.
Qed.

(** ** Guards *)

(** A guard and its live receipt. *)
Definition guard_ok (lv : gmap Z (bool * Z)) (g : RateLimitGuard) : Prop :=
  pr_state (gd_reservation g) = Reserved ∧
  lv !! pr_id (gd_reservation g) = Some (gd_invoked g, pr_reserved_requests (gd_reservation g)).

(** The guard is used up and its permit returned: its receipt ends, or the limiter is poisoned. *)
Definition closes (fine : Prop) (g : RateLimitGuard) (rl rl' : RateLimiter) : Prop :=
  moved fine 1 (delete (pr_id (gd_reservation g)) (rl_live rl)) rl rl' ∨
  moved fine 1 (rl_live rl) rl rl' ∧ rl_healthy rl' = false.

Lemma closes_weaken (fine fine' : Prop) g rl rl' : (fine' → fine) → closes fine g rl rl' → closes fine' g rl rl'.
Proof.
  intros Hf [Hm|[Hm Hh]]; [left|right; split; [|done]]; by apply (moved_weaken fine).
Qed.

(** A storage operation that ends the receipt, and what is left of its consumer. *)
Lemma closes_op {A} fault (f : Ledger → Ledger * result QuotaError A) rl g (after : RateLimiter → RateLimiter) :
  ledger_ok (rl_store rl) →
  (∃ l' x, f (rl_store rl) = (l', Ok x) ∧ live l' = delete (pr_id (gd_reservation g)) (rl_live rl) ∧ ledger_ok l') →
  (∀ fine n lv rl', moved fine n lv rl rl' → moved fine n lv rl (after rl')) →
  closes (fault = false) g rl
    (match store_op fault f rl with (rl', Err _) => add_permits 1 rl' | (rl', Ok _) => add_permits 1 (after rl') end).
Proof.
  intros Hl (l' & x & Hf & Hlive & Hok) Ha.
  destruct (store_op_ok fault f rl l' x Hl Hf Hok) as [[-> ->]|[-> ->]]; cbn.
  - right. split; [|done]. eapply moved_weaken; [|apply (moved_permits _ 0 1), moved_unhealthy, Hl]. done.
  - left. apply (moved_permits _ 0 1), Ha. rewrite <- Hlive. by apply moved_store.
Qed.

Lemma drop_closes fault rl g :
  ledger_ok (rl_store rl) → guard_ok (rl_live rl) g → closes (fault = false) g rl (drop_guard fault rl g).
Proof.
  intros Hl [Hs Hlive]. unfold drop_guard. rewrite Hs. destruct (gd_invoked g); cbn.
  - destruct (live_retain _ _ _ Hl Hlive) as (l' & Hf & Hd & Hok).
    pose proof (closes_op fault (λ l, retain_provider_rate_estimate l (pr_id (gd_reservation g))) rl g (λ r, r) Hl) as Hc.
    destruct (store_op _ _ _) as [rl' [x|err]]; apply Hc; eauto.
  - destruct (live_refund _ _ _ Hl Hlive) as (l' & Hf & Hd & Hok).
    pose proof (closes_op fault (λ l, refund_provider_rate_before_invocation l (pr_id (gd_reservation g))) rl g notify_capacity Hl) as Hc.
    destruct (store_op _ _ _) as [rl' [x|err]]; apply Hc; eauto using moved_notify.
Qed.

Lemma refund_closes fault rl g :
  ledger_ok (rl_store rl) → guard_ok (rl_live rl) g → closes (fault = false) g rl (refund fault rl g).1.
Proof.
  intros Hl Hg. pose proof Hg as [_ Hlive]. unfold refund. destruct (gd_invoked g) eqn:Hi; [by apply drop_closes|].
  destruct (live_refund _ _ _ Hl Hlive) as (l' & Hf & Hd & Hok).
  pose proof (closes_op fault (λ l, refund_provider_rate_before_invocation l (pr_id (gd_reservation g))) rl g notify_capacity Hl) as Hc.
  destruct (store_op _ _ _) as [rl' [x|err]]; apply Hc; eauto using moved_notify.
Qed.

Lemma retain_closes fault rl g :
  ledger_ok (rl_store rl) → guard_ok (rl_live rl) g → closes (fault = false) g rl (retain_estimate fault rl g).1.
Proof.
  intros Hl Hg. pose proof Hg as [_ Hlive]. unfold retain_estimate. destruct (gd_invoked g) eqn:Hi; [|by apply drop_closes].
  destruct (live_retain _ _ _ Hl Hlive) as (l' & Hf & Hd & Hok). cbn.
  pose proof (closes_op fault (λ l, retain_provider_rate_estimate l (pr_id (gd_reservation g))) rl g (λ r, r) Hl) as Hc.
  destruct (store_op _ _ _) as [rl' [x|err]]; apply Hc; eauto.
Qed.

(** The attempts a caller reports are within those it reserved. *)
Definition attempts_ok (g : RateLimitGuard) (requests : option Z) : Prop :=
  0 < default (pr_reserved_requests (gd_reservation g)) requests <= pr_reserved_requests (gd_reservation g).

Lemma reconcile_closes fault requests tokens rl g :
  ledger_ok (rl_store rl) → guard_ok (rl_live rl) g → is_u64 tokens → opt_u64 requests →
  closes (fault = false ∧ (gd_invoked g = true → attempts_ok g requests)) g rl (reconcile fault requests tokens rl g).1.
Proof.
  intros Hl Hg Ht Hq. pose proof Hg as [_ Hlive]. unfold reconcile. destruct (gd_invoked g) eqn:Hi; cbn.
  - destruct (live_reconcile _ _ _ requests tokens Hl Hlive Ht Hq) as [(e & Hf & Hn)|(l' & Hf & Hd & Hok)].
    + right. unfold store_op. destruct fault; cbn; [|rewrite Hf; cbn]; (split; [|done]).
      * eapply moved_weaken; [|apply (moved_permits _ 0 1), moved_unhealthy, Hl]. by intros [? _].
      * eapply (moved_weaken False); [intros [_ Hv]; apply Hn, Hv; done|].
        apply (moved_permits _ 0 1). pose proof (moved_unhealthy rl Hl) as []. by split.
    + pose proof (closes_op fault (λ l, reconcile_provider_rate_inner l (pr_id (gd_reservation g)) requests tokens) rl g
        notify_capacity Hl) as Hc.
      assert (closes (fault = false) g rl
        (match store_op fault (λ l, reconcile_provider_rate_inner l (pr_id (gd_reservation g)) requests tokens) rl with
         | (rl', Err _) => add_permits 1 rl' | (rl', Ok _) => add_permits 1 (notify_capacity rl') end)) as Hcl
        by (apply Hc; eauto using moved_notify).
      apply (closes_weaken (fault = false)); [tauto|]. by destruct (store_op _ _ _) as [rl' [x|err]].
  - apply (closes_weaken (fault = false)); [tauto|]. by apply drop_closes.
Qed.

Lemma mark_moved fault rl g :
  ledger_ok (rl_store rl) → guard_ok (rl_live rl) g →
  let '(rl', g', r) := mark_invoked fault rl g in
  gd_reservation g' = gd_reservation g ∧ guard_ok (rl_live rl') g' ∧
  moved (fault = false) 0 (<[pr_id (gd_reservation g) := (gd_invoked g', pr_reserved_requests (gd_reservation g))]> (rl_live rl)) rl rl' ∧
  (r = Ok tt ∧ gd_invoked g' = true ∨ g' = g) ∧ (fault = false → r = Ok tt).
Proof.
  intros Hl Hg. pose proof Hg as [Hs Hlive]. unfold mark_invoked. destruct (gd_invoked g) eqn:Hi.
  - split; [done|]. split; [done|]. split; [|by split; [right|]]. rewrite Hi, insert_id by done. by apply moved_refl.
  - destruct (live_mark _ _ _ Hl Hlive) as (l' & Hf & Hd & Hok).
    destruct (store_op_ok fault (λ l, mark_provider_rate_invoked l (pr_id (gd_reservation g))) rl l' tt Hl Hf Hok) as [[-> ->]|[-> ->]].
    + split; [done|]. split; [done|]. rewrite Hi, insert_id by done. split; [|by split; [right|]].
      eapply moved_weaken; [|by apply moved_unhealthy]. done.
    + split; [done|]. cbn. split; [|split; [|by split; [left|]]].
      * split; [done|]. unfold rl_live. cbn. by rewrite Hd, lookup_insert_eq.
      * unfold rl_live. rewrite <- Hd. by apply moved_store.
Qed.

(** ** The invariant *)

Definition guard_of (p : AcqPhase) : option RateLimitGuard :=
  match p with AcqReserved g | AcqPruned g | AcqDone (Ok g) => Some g | _ => None end.

(** The permits an admission holds. *)
Definition holds (p : AcqPhase) : Z :=
  match p with
  | AcqPermit _ | AcqReserved _ | AcqPruned _ | AcqDenied _ _ _ _ _ _ _ | AcqDone (Ok _) => 1
  | _ => 0
  end.

Definition args_ok (a : AcqArgs) : Prop := is_u64 (aa_requests a) ∧ is_u64 (aa_tokens a).
Definition config_ok (c : RateLimitConfig) : Prop := is_u32 (cf_rpm c) ∧ is_u64 (cf_tpm c).

Definition held (w : RateWorld) : Z := msum (λ x : AcqArgs * AcqPhase, holds x.2) (rw_calls w).

Record rate_ok (w : RateWorld) : Prop := {
  ra_config : config_ok (rl_config (rw_limiter w));
  ra_permits : 0 <= rl_permits (rw_limiter w);
  ra_total : rl_permits (rw_limiter w) + held w = capacity (rl_config (rw_limiter w));
  ra_ledger : ledger_ok (rl_store (rw_limiter w));
  ra_args : ∀ c a p, rw_calls w !! c = Some (a, p) → args_ok a;
  ra_guard : ∀ c a p g, rw_calls w !! c = Some (a, p) → guard_of p = Some g → guard_ok (rl_live (rw_limiter w)) g;
  ra_distinct : ∀ c c' a a' p p' g g', rw_calls w !! c = Some (a, p) → rw_calls w !! c' = Some (a', p') →
    guard_of p = Some g → guard_of p' = Some g' → pr_id (gd_reservation g) = pr_id (gd_reservation g') → c = c';
  ra_live : rl_healthy (rw_limiter w) = true → ∀ id x, rl_live (rw_limiter w) !! id = Some x →
    ∃ c a p g, rw_calls w !! c = Some (a, p) ∧ guard_of p = Some g ∧ pr_id (gd_reservation g) = id }.

(** What an event may do to the guard of an admission and to the live receipts. *)
Inductive handover (healthy : bool) (lv lv' : gmap Z (bool * Z)) : option RateLimitGuard → option RateLimitGuard → Prop :=
| HoSame o : lv' = lv → handover healthy lv lv' o o
| HoNew g :
    guard_ok lv' g → lv !! pr_id (gd_reservation g) = None → delete (pr_id (gd_reservation g)) lv' = lv →
    handover healthy lv lv' None (Some g)
| HoMark g g' :
    gd_reservation g' = gd_reservation g → guard_ok lv' g' →
    delete (pr_id (gd_reservation g)) lv' = delete (pr_id (gd_reservation g)) lv → handover healthy lv lv' (Some g) (Some g')
| HoEnd g : lv' = delete (pr_id (gd_reservation g)) lv → handover healthy lv lv' (Some g) None
| HoLeak g : lv' = lv → healthy = false → handover healthy lv lv' (Some g) None.

Record changes (fine : Prop) (rl rl' : RateLimiter) (p p' : AcqPhase) : Prop := {
  ch_config : rl_config rl' = rl_config rl;
  ch_permits : 0 <= rl_permits rl → 0 <= rl_permits rl';
  ch_total : rl_permits rl' + holds p' = rl_permits rl + holds p;
  ch_ledger : ledger_ok (rl_store rl');
  ch_healthy : rl_healthy rl' = true → rl_healthy rl = true;
  ch_fine : fine → rl_healthy rl' = rl_healthy rl;
  ch_guard : handover (rl_healthy rl') (rl_live rl) (rl_live rl') (guard_of p) (guard_of p') }.

Lemma held_after_insert (w : RateWorld) c a p p' rl' :
  rw_calls w !! c = Some (a, p) → held (mkRate rl' (<[c := (a, p')]> (rw_calls w))) = held w - holds p + holds p'.
Proof. intros Hc. unfold held. cbn. rewrite (msum_update _ _ c (a, p)) by done. cbn. lia. Qed.

(** Another admission keeps its guard. *)
Lemma guard_kept lv lv' h o o' g :
  handover h lv lv' o o' → (∀ g0, o = Some g0 → pr_id (gd_reservation g0) ≠ pr_id (gd_reservation g)) →
  guard_ok lv g → guard_ok lv' g.
Proof.
  intros Hh Hn [Hs Hg]. split; [done|]. destruct Hh as [o ->|g' Hg' Hnone Hd|g0 g' Hr Hg' Hd|g0 ->|g0 -> _]; try done.
  - rewrite <- Hg, <- Hd, lookup_delete_ne; [done|]. intros He. congruence.
  - specialize (Hn g0 eq_refl). transitivity (delete (pr_id (gd_reservation g0)) lv' !! pr_id (gd_reservation g));
      [by rewrite lookup_delete_ne|]. by rewrite Hd, lookup_delete_ne.
  - rewrite lookup_delete_ne; [done|]. by apply Hn.
Qed.

(** A receipt that is live afterwards is the admission's own or was live before and is not its own. *)
Lemma live_origin lv lv' o o' id x :
  handover true lv lv' o o' → lv' !! id = Some x →
  (∃ g, o' = Some g ∧ pr_id (gd_reservation g) = id) ∨
  (lv !! id = Some x ∧ ∀ g0, o = Some g0 → pr_id (gd_reservation g0) ≠ id).
Proof.
  intros Hh Hx. destruct Hh as [o ->|g Hg Hnone Hd|g g' Hr Hg' Hd|g ->|g _ Hf]; [| | | |done].
  - destruct o as [g|]; [|right; naive_solver]. destruct (decide (pr_id (gd_reservation g) = id)); [by left; eauto|].
    right. split; [done|]. by intros g0 [= <-].
  - destruct (decide (pr_id (gd_reservation g) = id)) as [|Hn]; [by left; eauto|]. right. split; [|done].
    by rewrite <- Hd, lookup_delete_ne.
  - destruct (decide (pr_id (gd_reservation g) = id)) as [|Hn]; [left; exists g'; by rewrite Hr|]. right.
    split; [|by intros g0 [= <-]].
    transitivity (delete (pr_id (gd_reservation g)) lv !! id); [by rewrite lookup_delete_ne|]. by rewrite <- Hd, lookup_delete_ne.
  - right. apply lookup_delete_Some in Hx as [Hn Hx]. split; [done|]. by intros g0 [= <-].
Qed.

Lemma rate_ok_change fine w c a p rl' p' :
  rate_ok w → rw_calls w !! c = Some (a, p) → changes fine (rw_limiter w) rl' p p' →
  rate_ok (mkRate rl' (<[c := (a, p')]> (rw_calls w))).
Proof.
  intros Hw Hc [Hcfg Hp0 Htot Hled Hh Hf Hg]. set (lv := rl_live (rw_limiter w)) in *. set (lv' := rl_live rl') in *.
  assert (Hid : ∀ g, guard_of p' = Some g → (∃ g0, guard_of p = Some g0 ∧ pr_id (gd_reservation g0) = pr_id (gd_reservation g)) ∨
    guard_of p = None ∧ lv !! pr_id (gd_reservation g) = None).
  { intros g Hg'. destruct Hg as [o| | g0 g' Hr| |]; simplify_eq; eauto. left. eexists. split; [done|]. by rewrite Hr. }
  assert (Hold : ∀ c' a' q g g0, c' ≠ c → rw_calls w !! c' = Some (a', q) → guard_of q = Some g → guard_of p = Some g0 →
    pr_id (gd_reservation g0) ≠ pr_id (gd_reservation g)).
  { intros c' a' q g g0 Hne Hc' Hq Hp He. apply Hne. by eapply (ra_distinct w Hw c' c). }
  split; cbn [rw_limiter rw_calls].
  - rewrite Hcfg. apply Hw.
  - apply Hp0, Hw.
  - rewrite (held_after_insert w c a p), Hcfg by done. pose proof (ra_total w Hw). lia.
  - done.
  - intros c' a' q [[-> [= <- <-]]|[Hne Hc']]%lookup_insert_Some; by eapply (ra_args w Hw).
  - intros c' a' q g [[-> [= <- <-]]|[Hne Hc']]%lookup_insert_Some Hq.
    + fold lv'. remember (guard_of p) as o eqn:Ho. destruct Hg as [o He| | | |]; simplify_eq; try done.
      rewrite He. by eapply (ra_guard w Hw).
    + eapply (guard_kept lv lv'); [done| |by eapply (ra_guard w Hw)]. intros g0 Hp. by eapply Hold.
  - intros c1 c2 a1 a2 p1 p2 g1 g2 [[-> [= <- <-]]|[Hn1 H1]]%lookup_insert_Some [[-> [= <- <-]]|[Hn2 H2]]%lookup_insert_Some Hg1 Hg2 He.
    + done.
    + exfalso. destruct (Hid g1 Hg1) as [(g0 & Hg0 & Hi)|[Hg0 Hi]].
      * eapply (Hold c2 a2 p2 g2 g0); try done. congruence.
      * pose proof (ra_guard w Hw c2 a2 p2 g2 H2 Hg2) as [_ Hl]. unfold lv in Hi. congruence.
    + exfalso. destruct (Hid g2 Hg2) as [(g0 & Hg0 & Hi)|[Hg0 Hi]].
      * eapply (Hold c1 a1 p1 g1 g0); try done. congruence.
      * pose proof (ra_guard w Hw c1 a1 p1 g1 H1 Hg1) as [_ Hl]. unfold lv in Hi. congruence.
    + by eapply (ra_distinct w Hw).
  - intros Hh' id x Hx. fold lv' in Hx.
    rewrite Hh' in Hg. destruct (live_origin lv lv' _ _ id x Hg Hx) as [(g & Hg' & Hi)|[Hlv Hne]].
    { exists c, a, p', g. by rewrite lookup_insert_eq. }
    destruct (ra_live w Hw (Hh Hh') id x Hlv) as (c' & a' & q & g & Hc' & Hq & Hi).
    exists c', a', q, g. rewrite lookup_insert_ne; [done|]. intros <-. rewrite Hc in Hc'. injection Hc' as <- <-.
    by apply (Hne g).
Qed.

(** ** Steps of an admission *)

Lemma moved_changes fine n lv rl rl' p p' :
  moved fine n lv rl rl' → holds p' + n = holds p → 0 <= n →
  handover (rl_healthy rl') (rl_live rl) lv (guard_of p) (guard_of p') → changes fine rl rl' p p'.
Proof. intros [] Hn H0 Hg. split; auto; [lia|lia|]. unfold rl_live at 2. by rewrite mv_live0. Qed.

(** Neither guard nor receipts change. *)
Lemma quiet_changes fine n rl rl' p p' :
  moved fine n (rl_live rl) rl rl' → holds p' + n = holds p → 0 <= n → guard_of p = None → guard_of p' = None →
  changes fine rl rl' p p'.
Proof. intros Hm Hn H0 H1 H2. eapply moved_changes; [done..|]. rewrite H1, H2. by apply HoSame. Qed.

Lemma closes_changes fine g rl rl' p p' :
  closes fine g rl rl' → guard_of p = Some g → holds p = 1 → guard_of p' = None → holds p' = 0 → changes fine rl rl' p p'.
Proof.
  intros [Hm|[Hm Hh]] Hg Hp Hg' Hp'; (eapply moved_changes; [done|lia|lia|]); rewrite Hg, Hg'.
  - by apply HoEnd.
  - by apply HoLeak.
Qed.

(** The identifier of a new receipt is fresh and the clock a [u64]. *)
Definition env_ok (rl : RateLimiter) (e : Env) : Prop :=
  is_u64 (ev_now e) ∧ quota_receipts (rl_store rl) !! ev_id e = None ∧ quota_refunded_receipts (rl_store rl) !! ev_id e = None.

Definition env_fine (e : Env) : Prop :=
  ev_fault_reserve e = false ∧ ev_fault_prune e = false ∧ ev_fault_refund e = false.

(** A request the ledger accepts: some request, and distinct valid scopes. *)
Definition args_fine (a : AcqArgs) : Prop :=
  aa_requests a ≠ 0 ∧ check_constraints [] (aa_cgroups a) = Ok tt ∧ Z.of_nat (length (aa_cgroups a)) < u32_max.

Lemma quota_epoch_u64 now : is_u64 now → is_u64 (quota_epoch now).
Proof.
  unfold is_u64, quota_epoch, QUOTA_EPOCH_MILLIS. intros [H0 H1]. split; [by apply Z.div_pos|].
  etrans; [|exact H1]. apply Z.div_le_upper_bound; lia.
Qed.

Lemma acq_entry_changes a e rl : ledger_ok (rl_store rl) → changes True rl (acq_entry a e rl).1 AcqEntry (acq_entry a e rl).2.
Proof.
  intros Hl. unfold acq_entry. repeat case_match;
    (apply (quiet_changes _ 0); [|done..]); try apply moved_denied; by apply moved_refl.
Qed.

Lemma acq_top_changes a e seen rl :
  ledger_ok (rl_store rl) → changes True rl (acq_top a e seen rl).1 (AcqTop seen) (acq_top a e seen rl).2.
Proof.
  intros Hl. unfold acq_top. repeat case_match; (apply (quiet_changes _ 0); [|done..]); by apply moved_refl.
Qed.

Lemma acq_wait_changes a e seen deadline rl :
  ledger_ok (rl_store rl) → changes True rl (acq_wait a e seen deadline rl).1 (AcqWait seen deadline) (acq_wait a e seen deadline rl).2.
Proof.
  intros Hl. unfold acq_wait. repeat case_match; (apply (quiet_changes _ 0); [|done..]); by apply moved_refl.
Qed.

Lemma acq_select_changes a e seen rl :
  ledger_ok (rl_store rl) → changes True rl (acq_select a e seen rl).1 (AcqSelect seen) (acq_select a e seen rl).2.
Proof.
  intros Hl. unfold acq_select.
  destruct (ev_cancelled e); [|destruct (aa_member a && _); [|destruct (ev_granted e && _) eqn:Hp]];
    try (apply (quiet_changes _ 0); [by apply moved_refl|done..]).
  apply andb_true_iff in Hp as [_ Hp%Z.ltb_lt]. split; try done; cbn; [lia|lia|by apply HoSame].
Qed.

Lemma acq_permit_changes a e seen rl :
  ledger_ok (rl_store rl) → args_ok a → config_ok (rl_config rl) → env_ok rl e →
  changes (env_fine e ∧ args_fine a) rl (acq_permit a e seen rl).1 (AcqPermit seen) (acq_permit a e seen rl).2.
Proof.
  intros Hl [Ha1 Ha2] [Hc1 Hc2] (Hnow & Hid & Href). unfold acq_permit.
  destruct (ev_cancelled e); [|destruct (membership_changed a e)];
    [by apply (quiet_changes _ 1); [apply (moved_permits _ 0 1), moved_refl|..]..|].
  unfold store_op. destruct (ev_fault_reserve e) eqn:Hf.
  { apply (quiet_changes _ 1); [|done..]. eapply moved_weaken; [|apply (moved_permits _ 0 1), moved_unhealthy, Hl].
    intros [[? _] _]. congruence. }
  assert (Hq : request_u64 (acq_request a e rl)) by (split_and!; try done; by apply quota_epoch_u64).
  pose proof (live_reserve (rl_store rl) (acq_request a e rl) (aa_cgroups a) Hl Hq Hid Href) as Hr.
  destruct (reserve_provider_rate_attempts_with_cgroups _ _ _) as [l' [[r|]|err]]; cbn.
  - destruct Hr as (Hok & Hpid & Hs & Hnone & Hlive).
    apply (moved_changes _ 0 (live l')); [by apply moved_store|done|done|]. apply HoNew; cbn.
    + split; [done|]. cbn. by rewrite Hlive, lookup_insert_eq.
    + done.
    + rewrite Hlive, delete_insert_id by done. done.
  - destruct Hr as [Hok Hlive]. apply (quiet_changes _ 0); [|done..]. unfold rl_live. rewrite <- Hlive. by apply moved_store.
  - destruct Hr as [-> Hw]. apply (quiet_changes _ 1); [|done..].
    eapply (moved_weaken False); [intros [_ (? & ? & ?)]; by apply Hw|].
    apply (moved_permits _ 0 1). pose proof (moved_unhealthy rl Hl) as []. by split.
Qed.

(** A later operation on the guard is judged by the receipts it finds. *)
Lemma closes_trans fine fine' g rl rl1 rl2 :
  moved fine 0 (rl_live rl) rl rl1 → closes fine' g rl1 rl2 → closes (fine ∧ fine') g rl rl2.
Proof.
  intros Hm Hc. assert (Hlv : rl_live rl1 = rl_live rl) by apply Hm.
  assert (Hm' : moved fine 0 (rl_live rl1) rl rl1) by (by rewrite Hlv).
  destruct Hc as [H|[H Hh]]; [left|right; split; [|done]]; rewrite <- Hlv; by apply (moved_trans _ _ 0 1 _ _ rl1).
Qed.

Lemma acq_reserved_changes e g rl :
  ledger_ok (rl_store rl) → guard_ok (rl_live rl) g →
  changes (env_fine e) rl (acq_reserved e g rl).1 (AcqReserved g) (acq_reserved e g rl).2.
Proof.
  intros Hl Hg. unfold acq_reserved.
  destruct (prune_moved (ev_fault_prune e) (pr_epoch (gd_reservation g)) rl Hl) as (Hm & Hok & _).
  destruct (prune_if_epoch_advanced _ _ rl) as [rl1 [[]|err]]; cbn [fst snd] in *.
  - eapply moved_changes; [eapply moved_weaken; [|done]|done|done|by apply HoSame]. by intros (_ & ? & _).
  - apply (closes_changes _ g); try done. eapply closes_weaken.
    2: { eapply closes_trans; [done|]. apply drop_closes; [apply Hm|]. destruct Hm. unfold rl_live at 1. by rewrite mv_live0. }
    by intros (_ & ? & ?).
Qed.

Lemma acq_pruned_changes a e g rl :
  ledger_ok (rl_store rl) → guard_ok (rl_live rl) g →
  changes (env_fine e) rl (acq_pruned a e g rl).1 (AcqPruned g) (acq_pruned a e g rl).2.
Proof.
  intros Hl Hg. unfold acq_pruned. pose proof (refund_closes (ev_fault_refund e) rl g Hl Hg) as Hc.
  apply (closes_weaken _ (env_fine e)) in Hc; [|by intros (_ & _ & ?)].
  destruct (refund _ rl g) as [rl1 [u|err]]; cbn [fst] in Hc;
    repeat case_match; try (by apply (closes_changes _ g));
    eapply moved_changes; [by apply moved_refl|done|done|by apply HoSame|by apply moved_refl|done|done|by apply HoSame].
Qed.

Lemma acq_denied_changes a e seen epoch scope dimension used requested limit rl :
  ledger_ok (rl_store rl) →
  let r := acq_denied a e seen epoch scope dimension used requested limit rl in
  changes (env_fine e) rl r.1 (AcqDenied seen epoch scope dimension used requested limit) r.2.
Proof.
  intros Hl. unfold acq_denied. set (rl0 := record_denial _ _ rl).
  destruct (prune_moved (ev_fault_prune e) epoch rl0 Hl) as (Hm & _ & _).
  assert (Hm' : moved (env_fine e) 0 (rl_live rl) rl (prune_if_epoch_advanced (ev_fault_prune e) epoch rl0).1).
  { destruct Hm. split; auto. by intros (_ & ? & _); apply mv_fine0. }
  destruct (prune_if_epoch_advanced _ _ rl0) as [rl1 [[]|err]]; cbn [fst] in Hm'; [case_match|];
    (apply (quiet_changes _ 1); [by apply (moved_permits _ 0 1)|done..]).
Qed.

Lemma acquire_step_changes a e rl p :
  ledger_ok (rl_store rl) → args_ok a → config_ok (rl_config rl) → env_ok rl e →
  (∀ g, guard_of p = Some g → guard_ok (rl_live rl) g) →
  changes (env_fine e ∧ args_fine a) rl (acquire_step a e rl p).1 p (acquire_step a e rl p).2.
Proof.
  intros Hl Ha Hc He Hg.
  assert (Hweak : ∀ (fine : Prop) rl' p', (env_fine e ∧ args_fine a → fine) → changes fine rl rl' p p' →
    changes (env_fine e ∧ args_fine a) rl rl' p p') by (intros fine rl' p' Hf []; split; auto).
  destruct p as [|seen|seen|seen|g|g|seen ep sc d u rq lim|seen dl|r]; cbn [acquire_step].
  - by eapply Hweak; [|apply acq_entry_changes].
  - by eapply Hweak; [|apply acq_top_changes].
  - by eapply Hweak; [|apply acq_select_changes].
  - by apply acq_permit_changes.
  - eapply Hweak; [|apply acq_reserved_changes; auto]. tauto.
  - eapply Hweak; [|apply acq_pruned_changes; auto]. tauto.
  - eapply Hweak; [|apply acq_denied_changes; auto]. tauto.
  - by eapply Hweak; [|apply acq_wait_changes].
  - eapply moved_changes; [by apply moved_refl|cbn; lia|done|by apply HoSame].
Qed.

(** ** Histories *)

Definition rate_event_ok (w : RateWorld) (ev : RateEvent) : Prop :=
  match ev with
  | RwCall _ a => args_ok a
  | RwStep _ e => env_ok (rw_limiter w) e
  | RwReconcile _ _ requests tokens => is_u64 tokens ∧ opt_u64 requests
  | RwRecord _ _ _ tokens => is_u64 tokens
  | RwErase erased => erases_leaves erased (rl_store (rw_limiter w))
  | _ => True
  end.

(** No statement fails, and the calls are those the ledger accepts. *)
Definition rate_event_fine (w : RateWorld) (ev : RateEvent) : Prop :=
  match ev with
  | RwCall _ a => args_fine a
  | RwStep _ e => env_fine e
  | RwAbort _ | RwErase _ => True
  | RwInvoke _ fault fault_drop => fault = false ∧ fault_drop = false
  | RwMark _ fault | RwRefund _ fault | RwRetain _ fault | RwDrop _ fault => fault = false
  | RwReconcile c fault requests _ =>
      fault = false ∧ ∀ a g, rw_calls w !! c = Some (a, AcqDone (Ok g)) → gd_invoked g = true → attempts_ok g requests
  | RwRecord fault id _ _ =>
      fault = false ∧ quota_receipts (rl_store (rw_limiter w)) !! id = None ∧
      quota_refunded_receipts (rl_store (rw_limiter w)) !! id = None
  | RwStats fault fault_prune _ => fault = false ∧ fault_prune = false
  end.

Fixpoint rate_history (P : RateWorld → RateEvent → Prop) (w : RateWorld) (evs : list RateEvent) : Prop :=
  match evs with
  | [] => True
  | ev :: evs => P w ev ∧ rate_history P (rate_exec w ev) evs
  end.

Definition calls_fine (w : RateWorld) : Prop := ∀ c a p, rw_calls w !! c = Some (a, p) → args_fine a.

(** An event that touches no admission. *)
Lemma rate_ok_moved fine w rl' :
  rate_ok w → moved fine 0 (rl_live (rw_limiter w)) (rw_limiter w) rl' → rate_ok (mkRate rl' (rw_calls w)).
Proof.
  intros Hw Hm. assert (Hlv : rl_live rl' = rl_live (rw_limiter w)) by apply Hm. destruct Hm as [Hc Hp Hh _ Hl _].
  split; cbn [rw_limiter rw_calls]; rewrite ?Hc, ?Hp, ?Hlv.
  - apply Hw.
  - pose proof (ra_permits w Hw). lia.
  - pose proof (ra_total w Hw). unfold held in *. cbn. lia.
  - done.
  - apply Hw.
  - apply Hw.
  - apply Hw.
  - intros Hh'. apply (ra_live w Hw). auto.
Qed.

Lemma rate_ok_delete w c a p :
  rate_ok w → rw_calls w !! c = Some (a, p) → holds p = 0 → guard_of p = None →
  rate_ok (mkRate (rw_limiter w) (delete c (rw_calls w))).
Proof.
  intros Hw Hc Hp Hg. split; cbn [rw_limiter rw_calls]; try apply Hw.
  - pose proof (ra_total w Hw) as Ht. unfold held in *. cbn. rewrite (msum_delete _ _ c _ Hc) in Ht. cbn in Ht. lia.
  - intros c' a' q [_ Hc']%lookup_delete_Some. by eapply (ra_args w Hw).
  - intros c' a' q g [_ Hc']%lookup_delete_Some. by eapply (ra_guard w Hw).
  - intros c1 c2 a1 a2 p1 p2 g1 g2 [_ H1]%lookup_delete_Some [_ H2]%lookup_delete_Some. by eapply (ra_distinct w Hw).
  - intros Hh id x Hx. destruct (ra_live w Hw Hh id x Hx) as (c' & a' & q & g & Hc' & Hq & Hi).
    exists c', a', q, g. rewrite lookup_delete_ne; [done|]. intros <-. congruence.
Qed.

(** A consumer of the guard of an admission. *)
Lemma rate_ok_consume fine w c a g rl' :
  rate_ok w → rw_calls w !! c = Some (a, AcqDone (Ok g)) → closes fine g (rw_limiter w) rl' →
  rate_ok (mkRate rl' (delete c (rw_calls w))).
Proof.
  intros Hw Hc Hcl. set (p' := AcqDone (Err RateCancelled)).
  assert (Hw' : rate_ok (mkRate rl' (<[c := (a, p')]> (rw_calls w)))).
  { eapply rate_ok_change; [done..|]. by apply (closes_changes fine g). }
  apply (rate_ok_delete _ c a p') in Hw'; [|apply lookup_insert_eq|done|done]. cbn in Hw'.
  by rewrite delete_insert_eq in Hw'.
Qed.

Lemma done_guard w c a g : rate_ok w → rw_calls w !! c = Some (a, AcqDone (Ok g)) → guard_ok (rl_live (rw_limiter w)) g.
Proof. intros Hw Hc. by eapply (ra_guard w Hw c a _ g). Qed.

(** Every consumer leaves its event's verdict on the health of the limiter. *)
Lemma consume_ok (fine : Prop) w c f :
  rate_ok w →
  (∀ a g, rw_calls w !! c = Some (a, AcqDone (Ok g)) → closes fine g (rw_limiter w) (f (rw_limiter w) g)) →
  rate_ok (consume w c f) ∧ (fine → rl_healthy (rw_limiter (consume w c f)) = rl_healthy (rw_limiter w)).
Proof.
  intros Hw Hf. unfold consume. destruct (rw_calls w !! c) as [[a p]|] eqn:Hc; [|done].
  destruct p as [| | | | | | | |[g|]]; try done. specialize (Hf a g eq_refl). split; [by eapply rate_ok_consume|].
  intros Hfine. by destruct Hf as [H|[H _]]; apply (mv_fine _ _ _ _ _ H).
Qed.

Lemma invoke_changes fault fault_drop rl g :
  ledger_ok (rl_store rl) → guard_ok (rl_live rl) g →
  let r := acquire_tokens_return fault fault_drop rl g in
  changes (fault = false ∧ fault_drop = false) rl r.1 (AcqDone (Ok g)) (AcqDone r.2).
Proof.
  intros Hl Hg. unfold acquire_tokens_return. pose proof (mark_moved fault rl g Hl Hg) as Hm.
  destruct (mark_invoked fault rl g) as [[rl1 g1] [[]|err]]; destruct Hm as (Hr & Hg1 & Hm & Hi & Hf); cbn [fst snd].
  - eapply moved_changes; [eapply moved_weaken; [|done]; tauto|done|done|].
    assert (Hl1 : rl_live rl1 = <[pr_id (gd_reservation g) := (gd_invoked g1, pr_reserved_requests (gd_reservation g))]> (rl_live rl))
      by apply Hm.
    apply HoMark; [done|by rewrite <- Hl1|by rewrite delete_insert_eq].
  - destruct Hi as [[? _]| ->]; [done|]. rewrite insert_id in Hm by apply Hg.
    apply (closes_changes _ g); try done. eapply (closes_trans _ (fault_drop = false)); [done|].
    apply drop_closes; [apply Hm|done].
Qed.

Lemma stats_moved fault fault_prune now rl :
  ledger_ok (rl_store rl) → moved (fault = false ∧ fault_prune = false) 0 (rl_live rl) rl (try_stats fault fault_prune now rl).1.
Proof.
  intros Hl. unfold try_stats. destruct (ensure_healthy rl); [|by apply moved_refl].
  set (ep := Z.max (default 0 (quota_epoch_floor (rl_store rl))) (quota_epoch now)).
  assert (Hok : ledger_ok (set_floor ep (rl_store rl))) by (apply floor_ok; [lia|done]).
  destruct (store_op_ok fault (λ l, provider_rate_usage l (quota_epoch now)) rl _ _ Hl (usage_spec _ _ Hl) Hok)
    as [[-> ->]|[-> ->]].
  { eapply moved_weaken; [|by apply moved_unhealthy]. by intros [? _]. }
  set (rl1 := set_store _ rl). destruct (prune_moved fault_prune ep rl1 Hok) as (Hm & _ & _). fold ep in Hm |- *.
  assert (Hm' : moved (fault_prune = false) 0 (rl_live rl) rl (prune_if_epoch_advanced fault_prune ep rl1).1)
    by (destruct Hm; by split).
  eapply moved_weaken; [|destruct (prune_if_epoch_advanced fault_prune ep rl1) as [rl2 [[]|]]; exact Hm']. tauto.
Qed.

Lemma record_moved fault id now tokens rl :
  ledger_ok (rl_store rl) → is_u64 tokens →
  moved (fault = false ∧ quota_receipts (rl_store rl) !! id = None ∧ quota_refunded_receipts (rl_store rl) !! id = None)
    0 (rl_live rl) rl (record_tokens fault id now tokens rl).
Proof.
  intros Hl Ht. unfold record_tokens, try_record_tokens. destruct (ensure_healthy rl); [|by apply moved_refl].
  destruct (live_charge (rl_store rl) id (quota_epoch now) tokens Hl Ht) as (Hok & Hlive & Hfresh).
  unfold store_op. destruct fault; [eapply moved_weaken; [|by apply moved_unhealthy]; by intros [? _]|].
  destruct (charge_provider_rate_tokens _ _ _ _) as [l' [x|err]]; cbn [fst] in *.
  - unfold rl_live. rewrite <- Hlive. by apply moved_store.
  - apply (moved_weaken False).
    + intros (_ & Hi & Hr). destruct (Hfresh Hi Hr) as [? [=]].
    + pose proof (moved_unhealthy (set_store l' rl) Hok) as []. split; try done.
Qed.

Lemma rate_ok_call w c a :
  rate_ok w → args_ok a → rw_calls w !! c = None → rate_ok (mkRate (rw_limiter w) (<[c := (a, AcqEntry)]> (rw_calls w))).
Proof.
  intros Hw Ha Hc. split; cbn [rw_limiter rw_calls]; try apply Hw.
  - pose proof (ra_total w Hw). unfold held in *. cbn. rewrite msum_insert by done. cbn. lia.
  - intros c' a' p [[-> [= <- <-]]|[_ Hc']]%lookup_insert_Some; [done|by eapply (ra_args w Hw)].
  - intros c' a' p g [[-> [= <- <-]]|[_ Hc']]%lookup_insert_Some; [done|by eapply (ra_guard w Hw)].
  - intros c1 c2 a1 a2 p1 p2 g1 g2 [[-> [= <- <-]]|[_ H1]]%lookup_insert_Some [[-> [= <- <-]]|[_ H2]]%lookup_insert_Some;
      [done..|by eapply (ra_distinct w Hw)].
  - intros Hh id x Hx. destruct (ra_live w Hw Hh id x Hx) as (c' & a' & q & g & Hc' & Hq & Hi).
    exists c', a', q, g. rewrite lookup_insert_ne; [done|]. intros <-. congruence.
Qed.

Lemma rate_exec_ok w ev :
  rate_ok w → rate_event_ok w ev →
  rate_ok (rate_exec w ev) ∧
  (rate_event_fine w ev ∧ calls_fine w → rl_healthy (rw_limiter (rate_exec w ev)) = rl_healthy (rw_limiter w)).
Proof.
  intros Hw He. pose proof (ra_ledger w Hw) as Hl. destruct ev; cbn [rate_exec rate_event_ok rate_event_fine] in *.
  - destruct (rw_calls w !! c) eqn:Hc; [done|]. split; [|done]. by apply rate_ok_call.
  - destruct (rw_calls w !! c) as [[a p]|] eqn:Hc; [|done].
    pose proof (acquire_step_changes a e (rw_limiter w) p Hl (ra_args w Hw _ _ _ Hc) (ra_config w Hw) He
                  (λ g, ra_guard w Hw c a p g Hc)) as Hch.
    destruct (acquire_step a e (rw_limiter w) p) as [rl' p']. split; [by eapply rate_ok_change|].
    intros [Hf Hcf]. apply (ch_fine _ _ _ _ _ Hch). split; [done|by eapply Hcf].
  - destruct (rw_calls w !! c) as [[a p]|] eqn:Hc; [|done]. destruct (droppable p) eqn:Hd; [|done]. split; [|done].
    apply (rate_ok_delete w c a p); try done; by destruct p as [| | | | | | | |[]].
  - destruct (rw_calls w !! c) as [[a [| | | | | | | |[g|]]]|] eqn:Hc; try done.
    pose proof (invoke_changes fault fault_drop (rw_limiter w) g Hl (done_guard w c a g Hw Hc)) as Hch.
    destruct (acquire_tokens_return _ _ _ _) as [rl' r]. split; [by eapply rate_ok_change|].
    intros [Hf _]. by apply (ch_fine _ _ _ _ _ Hch).
  - destruct (rw_calls w !! c) as [[a [| | | | | | | |[g|]]]|] eqn:Hc; try done.
    pose proof (mark_moved fault (rw_limiter w) g Hl (done_guard w c a g Hw Hc)) as Hm.
    destruct (mark_invoked _ _ _) as [[rl' g'] r]. destruct Hm as (Hr & Hg' & Hm & _).
    assert (changes (fault = false) (rw_limiter w) rl' (AcqDone (Ok g)) (AcqDone (Ok g'))) as Hch.
    { eapply moved_changes; [done..|]. apply HoMark; [done| |by rewrite delete_insert_eq].
      assert (rl_live rl' = <[_ := _]> (rl_live (rw_limiter w))) as <- by apply Hm. done. }
    split; [by eapply rate_ok_change|]. intros [Hf _]. by apply (ch_fine _ _ _ _ _ Hch).
  - destruct (consume_ok (fault = false) w c (λ rl g, (refund fault rl g).1) Hw) as [H1 H2]; [|tauto].
    intros a g Hc. apply refund_closes; [done|by eapply done_guard].
  - destruct He as [Ht Hq].
    destruct (consume_ok (fault = false ∧ ∀ a g, rw_calls w !! c = Some (a, AcqDone (Ok g)) → gd_invoked g = true →
      attempts_ok g requests) w c (λ rl g, (reconcile fault requests tokens rl g).1) Hw) as [H1 H2]; [|tauto].
    intros a g Hc. eapply closes_weaken; [|apply reconcile_closes; [done|by eapply done_guard|done|done]]. naive_solver.
  - destruct (consume_ok (fault = false) w c (λ rl g, (retain_estimate fault rl g).1) Hw) as [H1 H2]; [|tauto].
    intros a g Hc. apply retain_closes; [done|by eapply done_guard].
  - destruct (consume_ok (fault = false) w c (drop_guard fault) Hw) as [H1 H2]; [|tauto].
    intros a g Hc. apply drop_closes; [done|by eapply done_guard].
  - pose proof (record_moved fault id now tokens (rw_limiter w) Hl He) as Hm. split; [by eapply rate_ok_moved|].
    intros [Hf _]. by apply (mv_fine _ _ _ _ _ Hm).
  - pose proof (stats_moved fault fault_prune now (rw_limiter w) Hl) as Hm. split; [by eapply rate_ok_moved|].
    intros [Hf _]. by apply (mv_fine _ _ _ _ _ Hm).
  - split; [|done]. eapply (rate_ok_moved True); [done|]. unfold rl_live. rewrite <- (live_erase erased). apply moved_store.
    by apply erase_ok.
Qed.

Lemma consume_calls w c f c' x : rw_calls (consume w c f) !! c' = Some x → rw_calls w !! c' = Some x.
Proof.
  unfold consume. destruct (rw_calls w !! c) as [[a [| | | | | | | |[g|]]]|]; cbn; try done.
  by intros [_ ?]%lookup_delete_Some.
Qed.

Lemma calls_fine_exec w ev : rate_event_fine w ev → calls_fine w → calls_fine (rate_exec w ev).
Proof.
  assert (Hins : ∀ c a p rl p', rw_calls w !! c = Some (a, p) → calls_fine w →
    calls_fine (mkRate rl (<[c := (a, p')]> (rw_calls w)))).
  { intros c a p rl p' Hc Hf c' a' q. cbn. intros [[-> [= <- <-]]|[_ Hc']]%lookup_insert_Some; by eapply Hf. }
  intros He Hf. destruct ev; cbn [rate_exec rate_event_fine] in *;
    try (intros c' a' q Hq%consume_calls; by eapply Hf); try (intros c' a' q; cbn; apply Hf).
  - destruct (rw_calls w !! c) eqn:Hc; [done|]. intros c' a' q. cbn.
    intros [[-> [= <- <-]]|[_ Hc']]%lookup_insert_Some; [done|by eapply Hf].
  - destruct (rw_calls w !! c) as [[a p]|] eqn:Hc; [|done]. destruct (acquire_step _ _ _ _). by eapply Hins.
  - destruct (rw_calls w !! c) as [[a p]|] eqn:Hc; [|done]. destruct (droppable p); [|done].
    intros c' a' q. cbn. intros [_ ?]%lookup_delete_Some. by eapply Hf.
  - destruct (rw_calls w !! c) as [[a [| | | | | | | |[g|]]]|] eqn:Hc; try done.
    destruct (acquire_tokens_return _ _ _ _). by eapply Hins.
  - destruct (rw_calls w !! c) as [[a [| | | | | | | |[g|]]]|] eqn:Hc; try done.
    destruct (mark_invoked _ _ _) as [[? ?] ?]. by eapply Hins.
Qed.

Lemma rate_run_ok w evs : rate_ok w → rate_history rate_event_ok w evs → rate_ok (foldl rate_exec w evs).
Proof.
  revert w. induction evs as [|ev evs IH]; intros w Hw Hevs; [done|]. destruct Hevs as [He Hevs]. cbn.
  apply IH; [|done]. by apply rate_exec_ok.
Qed.

Lemma rate_run_fine w evs :
  rate_ok w → calls_fine w → rate_history rate_event_ok w evs → rate_history rate_event_fine w evs →
  rl_healthy (rw_limiter (foldl rate_exec w evs)) = rl_healthy (rw_limiter w).
Proof.
  revert w. induction evs as [|ev evs IH]; intros w Hw Hc Hevs Hfine; [done|].
  destruct Hevs as [He Hevs], Hfine as [Hf Hfine]. cbn. destruct (rate_exec_ok w ev Hw He) as [Hw' Hh].
  rewrite IH; try done; [by apply Hh|by apply calls_fine_exec].
Qed.

(** ** Start *)

Lemma recovered_not_live row : recovered row ≫= live_row = None.
Proof. unfold recovered, live_row. by destruct (sr_state row.1) eqn:Hs; cbn; rewrite ?Hs. Qed.

(** A limiter starts, with all its permits, over any ledger that holds. *)
Lemma with_store_ok c l now :
  ledger_ok l → config_ok c → is_u32 (cf_max_concurrent c) →
  ∃ l' rl, with_store c l now = (l', Ok rl) ∧ rl_store rl = l' ∧ rl_config rl = c ∧ rl_healthy rl = true ∧
    rate_ok (mkRate rl ∅).
Proof.
  intros Hl Hc Hm. unfold with_store. destruct (recover_spec l (quota_epoch now) Hl) as (l1 & -> & Hok & _ & _ & Hr & _).
  cbn. destruct (live_prune l1 (Z.max (default 0 (quota_epoch_floor l)) (quota_epoch now)) Hok) as (l2 & n & -> & Hok2 & Hlive).
  eexists _, _. split; [done|]. split; [done|]. split; [done|]. split; [done|].
  assert (Hempty : live l2 = ∅).
  { rewrite Hlive. apply map_eq. intros id. rewrite live_lookup, Hr, lookup_omap, lookup_empty.
    destruct (quota_receipts l !! id); [|done]. apply recovered_not_live. }
  split; cbn [rw_limiter rw_calls]; try done.
  - cbn. unfold capacity, MAX_PERMITS. destruct (_ =? _); [lia|]. apply Hm.
  - unfold held. cbn. rewrite msum_empty. lia.
  - intros _ id x. unfold rl_live. cbn. by rewrite Hempty.
Qed.
