(* ===== verification/RateHistory.v ===== *)
(** * What the rate limiter guarantees

    The theorems over every history of a limiter and its callers: the concurrency bound with the
    correspondence of guards and receipts, when a limiter can be poisoned and what it then does, that the
    constraints of the control groups cannot poison it, and that an admission with room is granted. *)

From S2P Require Import Prelude Cgroups CgroupInv QuotaLedger QuotaInv QuotaHistory RateLimit RateInv.
#[local] Open Scope Z_scope.

(** A limiter with its callers some time after it was opened on a ledger. *)
Definition rate_reachable (c : RateLimitConfig) (w : RateWorld) : Prop :=
  ∃ es now l rl evs, history_ok ledger_new es ∧
    with_store c (foldl ledger_exec ledger_new es) now = (l, Ok rl) ∧
    rate_history rate_event_ok (mkRate rl ∅) evs ∧ w = foldl rate_exec (mkRate rl ∅) evs.

Definition config_valid (c : RateLimitConfig) : Prop := config_ok c ∧ is_u32 (cf_max_concurrent c).

Lemma with_store_started c es now l rl :
  config_valid c → history_ok ledger_new es → with_store c (foldl ledger_exec ledger_new es) now = (l, Ok rl) →
  rl_config rl = c ∧ rl_healthy rl = true ∧ rate_ok (mkRate rl ∅).
Proof.
  intros [Hc Hm] Hes Hw. pose proof (run_ok ledger_new es ledger_new_ok Hes) as Hl.
  destruct (with_store_ok c _ now Hl Hc Hm) as (l' & rl' & Hw' & _ & Hcf & Hh & Hok). rewrite Hw in Hw'.
  injection Hw' as _ <-. done.
Qed.

(** ** What no operation does *)

(** The configuration is fixed and a poisoned limiter stays poisoned. *)
Definition tame (rl rl' : RateLimiter) : Prop :=
  rl_config rl' = rl_config rl ∧ (rl_healthy rl = false → rl_healthy rl' = false).

#[local] Instance tame_preorder : PreOrder tame.
Proof. split; [by intros rl|]. intros x y z [H1 H2] [H3 H4]. split; [congruence|auto]. Qed.

Create HintDb tame.
Ltac tame := repeat case_match; simplify_eq/=; eauto 6 with tame.

Lemma tame_refl rl : tame rl rl. Proof. done. Qed.
Lemma tame_permits n rl rl' : tame rl rl' → tame rl (add_permits n rl'). Proof. done. Qed.
Lemma tame_notify rl rl' : tame rl rl' → tame rl (notify_capacity rl'). Proof. done. Qed.
Lemma tame_denial kind dimension rl rl' : tame rl rl' → tame rl (record_denial kind dimension rl'). Proof. done. Qed.
Lemma tame_pruned e rl rl' : tame rl rl' → tame rl (set_pruned e rl'). Proof. done. Qed.

Lemma tame_store {A} fault (f : Ledger → Ledger * result QuotaError A) rl rl' r : store_op fault f rl = (rl', r) → tame rl rl'.
Proof. unfold store_op, tame. intros. repeat case_match; by simplify_eq/=. Qed.
#[local] Hint Resolve tame_refl tame_permits tame_notify tame_denial tame_pruned tame_store : tame.

Lemma tame_prune fault e rl rl' r : prune_if_epoch_advanced fault e rl = (rl', r) → tame rl rl'.
Proof. unfold prune_if_epoch_advanced. intros. tame. Qed.

Lemma tame_drop fault rl g : tame rl (drop_guard fault rl g).
Proof. unfold drop_guard. tame. Qed.
#[local] Hint Resolve tame_prune tame_drop : tame.

Lemma tame_refund fault rl g rl' r : refund fault rl g = (rl', r) → tame rl rl'.
Proof. unfold refund. intros. tame. Qed.

Lemma tame_reconcile fault requests tokens rl g : tame rl (reconcile fault requests tokens rl g).1.
Proof. unfold reconcile. tame. Qed.

Lemma tame_retain fault rl g : tame rl (retain_estimate fault rl g).1.
Proof. unfold retain_estimate. tame. Qed.

Lemma tame_mark fault rl g rl' g' r : mark_invoked fault rl g = (rl', g', r) → tame rl rl'.
Proof. unfold mark_invoked. intros. tame. Qed.
#[local] Hint Resolve tame_refund tame_reconcile tame_retain tame_mark : tame.

Lemma tame_invoke fault fault_drop rl g rl' r : acquire_tokens_return fault fault_drop rl g = (rl', r) → tame rl rl'.
Proof.
  unfold acquire_tokens_return. intros. repeat case_match; simplify_eq/=; [eauto with tame|].
  etrans; [by eapply tame_mark|apply tame_drop].
Qed.

Lemma tame_stats fault fault_prune now rl : tame rl (try_stats fault fault_prune now rl).1.
Proof. unfold try_stats. repeat case_match; simplify_eq/=; eauto with tame; (etrans; [by eapply tame_store|by eapply tame_prune]). Qed.

Lemma tame_record fault id now tokens rl : tame rl (record_tokens fault id now tokens rl).
Proof. unfold record_tokens, try_record_tokens. repeat case_match; [|done]. destruct (store_op _ _ _) eqn:?. eauto with tame. Qed.

Lemma tame_step a e rl p rl' p' : acquire_step a e rl p = (rl', p') → tame rl rl'.
Proof.
  destruct p; cbn [acquire_step]; unfold acq_entry, acq_top, acq_select, acq_permit, acq_reserved, acq_pruned, acq_denied, acq_wait;
    intros; repeat case_match; simplify_eq/=; eauto with tame.
  - etrans; [by eapply tame_prune|apply tame_drop].
  - apply tame_permits. apply tame_prune in H0 as []. by split.
  - apply tame_permits. apply tame_prune in H0 as []. by split.
  - apply tame_permits. apply tame_prune in H0 as []. by split.
Qed.

Lemma tame_exec w ev : tame (rw_limiter w) (rw_limiter (rate_exec w ev)).
Proof.
  destruct ev; cbn [rate_exec]; unfold consume; repeat case_match; simplify_eq/=; try done;
    eauto using tame_step, tame_invoke, tame_mark, tame_stats, tame_record, tame_drop, tame_reconcile, tame_retain.
  destruct (refund _ _ _) eqn:?. by eapply tame_refund.
Qed.

Lemma tame_run w evs : tame (rw_limiter w) (rw_limiter (foldl rate_exec w evs)).
Proof. revert w. induction evs as [|ev evs IH]; intros w; [done|]. cbn. etrans; [apply tame_exec|apply IH]. Qed.

Lemma reachable_ok c w : config_valid c → rate_reachable c w → rate_ok w ∧ rl_config (rw_limiter w) = c.
Proof.
  intros Hc (es & now & l & rl & evs & Hes & Hw & Hevs & ->).
  destruct (with_store_started c es now l rl Hc Hes Hw) as (Hcf & _ & Hok). split; [by apply rate_run_ok|].
  destruct (tame_run (mkRate rl ∅) evs) as [-> _]. done.
Qed.

(** ** Guards *)

(** The callers that hold a guard. *)
Definition guards (w : RateWorld) : Z := msum (λ x : AcqArgs * AcqPhase, match guard_of x.2 with Some _ => 1 | None => 0 end) (rw_calls w).

Lemma guards_held w : guards w <= held w.
Proof. apply msum_le. intros c [a p] _. by destruct p as [| | | | | | | |[]]. Qed.

(** C10.  At every moment of a limiter the free permits and those that admissions and guards
    hold are its capacity, so at most [max_concurrent] guards exist; every guard has its live receipt
    in the ledger, in flight exactly when the guard was marked invoked; two guards never share a receipt; and
    while the limiter is healthy every live receipt has its guard, so none is leaked. *)
Theorem rate_guards_accounted c w :
  config_valid c → rate_reachable c w →
  let rl := rw_limiter w in
  (0 <= rl_permits rl ∧ rl_permits rl + held w = capacity c ∧ guards w <= capacity c) ∧
  (∀ k a p g, rw_calls w !! k = Some (a, p) → guard_of p = Some g →
     ∃ row, quota_receipts (rl_store rl) !! pr_id (gd_reservation g) = Some row ∧
       sr_state row.1 = (if gd_invoked g then InFlight else Reserved)) ∧
  (∀ k k' a a' p p' g g', rw_calls w !! k = Some (a, p) → rw_calls w !! k' = Some (a', p') → k ≠ k' →
     guard_of p = Some g → guard_of p' = Some g' → pr_id (gd_reservation g) ≠ pr_id (gd_reservation g')) ∧
  (rl_healthy rl = true → ∀ id row, quota_receipts (rl_store rl) !! id = Some row → is_live row = true →
     ∃ k a p g, rw_calls w !! k = Some (a, p) ∧ guard_of p = Some g ∧ pr_id (gd_reservation g) = id).
Proof.
  intros Hc Hr rl. destruct (reachable_ok c w Hc Hr) as [Hw Hcf]. split; [|split; [|split]].
  - pose proof (ra_permits w Hw). pose proof (ra_total w Hw) as Ht. rewrite Hcf in Ht. pose proof (guards_held w).
    unfold rl. lia.
  - intros k a p g Hk Hg. destruct (ra_guard w Hw k a p g Hk Hg) as [_ Hl]. apply live_Some in Hl as (row & Hrow & Hs & _).
    eauto.
  - intros k k' a a' p p' g g' Hk Hk' Hne Hg Hg' He. apply Hne. by eapply (ra_distinct w Hw).
  - intros Hh id row Hrow Hlive. unfold is_live in Hlive.
    assert (∃ x, rl_live rl !! id = Some x) as [x Hx].
    { unfold rl_live. rewrite live_lookup, Hrow. cbn. unfold live_row. destruct (sr_state row.1); try done; eauto. }
    by apply (ra_live w Hw Hh id x).
Qed.

(** ** Health *)

(**  A limiter opens on every ledger a history can leave, and it stays healthy through every history
    in which no statement fails, the calls have at least one request and distinct valid scopes, and
    reconciliations report no more attempts than were reserved. *)
Theorem limiter_stays_healthy c es now :
  config_valid c → history_ok ledger_new es →
  ∃ l rl, with_store c (foldl ledger_exec ledger_new es) now = (l, Ok rl) ∧
    ∀ evs, rate_history rate_event_ok (mkRate rl ∅) evs → rate_history rate_event_fine (mkRate rl ∅) evs →
      rl_healthy (rw_limiter (foldl rate_exec (mkRate rl ∅) evs)) = true.
Proof.
  intros [Hc Hm] Hes. pose proof (run_ok ledger_new es ledger_new_ok Hes) as Hl.
  destruct (with_store_ok c _ now Hl Hc Hm) as (l & rl & Hw & _ & _ & Hh & Hok). exists l, rl. split; [done|].
  intros evs H1 H2. rewrite rate_run_fine; try done.
Qed.

(** What a storage failure leaves behind. *)
Definition poisoned (rl : RateLimiter) : Prop := rl_healthy rl = false.


(** ** Control groups *)

Lemma validate_scopes_agree s : validate_scope s = Ok tt → validate_quota_scope_key (cgroup s) = Ok tt.
Proof.
  unfold validate_scope, validate_quota_scope_key. cbn [sk_id sk_kind cgroup].
  destruct (bool_decide (s = EmptyString)); [done|]. destruct (1024 <? String.length s)%nat eqn:Hl; [done|].
  destruct (string_contains _ s); [done|]. destruct (starts_with "/" s); [|done]. intros _.
  apply Nat.ltb_ge in Hl. assert ((1024 <? Z.of_nat (String.length s)) = false) as -> by (apply Z.ltb_ge; lia). done.
Qed.

(** The scopes of a hierarchy are valid and distinct, and no more than the steps of the walk. *)
Lemma hierarchy_scopes fuel m cur gids sids acc gs :
  hierarchy_loop fuel m cur gids sids acc = Some (Ok gs) →
  NoDup (quota_scope <$> acc) → (∀ g, g ∈ acc → quota_scope g ∈ sids ∧ validate_scope (quota_scope g) = Ok tt) →
  NoDup (quota_scope <$> gs) ∧ (∀ g, g ∈ gs → validate_scope (quota_scope g) = Ok tt) ∧
  (length gs < length acc + fuel)%nat.
Proof.
  revert cur gids sids acc. induction fuel as [|fuel IH]; intros cur gids sids acc H Hn Ha; [done|]. cbn in H.
  destruct cur as [id|]; [|injection H as <-; split_and!; [done|by apply Ha|lia]].
  case_bool_decide; [done|]. destruct (groups m !! id) as [g|]; [|done].
  destruct (validate_scope (quota_scope g)) as [[]|] eqn:Hv; [|done]. case_bool_decide as Hs; [done|].
  destruct (IH _ _ _ _ H) as (H1 & H2 & H3).
  - rewrite fmap_cons. constructor; [|done]. intros (g' & He & Hg')%list_elem_of_fmap. apply Hs. rewrite He. by apply Ha.
  - intros g' [->|Hg']%elem_of_cons; [split; [set_solver|done]|]. split; [|by apply Ha]. apply elem_of_union_r. by apply Ha.
  - split_and!; [done..|]. cbn in H3. lia.
Qed.

Lemma constraints_fine m id agent cs :
  quota_constraints_for_agent m id agent = Ok cs →
  check_constraints [] cs = Ok tt ∧ (length cs <= size (groups m))%nat.
Proof.
  unfold quota_constraints_for_agent, hierarchy_unlocked.
  destruct (hierarchy_loop _ _ _ _ _ _) as [[gs|]|] eqn:Hl; try done. case_bool_decide; [|done]. cbn.
  destruct (last gs); [|done]. cbn. destruct (zmem _ _); [|done]. cbn. intros [= <-].
  destruct (hierarchy_scopes _ _ _ _ _ _ _ Hl) as (H1 & H2 & H3).
  { constructor. }
  { by intros g ?%elem_of_nil. }
  split; [|rewrite length_fmap; cbn in H3; unfold hierarchy_fuel in H3; lia].
  apply check_constraints_spec. split_and!.
  - apply Forall_fmap, Forall_forall. intros g Hg. by apply validate_scopes_agree, H2.
  - by rewrite <- list_fmap_compose.
  - by intros k _ ?%elem_of_nil.
Qed.

(** No receipt and no tombstone has the identifier. *)
Definition fresh_id (l : Ledger) (id : ReceiptId) : Prop :=
  quota_receipts l !! id = None ∧ quota_refunded_receipts l !! id = None.

(** C34.  The constraints that the control groups compute for a member never make the ledger refuse: on
    every ledger a history can leave, a reservation with them and a fresh identifier is granted or denied for
    want of quota, and cannot poison the limiter. *)
Theorem cgroup_constraints_accepted m id agent cs es req :
  quota_constraints_for_agent m id agent = Ok cs → Z.of_nat (size (groups m)) < u32_max →
  history_ok ledger_new es → request_u64 req → rq_estimated_requests req ≠ 0 →
  let l := foldl ledger_exec ledger_new es in
  fresh_id l (rq_receipt_id req) →
  ∃ l' o, reserve_provider_rate_attempts_with_cgroups l req cs = (l', Ok o).
Proof.
  intros Hcs Hm Hes Hq Hz l [Hid Href]. destruct (constraints_fine m id agent cs Hcs) as [Hc Hlen].
  pose proof (live_reserve l req cs (run_ok _ _ ledger_new_ok Hes) Hq Hid Href) as H.
  destruct (reserve_provider_rate_attempts_with_cgroups l req cs) as [l' [o|e]]; [by eexists _, _|].
  destruct H as [_ []]. split_and!; [done..|lia].
Qed.

(** ** Progress *)

(** The steps of one admission, run without interruption. *)
Fixpoint acquire_run (n : nat) (a : AcqArgs) (e : Env) (rl : RateLimiter) (p : AcqPhase) : RateLimiter * AcqPhase :=
  match n with
  | O => (rl, p)
  | S n => let '(rl, p) := acquire_step a e rl p in acquire_run n a e rl p
  end.

(** Nothing interrupts the admission, the semaphore serves it and no statement fails. *)
Definition undisturbed (e : Env) : Prop :=
  ev_cancelled e = false ∧ ev_changed e = false ∧ ev_notified e = false ∧ ev_granted e = true ∧ env_fine e.

Definition within (limit amount : Z) : Prop := limit = 0 ∨ amount <= limit.

(** The request fits the limits of an epoch that nothing has used. *)
Definition fits (c : RateLimitConfig) (a : AcqArgs) : Prop :=
  within (cf_rpm c) (aa_requests a) ∧ within (cf_tpm c) (aa_tokens a) ∧
  ∀ k, k ∈ aa_cgroups a → within (token_limit k) (aa_tokens a).

Lemma over_limit_unused limit amount : within limit amount → 0 <= amount → over_limit limit 0 amount = false.
Proof.
  unfold within, over_limit, sat_sub. intros H H0.
  rewrite andb_false_iff, negb_false_iff, orb_false_iff, Z.eqb_eq, !Z.ltb_ge. lia.
Qed.

Lemma aggregate_unused l scope epoch : ledger_ok l → default 0 (quota_epoch_floor l) < epoch → aggregate l scope epoch = (0, 0).
Proof.
  intros Hl He. unfold aggregate.
  assert (entry_ok l scope epoch None) as Hn.
  { intros id row Hr. pose proof (lo_epochs l Hl id row Hr). apply not_true_iff_false. intros [Hx _]%in_scope_spec. lia. }
  by rewrite !total_absent.
Qed.

(** A reservation in an epoch that nothing has used is granted when it fits. *)
Lemma reserve_granted l req cs :
  ledger_ok l → request_u64 req → quota_receipts l !! rq_receipt_id req = None →
  quota_refunded_receipts l !! rq_receipt_id req = None → well_formed req cs →
  default 0 (quota_epoch_floor l) < rq_requested_epoch req → rq_requested_epoch req ∉ quota_migration_fence l →
  within (rq_rpm req) (rq_estimated_requests req) → within (rq_tpm req) (rq_estimated_tokens req) →
  (∀ k, k ∈ cs → within (token_limit k) (rq_estimated_tokens req)) →
  ∃ l', reserve_provider_rate_attempts_with_cgroups l req cs = (l', Ok (granted req (rq_requested_epoch req) cs)) ∧ ledger_ok l'.
Proof.
  intros Hl Hq Hid Href Hwf Hep Hfence H1 H2 H3. destruct (reserve_fresh l req cs Hl Hq Hid Href Hwf) as [-> Hrv].
  rewrite Z.max_r in * by lia. rewrite bool_decide_eq_false_2 by done.
  pose proof (reserve_new_spec _ _ req cs Hrv) as Hn.
  assert (Hagg : ∀ s, aggregate (set_floor (rq_requested_epoch req) l) s (rq_requested_epoch req) = (0, 0)).
  { intros s. by apply (aggregate_unused l). }
  assert (reserve_outcome (set_floor (rq_requested_epoch req) l) (rq_requested_epoch req) req cs = None) as Ho.
  { destruct Hq as (_ & _ & _ & [Hr0 _] & [Ht0 _]). unfold reserve_outcome, denial. rewrite Hagg. cbn -[over_limit].
    rewrite !over_limit_unused by done. apply fmap_None, find_first_None, Forall_fmap, Forall_forall.
    intros k Hk. cbn -[over_limit aggregate]. rewrite Hagg. apply over_limit_unused; auto. }
  rewrite Ho in Hn. destruct Hn as (m & -> & Hok). by eexists.
Qed.

(** C30.  An admission at the top of its loop, in a healthy limiter with a free permit, that nothing interrupts,
    is granted within five steps when its epoch is new, not fenced, and its request fits the limits: the
    guard reserves exactly what it asked for. *)
Theorem rate_progress c w a e seen :
  config_valid c → rate_reachable c w → args_ok a → args_fine a → env_ok (rw_limiter w) e → undisturbed e → fits c a →
  rl_healthy (rw_limiter w) = true → 0 < rl_permits (rw_limiter w) →
  default 0 (quota_epoch_floor (rl_store (rw_limiter w))) < quota_epoch (ev_now e) →
  quota_epoch (ev_now e) ∉ quota_migration_fence (rl_store (rw_limiter w)) →
  ∃ g rl, acquire_run 5 a e (rw_limiter w) (AcqTop seen) = (rl, AcqDone (Ok g)) ∧
    gd_reservation g = mkReservation (ev_id e) (quota_epoch (ev_now e)) (aa_requests a) (aa_tokens a) Reserved
                         (scope_id <$> aa_cgroups a).
Proof.
  intros Hc Hr [Ha1 Ha2] Hf (Hnow & Hid & Href) (E1 & E2 & E3 & E4 & E5 & E6 & E7) (F1 & F2 & F3) Hh Hp Hep Hfence.
  destruct (reachable_ok c w Hc Hr) as [Hw Hcf]. pose proof (ra_config w Hw) as [Hc1 Hc2].
  set (rl := rw_limiter w) in *. set (rl1 := add_permits (-1) rl).
  destruct (reserve_granted (rl_store rl) (acq_request a e rl1) (aa_cgroups a) (ra_ledger w Hw)) as (l' & Hres & Hok);
    try done; try (unfold acq_request; cbn; rewrite Hcf; done).
  { split_and!; try done. by apply quota_epoch_u64. }
  assert (S1 : acquire_step a e rl (AcqTop seen) = (rl, AcqSelect seen)).
  { unfold acquire_step, acq_top, ensure_healthy, membership_changed. by rewrite Hh, E1, E2, andb_false_r. }
  assert (S2 : acquire_step a e rl (AcqSelect seen) = (rl1, AcqPermit seen)).
  { unfold acquire_step, acq_select. by rewrite E1, E3, E4, andb_false_r, (proj2 (Z.ltb_lt _ _) Hp). }
  set (r := mkReservation (ev_id e) (quota_epoch (ev_now e)) (aa_requests a) (aa_tokens a) Reserved (scope_id <$> aa_cgroups a)).
  change (granted _ _ _) with (OutReserved r) in Hres.
  assert (S3 : acquire_step a e rl1 (AcqPermit seen) = (set_store l' rl1, AcqReserved (mkGuard r false))).
  { unfold acquire_step, acq_permit, membership_changed, store_op. rewrite E1, E2, E5, andb_false_r.
    change (rl_store rl1) with (rl_store rl). by rewrite Hres. }
  destruct (prune_moved (ev_fault_prune e) (pr_epoch r) (set_store l' rl1) Hok) as (_ & Hpr & _). specialize (Hpr E6).
  destruct (prune_if_epoch_advanced (ev_fault_prune e) (pr_epoch r) (set_store l' rl1)) as [rl2 o] eqn:Hprune.
  cbn [snd] in Hpr. subst o. exists (mkGuard r false), rl2. split; [|done].
  fold rl. cbn [acquire_run]. rewrite S1, S2, S3. cbn [acquire_step]. unfold acq_reserved. cbn [gd_reservation]. rewrite Hprune.
  cbn [acquire_step]. unfold acq_pruned, membership_changed. by rewrite E1, E2, andb_false_r.
Qed.

(** ** Witnesses *)

Definition demo_config : RateLimitConfig := mkConfig 3 100 2.
Definition demo_args : AcqArgs := mkArgs 1 40 [mkConstraint "/team" 90] false true.
Definition demo_env (now id : Z) : Env := mkEnv false false false true now id false false false.

Definition demo_limiter : RateLimiter :=
  match (with_store demo_config ledger_new 120000).2 with
  | Ok rl => rl
  | Err _ => mkLimiter demo_config 0 ledger_new false 0 0 (mkDenials 0 0 0 0 0)
  end.

(** One admission goes through to its guard and is marked. *)
Definition demo_events : list RateEvent :=
  [RwCall 1 demo_args; RwStep 1 (demo_env 120000 7); RwStep 1 (demo_env 120000 7); RwStep 1 (demo_env 120000 7);
   RwStep 1 (demo_env 120000 7); RwStep 1 (demo_env 120000 8); RwStep 1 (demo_env 120000 8); RwMark 1 false].

Definition demo_rate : RateWorld := foldl rate_exec (mkRate demo_limiter ∅) demo_events.

Lemma demo_config_valid : config_valid demo_config.
Proof. vm_compute. repeat split; discriminate. Qed.

Lemma demo_events_ok : rate_history rate_event_ok (mkRate demo_limiter ∅) demo_events.
Proof. vm_compute. repeat split; discriminate. Qed.

Lemma demo_reachable : rate_reachable demo_config demo_rate.
Proof.
  exists [], 120000, (with_store demo_config ledger_new 120000).1, demo_limiter, demo_events.
  split; [done|]. split; [vm_compute; reflexivity|]. split; [apply demo_events_ok|done].
Qed.

Lemma rate_guards_accounted_witness :
  config_valid demo_config ∧ rate_reachable demo_config demo_rate ∧ guards demo_rate = 1 ∧
  rl_permits (rw_limiter demo_rate) + held demo_rate = capacity demo_config.
Proof.
  split; [apply demo_config_valid|]. split; [apply demo_reachable|]. split; [vm_compute; reflexivity|].
  apply (rate_guards_accounted demo_config demo_rate demo_config_valid demo_reachable).
Defined.

Lemma demo_events_fine : rate_history rate_event_fine (mkRate demo_limiter ∅) demo_events.
Proof. vm_compute. repeat split; discriminate. Qed.

Lemma limiter_stays_healthy_witness :
  history_ok ledger_new [] ∧
  (∃ l, with_store demo_config ledger_new 120000 = (l, Ok demo_limiter)) ∧
  rate_history rate_event_fine (mkRate demo_limiter ∅) demo_events ∧ rl_healthy (rw_limiter demo_rate) = true.
Proof.
  destruct (limiter_stays_healthy demo_config [] 120000 demo_config_valid I) as (l & rl & Hw & Hrun).
  assert (demo_limiter = rl) as <- by (unfold demo_limiter; cbn [foldl] in Hw; by rewrite Hw).
  split; [done|]. split; [by exists l|]. split; [apply demo_events_fine|].
  apply (Hrun demo_events demo_events_ok demo_events_fine).
Defined.

(** A failing statement poisons the limiter. *)
Definition demo_poisoned : RateWorld := rate_exec demo_rate (RwRecord true 9 120000 5).


Definition demo_groups : CgroupManager :=
  (add_agent 2 5 (try_create "team" 1 (mkLimits 90 0 0 0) (cgroup_manager_new 1)).2).2.

Definition demo_constraints : list CgroupQuotaConstraint := [mkConstraint "/" 0; mkConstraint "/team" 90].
Definition demo_reservation : ProviderRateRequest := mkRequest 7 2 3 100 1 40.

Lemma cgroup_constraints_accepted_witness :
  quota_constraints_for_agent demo_groups 2 5 = Ok demo_constraints ∧
  ∃ l o, reserve_provider_rate_attempts_with_cgroups ledger_new demo_reservation demo_constraints = (l, Ok o).
Proof.
  assert (H : quota_constraints_for_agent demo_groups 2 5 = Ok demo_constraints) by (vm_compute; reflexivity).
  split; [exact H|].
  apply (cgroup_constraints_accepted demo_groups 2 5 demo_constraints [] demo_reservation H);
    [vm_compute; reflexivity|done|vm_compute; repeat split; discriminate|done|split; done].
Defined.

Lemma demo_progress :
  args_ok demo_args ∧ args_fine demo_args ∧ env_ok (rw_limiter demo_rate) (demo_env 180000 9) ∧
  undisturbed (demo_env 180000 9) ∧ fits demo_config demo_args.
Proof.
  split_and!; [vm_compute; repeat split; discriminate..|].
  split; [|split]; [right; vm_compute; discriminate..|]. intros k ->%list_elem_of_singleton. right. vm_compute. discriminate.
Qed.

Lemma rate_progress_witness :
  rate_reachable demo_config demo_rate ∧
  ∃ g rl, acquire_run 5 demo_args (demo_env 180000 9) (rw_limiter demo_rate) (AcqTop 0) = (rl, AcqDone (Ok g)) ∧
    gd_reservation g = mkReservation 9 3 1 40 Reserved ["/team"].
Proof.
  split; [apply demo_reachable|]. destruct demo_progress as (H1 & H2 & H3 & H4 & H5).
  apply (rate_progress demo_config demo_rate demo_args (demo_env 180000 9) 0 demo_config_valid demo_reachable H1 H2 H3 H4 H5);
    [vm_compute; reflexivity..|]. apply (bool_decide_eq_false (_ ∈ _)). vm_compute. reflexivity.
Defined.
