(* ===== verification/Budget.v ===== *)
(** * Cumulative spend ceilings

    Models [crates/kernel/src/budget.rs], the pricing part of [config.rs], the reconstruction of spend in
    [context.rs] and the way [execution.rs] uses them.  An [f64] is a binary64 number of the standard
    library's [SpecFloat]; its rounding, its conversions and its comparisons are those of IEEE 754.  A
    hash map that is only iterated is the list of its entries.  Taking the locks of an admission is split
    where it can wait; a lock is an identity, since maps hold references to locks that can outlive the
    entry.  Reading the counters in [check] and adding to them in [record_calculated_charge] are one step
    each: a caller that another one could disturb between two reads holds the lock of the counter. *)

From S2P Require Import Prelude.
From Stdlib Require Import SpecFloat.
#[local] Open Scope Z_scope.

(** ** Binary64 *)

Abbreviation f64 := spec_float.

Definition f64_of_Z (n : Z) : f64 := binary_normalize 53 1024 n 0 false.
Definition f64_zero : f64 := S754_zero false.
Definition f64_mul : f64 → f64 → f64 := SFmul 53 1024.
Definition f64_add : f64 → f64 → f64 := SFadd 53 1024.
Definition f64_div : f64 → f64 → f64 := SFdiv 53 1024.
Definition f64_le : f64 → f64 → bool := SFleb.
Definition f64_lt : f64 → f64 → bool := SFltb.

Definition is_finite (x : f64) : bool :=
  match x with S754_zero _ | S754_finite _ _ _ => true | S754_infinity _ | S754_nan => false end.

(** [f64::max]: the other operand when one is not a number. *)
Definition f64_max (x y : f64) : f64 :=
  match x, y with
  | S754_nan, _ => y
  | _, S754_nan => x
  | _, _ => if f64_lt x y then y else x
  end.

(** [f64::round]: to the nearest integer, halves away from zero. *)
Definition f64_round (x : f64) : f64 :=
  match x with
  | S754_finite s m e =>
      if 0 <=? e then x
      else
        let n := (Z.pos m + 2 ^ (- e - 1)) / 2 ^ (- e) in
        binary_normalize 53 1024 (cond_Zopp s n) 0 s
  | _ => x
  end.

(** [as u64]: towards zero, saturating, and 0 for what is not a number. *)
Definition f64_as_u64 (x : f64) : Z :=
  match x with
  | S754_finite false m e => Z.min u64_max (if 0 <=? e then Z.pos m * 2 ^ e else Z.pos m / 2 ^ (- e))
  | S754_infinity false => u64_max
  | _ => 0
  end.

(** ** Data *)

Definition MICROS_PER_USD : f64 := f64_of_Z 1000000.

Definition usd_to_micros (usd : f64) : Z :=
  if f64_le usd f64_zero then 0 else f64_as_u64 (f64_round (f64_mul usd MICROS_PER_USD)).

Definition micros_to_usd (micros : Z) : f64 := f64_div (f64_of_Z micros) MICROS_PER_USD.

Inductive BudgetScope := GlobalScope | TenantScope | AgentScope.

Record BudgetExceeded := mkExceeded { be_scope : BudgetScope; spent_usd : f64; limit_usd : f64 }.

Record TokenPricing := mkPricing { input_usd : f64; cached_input_usd : f64; output_usd : f64 }.

Definition blended (usd_per_1k_tokens : f64) : TokenPricing :=
  mkPricing usd_per_1k_tokens usd_per_1k_tokens usd_per_1k_tokens.

Record LlmUsage := mkLlmUsage { input_tokens : Z; output_tokens : Z; cached_tokens : Z }.

Abbreviation LockId := Z (only parsing).

Record BudgetEnforcer := mkEnforcer {
  pricing : gmap string f64;
  default_price_per_1k : f64;
  default_token_pricing : option TokenPricing;
  provider_token_pricing : gmap string TokenPricing;
  provider_model_token_pricing : gmap string (gmap string TokenPricing);
  max_micros : Z;
  per_agent_max_micros : Z;
  per_tenant_max_micros : Z;
  spent_micros : Z;
  per_agent_micros : gmap Z Z;
  agent_tenants : gmap Z string;
  per_tenant_micros : gmap string Z;
  global_call_lock : LockId;
  tenant_call_locks : gmap string LockId;
  agent_call_locks : gmap Z LockId;
  next_lock : LockId }.

Definition set_pricing (p : gmap string f64) (b : BudgetEnforcer) : BudgetEnforcer :=
  mkEnforcer p (default_price_per_1k b) (default_token_pricing b) (provider_token_pricing b)
    (provider_model_token_pricing b) (max_micros b) (per_agent_max_micros b) (per_tenant_max_micros b) (spent_micros b)
    (per_agent_micros b) (agent_tenants b) (per_tenant_micros b) (global_call_lock b) (tenant_call_locks b)
    (agent_call_locks b) (next_lock b).
Definition set_token_pricing (d : option TokenPricing) (p : gmap string TokenPricing)
    (pm : gmap string (gmap string TokenPricing)) (b : BudgetEnforcer) : BudgetEnforcer :=
  mkEnforcer (pricing b) (default_price_per_1k b) d p pm (max_micros b) (per_agent_max_micros b) (per_tenant_max_micros b)
    (spent_micros b) (per_agent_micros b) (agent_tenants b) (per_tenant_micros b) (global_call_lock b)
    (tenant_call_locks b) (agent_call_locks b) (next_lock b).
Definition set_spend (g : Z) (pa : gmap Z Z) (pt : gmap string Z) (b : BudgetEnforcer) : BudgetEnforcer :=
  mkEnforcer (pricing b) (default_price_per_1k b) (default_token_pricing b) (provider_token_pricing b)
    (provider_model_token_pricing b) (max_micros b) (per_agent_max_micros b) (per_tenant_max_micros b) g pa
    (agent_tenants b) pt (global_call_lock b) (tenant_call_locks b) (agent_call_locks b) (next_lock b).
Definition set_tenants (t : gmap Z string) (b : BudgetEnforcer) : BudgetEnforcer :=
  mkEnforcer (pricing b) (default_price_per_1k b) (default_token_pricing b) (provider_token_pricing b)
    (provider_model_token_pricing b) (max_micros b) (per_agent_max_micros b) (per_tenant_max_micros b) (spent_micros b)
    (per_agent_micros b) t (per_tenant_micros b) (global_call_lock b) (tenant_call_locks b) (agent_call_locks b)
    (next_lock b).
Definition set_locks (t : gmap string LockId) (a : gmap Z LockId) (next : LockId) (b : BudgetEnforcer) : BudgetEnforcer :=
  mkEnforcer (pricing b) (default_price_per_1k b) (default_token_pricing b) (provider_token_pricing b)
    (provider_model_token_pricing b) (max_micros b) (per_agent_max_micros b) (per_tenant_max_micros b) (spent_micros b)
    (per_agent_micros b) (agent_tenants b) (per_tenant_micros b) (global_call_lock b) t a next.

(** ** Construction *)

Definition with_limits (default_price max_usd per_agent_max_usd per_tenant_max_usd : f64) : BudgetEnforcer :=
  mkEnforcer ∅ (f64_max default_price f64_zero) None ∅ ∅ (usd_to_micros max_usd) (usd_to_micros per_agent_max_usd)
    (usd_to_micros per_tenant_max_usd) 0 ∅ ∅ ∅ 0 ∅ ∅ 1.
Definition with_pricing (default_price max_usd per_agent_max_usd : f64) : BudgetEnforcer :=
  with_limits default_price max_usd per_agent_max_usd f64_zero.
Definition budget_new (max_cost_usd : f64) : BudgetEnforcer := with_pricing f64_zero max_cost_usd f64_zero.

Inductive PricingError :=
| NoOutputAllowance | NoSpillRetention | BadUsd (name : string) | EmptyProviderId | EmptyModelId | BadPrice (name : string).

Definition bad_price (x : f64) : bool := negb (is_finite x) || f64_lt x f64_zero.

(** [TokenPricing::validate]. *)
Definition validate_pricing (p : TokenPricing) : result PricingError unit :=
  _ ← ensure (negb (bad_price (input_usd p))) (BadPrice "input_usd_per_1k_tokens");
  _ ← ensure (negb (bad_price (cached_input_usd p))) (BadPrice "cached_input_usd_per_1k_tokens");
  ensure (negb (bad_price (output_usd p))) (BadPrice "output_usd_per_1k_tokens").

(** The fields of [BudgetConfig] that matter for spend. *)
Record BudgetConfig := mkBudgetConfig {
  max_output_tokens_per_request : Z;
  context_spill_retention_seconds : Z;
  bc_max_usd : f64;
  bc_per_agent_max_usd : f64;
  bc_per_tenant_max_usd : f64;
  usd_per_1k_tokens : f64;
  bc_provider_pricing : list (string * f64);
  bc_default_token_pricing : option TokenPricing;
  bc_provider_token_pricing : list (string * TokenPricing);
  bc_provider_model_token_pricing : list (string * list (string * TokenPricing)) }.

Definition empty_id (s : string) : bool := bool_decide (trim s = EmptyString).

(** [for x in xs { f(x)? }]. *)
Fixpoint for_each {A : Type} (f : A → result PricingError unit) (xs : list A) : result PricingError unit :=
  match xs with
  | [] => Ok tt
  | x :: xs => _ ← f x; for_each f xs
  end.

(** [BudgetConfig::validate]. *)
Definition validate_config (c : BudgetConfig) : result PricingError unit :=
  _ ← ensure (negb (max_output_tokens_per_request c =? 0)) NoOutputAllowance;
  _ ← ensure (negb (context_spill_retention_seconds c =? 0)) NoSpillRetention;
  _ ← for_each (λ p : string * f64, ensure (negb (bad_price p.2)) (BadUsd p.1))
        [("max_usd", bc_max_usd c); ("per_agent_max_usd", bc_per_agent_max_usd c);
         ("per_tenant_max_usd", bc_per_tenant_max_usd c); ("usd_per_1k_tokens", usd_per_1k_tokens c)];
  _ ← for_each (λ p : string * f64,
        _ ← ensure (negb (empty_id p.1)) EmptyProviderId;
        ensure (negb (bad_price p.2)) (BadPrice p.1)) (bc_provider_pricing c);
  _ ← match bc_default_token_pricing c with Some p => validate_pricing p | None => Ok tt end;
  _ ← for_each (λ p : string * TokenPricing,
        _ ← ensure (negb (empty_id p.1)) EmptyProviderId; validate_pricing p.2) (bc_provider_token_pricing c);
  for_each (λ p : string * list (string * TokenPricing),
    _ ← ensure (negb (empty_id p.1)) EmptyProviderId;
    for_each (λ q : string * TokenPricing,
      _ ← ensure (negb (empty_id q.1)) EmptyModelId; validate_pricing q.2) p.2) (bc_provider_model_token_pricing c).

Definition set_provider_price (provider : string) (usd_per_1k : f64) (b : BudgetEnforcer) : BudgetEnforcer :=
  set_pricing (<[provider := f64_max usd_per_1k f64_zero]> (pricing b)) b.

Definition set_provider_token_pricing (provider : string) (p : TokenPricing) (b : BudgetEnforcer)
    : result PricingError BudgetEnforcer :=
  _ ← ensure (negb (empty_id provider)) EmptyProviderId;
  _ ← validate_pricing p;
  Ok (set_token_pricing (default_token_pricing b) (<[provider := p]> (provider_token_pricing b))
        (provider_model_token_pricing b) b).

Definition set_provider_model_token_pricing (provider model : string) (p : TokenPricing) (b : BudgetEnforcer)
    : result PricingError BudgetEnforcer :=
  _ ← ensure (negb (empty_id provider)) EmptyProviderId;
  _ ← ensure (negb (empty_id model)) EmptyModelId;
  _ ← validate_pricing p;
  let models := default ∅ (provider_model_token_pricing b !! provider) in
  Ok (set_token_pricing (default_token_pricing b) (provider_token_pricing b)
        (<[provider := <[model := p]> models]> (provider_model_token_pricing b)) b).

(** A loop that threads the enforcer. *)
Fixpoint fold_each {A : Type} (f : A → BudgetEnforcer → result PricingError BudgetEnforcer) (xs : list A)
    (b : BudgetEnforcer) : result PricingError BudgetEnforcer :=
  match xs with
  | [] => Ok b
  | x :: xs => b ← f x b; fold_each f xs b
  end.

Definition try_from_config (c : BudgetConfig) : result PricingError BudgetEnforcer :=
  _ ← validate_config c;
  let b := with_limits (usd_per_1k_tokens c) (bc_max_usd c) (bc_per_agent_max_usd c) (bc_per_tenant_max_usd c) in
  let b := set_token_pricing (bc_default_token_pricing c) ∅ ∅ b in
  let b := foldl (λ b p, set_provider_price p.1 p.2 b) b (bc_provider_pricing c) in
  b ← fold_each (λ p b, set_provider_token_pricing p.1 p.2 b) (bc_provider_token_pricing c) b;
  fold_each (λ p b, fold_each (λ q b, set_provider_model_token_pricing p.1 q.1 q.2 b) p.2 b)
    (bc_provider_model_token_pricing c) b.

(** ** Prices *)

Definition price_per_1k (b : BudgetEnforcer) (provider : string) : f64 :=
  default (default_price_per_1k b) (pricing b !! provider).

Definition cost_of (b : BudgetEnforcer) (provider : string) (tokens : Z) : f64 :=
  f64_mul (price_per_1k b provider) (f64_div (f64_of_Z tokens) (f64_of_Z 1000)).

Definition token_pricing_for (b : BudgetEnforcer) (provider model : string) : TokenPricing :=
  match provider_model_token_pricing b !! provider ≫= λ models, models !! model with
  | Some p => p
  | None =>
      match provider_token_pricing b !! provider with
      | Some p => p
      | None =>
          match pricing b !! provider with
          | Some price => blended price
          | None => default (blended (default_price_per_1k b)) (default_token_pricing b)
          end
      end
  end.

Definition cost_of_usage (b : BudgetEnforcer) (provider model : string) (usage : LlmUsage) : f64 :=
  let p := token_pricing_for b provider model in
  let cached_input := Z.min (cached_tokens usage) (input_tokens usage) in
  let uncached_input := sat_sub (input_tokens usage) cached_input in
  f64_div (f64_add (f64_add (f64_mul (f64_of_Z uncached_input) (input_usd p))
                      (f64_mul (f64_of_Z cached_input) (cached_input_usd p)))
             (f64_mul (f64_of_Z (output_tokens usage)) (output_usd p))) (f64_of_Z 1000).

(** ** Counters *)

Definition is_active (b : BudgetEnforcer) : bool :=
  (0 <? max_micros b) || (0 <? per_agent_max_micros b) || (0 <? per_tenant_max_micros b).

Definition register_agent_tenant (agent : Z) (tenant : string) (b : BudgetEnforcer) : BudgetEnforcer :=
  set_tenants (<[agent := tenant]> (agent_tenants b)) b.

Definition agent_spent (b : BudgetEnforcer) (agent : Z) : Z := default 0 (per_agent_micros b !! agent).
Definition tenant_spent (b : BudgetEnforcer) (tenant : string) : Z := default 0 (per_tenant_micros b !! tenant).

Definition exceeded (scope : BudgetScope) (spent limit : Z) : BudgetExceeded :=
  mkExceeded scope (micros_to_usd spent) (micros_to_usd limit).

Definition check (b : BudgetEnforcer) (agent : Z) : result BudgetExceeded unit :=
  _ ← ensure (negb ((0 <? max_micros b) && (max_micros b <=? spent_micros b)))
        (exceeded GlobalScope (spent_micros b) (max_micros b));
  _ ← ensure (negb ((0 <? per_agent_max_micros b) && (per_agent_max_micros b <=? agent_spent b agent)))
        (exceeded AgentScope (agent_spent b agent) (per_agent_max_micros b));
  if 0 <? per_tenant_max_micros b then
    match agent_tenants b !! agent with
    | Some tenant =>
        ensure (negb (per_tenant_max_micros b <=? tenant_spent b tenant))
          (exceeded TenantScope (tenant_spent b tenant) (per_tenant_max_micros b))
    | None => Ok tt
    end
  else Ok tt.

(** The charge of a number of micro-dollars to every counter of an agent. *)
Definition add_spend (agent : Z) (micros : Z) (b : BudgetEnforcer) : BudgetEnforcer :=
  if 0 <? micros then
    set_spend (sat_add64 (spent_micros b) micros)
      (<[agent := sat_add64 (agent_spent b agent) micros]> (per_agent_micros b))
      match agent_tenants b !! agent with
      | Some tenant => <[tenant := sat_add64 (tenant_spent b tenant) micros]> (per_tenant_micros b)
      | None => per_tenant_micros b
      end b
  else b.

Definition record_calculated_charge (agent : Z) (cost_usd : f64) (b : BudgetEnforcer) : BudgetEnforcer * (f64 * Z) :=
  (add_spend agent (usd_to_micros cost_usd) b, (cost_usd, usd_to_micros cost_usd)).

Definition record_charge (agent : Z) (provider : string) (tokens : Z) (b : BudgetEnforcer) : BudgetEnforcer * (f64 * Z) :=
  record_calculated_charge agent (cost_of b provider tokens) b.

Definition record_usage_charge (agent : Z) (provider model : string) (usage : LlmUsage) (b : BudgetEnforcer)
    : BudgetEnforcer * (f64 * Z) :=
  record_calculated_charge agent (cost_of_usage b provider model usage) b.

Definition can_proceed (b : BudgetEnforcer) : bool := (max_micros b =? 0) || (spent_micros b <? max_micros b).

Definition record_cost (cost_usd : f64) (b : BudgetEnforcer) : BudgetEnforcer :=
  let micros := usd_to_micros cost_usd in
  if 0 <? micros then set_spend (sat_add64 (spent_micros b) micros) (per_agent_micros b) (per_tenant_micros b) b else b.

Definition remaining (b : BudgetEnforcer) : f64 :=
  if max_micros b =? 0 then S754_infinity false else micros_to_usd (sat_sub (max_micros b) (spent_micros b)).

(** The entry goes; a guard that holds the lock keeps it. *)
Definition unregister_agent (agent : Z) (b : BudgetEnforcer) : BudgetEnforcer :=
  let tenant := agent_tenants b !! agent in
  let tenants := delete agent (agent_tenants b) in
  let tenant_locks :=
    match tenant with
    | Some t =>
        if existsb (λ p : Z * string, bool_decide (p.2 = t)) (map_to_list tenants) then tenant_call_locks b
        else delete t (tenant_call_locks b)
    | None => tenant_call_locks b
    end in
  set_locks tenant_locks (delete agent (agent_call_locks b)) (next_lock b) (set_tenants tenants b).

(** ** Restart *)

Record BudgetUsageSnapshot := mkSnapshot {
  global_micros : Z;
  sn_per_agent : gmap Z Z;
  sn_per_tenant : gmap string Z;
  sn_tenants : gmap Z string }.

Definition DEFAULT_TENANT : string := "default".

(** One row of the usage log. *)
Definition add_usage_row (s : BudgetUsageSnapshot) (row : Z * Z) : BudgetUsageSnapshot :=
  let '(agent, cost_micros) := row in
  let tenant := default DEFAULT_TENANT (sn_tenants s !! agent) in
  mkSnapshot (sat_add64 (global_micros s) cost_micros)
    (<[agent := sat_add64 (default 0 (sn_per_agent s !! agent)) cost_micros]> (sn_per_agent s))
    (<[tenant := sat_add64 (default 0 (sn_per_tenant s !! tenant)) cost_micros]> (sn_per_tenant s))
    (<[agent := tenant]> (sn_tenants s)).

(** The tenants of the [agents] table, and the log in the order of its rows. *)
Definition load_budget_usage_snapshot (agents : gmap Z string) (usage_log : list (Z * Z)) : BudgetUsageSnapshot :=
  foldl add_usage_row (mkSnapshot 0 ∅ ∅ agents) usage_log.

Definition rehydrate (s : BudgetUsageSnapshot) (b : BudgetEnforcer) : BudgetEnforcer :=
  set_tenants (sn_tenants s) (set_spend (global_micros s) (sn_per_agent s) (sn_per_tenant s) b).

(** [DELETE FROM usage_log WHERE agent_id = ?1] and [DELETE FROM agents WHERE id = ?1]. *)
Definition erase_agent (agent : Z) (agents : gmap Z string) (usage_log : list (Z * Z)) : gmap Z string * list (Z * Z) :=
  (delete agent agents, retain (λ row, negb (row.1 =? agent)) usage_log).

(** ** Admission *)

(** [begin_call], at its awaits and lookups.  A phase carries the locks taken so far. *)
Inductive CallPhase :=
| CpStart
| CpGlobal
| CpTenantLookup (g : option LockId)
| CpTenant (g : option LockId) (lock : LockId)
| CpAgentLookup (g t : option LockId)
| CpAgent (g t : option LockId) (lock : LockId)
| CpCheck (g t a : option LockId)
| CpAdmitted (g t a : option LockId)
| CpCharged (g t a : option LockId)
| CpRefused (e : BudgetExceeded).

(** The locks a call holds. *)
Definition locks_of (p : CallPhase) : list LockId :=
  match p with
  | CpTenantLookup g | CpTenant g _ => option_list g
  | CpAgentLookup g t | CpAgent g t _ => option_list g ++ option_list t
  | CpCheck g t a | CpAdmitted g t a | CpCharged g t a => option_list g ++ option_list t ++ option_list a
  | CpStart | CpGlobal | CpRefused _ => []
  end.

(** [entry(..).or_insert_with(..).clone()]. *)
Definition tenant_lock (tenant : string) (b : BudgetEnforcer) : LockId * BudgetEnforcer :=
  match tenant_call_locks b !! tenant with
  | Some l => (l, b)
  | None =>
      (next_lock b, set_locks (<[tenant := next_lock b]> (tenant_call_locks b)) (agent_call_locks b) (next_lock b + 1) b)
  end.
Definition agent_lock (agent : Z) (b : BudgetEnforcer) : LockId * BudgetEnforcer :=
  match agent_call_locks b !! agent with
  | Some l => (l, b)
  | None =>
      (next_lock b, set_locks (tenant_call_locks b) (<[agent := next_lock b]> (agent_call_locks b)) (next_lock b + 1) b)
  end.

(** One step of [begin_call].  [free] tells whether a lock is free and handed to this caller. *)
Definition begin_step (free : LockId → bool) (agent : Z) (b : BudgetEnforcer) (p : CallPhase) : BudgetEnforcer * CallPhase :=
  match p with
  | CpStart => if 0 <? max_micros b then (b, CpGlobal) else (b, CpTenantLookup None)
  | CpGlobal => if free (global_call_lock b) then (b, CpTenantLookup (Some (global_call_lock b))) else (b, p)
  | CpTenantLookup g =>
      match (if 0 <? per_tenant_max_micros b then agent_tenants b !! agent else None) with
      | Some tenant => let '(l, b) := tenant_lock tenant b in (b, CpTenant g l)
      | None => (b, CpAgentLookup g None)
      end
  | CpTenant g l => if free l then (b, CpAgentLookup g (Some l)) else (b, p)
  | CpAgentLookup g t =>
      if 0 <? per_agent_max_micros b then let '(l, b) := agent_lock agent b in (b, CpAgent g t l)
      else (b, CpCheck g t None)
  | CpAgent g t l => if free l then (b, CpCheck g t (Some l)) else (b, p)
  | CpCheck g t a => match check b agent with Ok _ => (b, CpAdmitted g t a) | Err e => (b, CpRefused e) end
  | _ => (b, p)
  end.

(** The enforcer with the calls in progress, by caller. *)
Record BudgetWorld := mkBudget { bw_enforcer : BudgetEnforcer; bw_calls : gmap Z (Z * CallPhase) }.

(** A provider call ends with its charge and then the guard goes ([execution.rs]); a call that fails or is
    cancelled drops the guard without a charge. *)
Inductive BudgetEvent :=
| BeCall (c agent : Z)
| BeStep (c : Z) (granted : bool)
| BeCharge (c : Z) (provider model : string) (usage : LlmUsage)
| BeDrop (c : Z)
| BeRegister (agent : Z) (tenant : string)
| BeUnregister (agent : Z).

Definition lock_free (calls : gmap Z (Z * CallPhase)) (l : LockId) : bool :=
  forallb (λ x : Z * (Z * CallPhase), negb (zmem l (locks_of x.2.2))) (map_to_list calls).

(** A caller can go away while it waits and after it was admitted. *)
Definition cp_droppable (p : CallPhase) : bool :=
  match p with
  | CpStart | CpGlobal | CpTenant _ _ | CpAgent _ _ _ | CpAdmitted _ _ _ | CpCharged _ _ _ | CpRefused _ => true
  | CpTenantLookup _ | CpAgentLookup _ _ | CpCheck _ _ _ => false
  end.

Definition budget_exec (w : BudgetWorld) (ev : BudgetEvent) : BudgetWorld :=
  let b := bw_enforcer w in
  match ev with
  | BeCall c agent =>
      match bw_calls w !! c with
      | None => mkBudget b (<[c := (agent, CpStart)]> (bw_calls w))
      | Some _ => w
      end
  | BeStep c granted =>
      match bw_calls w !! c with
      | Some (agent, p) =>
          let '(b, p) := begin_step (λ l, granted && lock_free (bw_calls w) l) agent b p in
          mkBudget b (<[c := (agent, p)]> (bw_calls w))
      | None => w
      end
  | BeCharge c provider model usage =>
      match bw_calls w !! c with
      | Some (agent, CpAdmitted g t a) =>
          mkBudget (record_usage_charge agent provider model usage b).1 (<[c := (agent, CpCharged g t a)]> (bw_calls w))
      | _ => w
      end
  | BeDrop c =>
      match bw_calls w !! c with
      | Some (_, p) => if cp_droppable p then mkBudget b (delete c (bw_calls w)) else w
      | None => w
      end
  | BeRegister agent tenant => mkBudget (register_agent_tenant agent tenant b) (bw_calls w)
  | BeUnregister agent => mkBudget (unregister_agent agent b) (bw_calls w)
  end.
