(* ===== verification/BudgetInv.v ===== *)
(** * Spend ceilings hold up to one call

    For each scope with a ceiling (the whole kernel, a tenant, an agent), the locks of an admission make
    the check, the provider call and its charge one transaction: whatever calls interleave, the spend of
    the scope passes its ceiling by less than one charge.  Then the counters as saturated sums of the
    charges, and their reconstruction after a restart. *)

From S2P Require Import Prelude Budget.
From Stdlib Require Import SpecFloat.
#[local] Open Scope Z_scope.

(** ** Scopes *)

Inductive Scope := ScGlobal | ScTenant (t : string) | ScAgent (a : Z).

Definition scope_limit (b : BudgetEnforcer) (s : Scope) : Z :=
  match s with ScGlobal => max_micros b | ScTenant _ => per_tenant_max_micros b | ScAgent _ => per_agent_max_micros b end.
Definition scope_spent (b : BudgetEnforcer) (s : Scope) : Z :=
  match s with ScGlobal => spent_micros b | ScTenant t => tenant_spent b t | ScAgent a => agent_spent b a end.
Definition scope_lock (b : BudgetEnforcer) (s : Scope) : option Z :=
  match s with
  | ScGlobal => Some (global_call_lock b)
  | ScTenant t => tenant_call_locks b !! t
  | ScAgent a => agent_call_locks b !! a
  end.

(** The agents whose calls a scope covers. *)
Definition covers (b : BudgetEnforcer) (s : Scope) (agent : Z) : Prop :=
  match s with ScGlobal => True | ScTenant t => agent_tenants b !! agent = Some t | ScAgent a => agent = a end.
#[local] Instance covers_dec b s agent : Decision (covers b s agent).
Proof. destruct s; cbn; apply _. Defined.

(** The lock a call has taken or asked for in a scope, once it has. *)
Definition asked (s : Scope) (p : CallPhase) : option (option Z) :=
  match s, p with
  | ScGlobal, (CpTenantLookup g | CpTenant g _ | CpAgentLookup g _ | CpAgent g _ _ | CpCheck g _ _ | CpAdmitted g _ _) => Some g
  | ScTenant _, CpTenant _ l => Some (Some l)
  | ScTenant _, (CpAgentLookup _ t | CpAgent _ t _ | CpCheck _ t _ | CpAdmitted _ t _) => Some t
  | ScAgent _, CpAgent _ _ l => Some (Some l)
  | ScAgent _, (CpCheck _ _ a | CpAdmitted _ _ a) => Some a
  | _, _ => None
  end.

Definition admitted (p : CallPhase) : bool := match p with CpAdmitted _ _ _ => true | _ => false end.

(** The invariant of a scope with bound [M] on its spend. *)
Record scope_ok (s : Scope) (M : Z) (w : BudgetWorld) : Prop := {
  so_exclusive : ∀ c c' x x' l, bw_calls w !! c = Some x → bw_calls w !! c' = Some x' → c ≠ c' →
    l ∈ locks_of x.2 → l ∉ locks_of x'.2;
  so_lock : ∀ c agent p o, bw_calls w !! c = Some (agent, p) → covers (bw_enforcer w) s agent → asked s p = Some o →
    is_Some o ∧ o = scope_lock (bw_enforcer w) s;
  so_bound : scope_spent (bw_enforcer w) s <= M;
  so_admitted : ∀ c agent p, bw_calls w !! c = Some (agent, p) → covers (bw_enforcer w) s agent → admitted p = true →
    scope_spent (bw_enforcer w) s < scope_limit (bw_enforcer w) s }.

Lemma lock_free_spec calls l : lock_free calls l = true ↔ ∀ c x, calls !! c = Some x → l ∉ locks_of x.2.
Proof.
  unfold lock_free. rewrite forallb_forall. split.
  - intros H c x Hc. specialize (H (c, x)). rewrite <- list_elem_of_In, elem_of_map_to_list in H. specialize (H Hc).
    cbn in H. by apply negb_true_iff, zmem_false in H.
  - intros H [c x] Hin%list_elem_of_In%elem_of_map_to_list. cbn. apply negb_true_iff, zmem_false. by eapply H.
Qed.

(** An admitted call of the scope holds its lock, so there is one at most. *)
Lemma admitted_holds s p o l : admitted p = true → asked s p = Some o → o = Some l → l ∈ locks_of p.
Proof.
  intros Hp Ha ->. destruct p; try done. destruct s; cbn in *; simplify_eq; rewrite ?elem_of_app; set_solver.
Qed.

Lemma asked_admitted s p : admitted p = true → ∃ o, asked s p = Some o.
Proof. destruct p; try done. destruct s; cbn; eauto. Qed.

Lemma one_admitted s M w c c' agent agent' p p' :
  scope_ok s M w → bw_calls w !! c = Some (agent, p) → bw_calls w !! c' = Some (agent', p') →
  covers (bw_enforcer w) s agent → covers (bw_enforcer w) s agent' → admitted p = true → admitted p' = true → c = c'.
Proof.
  intros Hw Hc Hc' Hs Hs' Hp Hp'. destruct (decide (c = c')) as [|Hne]; [done|]. exfalso.
  destruct (asked_admitted s p Hp) as [o Ho], (asked_admitted s p' Hp') as [o' Ho'].
  destruct (so_lock _ _ _ Hw c agent p o Hc Hs Ho) as [[l ->] Hl].
  destruct (so_lock _ _ _ Hw c' agent' p' o' Hc' Hs' Ho') as [[l' ->] Hl']. rewrite <- Hl in Hl'. injection Hl' as ->.
  eapply (so_exclusive _ _ _ Hw c c' _ _ l Hc Hc' Hne); by eapply admitted_holds.
Qed.

(** ** Frame *)

(** What decides the invariant of the other calls. *)
Definition same_scope (s : Scope) (b b' : BudgetEnforcer) : Prop :=
  scope_limit b' s = scope_limit b s ∧ scope_spent b' s = scope_spent b s ∧ (∀ agent, covers b' s agent ↔ covers b s agent).

(** A call moves on: it takes no lock of another, its lock is the scope's, and it is admitted below the ceiling. *)
Lemma scope_ok_step s M w c agent p b' p' :
  scope_ok s M w → bw_calls w !! c = Some (agent, p) → same_scope s (bw_enforcer w) b' →
  (∀ l, scope_lock (bw_enforcer w) s = Some l → scope_lock b' s = Some l) →
  (∀ l, l ∈ locks_of p' → l ∈ locks_of p ∨ ∀ c x, bw_calls w !! c = Some x → l ∉ locks_of x.2) →
  (∀ o, covers b' s agent → asked s p' = Some o → is_Some o ∧ o = scope_lock b' s) →
  (covers b' s agent → admitted p' = true → scope_spent b' s < scope_limit b' s) →
  scope_ok s M (mkBudget b' (<[c := (agent, p')]> (bw_calls w))).
Proof.
  intros Hw Hc (Hlim & Hsp & Hcov) Hlock Htake Hask Hadm. split; cbn [bw_enforcer bw_calls].
  - intros c1 c2 x1 x2 l H1 H2 Hne Hl1 Hl2.
    apply lookup_insert_Some in H1, H2. destruct H1 as [[<- <-]|[Hn1 H1]], H2 as [[<- <-]|[Hn2 H2]]; try done.
    + destruct (Htake l Hl1) as [Hold|Hfree]; [|by eapply Hfree]. by eapply (so_exclusive _ _ _ Hw c c2 _ _ l Hc H2).
    + destruct (Htake l Hl2) as [Hold|Hfree]; [|by eapply Hfree]. by eapply (so_exclusive _ _ _ Hw c1 c _ _ l H1 Hc).
    + by eapply (so_exclusive _ _ _ Hw c1 c2 _ _ l).
  - intros c' ag q o [[<- [= <- <-]]|[Hn Hc']]%lookup_insert_Some Hs Ho; [by apply Hask|].
    destruct (so_lock _ _ _ Hw c' ag q o Hc') as [[l ->] Hl]; [by apply Hcov|done|]. split; [done|]. symmetry. by apply Hlock.
  - rewrite Hsp. apply Hw.
  - intros c' ag q [[<- [= <- <-]]|[Hn Hc']]%lookup_insert_Some Hs Hq; [by apply Hadm|].
    rewrite Hsp, Hlim. eapply (so_admitted _ _ _ Hw c' ag q); [done|by apply Hcov|done].
Qed.

Lemma same_scope_refl s b : same_scope s b b.
Proof. by split_and!. Qed.

Lemma tenant_lock_spec t b l b' :
  tenant_lock t b = (l, b') →
  tenant_call_locks b' !! t = Some l ∧ (∀ s, same_scope s b b') ∧
  (∀ s l, scope_lock b s = Some l → scope_lock b' s = Some l).
Proof.
  unfold tenant_lock. destruct (tenant_call_locks b !! t) as [l0|] eqn:Ht; intros [= <- <-].
  - split; [done|]. split; [|done]. intros s. apply same_scope_refl.
  - split; [apply lookup_insert_eq|]. split.
    + intros s. split_and!; try done; by destruct s.
    + intros s l. destruct s as [|t'|a']; cbn; try done. destruct (decide (t' = t)) as [->|]; [congruence|].
      by rewrite lookup_insert_ne.
Qed.

Lemma agent_lock_spec a b l b' :
  agent_lock a b = (l, b') →
  agent_call_locks b' !! a = Some l ∧ (∀ s, same_scope s b b') ∧
  (∀ s l, scope_lock b s = Some l → scope_lock b' s = Some l).
Proof.
  unfold agent_lock. destruct (agent_call_locks b !! a) as [l0|] eqn:Ht; intros [= <- <-].
  - split; [done|]. split; [|done]. intros s. apply same_scope_refl.
  - split; [apply lookup_insert_eq|]. split.
    + intros s. split_and!; try done; by destruct s.
    + intros s l. destruct s as [|t'|a']; cbn; try done. destruct (decide (a' = a)) as [->|]; [congruence|].
      by rewrite lookup_insert_ne.
Qed.

Lemma check_admits b agent s : check b agent = Ok tt → 0 < scope_limit b s → covers b s agent → scope_spent b s < scope_limit b s.
Proof.
  unfold check. intros Hc Hl Hs. destruct ((0 <? max_micros b) && _) eqn:H1; [done|].
  destruct ((0 <? per_agent_max_micros b) && _) eqn:H2; [done|]. cbn in Hc.
  rewrite andb_false_iff, Z.ltb_ge, Z.leb_gt in H1, H2. destruct s as [|t|a]; cbn in *; [lia| |subst; lia].
  rewrite (proj2 (Z.ltb_lt _ _) Hl), Hs in Hc. destruct (_ <=? _) eqn:H3; [done|]. apply Z.leb_gt in H3. lia.
Qed.

(** ** Events *)

(** The agent has no call in progress. *)
Definition quiet (w : BudgetWorld) (agent : Z) : Prop := ∀ c p, bw_calls w !! c ≠ Some (agent, p).

(** Agents come and go between their calls; registering an agent again for its tenant is harmless. *)
Definition budget_event_ok (w : BudgetWorld) (ev : BudgetEvent) : Prop :=
  match ev with
  | BeRegister agent tenant => agent_tenants (bw_enforcer w) !! agent = Some tenant ∨ quiet w agent
  | BeUnregister agent => quiet w agent
  | _ => True
  end.

(** What a response costs. *)
Definition charge_of (b : BudgetEnforcer) (provider model : string) (usage : LlmUsage) : Z :=
  usd_to_micros (cost_of_usage b provider model usage).

Lemma begin_scope_ok s M w c agent p granted :
  scope_ok s M w → 0 < scope_limit (bw_enforcer w) s → bw_calls w !! c = Some (agent, p) →
  let r := begin_step (λ l, granted && lock_free (bw_calls w) l) agent (bw_enforcer w) p in
  scope_ok s M (mkBudget r.1 (<[c := (agent, r.2)]> (bw_calls w))).
Proof.
  intros Hw Hlim Hc. set (b := bw_enforcer w) in *.
  assert (Hold : ∀ o, covers b s agent → asked s p = Some o → is_Some o ∧ o = scope_lock b s)
    by (intros o; by apply (so_lock _ _ _ Hw c agent p)).
  assert (Hadm : covers b s agent → admitted p = true → scope_spent b s < scope_limit b s)
    by (by apply (so_admitted _ _ _ Hw c agent p)).
  assert (Hfree : ∀ l, granted && lock_free (bw_calls w) l = true → ∀ c x, bw_calls w !! c = Some x → l ∉ locks_of x.2)
    by (intros l [_ H]%andb_true_iff; by apply lock_free_spec).
  assert (Hstay : scope_ok s M (mkBudget b (<[c := (agent, p)]> (bw_calls w))))
    by (apply (scope_ok_step s M w c agent p); auto using same_scope_refl).
  destruct p as [| |g|g l|g t|g t l|g t a|g t a|g t a|e]; cbn [begin_step]; try exact Hstay.
  - destruct (0 <? max_micros b) eqn:Hm; (apply (scope_ok_step s M w c agent CpStart); auto using same_scope_refl).
    intros o Hs Ho. destruct s; try done. apply Z.ltb_ge in Hm. cbn in Hlim. lia.
  - destruct (granted && _) eqn:Hf; [|exact Hstay].
    apply (scope_ok_step s M w c agent CpGlobal); auto using same_scope_refl; cbn.
    + intros l ->%list_elem_of_singleton. right. by apply Hfree.
    + intros o Hs Ho. destruct s; try done. by injection Ho as <-.
  - destruct (if 0 <? per_tenant_max_micros b then agent_tenants b !! agent else None) as [tenant|] eqn:Ht.
    + destruct (tenant_lock tenant b) as [l b'] eqn:Hl. destruct (tenant_lock_spec _ _ _ _ Hl) as (Hlk & Hsame & Hkeep).
      apply (scope_ok_step s M w c agent (CpTenantLookup g)); auto; cbn [fst snd]; [|done].
      intros o Hs%Hsame Ho. destruct s as [|t|a]; cbn in Ho; try done.
      * destruct (Hold o Hs Ho) as [[x ->] Hx]. split; [done|]. symmetry. by apply (Hkeep ScGlobal).
      * injection Ho as <-. split; [done|]. cbn in Hs, Hlim |- *. rewrite (proj2 (Z.ltb_lt _ _) Hlim), Hs in Ht. congruence.
    + apply (scope_ok_step s M w c agent (CpTenantLookup g)); auto using same_scope_refl; cbn.
      * intros l Hl. left. by rewrite app_nil_r in Hl.
      * intros o Hs Ho. destruct s as [|t|a]; try done; [by apply Hold|]. cbn in Hs, Hlim.
        by rewrite (proj2 (Z.ltb_lt _ _) Hlim), Hs in Ht.
  - destruct (granted && _) eqn:Hf; [|exact Hstay].
    apply (scope_ok_step s M w c agent (CpTenant g l)); auto using same_scope_refl; cbn.
    intros l' [H|H]%elem_of_app; [by left|]. right. apply list_elem_of_singleton in H as ->. by apply Hfree.
  - destruct (0 <? per_agent_max_micros b) eqn:Hm.
    + destruct (agent_lock agent b) as [l b'] eqn:Hl. destruct (agent_lock_spec _ _ _ _ Hl) as (Hlk & Hsame & Hkeep).
      apply (scope_ok_step s M w c agent (CpAgentLookup g t)); auto; cbn [fst snd]; [|done].
      intros o Hs%Hsame Ho. destruct s as [|t'|a']; cbn in Ho.
      * destruct (Hold o Hs Ho) as [[x ->] Hx]. split; [done|]. symmetry. by apply (Hkeep ScGlobal).
      * destruct (Hold o Hs Ho) as [[x ->] Hx]. split; [done|]. symmetry. by apply (Hkeep (ScTenant t')).
      * injection Ho as <-. split; [done|]. cbn in Hs. by subst a'.
    + apply (scope_ok_step s M w c agent (CpAgentLookup g t)); auto using same_scope_refl; cbn.
      * intros l Hl. left. by rewrite app_nil_r in Hl.
      * intros o Hs Ho. destruct s as [|t'|a']; try by apply Hold. cbn in Hlim. apply Z.ltb_ge in Hm. lia.
  - destruct (granted && _) eqn:Hf; [|exact Hstay].
    apply (scope_ok_step s M w c agent (CpAgent g t l)); auto using same_scope_refl; cbn.
    intros l' [H|[H|H]%elem_of_app]%elem_of_app; [left; set_solver|left; set_solver|].
    right. apply list_elem_of_singleton in H as ->. by apply Hfree.
  - destruct (check b agent) as [[]|e] eqn:Hck.
    + apply (scope_ok_step s M w c agent (CpCheck g t a)); auto using same_scope_refl.
      intros Hs _. by apply (check_admits b agent).
    + apply (scope_ok_step s M w c agent (CpCheck g t a)); auto using same_scope_refl; cbn.
      * by intros l ?%elem_of_nil.
      * intros o _. by destruct s.
Qed.

(** The calls stay and what the scope reads of the enforcer changes only where no call looks. *)
Lemma scope_ok_enforcer s M w b' :
  scope_ok s M w → scope_limit b' s = scope_limit (bw_enforcer w) s → scope_spent b' s = scope_spent (bw_enforcer w) s →
  (∀ c agent p, bw_calls w !! c = Some (agent, p) → covers b' s agent →
     covers (bw_enforcer w) s agent ∧ (asked s p ≠ None → scope_lock b' s = scope_lock (bw_enforcer w) s)) →
  scope_ok s M (mkBudget b' (bw_calls w)).
Proof.
  intros Hw Hlim Hsp H. split; cbn [bw_enforcer bw_calls].
  - apply Hw.
  - intros c agent p o Hc Hs Ho. destruct (H c agent p Hc Hs) as [Hs' Hl]. rewrite Hl by congruence.
    by apply (so_lock _ _ _ Hw c agent p).
  - rewrite Hsp. apply Hw.
  - intros c agent p Hc Hs Hp. rewrite Hlim, Hsp. destruct (H c agent p Hc Hs) as [Hs' _].
    by apply (so_admitted _ _ _ Hw c agent p).
Qed.

Lemma register_scope_ok s M w agent tenant :
  scope_ok s M w → agent_tenants (bw_enforcer w) !! agent = Some tenant ∨ quiet w agent →
  scope_ok s M (mkBudget (register_agent_tenant agent tenant (bw_enforcer w)) (bw_calls w)).
Proof.
  intros Hw He. apply scope_ok_enforcer; [done|by destruct s..|]. intros c ag p Hc Hs. split; [|by destruct s].
  destruct s as [|t|a]; try done. cbn in Hs. apply lookup_insert_Some in Hs as [[<- <-]|[_ Hs]]; [|done].
  destruct He as [He|He]; [done|]. by destruct (He c p).
Qed.

Lemma unregister_scope_ok s M w agent :
  scope_ok s M w → quiet w agent → scope_ok s M (mkBudget (unregister_agent agent (bw_enforcer w)) (bw_calls w)).
Proof.
  intros Hw Hq. apply scope_ok_enforcer; [done|by destruct s..|]. intros c ag p Hc Hs.
  assert (Hne : ag ≠ agent) by (intros ->; by destruct (Hq c p)). destruct s as [|t|a]; cbn in *; [done| |].
  - apply lookup_delete_Some in Hs as [_ Hs]. split; [done|]. intros _.
    destruct (agent_tenants (bw_enforcer w) !! agent) as [t'|]; [|done].
    destruct (existsb _ _) eqn:Hx; [done|]. rewrite lookup_delete_ne; [done|]. intros ->.
    apply not_true_iff_false in Hx. apply Hx. apply existsb_exists. exists (ag, t). cbn. split; [|by apply bool_decide_eq_true].
    apply list_elem_of_In, elem_of_map_to_list. by rewrite lookup_delete_ne.
  - subst a. split; [done|]. intros _. by rewrite lookup_delete_ne.
Qed.

Lemma call_scope_ok s M w c agent :
  scope_ok s M w → bw_calls w !! c = None → scope_ok s M (mkBudget (bw_enforcer w) (<[c := (agent, CpStart)]> (bw_calls w))).
Proof.
  intros Hw Hc. split; cbn [bw_enforcer bw_calls].
  - intros c1 c2 x1 x2 l [[-> <-]|[_ H1]]%lookup_insert_Some [[-> <-]|[_ H2]]%lookup_insert_Some Hne Hl1 Hl2;
      try by apply elem_of_nil in Hl1. { by apply elem_of_nil in Hl2. } by eapply (so_exclusive _ _ _ Hw c1 c2 _ _ l).
  - intros c' ag p o [[-> [= <- <-]]|[_ Hc']]%lookup_insert_Some Hs Ho; [by destruct s|].
    by apply (so_lock _ _ _ Hw c' ag p).
  - apply Hw.
  - intros c' ag p [[-> [= <- <-]]|[_ Hc']]%lookup_insert_Some Hs Hp; [done|]. by apply (so_admitted _ _ _ Hw c' ag p).
Qed.

Lemma drop_scope_ok s M w c : scope_ok s M w → scope_ok s M (mkBudget (bw_enforcer w) (delete c (bw_calls w))).
Proof.
  intros Hw. split; cbn [bw_enforcer bw_calls].
  - intros c1 c2 x1 x2 l [_ H1]%lookup_delete_Some [_ H2]%lookup_delete_Some. by apply (so_exclusive _ _ _ Hw c1 c2 _ _ l).
  - intros c' ag p o [_ Hc']%lookup_delete_Some. by apply (so_lock _ _ _ Hw c' ag p).
  - apply Hw.
  - intros c' ag p [_ Hc']%lookup_delete_Some. by apply (so_admitted _ _ _ Hw c' ag p).
Qed.

(** ** Charges *)

Lemma usd_to_micros_u64 x : is_u64 (usd_to_micros x).
Proof.
  unfold usd_to_micros, f64_as_u64, is_u64, u64_max. destruct (f64_le x f64_zero); [lia|].
  destruct (f64_round _) as [s|s| |[] m e]; try lia; [destruct s; lia|].
  assert (0 <= (if 0 <=? e then Z.pos m * 2 ^ e else Z.pos m / 2 ^ (- e))); [|lia].
  destruct (0 <=? e) eqn:He; [apply Z.mul_nonneg_nonneg; lia|]. apply Z.div_pos; [lia|]. apply Z.pow_pos_nonneg; lia.
Qed.

(** The spend of a scope after a charge. *)
Lemma add_spend_scope s agent micros b :
  0 <= micros → 0 <= scope_spent b s <= u64_max →
  scope_spent (add_spend agent micros b) s =
  if decide (covers b s agent) then sat_add64 (scope_spent b s) micros else scope_spent b s.
Proof.
  intros Hm Hs. unfold add_spend. destruct (0 <? micros) eqn:Hz.
  - destruct s as [|t|a]; cbn.
    + by rewrite decide_True.
    + unfold tenant_spent at 1. cbn. destruct (agent_tenants b !! agent) as [t'|]; [|done].
      destruct (decide (Some t' = Some t)) as [[= ->]|Hne]; [by rewrite lookup_insert_eq|].
      rewrite lookup_insert_ne; [done|congruence].
    + unfold agent_spent at 1. cbn. destruct (decide (agent = a)) as [->|Hne]; [by rewrite lookup_insert_eq|].
      by rewrite lookup_insert_ne.
  - apply Z.ltb_ge in Hz. assert (micros = 0) as -> by lia. unfold sat_add64. case_decide; lia.
Qed.

Lemma add_spend_frame agent micros b s :
  scope_limit (add_spend agent micros b) s = scope_limit b s ∧ scope_lock (add_spend agent micros b) s = scope_lock b s ∧
  ∀ ag, covers (add_spend agent micros b) s ag ↔ covers b s ag.
Proof. unfold add_spend. destruct (0 <? micros); [|done]. by destruct s. Qed.

Lemma charge_scope_ok s M B w c agent g t a micros :
  scope_ok s M w → bw_calls w !! c = Some (agent, CpAdmitted g t a) → 0 <= micros <= B →
  0 <= scope_spent (bw_enforcer w) s <= u64_max → scope_limit (bw_enforcer w) s - 1 + B <= M →
  scope_ok s M (mkBudget (add_spend agent micros (bw_enforcer w)) (<[c := (agent, CpCharged g t a)]> (bw_calls w))).
Proof.
  intros Hw Hc Hm Hs HM. set (b := bw_enforcer w) in *.
  destruct (add_spend_frame agent micros b s) as (Hlim & Hlk & Hcov).
  pose proof (add_spend_scope s agent micros b ltac:(lia) Hs) as Hsp.
  split; cbn [bw_enforcer bw_calls].
  - intros c1 c2 x1 x2 l H1 H2 Hne. apply lookup_insert_Some in H1, H2.
    destruct H1 as [[<- <-]|[_ H1]], H2 as [[<- <-]|[_ H2]]; try done; cbn [snd locks_of].
    + apply (so_exclusive _ _ _ Hw c c2 _ _ l Hc H2 Hne).
    + apply (so_exclusive _ _ _ Hw c1 c _ _ l H1 Hc Hne).
    + apply (so_exclusive _ _ _ Hw c1 c2 _ _ l H1 H2 Hne).
  - intros c' ag q o [[<- [= <- <-]]|[Hn Hc']]%lookup_insert_Some Hsc%Hcov Ho; [by destruct s|].
    rewrite Hlk. by apply (so_lock _ _ _ Hw c' ag q).
  - rewrite Hsp. destruct (decide (covers b s agent)) as [Hin|_]; [|apply Hw].
    pose proof (so_admitted _ _ _ Hw c agent _ Hc Hin eq_refl). fold b in H. unfold sat_add64. lia.
  - intros c' ag q [[<- [= <- <-]]|[Hn Hc']]%lookup_insert_Some Hsc%Hcov Hq; [done|]. rewrite Hlim, Hsp.
    destruct (decide (covers b s agent)) as [Hin|_]; [|by apply (so_admitted _ _ _ Hw c' ag q)].
    exfalso. apply Hn. by eapply (one_admitted s M w c c').
Qed.

(** ** Histories *)

Fixpoint budget_history (w : BudgetWorld) (evs : list BudgetEvent) : Prop :=
  match evs with
  | [] => True
  | ev :: evs => budget_event_ok w ev ∧ budget_history (budget_exec w ev) evs
  end.

(** Every counter is a [u64]. *)
Record counters_ok (b : BudgetEnforcer) : Prop := {
  cn_global : is_u64 (spent_micros b);
  cn_agent : map_Forall (λ _, is_u64) (per_agent_micros b);
  cn_tenant : map_Forall (λ _, is_u64) (per_tenant_micros b) }.

Lemma counters_scope b s : counters_ok b → is_u64 (scope_spent b s).
Proof.
  intros [H1 H2 H3]. assert (is_u64 0) by (unfold is_u64, u64_max; lia). destruct s as [|t|a]; cbn; [done| |].
  - unfold tenant_spent. destruct (per_tenant_micros b !! t) as [z|] eqn:Ht; [by apply (H3 t)|done].
  - unfold agent_spent. destruct (per_agent_micros b !! a) as [z|] eqn:Ha; [by apply (H2 a)|done].
Qed.

Lemma counters_add agent micros b : 0 <= micros → counters_ok b → counters_ok (add_spend agent micros b).
Proof.
  intros Hm Hc. unfold add_spend. destruct (0 <? micros); [|done].
  assert (Hs : ∀ s, is_u64 (sat_add64 (scope_spent b s) micros)).
  { intros s. pose proof (counters_scope b s Hc) as Hu. unfold is_u64, sat_add64 in *. lia. }
  destruct Hc as [H1 H2 H3]. split; cbn.
  - apply (Hs ScGlobal).
  - apply map_Forall_insert_2; [apply (Hs (ScAgent agent))|done].
  - destruct (agent_tenants b !! agent) as [t|]; [|done]. apply map_Forall_insert_2; [apply (Hs (ScTenant t))|done].
Qed.

(** Prices and ceilings are those of the configuration. *)
Definition same_config (b b' : BudgetEnforcer) : Prop :=
  (∀ p m u, charge_of b' p m u = charge_of b p m u) ∧ ∀ s, scope_limit b' s = scope_limit b s.

Lemma begin_step_config free agent b p : same_config b (begin_step free agent b p).1 ∧ (counters_ok b → counters_ok (begin_step free agent b p).1).
Proof.
  destruct p; cbn [begin_step]; unfold tenant_lock, agent_lock; repeat case_match; simplify_eq/=;
    (split; [by split; [|intros []]|by intros []]).
Qed.

Lemma exec_config w ev :
  same_config (bw_enforcer w) (bw_enforcer (budget_exec w ev)) ∧
  (counters_ok (bw_enforcer w) → counters_ok (bw_enforcer (budget_exec w ev))).
Proof.
  destruct ev; cbn [budget_exec]; unfold record_usage_charge, record_calculated_charge, register_agent_tenant, unregister_agent.
  - destruct (bw_calls w !! c); done.
  - destruct (bw_calls w !! c) as [[agent p]|]; [|done].
    pose proof (begin_step_config (λ l, granted && lock_free (bw_calls w) l) agent (bw_enforcer w) p) as H.
    by destruct (begin_step _ _ _ _).
  - destruct (bw_calls w !! c) as [[agent [| | | | | | |g t a| |]]|]; try done. split.
    + unfold add_spend. cbn. destruct (0 <? _); (split; [done|by intros []]).
    + apply counters_add, usd_to_micros_u64.
  - destruct (bw_calls w !! c) as [[agent p]|]; [|done]. by destruct (cp_droppable p).
  - split; [by split; [|intros []]|]. by intros [].
  - split; [by split; [|intros []]|]. by intros [].
Qed.

Lemma exec_scope_ok s M B w ev :
  scope_ok s M w → counters_ok (bw_enforcer w) → 0 < scope_limit (bw_enforcer w) s →
  scope_limit (bw_enforcer w) s - 1 + B <= M → budget_event_ok w ev →
  (∀ c p m u, ev = BeCharge c p m u → charge_of (bw_enforcer w) p m u <= B) → scope_ok s M (budget_exec w ev).
Proof.
  intros Hw Hcn Hlim HM He HB. destruct ev as [c agent|c granted|c p m u|c|agent tenant|agent]; cbn [budget_exec budget_event_ok] in *.
  - destruct (bw_calls w !! c) eqn:Hc; [done|]. by apply call_scope_ok.
  - destruct (bw_calls w !! c) as [[agent p]|] eqn:Hc; [|done].
    pose proof (begin_scope_ok s M w c agent p granted Hw Hlim Hc) as H. by destruct (begin_step _ _ _ _).
  - destruct (bw_calls w !! c) as [[agent [| | | | | | |g t a| |]]|] eqn:Hc; try done.
    apply (charge_scope_ok s M B); try done; [|by apply counters_scope]. split; [apply usd_to_micros_u64|].
    by apply (HB c p m u).
  - destruct (bw_calls w !! c) as [[agent p]|]; [|done]. destruct (cp_droppable p); [|done]. by apply drop_scope_ok.
  - by apply register_scope_ok.
  - by apply unregister_scope_ok.
Qed.

Lemma run_scope_ok s M B w evs :
  scope_ok s M w → counters_ok (bw_enforcer w) → 0 < scope_limit (bw_enforcer w) s →
  scope_limit (bw_enforcer w) s - 1 + B <= M → budget_history w evs →
  (∀ c p m u, BeCharge c p m u ∈ evs → charge_of (bw_enforcer w) p m u <= B) → scope_ok s M (foldl budget_exec w evs).
Proof.
  revert w. induction evs as [|ev evs IH]; intros w Hw Hcn Hlim HM Hev HB; [done|]. destruct Hev as [He Hev]. cbn.
  destruct (exec_config w ev) as [[Hch Hl] Hcn']. apply IH; try done.
  - eapply exec_scope_ok; try done. intros c p m u ->. apply (HB c), list_elem_of_here.
  - auto.
  - by rewrite Hl.
  - by rewrite Hl.
  - intros c p m u Hin. rewrite Hch. apply (HB c). by right.
Qed.


(** ** Counters as sums *)

(** What the agents that satisfy [f] were charged. *)
Definition sum_for (f : Z → bool) (cs : list (Z * Z)) : Z := zsum (snd <$> retain (λ x, f x.1) cs).

Definition charge_all (cs : list (Z * Z)) (b : BudgetEnforcer) : BudgetEnforcer := foldl (λ b x, add_spend x.1 x.2 b) b cs.

Definition in_scope (b : BudgetEnforcer) (s : Scope) (agent : Z) : bool := bool_decide (covers b s agent).

Definition amounts_ok (cs : list (Z * Z)) : Prop := Forall (λ x, is_u64 x.2) cs.

Lemma sum_for_cons f x cs : sum_for f (x :: cs) = (if f x.1 then x.2 else 0) + sum_for f cs.
Proof. unfold sum_for. cbn. by destruct (f x.1). Qed.

Lemma sum_for_nonneg f cs : amounts_ok cs → 0 <= sum_for f cs.
Proof.
  induction 1 as [|x cs [Hx _] _ IH]; [done|]. rewrite sum_for_cons. destruct (f x.1); lia.
Qed.

Lemma sum_for_ext f g cs : (∀ a, f a = g a) → sum_for f cs = sum_for g cs.
Proof. intros H. induction cs as [|x cs IH]; [done|]. by rewrite !sum_for_cons, H, IH. Qed.

(** Every counter is the saturated sum of the charges its scope covers. *)
Lemma charge_all_spent s cs b :
  counters_ok b → amounts_ok cs →
  scope_spent (charge_all cs b) s = Z.min u64_max (scope_spent b s + sum_for (in_scope b s) cs).
Proof.
  intros Hb Hcs. revert b Hb. induction Hcs as [|x cs Hx Hcs IH]; intros b Hb.
  - cbn. pose proof (counters_scope b s Hb) as []. unfold sum_for. cbn. lia.
  - assert (Hb' : counters_ok (add_spend x.1 x.2 b)) by (apply counters_add; [apply Hx|done]).
    change (charge_all (x :: cs) b) with (charge_all cs (add_spend x.1 x.2 b)). rewrite (IH _ Hb').
    destruct (add_spend_frame x.1 x.2 b s) as (_ & _ & Hcov).
    rewrite (sum_for_ext _ (in_scope b s)) by (intros a; unfold in_scope; by apply bool_decide_ext).
    rewrite (add_spend_scope s x.1 x.2 b) by (apply Hx || by apply counters_scope). rewrite sum_for_cons.
    pose proof (sum_for_nonneg (in_scope b s) cs Hcs). unfold in_scope at 2, sat_add64. unfold is_u64 in Hx.
    destruct (decide (covers b s x.1)); [rewrite bool_decide_true by done|rewrite bool_decide_false by done]; lia.
Qed.

(** A sum over a set of agents is determined by the sums of its members. *)
Lemma sum_for_agents f cs ids :
  NoDup ids → (∀ x, x ∈ cs → x.1 ∈ ids) →
  sum_for f cs = zsum ((λ a, if f a then sum_for (Z.eqb a) cs else 0) <$> ids).
Proof.
  intros Hnd. induction cs as [|x cs IH]; intros Hin.
  - symmetry. change (zsum ((λ a, if f a then 0 else 0) <$> ids) = 0). clear Hnd Hin. induction ids as [|a ids IH]; [done|].
    cbn. rewrite IH. by destruct (f a).
  - rewrite sum_for_cons, IH by (intros y Hy; apply Hin; by right).
    assert (Hx : x.1 ∈ ids) by (apply Hin, list_elem_of_here). clear IH Hin.
    assert (Hout : ∀ ids, x.1 ∉ ids → zsum ((λ a, if f a then sum_for (Z.eqb a) (x :: cs) else 0) <$> ids) =
      zsum ((λ a, if f a then sum_for (Z.eqb a) cs else 0) <$> ids)).
    { intros l. induction l as [|a l IHl]; [done|]. intros [Hna Hnl]%not_elem_of_cons. rewrite !fmap_cons. cbn [zsum].
      by rewrite (IHl Hnl), sum_for_cons, (proj2 (Z.eqb_neq a x.1)) by done. }
    induction Hnd as [|a ids Ha Hnd IH]; [by apply elem_of_nil in Hx|]. rewrite !fmap_cons. cbn [zsum].
    apply elem_of_cons in Hx as [<-|Hx].
    + rewrite (Hout ids Ha), sum_for_cons, Z.eqb_refl. destruct (f x.1); lia.
    + rewrite <- (IH Hx), sum_for_cons, (proj2 (Z.eqb_neq a x.1)) by (intros ->; done). destruct (f a); lia.
Qed.

Lemma sum_for_determined f cs rows :
  (∀ a, sum_for (Z.eqb a) rows = sum_for (Z.eqb a) cs) → sum_for f rows = sum_for f cs.
Proof.
  intros H. set (ids := remove_dups (cs.*1 ++ rows.*1)).
  assert (Hnd : NoDup ids) by apply NoDup_remove_dups.
  rewrite (sum_for_agents f rows ids), (sum_for_agents f cs ids); try done.
  - f_equal. apply list_fmap_ext. intros i a _. by rewrite H.
  - intros x Hx. apply elem_of_remove_dups, elem_of_app. left. by apply list_elem_of_fmap_2.
  - intros x Hx. apply elem_of_remove_dups, elem_of_app. right. by apply list_elem_of_fmap_2.
Qed.

(** ** Restart *)

Definition snap_spent (sn : BudgetUsageSnapshot) (s : Scope) : Z :=
  match s with
  | ScGlobal => global_micros sn
  | ScTenant t => default 0 (sn_per_tenant sn !! t)
  | ScAgent a => default 0 (sn_per_agent sn !! a)
  end.

Definition tenant_covers (agents : gmap Z string) (s : Scope) (agent : Z) : bool :=
  match s with ScGlobal => true | ScTenant t => bool_decide (agents !! agent = Some t) | ScAgent a => agent =? a end.

(** Rows of known agents keep the tenants and add to the counters of their scopes. *)
Lemma add_row_spent sn row s :
  is_Some (sn_tenants sn !! row.1) → is_u64 row.2 → 0 <= snap_spent sn s →
  sn_tenants (add_usage_row sn row) = sn_tenants sn ∧
  snap_spent (add_usage_row sn row) s =
    (if tenant_covers (sn_tenants sn) s row.1 then sat_add64 (snap_spent sn s) row.2 else snap_spent sn s).
Proof.
  destruct row as [agent micros]. intros [t Ht] Hm Hs. cbn [fst snd] in *. unfold add_usage_row. rewrite Ht. cbn.
  split; [by apply insert_id|]. destruct s as [|t'|a]; cbn; [done| |].
  - case_bool_decide as Hd.
    + rewrite Ht in Hd. injection Hd as ->. by rewrite lookup_insert_eq.
    + rewrite lookup_insert_ne; [done|congruence].
  - destruct (agent =? a) eqn:Ha.
    + apply Z.eqb_eq in Ha as ->. by rewrite lookup_insert_eq.
    + apply Z.eqb_neq in Ha. by rewrite lookup_insert_ne.
Qed.

Lemma load_spent rows sn s :
  (∀ x, x ∈ rows → is_Some (sn_tenants sn !! x.1)) → amounts_ok rows → 0 <= snap_spent sn s <= u64_max →
  sn_tenants (foldl add_usage_row sn rows) = sn_tenants sn ∧
  snap_spent (foldl add_usage_row sn rows) s =
    Z.min u64_max (snap_spent sn s + sum_for (tenant_covers (sn_tenants sn) s) rows).
Proof.
  intros Hin Hrows. revert sn Hin. induction Hrows as [|x rows Hx Hrows IH]; intros sn Hin Hs.
  - cbn. split; [done|]. unfold sum_for. cbn. lia.
  - destruct (add_row_spent sn x s) as [Ht Hsp]; [apply Hin, list_elem_of_here|done|lia|]. cbn [foldl].
    destruct (IH (add_usage_row sn x)) as [Ht' Hsp'].
    + intros y Hy. rewrite Ht. apply Hin. by right.
    + rewrite Hsp. unfold is_u64 in Hx. destruct (tenant_covers _ _ _); [unfold sat_add64; lia|done].
    + split; [congruence|]. rewrite Hsp', Ht, sum_for_cons, Hsp.
      pose proof (sum_for_nonneg (tenant_covers (sn_tenants sn) s) rows Hrows). unfold is_u64 in Hx.
      destruct (tenant_covers _ _ x.1); unfold sat_add64; lia.
Qed.


(** ** Witnesses *)

Definition usd (numerator denominator : Z) : f64 := f64_div (f64_of_Z numerator) (f64_of_Z denominator).

(** One cent per thousand tokens, a dollar for the kernel and two cents for a tenant or an agent. *)
Definition demo_enforcer : BudgetEnforcer :=
  register_agent_tenant 2 "acme" (register_agent_tenant 1 "acme" (with_limits (usd 1 100) (usd 1 1) (usd 2 100) (usd 2 100))).

Definition demo_usage : LlmUsage := mkLlmUsage 1000 500 0.

(** Two agents of a tenant ask at once: the second waits for the tenant's lock and is then refused. *)
Definition demo_calls : list BudgetEvent :=
  [BeCall 1 1; BeCall 2 2; BeStep 1 true; BeStep 1 true; BeStep 2 true; BeStep 1 true; BeStep 1 true; BeStep 1 true;
   BeStep 1 true; BeStep 1 true; BeStep 2 true; BeCharge 1 "p" "m" demo_usage; BeDrop 1; BeStep 2 true; BeStep 2 true;
   BeStep 2 true; BeStep 2 true; BeStep 2 true; BeStep 2 true; BeCharge 2 "p" "m" demo_usage; BeDrop 2].

Lemma with_limits_counters p m a t : counters_ok (with_limits p m a t).
Proof. split; cbn [with_limits spent_micros per_agent_micros per_tenant_micros]; [done|apply map_Forall_empty..]. Qed.

Lemma set_tenants_counters ts b : counters_ok b → counters_ok (set_tenants ts b).
Proof. by intros []. Qed.

Lemma demo_counters : counters_ok demo_enforcer.
Proof. do 2 apply set_tenants_counters. apply with_limits_counters. Qed.

Lemma demo_charge p m : charge_of demo_enforcer p m demo_usage = 15000.
Proof.
  unfold charge_of, cost_of_usage, token_pricing_for. cbn [provider_model_token_pricing provider_token_pricing pricing
    demo_enforcer register_agent_tenant set_tenants with_limits]. rewrite !lookup_empty. vm_compute. reflexivity.
Qed.


Definition demo_agents : gmap Z string := {[1 := "acme"; 2 := "acme"]}.
Definition demo_fresh : BudgetEnforcer := set_tenants demo_agents (with_limits (usd 1 100) (usd 1 1) (usd 2 100) (usd 2 100)).
Definition demo_charges : list (Z * Z) := [(1, 15000); (2, 15000); (1, 200)].
Definition demo_log : list (Z * Z) := [(2, 15000); (1, 15200)].

Lemma demo_amounts : amounts_ok demo_charges ∧ amounts_ok demo_log.
Proof. split; unfold amounts_ok; repeat constructor; vm_compute; discriminate. Qed.

Lemma demo_known x : x ∈ demo_log → is_Some (demo_agents !! x.1).
Proof. intros Hx. repeat (apply elem_of_cons in Hx as [-> |Hx]; [by eexists|]). by apply elem_of_nil in Hx. Qed.

Lemma demo_sums a : sum_for (Z.eqb a) demo_log = sum_for (Z.eqb a) demo_charges.
Proof. unfold demo_log, demo_charges. rewrite !sum_for_cons. cbn [fst snd]. destruct (Z.eqb a 1), (Z.eqb a 2); done. Qed.


(** ** Divergences *)

(** Unregistering an agent removes its lock from the table while a call holds it: once the agent is registered
    again, a second call is admitted before the first has been charged, and the two pass the ceiling by more
    than one charge. *)
Example unregister_breaks_exclusion :
  let step c := BeStep c true in
  let evs := [BeCall 1 1; step 1; step 1; step 1; step 1; step 1; step 1; step 1; BeUnregister 1; BeRegister 1 "acme";
              BeCall 2 1; step 2; step 2; step 2; step 2; step 2; step 2; step 2] in
  let b := set_locks ∅ ∅ 1 (set_tenants {[1 := "acme"]} (with_limits (usd 1 100) f64_zero (usd 2 100) (usd 2 100))) in
  let w := foldl budget_exec (mkBudget b ∅) evs in
  (admitted ∘ snd <$> bw_calls w !! 1) = Some true ∧ (admitted ∘ snd <$> bw_calls w !! 2) = Some true.
Proof. vm_compute. done. Qed.

(** A positive ceiling below half a micro-dollar is stored as zero, which means no ceiling. *)
Example tiny_ceiling_is_unlimited :
  f64_lt f64_zero (usd 4 10000000) = true ∧ bad_price (usd 4 10000000) = false ∧ max_micros (budget_new (usd 4 10000000)) = 0.
Proof. vm_compute. done. Qed.

(** Erasing an agent deletes its usage rows, so after a restart its tenant has spent less than before. *)
Example erasure_lowers_tenant_spend :
  let '(agents, log) := erase_agent 1 demo_agents demo_log in
  tenant_spent (rehydrate (load_budget_usage_snapshot demo_agents demo_log) demo_fresh) "acme" = 30200 ∧
  tenant_spent (rehydrate (load_budget_usage_snapshot agents log) demo_fresh) "acme" = 15000.
Proof. vm_compute. done. Qed.
