(* ===== verification/Connector.v ===== *)
(** * Providers: circuit breakers, retries and failover

    Models [crates/kernel/src/production.rs] and the send path of [connector.rs].  Provider adapters are
    outside the kernel: what one attempt observes of an adapter (a session or an error, what the session
    enforces and reports, its response) is a reply that the environment gives, as are cancellation during a
    backoff and the readings of the clock.  A send records every attempt it makes.  Concurrent sends share
    only the breakers, whose operations are also given as events. *)

From S2P Require Import Prelude.
From Stdlib Require Import Ascii.
#[local] Open Scope Z_scope.

(** ** Circuit breaker *)

Inductive BreakerState := Closed | Open | HalfOpen.
#[global] Instance breaker_state_eq_dec : EqDecision BreakerState.
Proof. solve_decision. Defined.

(** Times are nanoseconds of a monotonic clock. *)
Record CircuitBreaker := mkBreaker {
  failure_threshold : Z;
  consecutive_failures : Z;
  cb_state : BreakerState;
  last_failure : option Z;
  cooldown_secs : Z }.

Definition breaker_new (threshold cooldown : Z) : CircuitBreaker := mkBreaker threshold 0 Closed None cooldown.

Definition NANOS : Z := 1000000000.

(** [last.elapsed().as_secs() >= cooldown_secs]. *)
Definition cooled_down (cb : CircuitBreaker) (now : Z) : bool :=
  match last_failure cb with
  | Some last => cooldown_secs cb <=? sat_sub now last / NANOS
  | None => false
  end.

Definition set_cb_state (s : BreakerState) (cb : CircuitBreaker) : CircuitBreaker :=
  mkBreaker (failure_threshold cb) (consecutive_failures cb) s (last_failure cb) (cooldown_secs cb).

Definition is_available (now : Z) (cb : CircuitBreaker) : CircuitBreaker * bool :=
  match cb_state cb with
  | Closed => (cb, true)
  | Open => if cooled_down cb now then (set_cb_state HalfOpen cb, true) else (cb, false)
  | HalfOpen => (cb, false)
  end.

(** The counter is stored before the lock is taken. *)
Definition success_store (cb : CircuitBreaker) : CircuitBreaker :=
  mkBreaker (failure_threshold cb) 0 (cb_state cb) (last_failure cb) (cooldown_secs cb).
Definition success_close (cb : CircuitBreaker) : CircuitBreaker := set_cb_state Closed cb.
Definition record_success (cb : CircuitBreaker) : CircuitBreaker := success_close (success_store cb).

(** The count a failure has seen, and its second half under the lock. *)
Definition failure_count (cb : CircuitBreaker) : CircuitBreaker * Z :=
  let n := wrap32 (consecutive_failures cb + 1) in
  (mkBreaker (failure_threshold cb) n (cb_state cb) (last_failure cb) (cooldown_secs cb), n).
Definition failure_trip (now failures : Z) (cb : CircuitBreaker) : CircuitBreaker :=
  mkBreaker (failure_threshold cb) (consecutive_failures cb)
    (if failure_threshold cb <=? failures then Open else cb_state cb) (Some now) (cooldown_secs cb).
Definition record_failure (now : Z) (cb : CircuitBreaker) : CircuitBreaker :=
  let '(cb, failures) := failure_count cb in failure_trip now failures cb.

Definition breaker_status (now : Z) (cb : CircuitBreaker) : bool * Z :=
  (match cb_state cb with Closed => true | HalfOpen => false | Open => cooled_down cb now end, consecutive_failures cb).

(** ** Errors and retries *)

Inductive ConnectorError :=
| ProviderUnavailable (m : string) | ConnectionFailed (m : string) | ProtocolError (m : string) | StreamError (m : string)
| PartialStream (m : string) | Authentication (provider m : string) | Authorization (provider m : string)
| RateLimited (provider m : string) | ServiceUnavailable (provider m : string) | InvalidRequest (provider m : string)
| ToolIncompatiblePrimary (provider m : string) | ContentFiltered (provider m : string) | Timeout (provider m : string)
| Cancelled (provider : string).

Definition is_transient (e : ConnectorError) : bool :=
  match e with
  | ProviderUnavailable _ | ConnectionFailed _ | StreamError _ | RateLimited _ _ | ServiceUnavailable _ _ | Timeout _ _ => true
  | _ => false
  end.

(** Durations are milliseconds. *)
Record RetryPolicy := mkRetry { max_attempts : Z; base_backoff : Z; max_backoff : Z }.
Definition retry_default : RetryPolicy := mkRetry 3 200 5000.

Definition backoff_for (r : RetryPolicy) (attempt : Z) : Z :=
  let factor := if attempt <? 64 then Z.shiftl 1 attempt else u64_max in
  Z.min (Z.min u64_max (base_backoff r * factor)) (max_backoff r).

(** ** Providers and routing *)

Inductive ProviderType := Cloud | Local.
#[global] Instance provider_type_eq_dec : EqDecision ProviderType.
Proof. solve_decision. Defined.

(** The parts of an adapter and its capabilities that routing reads. *)
Record Adapter := mkAdapter { ad_type : ProviderType; tool_calls : bool; data_regions : list string; ad_max_attempts : Z }.

Inductive ToolIncompatiblePrimaryPolicy := DegradedShim | Reject.
#[global] Instance tool_policy_eq_dec : EqDecision ToolIncompatiblePrimaryPolicy.
Proof. solve_decision. Defined.

Record ProviderRoutingPolicy := mkRouting {
  required_region : option string;
  allow_local_to_cloud : bool;
  tool_incompatible_primary : ToolIncompatiblePrimaryPolicy }.
Definition routing_default : ProviderRoutingPolicy := mkRouting None false DegradedShim.

Record AgentConnector := mkConnector {
  providers : gmap string Adapter;
  backup_provider : gmap string string;
  sessions : gmap Z string;
  retry_policy : RetryPolicy;
  circuit_breakers : gmap string CircuitBreaker;
  routing_policies : gmap string ProviderRoutingPolicy;
  audit_sink : bool }.

Definition connector_new : AgentConnector := mkConnector ∅ ∅ ∅ retry_default ∅ ∅ false.

Definition register_provider (id : string) (adapter : Adapter) (cn : AgentConnector) : AgentConnector :=
  mkConnector (<[id := adapter]> (providers cn)) (backup_provider cn) (sessions cn) (retry_policy cn)
    (<[id := breaker_new 3 30]> (circuit_breakers cn)) (routing_policies cn) (audit_sink cn).
Definition set_backup (primary backup : string) (cn : AgentConnector) : AgentConnector :=
  mkConnector (providers cn) (<[primary := backup]> (backup_provider cn)) (sessions cn) (retry_policy cn)
    (circuit_breakers cn) (routing_policies cn) (audit_sink cn).
Definition set_routing_policy (provider : string) (p : ProviderRoutingPolicy) (cn : AgentConnector) : AgentConnector :=
  mkConnector (providers cn) (backup_provider cn) (sessions cn) (retry_policy cn) (circuit_breakers cn)
    (<[provider := p]> (routing_policies cn)) (audit_sink cn).
Definition set_degradation_audit_sink (cn : AgentConnector) : AgentConnector :=
  mkConnector (providers cn) (backup_provider cn) (sessions cn) (retry_policy cn) (circuit_breakers cn)
    (routing_policies cn) true.
Definition set_breakers (m : gmap string CircuitBreaker) (cn : AgentConnector) : AgentConnector :=
  mkConnector (providers cn) (backup_provider cn) (sessions cn) (retry_policy cn) m (routing_policies cn) (audit_sink cn).
Definition set_session (agent : Z) (provider : string) (cn : AgentConnector) : AgentConnector :=
  mkConnector (providers cn) (backup_provider cn) (<[agent := provider]> (sessions cn)) (retry_policy cn)
    (circuit_breakers cn) (routing_policies cn) (audit_sink cn).

Definition routing_policy (cn : AgentConnector) (provider : string) : ProviderRoutingPolicy :=
  default routing_default (routing_policies cn !! provider).

Definition validate_primary_tool_policy (cn : AgentConnector) (primary : string) (tools : list string)
    : result ConnectorError unit :=
  ensure (negb (negb (bool_decide (tools = [])) && bool_decide (tool_incompatible_primary (routing_policy cn primary) = Reject)
                && match providers cn !! primary with Some a => negb (tool_calls a) | None => false end))
    (ToolIncompatiblePrimary primary "operator policy rejects a primary without native tool support").

Definition ascii_lower (c : ascii) : ascii :=
  let n := nat_of_ascii c in if (65 <=? n)%nat && (n <=? 90)%nat then ascii_of_nat (n + 32) else c.
Fixpoint to_lower (s : string) : string :=
  match s with EmptyString => EmptyString | String c s => String (ascii_lower c) (to_lower s) end.
Definition eq_ignore_ascii_case (a b : string) : bool := bool_decide (to_lower a = to_lower b).

Definition provider_is_compatible (primary_type : ProviderType) (candidate : Adapter) (tools : list string)
    (policy : ProviderRoutingPolicy) (is_primary : bool) : bool :=
  if negb is_primary && negb (bool_decide (tools = [])) && negb (tool_calls candidate) then false
  else if negb is_primary && bool_decide (primary_type = Local) && bool_decide (ad_type candidate = Cloud)
          && negb (allow_local_to_cloud policy) then false
  else
    match required_region policy with
    | Some r => existsb (λ region, eq_ignore_ascii_case region r) (data_regions candidate)
    | None => true
    end.

(** The [while] loop of [failover_chain]; its bound is the number of turns left. *)
Fixpoint chain_loop (turns : nat) (cn : AgentConnector) (current : string) (chain : list string) : list string :=
  match turns with
  | O => chain
  | S turns =>
      match backup_provider cn !! current with
      | Some next => if bool_decide (next ∈ chain) then chain else chain_loop turns cn next (chain ++ [next])
      | None => chain
      end
  end.

Definition failover_chain (cn : AgentConnector) (primary : string) : list string :=
  chain_loop (size (providers cn)) cn primary [primary].

(** ** Sending *)

Section sending.
Context {R : Type}.

(** What an attempt observes: no session, or a session with what it enforces, its model, whether it published
    output, the attempts it reports and its result. *)
Inductive SessionReply :=
| NoSession (e : ConnectorError)
| Session (enforces_max_output : bool) (model : string) (emitted : bool) (attempts : option Z) (r : result ConnectorError R).

Inductive SendMode := NonStreaming | Streaming.

(** [pm] of a message is the provider and the model its replay metadata names. *)
Record SendRequest := mkSend {
  sq_metadata : list (option (string * string));
  sq_tools : list string;
  sq_mode : SendMode;
  sq_max_output : bool;
  sq_events : bool;
  sq_max_attempts : option Z }.

Record SendEnv := mkSendEnv {
  se_cancelled : bool;
  se_backoff_cancelled : string → nat → bool;
  se_reply : string → nat → SessionReply;
  se_checked_at : string → Z;
  se_failed_at : string → Z }.

Record ProviderToolDegradation := mkDegradation { pd_provider : string; pd_model : string; dropped_tool_count : Z }.

(** [DegradationSession], with the records sent to the audit sink. *)
Record DegradationSession := mkDegraded {
  ds_agent : option Z;
  ds_reported : bool;
  ds_latest : option ProviderToolDegradation;
  ds_audits : list ProviderToolDegradation }.

Definition report_tool_degradation (sink : bool) (d : ProviderToolDegradation) (s : DegradationSession) : DegradationSession :=
  mkDegraded (ds_agent s) true (Some d)
    (if negb (ds_reported s) && sink && bool_decide (is_Some (ds_agent s)) then ds_audits s ++ [d] else ds_audits s).

Definition validate_provider_history (metadata : list (option (string * string))) (provider model : string)
    : result ConnectorError unit :=
  ensure (forallb (λ o, match o with Some (p, m) => bool_decide (p = provider) && bool_decide (m = model) | None => true end)
            metadata)
    (ProtocolError "provider replay history is incompatible with the selected provider or model").

Definition suppressed : ConnectorError :=
  PartialStream "provider failed after publishing output; retry and failover were suppressed".

(** A streaming failure after output is terminal. *)
Definition stream_result (q : SendRequest) (emitted : bool) (r : result ConnectorError R) : result ConnectorError R :=
  match r with
  | Err (Cancelled _ | ContentFiltered _ _) | Ok _ => r
  | Err _ =>
      match sq_mode q with
      | Streaming => if sq_events q && emitted then Err suppressed else r
      | NonStreaming => r
      end
  end.

Definition is_final (e : ConnectorError) : bool :=
  match e with Cancelled _ | ContentFiltered _ _ => true | _ => false end.

(** One send in progress: the attempts counted, the providers contacted with their replies, the degradation. *)
Record SendState := mkSendState {
  ss_attempts : Z;
  ss_contacted : list (string * SessionReply);
  ss_degraded : DegradationSession }.

(** The loop of [send_one_provider], with the attempts left and the index of the next. *)
Fixpoint attempts_loop (more : nat) (e : SendEnv) (q : SendRequest) (sink degraded : bool) (provider : string) (attempt : nat)
    (last_err : option ConnectorError) (s : SendState) : SendState * result ConnectorError (R * string) :=
  match more with
  | O => (s, Err (default (ConnectionFailed "no attempts produced a result") last_err))
  | S more =>
      if (0 <? attempt)%nat && se_backoff_cancelled e provider attempt then (s, Err (Cancelled provider))
      else
        let before := ss_attempts s in
        let reply := se_reply e provider attempt in
        let s := mkSendState (sat_add32 before 1) (ss_contacted s ++ [(provider, reply)]) (ss_degraded s) in
        match reply with
        | NoSession err =>
            if is_transient err then attempts_loop more e q sink degraded provider (S attempt) (Some err) s else (s, Err err)
        | Session enforces model emitted attempts r =>
            if sq_max_output q && negb enforces then
              (s, Err (InvalidRequest provider "adapter does not enforce max_output_tokens"))
            else
              match validate_provider_history (sq_metadata q) provider model with
              | Err err => (s, Err err)
              | Ok _ =>
                  let d :=
                    if degraded then
                      report_tool_degradation sink
                        (mkDegradation provider model (Z.min u32_max (Z.of_nat (length (sq_tools q))))) (ss_degraded s)
                    else ss_degraded s in
                  let s := mkSendState (sat_add32 before (default 1 attempts)) (ss_contacted s) d in
                  match stream_result q emitted r with
                  | Ok x => (s, Ok (x, model))
                  | Err err =>
                      if is_final err then (s, Err err)
                      else if is_transient err then attempts_loop more e q sink degraded provider (S attempt) (Some err) s
                      else (s, Err err)
                  end
              end
        end
  end.

Definition send_one_provider (cn : AgentConnector) (e : SendEnv) (q : SendRequest) (degraded : bool) (provider : string)
    (s : SendState) : SendState * result ConnectorError (R * string) :=
  let attempts := Z.max (default (max_attempts (retry_policy cn)) (sq_max_attempts q)) 1 in
  attempts_loop (Z.to_nat attempts) e q (audit_sink cn) degraded provider 0 None s.

Record SendOutcome := mkOutcome {
  so_response : R;
  served_by : string;
  so_model : string;
  so_attempts : Z;
  so_degradation : option ProviderToolDegradation }.

(** Whether an error ends the whole send. *)
Definition stops_failover (e : ConnectorError) : bool :=
  match e with Cancelled _ | ContentFiltered _ _ | PartialStream _ => true | _ => false end.

(** The breaker's verdict, when there is one. *)
Definition breaker_admits (cn : AgentConnector) (now : Z) (provider : string) : AgentConnector * bool :=
  match circuit_breakers cn !! provider with
  | Some cb =>
      let '(cb, ok) := is_available now cb in (set_breakers (<[provider := cb]> (circuit_breakers cn)) cn, ok)
  | None => (cn, true)
  end.

Definition with_breaker (f : CircuitBreaker → CircuitBreaker) (provider : string) (cn : AgentConnector) : AgentConnector :=
  set_breakers (alter f provider (circuit_breakers cn)) cn.

(** The loop over the chain; [primary] is set for its first provider. *)
Fixpoint failover_loop (chain : list string) (is_primary : bool) (primary_type : ProviderType) (policy : ProviderRoutingPolicy)
    (e : SendEnv) (q : SendRequest) (last_err : ConnectorError) (cn : AgentConnector) (s : SendState)
    : AgentConnector * SendState * result ConnectorError SendOutcome :=
  match chain with
  | [] => (cn, s, Err last_err)
  | p :: chain =>
      let next err cn s := failover_loop chain false primary_type policy e q err cn s in
      match providers cn !! p with
      | None => next (ProviderUnavailable p) cn s
      | Some adapter =>
          if negb (provider_is_compatible primary_type adapter (sq_tools q) policy is_primary) then
            next (ProviderUnavailable (p +:+ " is incompatible with the request routing policy")) cn s
          else
            match breaker_admits cn (se_checked_at e p) p with
            | (cn, false) => next (ProviderUnavailable (p +:+ " circuit is open")) cn s
            | (cn, true) =>
                let degraded := is_primary && negb (bool_decide (sq_tools q = [])) && negb (tool_calls adapter) in
                match send_one_provider cn e q degraded p s with
                | (s, Ok (x, model)) =>
                    (with_breaker record_success p cn, s,
                     Ok (mkOutcome x p model (ss_attempts s) (ds_latest (ss_degraded s))))
                | (s, Err err) =>
                    if stops_failover err then (cn, s, Err err)
                    else next err (if is_transient err then with_breaker (record_failure (se_failed_at e p)) p cn else cn) s
                end
            end
      end
  end.

(** [send_with_failover_observed]. *)
Definition send_with_failover_observed (cn : AgentConnector) (primary : string) (e : SendEnv) (q : SendRequest)
    (d : DegradationSession) : AgentConnector * SendState * result ConnectorError SendOutcome :=
  let s := mkSendState 0 [] (mkDegraded (ds_agent d) (ds_reported d) None (ds_audits d)) in
  let chain := failover_chain cn primary in
  if se_cancelled e then (cn, s, Err (Cancelled primary))
  else
    match validate_primary_tool_policy cn primary (sq_tools q) with
    | Err err => (cn, s, Err err)
    | Ok _ =>
        let primary_type := match providers cn !! primary with Some a => ad_type a | None => Cloud end in
        failover_loop chain true primary_type (routing_policy cn primary) e q (ProviderUnavailable primary) cn s
    end.

(** ** Resilient sessions *)

Record ResilientSession := mkResilient {
  rs_primary : string;
  configured_model : string;
  last_attribution : string * string;
  rs_last_attempts : Z;
  rs_degradation : DegradationSession }.

Definition connect_resilient (cn : AgentConnector) (agent : Z) (provider : string) (reply : SessionReply)
    : AgentConnector * result ConnectorError ResilientSession :=
  match providers cn !! provider with
  | None => (cn, Err (ProviderUnavailable provider))
  | Some _ =>
      match reply with
      | NoSession e => (cn, Err e)
      | Session _ model _ _ _ =>
          (set_session agent provider cn,
           Ok (mkResilient provider model (provider, model) 0 (mkDegraded (Some agent) false None [])))
      end
  end.

(** [send_controlled] and [send_streaming_events_controlled]: one attempt for each provider. *)
Definition resilient_send (cn : AgentConnector) (e : SendEnv) (q : SendRequest) (rs : ResilientSession)
    : AgentConnector * ResilientSession * result ConnectorError R :=
  let q := mkSend (sq_metadata q) (sq_tools q) (sq_mode q) (sq_max_output q) (sq_events q) (Some 1) in
  let '(cn, s, r) := send_with_failover_observed cn (rs_primary rs) e q (rs_degradation rs) in
  match r with
  | Ok o =>
      (cn, mkResilient (rs_primary rs) (configured_model rs) (served_by o, so_model o) (so_attempts o) (ss_degraded s),
       Ok (so_response o))
  | Err err =>
      (cn, mkResilient (rs_primary rs) (configured_model rs) (last_attribution rs) (ss_attempts s) (ss_degraded s), Err err)
  end.

Definition max_provider_attempts (cn : AgentConnector) (rs : ResilientSession) : Z :=
  Z.max 1 (foldl (λ total id,
    sat_add32 total (match providers cn !! id with Some a => Z.max (ad_max_attempts a) 1 | None => 1 end))
    0 (failover_chain cn (rs_primary rs))).
End sending.
Arguments SessionReply : clear implicits.
Arguments SendState : clear implicits.
Arguments SendEnv : clear implicits.
Arguments SendOutcome : clear implicits.
