(* ===== verification/ConnectorInv.v ===== *)
(** * What a resilient send does

    The failover chain; that a send contacts only providers the routing policy allows, retries only what may
    be retried, and answers with the first success; that the attempts of a resilient session stay within the
    number the kernel reserves quota for; and what the circuit breaker lets through. *)

From S2P Require Import Prelude Connector.
#[local] Open Scope Z_scope.

(** ** The chain *)

(** Consecutive providers are linked by their backups. *)
Definition linked (cn : AgentConnector) (chain : list string) : Prop :=
  ∀ i p q, chain !! i = Some p → chain !! S i = Some q → backup_provider cn !! p = Some q.

Lemma linked_snoc cn chain current next :
  linked cn chain → last chain = Some current → backup_provider cn !! current = Some next → linked cn (chain ++ [next]).
Proof.
  intros Hl Hlast Hb i p q Hp Hq. rewrite last_lookup in Hlast.
  destruct (decide (S i < length chain)%nat) as [Hi|Hi].
  - rewrite lookup_app_l in Hp, Hq by lia. by apply (Hl i).
  - assert (S i = length chain) as Hlen.
    { apply lookup_lt_Some in Hq. rewrite length_app in Hq. cbn in Hq. lia. }
    rewrite lookup_app_r in Hq by lia. rewrite Hlen, Nat.sub_diag in Hq. injection Hq as <-.
    rewrite lookup_app_l in Hp by lia. rewrite <- Hlen in Hlast. cbn in Hlast. congruence.
Qed.

Lemma chain_loop_spec turns cn current chain :
  NoDup chain → last chain = Some current → linked cn chain →
  let chain' := chain_loop turns cn current chain in
  (∃ more, chain' = chain ++ more) ∧ NoDup chain' ∧ linked cn chain' ∧ (length chain' <= length chain + turns)%nat ∧
  ∀ p, last chain' = Some p →
    length chain' = (length chain + turns)%nat ∨ backup_provider cn !! p = None ∨
    ∃ q, backup_provider cn !! p = Some q ∧ q ∈ chain'.
Proof.
  revert current chain. induction turns as [|turns IH]; intros current chain Hnd Hlast Hlk; cbn [chain_loop].
  - split_and!; [exists []; by rewrite app_nil_r|done|done|lia|]. intros p _. left. lia.
  - destruct (backup_provider cn !! current) as [next|] eqn:Hb.
    + case_bool_decide as Hin.
      * split_and!; [exists []; by rewrite app_nil_r|done|done|lia|]. intros p Hp. rewrite Hlast in Hp. injection Hp as <-.
        right. right. eauto.
      * destruct (IH next (chain ++ [next])) as ((m & Hm) & H2 & H3 & H4 & H5).
        { apply NoDup_app. split_and!; [done|set_solver|apply NoDup_singleton]. }
        { apply last_snoc. }
        { by eapply linked_snoc. }
        rewrite length_app in H4, H5. cbn [length] in H4, H5. split_and!; [|done|done|lia|].
        -- exists (next :: m). by rewrite Hm, <- app_assoc.
        -- intros p Hp. destruct (H5 p Hp) as [?|[?|?]]; [left; lia|right; by left|right; by right].
    + split_and!; [exists []; by rewrite app_nil_r|done|done|lia|]. intros p Hp. rewrite Hlast in Hp. injection Hp as <-.
      right. by left.
Qed.

(**  The failover chain starts at the primary, follows the configured backups, names no provider twice,
    and ends: at a provider without a backup, where the backups loop, or one past the number of registered
    providers. *)
Theorem failover_chain_correct cn primary :
  let chain := failover_chain cn primary in
  head chain = Some primary ∧ NoDup chain ∧ linked cn chain ∧ (length chain <= S (size (providers cn)))%nat ∧
  ∀ p, last chain = Some p →
    length chain = S (size (providers cn)) ∨ backup_provider cn !! p = None ∨
    ∃ q, backup_provider cn !! p = Some q ∧ q ∈ chain.
Proof.
  unfold failover_chain. destruct (chain_loop_spec (size (providers cn)) cn primary [primary]) as ((m & Hm) & H2 & H3 & H4 & H5).
  - apply NoDup_singleton.
  - done.
  - intros i p q Hp Hq. destruct i; cbn in Hq; [done|]. by destruct i.
  - split_and!; [by rewrite Hm|done|done|cbn in H4; lia|]. intros p Hp. destruct (H5 p Hp) as [?|?]; [left; cbn in *; lia|by right].
Qed.

(** ** Attempts *)

Section attempts.
Context {R : Type}.
Implicit Types (reply : SessionReply R) (s : SendState R) (e : SendEnv R).

(** What an attempt ends with. *)
Definition answer (q : SendRequest) (p : string) reply : result ConnectorError (R * string) :=
  match reply with
  | NoSession err => Err err
  | Session enforces model emitted _ r =>
      if sq_max_output q && negb enforces then Err (InvalidRequest p "adapter does not enforce max_output_tokens")
      else
        match validate_provider_history (sq_metadata q) p model with
        | Err err => Err err
        | Ok _ => match stream_result q emitted r with Ok x => Ok (x, model) | Err err => Err err end
        end
  end.

Definition failed (q : SendRequest) (c : string * SessionReply R) : Prop := ∃ err, answer q c.1 c.2 = Err err.

(** A failure after which something else may be tried. *)
Definition retriable (q : SendRequest) (c : string * SessionReply R) : Prop :=
  ∃ err, answer q c.1 c.2 = Err err ∧ stops_failover err = false.

Lemma transient_continues err : is_transient err = true → stops_failover err = false.
Proof. by destruct err. Qed.
Lemma final_stops err : is_final err = true → stops_failover err = true.
Proof. by destruct err. Qed.

(** The contacts an attempt loop adds, by how it ends. *)
Definition contacts (q : SendRequest) (p : string) (n : nat) (new : list (string * SessionReply R))
    (r : result ConnectorError (R * string)) : Prop :=
  (length new <= n)%nat ∧ Forall (λ c, c.1 = p) new ∧
  match r with
  | Ok x => ∃ pre reply, new = pre ++ [(p, reply)] ∧ Forall (retriable q) pre ∧ answer q p reply = Ok x
  | Err err => ∃ pre lst, new = pre ++ lst ∧ Forall (retriable q) pre ∧ (length lst <= 1)%nat ∧ Forall (failed q) lst ∧
      (stops_failover err = false → Forall (retriable q) lst)
  end.

Lemma contacts_retry q p n reply err new r :
  answer q p reply = Err err → stops_failover err = false → contacts q p n new r → contacts q p (S n) ((p, reply) :: new) r.
Proof.
  intros Ha Hs (Hn & Hp & Hr). assert (Hret : retriable q (p, reply)) by (by exists err).
  split; [cbn; lia|]. split; [by constructor|]. destruct r as [x|err'].
  - destruct Hr as (pre & rp & -> & Hpre & Hok). exists ((p, reply) :: pre), rp. split_and!; [done|by constructor|done].
  - destruct Hr as (pre & lst & -> & Hpre & H1 & H2 & H3). exists ((p, reply) :: pre), lst. split_and!; try done. by constructor.
Qed.

Lemma contacts_last q p n reply err :
  answer q p reply = Err err → contacts q p (S n) [(p, reply)] (Err err).
Proof.
  intros Ha. split; [cbn; lia|]. split; [by constructor|]. exists [], [(p, reply)]. split_and!; [done|constructor|done| |].
  - constructor; [by exists err|constructor].
  - intros Hs. constructor; [by exists err|constructor].
Qed.

Lemma contacts_none q p n err : contacts q p n [] (Err err).
Proof. split; [cbn; lia|]. split; [constructor|]. exists [], []. split_and!; [done|constructor|cbn; lia|constructor|intros _; constructor]. Qed.

Lemma attempts_loop_contacts more e q sink degraded p attempt last_err s :
  let '(s', r) := attempts_loop more e q sink degraded p attempt last_err s in
  ∃ new, ss_contacted s' = ss_contacted s ++ new ∧ contacts q p more new r.
Proof.
  revert attempt last_err s. induction more as [|more IH]; intros attempt last_err s; cbn [attempts_loop].
  { exists []. rewrite app_nil_r. split; [done|]. apply contacts_none. }
  destruct (_ && se_backoff_cancelled e p attempt).
  { exists []. rewrite app_nil_r. split; [done|]. apply contacts_none. }
  set (reply := se_reply e p attempt).
  assert (Hagain : ∀ err s1, answer q p reply = Err err → is_transient err = true →
    ss_contacted s1 = ss_contacted s ++ [(p, reply)] →
    let '(s', r) := attempts_loop more e q sink degraded p (S attempt) (Some err) s1 in
    ∃ new, ss_contacted s' = ss_contacted s ++ new ∧ contacts q p (S more) new r).
  { intros err s1 Ha Ht Hs1. specialize (IH (S attempt) (Some err) s1).
    destruct (attempts_loop more e q sink degraded p (S attempt) (Some err) s1) as [s' r].
    destruct IH as (new & Hnew & Hc).
    exists ((p, reply) :: new). split; [by rewrite Hnew, Hs1, <- app_assoc|].
    eapply contacts_retry; [done|by apply transient_continues|done]. }
  unfold answer in Hagain. destruct reply as [err|enforces model emitted att r] eqn:Hreply.
  - destruct (is_transient err) eqn:Ht; [by apply Hagain|]. eexists. split; [done|]. by apply contacts_last.
  - destruct (sq_max_output q && negb enforces) eqn:Hmax.
    { eexists. split; [done|]. apply contacts_last. unfold answer. by rewrite Hmax. }
    destruct (validate_provider_history _ p model) as [[]|err] eqn:Hv.
    2: { eexists. split; [done|]. apply contacts_last. unfold answer. by rewrite Hmax, Hv. }
    destruct (stream_result q emitted r) as [x|err] eqn:Hr.
    + eexists. split; [done|]. split; [cbn; lia|]. split; [by constructor|]. exists [], (Session enforces model emitted att r).
      split_and!; [done|constructor|]. unfold answer. by rewrite Hmax, Hv, Hr.
    + assert (Ha : answer q p (Session enforces model emitted att r) = Err err) by (unfold answer; by rewrite Hmax, Hv, Hr).
      destruct (is_final err) eqn:Hf; [eexists; split; [done|]; by apply contacts_last|].
      destruct (is_transient err) eqn:Ht; [by apply Hagain|]. eexists. split; [done|]. by apply contacts_last.
Qed.

(** ** Failover *)

Definition attempts_per_provider (cn : AgentConnector) (q : SendRequest) : Z :=
  Z.max (default (max_attempts (retry_policy cn)) (sq_max_attempts q)) 1.

Lemma send_one_contacts cn e q degraded p s :
  let '(s', r) := send_one_provider cn e q degraded p s in
  ∃ new, ss_contacted s' = ss_contacted s ++ new ∧ contacts q p (Z.to_nat (attempts_per_provider cn q)) new r.
Proof. apply attempts_loop_contacts. Qed.

(** Who was contacted: a registered provider of the chain that the policy allows in its place. *)
Definition allowed (cn : AgentConnector) (pt : ProviderType) (policy : ProviderRoutingPolicy) (q : SendRequest)
    (primary : option string) (chain : list string) (c : string * SessionReply R) : Prop :=
  c.1 ∈ chain ∧ ∃ adapter, providers cn !! c.1 = Some adapter ∧
    provider_is_compatible pt adapter (sq_tools q) policy (bool_decide (primary = Some c.1)) = true.

Definition times (p : string) (new : list (string * SessionReply R)) : nat := count_if (λ c, bool_decide (c.1 = p)) new.

(** How the contacts of a whole send end. *)
Definition ends (q : SendRequest) (new : list (string * SessionReply R)) (r : result ConnectorError (SendOutcome R)) : Prop :=
  match r with
  | Ok o => ∃ pre reply, new = pre ++ [(served_by o, reply)] ∧ Forall (retriable q) pre ∧
      answer q (served_by o) reply = Ok (so_response o, so_model o)
  | Err _ => ∃ pre lst, new = pre ++ lst ∧ Forall (retriable q) pre ∧ (length lst <= 1)%nat ∧ Forall (failed q) lst
  end.

Lemma ends_app q pre new r : Forall (retriable q) pre → ends q new r → ends q (pre ++ new) r.
Proof.
  intros Hpre. destruct r as [o|err].
  - intros (pre' & reply & -> & H1 & H2). exists (pre ++ pre'), reply. rewrite app_assoc. split_and!; try done. by apply Forall_app.
  - intros (pre' & lst & -> & H1 & H2). exists (pre ++ pre'), lst. rewrite app_assoc. split_and!; try done; [by apply Forall_app|apply H2..].
Qed.

Lemma times_app p a b : times p (a ++ b) = (times p a + times p b)%nat.
Proof. unfold times. apply count_app. Qed.

Lemma times_own p new : Forall (λ c, c.1 = p) new → times p new = length new.
Proof.
  unfold times. induction 1 as [|c new Hc _ IH]; [done|]. rewrite count_cons, IH. by rewrite bool_decide_eq_true_2.
Qed.

Lemma times_other p p' new : Forall (λ c, c.1 = p') new → p ≠ p' → times p new = 0%nat.
Proof.
  unfold times. intros Hn Hne. apply count_zero. intros c Hc. rewrite Forall_forall in Hn.
  apply bool_decide_eq_false. rewrite (Hn c Hc). done.
Qed.

(** The rest of a chain, seen from the whole of it. *)
Lemma allowed_later cn pt policy q primary p chain c :
  p ∉ chain → primary = None ∨ primary = Some p →
  allowed cn pt policy q None chain c → allowed cn pt policy q primary (p :: chain) c.
Proof.
  intros Hp Hpr (Hin & adapter & Ha & Hc). split; [by right|]. exists adapter. split; [done|].
  rewrite bool_decide_eq_false_2; [by rewrite bool_decide_eq_false_2 in Hc by done|].
  destruct Hpr as [-> | ->]; [done|]. intros [= ->]. done.
Qed.

(** The part of the invariant that every branch of the loop over the chain shares. *)
Definition sent (cn : AgentConnector) (pt : ProviderType) (policy : ProviderRoutingPolicy) (q : SendRequest)
    (primary : option string) (chain : list string) (s s' : SendState R) (r : result ConnectorError (SendOutcome R)) : Prop :=
  ∃ new, ss_contacted s' = ss_contacted s ++ new ∧ Forall (allowed cn pt policy q primary chain) new ∧
    (∀ p, (times p new <= Z.to_nat (attempts_per_provider cn q))%nat) ∧ ends q new r.

Lemma sent_none cn pt policy q primary chain s err : sent cn pt policy q primary chain s s (Err err).
Proof.
  exists []. rewrite app_nil_r. split_and!; [done|constructor|intros p; cbn; lia|].
  exists [], []. split_and!; [done|constructor|cbn; lia|constructor].
Qed.

Lemma sent_later cn pt policy q primary p chain s s' r :
  p ∉ chain → primary = None ∨ primary = Some p →
  sent cn pt policy q None chain s s' r → sent cn pt policy q primary (p :: chain) s s' r.
Proof.
  intros Hp Hpr (new & H1 & H2 & H3 & H4). exists new. split_and!; try done.
  eapply Forall_impl; [exact H2|]. intros c. by apply allowed_later.
Qed.

(** One provider ended the send. *)
Lemma sent_own cn pt policy q primary p chain adapter s s1 new1 r :
  providers cn !! p = Some adapter →
  provider_is_compatible pt adapter (sq_tools q) policy (bool_decide (primary = Some p)) = true →
  ss_contacted s1 = ss_contacted s ++ new1 → Forall (λ c, c.1 = p) new1 →
  (length new1 <= Z.to_nat (attempts_per_provider cn q))%nat → ends q new1 r →
  sent cn pt policy q primary (p :: chain) s s1 r.
Proof.
  intros Ha Hc H1 Hown Hlen He. exists new1. split_and!; try done.
  - eapply Forall_impl; [exact Hown|]. intros [p' rp] Heq. cbn in Heq. subst p'. split; [apply list_elem_of_here|]. by exists adapter.
  - intros p'. destruct (decide (p' = p)) as [->|Hne]; [by rewrite (times_own p _ Hown)|].
    rewrite (times_other p' p _ Hown Hne). lia.
Qed.

(** One provider answered or failed, and the rest was tried after a failure that allows it. *)
Lemma sent_then cn pt policy q primary p chain adapter s s1 s' new1 r :
  p ∉ chain → primary = None ∨ primary = Some p → providers cn !! p = Some adapter →
  provider_is_compatible pt adapter (sq_tools q) policy (bool_decide (primary = Some p)) = true →
  ss_contacted s1 = ss_contacted s ++ new1 → Forall (λ c, c.1 = p) new1 → Forall (retriable q) new1 →
  (length new1 <= Z.to_nat (attempts_per_provider cn q))%nat →
  sent cn pt policy q None chain s1 s' r → sent cn pt policy q primary (p :: chain) s s' r.
Proof.
  intros Hp Hpr Ha Hc H1 Hown Hret Hlen (new & H2 & H3 & H4 & H5). exists (new1 ++ new). split_and!.
  - by rewrite H2, H1, app_assoc.
  - apply Forall_app. split.
    + eapply Forall_impl; [exact Hown|]. intros [p' reply] Heq. cbn in Heq. subst p'.
      split; [apply list_elem_of_here|]. by exists adapter.
    + eapply Forall_impl; [exact H3|]. intros c. by apply allowed_later.
  - intros p'. rewrite times_app. destruct (decide (p' = p)) as [->|Hne].
    + rewrite (times_own p new1 Hown). assert (times p new = 0%nat); [|lia]. apply count_zero. intros c Hin.
      apply bool_decide_eq_false. intros <-. rewrite Forall_forall in H3. by destruct (H3 c Hin) as [? _].
    + rewrite (times_other p' p new1 Hown Hne). apply H4.
  - by apply ends_app.
Qed.

Lemma sent_providers cn cn' pt policy q primary chain s s' r :
  providers cn' = providers cn → retry_policy cn' = retry_policy cn →
  sent cn' pt policy q primary chain s s' r → sent cn pt policy q primary chain s s' r.
Proof.
  intros Hp Hr (new & H1 & H2 & H3 & H4). exists new. unfold attempts_per_provider in *. rewrite Hr in H3.
  split_and!; try done. unfold allowed in *. by rewrite Hp in H2.
Qed.

Lemma failover_loop_sent chain is_primary pt policy e q last_err cn s :
  NoDup chain →
  let '(cn', s', r) := failover_loop chain is_primary pt policy e q last_err cn s in
  providers cn' = providers cn ∧ sent cn pt policy q (if is_primary then head chain else None) chain s s' r.
Proof.
  intros Hnd. revert is_primary last_err cn s. induction Hnd as [|p chain Hp Hnd IH]; intros is_primary last_err cn s.
  { cbn. split; [done|]. apply sent_none. }
  assert (Hpr : (if is_primary then Some p else None) = None ∨ (if is_primary then Some p else None) = Some p)
    by (destruct is_primary; auto).
  assert (Hprim : bool_decide ((if is_primary then Some p else None) = Some p) = is_primary)
    by (destruct is_primary; [by apply bool_decide_eq_true|by apply bool_decide_eq_false]).
  assert (Hnext : ∀ err cn1, providers cn1 = providers cn → retry_policy cn1 = retry_policy cn →
    let '(cn', s', r) := failover_loop chain false pt policy e q err cn1 s in
    providers cn' = providers cn ∧ sent cn pt policy q (if is_primary then Some p else None) (p :: chain) s s' r).
  { intros err cn1 H1 H2. specialize (IH false err cn1 s). destruct (failover_loop chain false pt policy e q err cn1 s) as [[cn' s'] r].
    destruct IH as [IH1 IH2]. split; [congruence|]. apply sent_later; [done|done|]. by eapply sent_providers. }
  cbn [failover_loop head]. destruct (providers cn !! p) as [adapter|] eqn:Ha; [|by apply Hnext].
  destruct (provider_is_compatible pt adapter (sq_tools q) policy is_primary) eqn:Hc; [|by apply Hnext]. cbn [negb].
  destruct (breaker_admits cn (se_checked_at e p) p) as [cn1 ok] eqn:Hb.
  assert (H1 : providers cn1 = providers cn ∧ retry_policy cn1 = retry_policy cn).
  { unfold breaker_admits in Hb. repeat case_match; by simplify_eq. }
  destruct H1 as [H1 H1']. destruct ok; [|by apply Hnext].
  pose proof (send_one_contacts cn1 e q (is_primary && negb (bool_decide (sq_tools q = [])) && negb (tool_calls adapter)) p s) as Hs.
  destruct (send_one_provider _ _ _ _ _ _) as [s1 [[x model]|err]]; destruct Hs as (new1 & Hnew & Hlen & Hown & Hr).
  - split; [done|]. destruct Hr as (pre & reply & -> & Hpre & Hans). unfold attempts_per_provider in Hlen. rewrite H1' in Hlen.
    eapply (sent_own _ _ _ _ _ p chain adapter); try done; [by rewrite Hprim|]. exists pre, reply. by split_and!.
  - destruct Hr as (pre & lst & -> & Hpre & Hl1 & Hfail & Hrest). unfold attempts_per_provider in Hlen. rewrite H1' in Hlen.
    destruct (stops_failover err) eqn:Hst.
    + split; [done|]. eapply (sent_own _ _ _ _ _ p chain adapter); try done; [by rewrite Hprim|]. exists pre, lst. by split_and!.
    + set (cn2 := if is_transient err then _ else cn1).
      assert (H2 : providers cn2 = providers cn ∧ retry_policy cn2 = retry_policy cn) by (unfold cn2; destruct (is_transient err); done).
      destruct H2 as [H2 H2']. specialize (IH false err cn2 s1).
      destruct (failover_loop chain false pt policy e q err cn2 s1) as [[cn' s'] r]. destruct IH as [IH1 IH2].
      split; [congruence|]. eapply (sent_then cn pt policy q _ p chain adapter s s1 s' (pre ++ lst)); try done.
      * by rewrite Hprim.
      * apply Forall_app. split; [done|]. by apply Hrest.
      * by eapply sent_providers.
Qed.
End attempts.

(** ** Routing and outcome *)

Lemma compatible_spec pt adapter tools policy is_primary :
  provider_is_compatible pt adapter tools policy is_primary = true →
  (∀ region, required_region policy = Some region → ∃ r, r ∈ data_regions adapter ∧ to_lower r = to_lower region) ∧
  (is_primary = false → (tools ≠ [] → tool_calls adapter = true) ∧
     (pt = Local → ad_type adapter = Cloud → allow_local_to_cloud policy = true)).
Proof.
  unfold provider_is_compatible. destruct (negb is_primary && negb (bool_decide (tools = [])) && negb (tool_calls adapter)) eqn:H1; [done|].
  destruct (negb is_primary && bool_decide (pt = Local) && bool_decide (ad_type adapter = Cloud)
            && negb (allow_local_to_cloud policy)) eqn:H2; [done|]. intros H3. split.
  - intros region Hr. rewrite Hr in H3. apply existsb_exists in H3 as (r & Hin & He). exists r.
    split; [by apply list_elem_of_In|]. by apply bool_decide_eq_true in He.
  - intros ->. cbn in H1, H2. split.
    + intros Ht. rewrite bool_decide_eq_false_2 in H1 by done. by apply negb_false_iff in H1.
    + intros Hp Hc. rewrite !bool_decide_eq_true_2 in H2 by done. by apply negb_false_iff in H2.
Qed.

Lemma send_sent {R} cn primary (e : SendEnv R) q d :
  let '(cn', s, r) := send_with_failover_observed cn primary e q d in
  providers cn' = providers cn ∧
  sent cn match providers cn !! primary with Some a => ad_type a | None => Cloud end (routing_policy cn primary) q (Some primary)
    (failover_chain cn primary) (mkSendState 0 [] d) s r.
Proof.
  unfold send_with_failover_observed. set (s0 := mkSendState 0 [] _).
  assert (Hsame : ∀ pt policy primary chain s r, sent cn pt policy q primary chain s0 s r →
    sent cn pt policy q primary chain (mkSendState 0 [] d) s r) by done.
  destruct (se_cancelled e); [split; [done|]; apply Hsame, sent_none|].
  destruct (validate_primary_tool_policy _ _ _); [|split; [done|]; apply Hsame, sent_none].
  destruct (failover_chain_correct cn primary) as (Hh & Hnd & _).
  pose proof (failover_loop_sent (failover_chain cn primary) true
    match providers cn !! primary with Some a => ad_type a | None => Cloud end (routing_policy cn primary) e q
    (ProviderUnavailable primary) cn s0 Hnd) as H.
  destruct (failover_loop _ _ _ _ _ _ _ _ _) as [[cn' s] r]. rewrite Hh in H. destruct H as [H1 H2]. split; [done|]. by apply Hsame.
Qed.

(** A provider that the routing policy of [primary] permits for a request with [tools]. *)
Definition permitted (cn : AgentConnector) (primary : string) (tools : list string) (provider : string) : Prop :=
  let policy := routing_policy cn primary in
  ∃ adapter, providers cn !! provider = Some adapter ∧
    (∀ region, required_region policy = Some region → ∃ r, r ∈ data_regions adapter ∧ to_lower r = to_lower region) ∧
    (provider ≠ primary → (tools ≠ [] → tool_calls adapter = true) ∧
       (∀ a, providers cn !! primary = Some a → ad_type a = Local → ad_type adapter = Cloud →
          allow_local_to_cloud policy = true)).

(** C13.  A send contacts only registered providers of its failover chain: each processes data in the required
    region when one is required; a backup implements native tools when the request has tools, and is not a
    cloud provider behind a local primary unless that is allowed; and a primary without native tools is not
    contacted, nor any backup, under the policy that rejects it. *)
Theorem send_fail_closed {R} cn primary (e : SendEnv R) q d :
  let '(_, s, _) := send_with_failover_observed cn primary e q d in
  (∀ c, c ∈ ss_contacted s → c.1 ∈ failover_chain cn primary ∧ permitted cn primary (sq_tools q) c.1) ∧
  (∀ a, providers cn !! primary = Some a → tool_calls a = false → sq_tools q ≠ [] →
     tool_incompatible_primary (routing_policy cn primary) = Reject → ss_contacted s = []).
Proof.
  pose proof (send_sent cn primary e q d) as H.
  assert (Hrej : ∀ a, providers cn !! primary = Some a → tool_calls a = false → sq_tools q ≠ [] →
    tool_incompatible_primary (routing_policy cn primary) = Reject →
    ss_contacted (send_with_failover_observed cn primary e q d).1.2 = []).
  { intros a Ha Ht Hq Hr. unfold send_with_failover_observed. destruct (se_cancelled e); [done|].
    unfold validate_primary_tool_policy. rewrite Ha, Ht, Hr, bool_decide_eq_false_2 by done. done. }
  destruct (send_with_failover_observed cn primary e q d) as [[cn' s] r]. destruct H as [_ (new & Hnew & Hall & _)].
  cbn [ss_contacted] in Hnew. rewrite app_nil_l in Hnew. split; [|done]. rewrite Hnew.
  intros c Hc. rewrite Forall_forall in Hall. destruct (Hall c Hc) as (Hin & adapter & Ha & Hcomp). split; [done|].
  exists adapter. split; [done|]. apply compatible_spec in Hcomp as [H1 H2]. split; [done|].
  intros Hne. destruct H2 as [H2 H3]; [apply bool_decide_eq_false; congruence|]. split; [done|].
  intros a Hpa Hl. rewrite Hpa in H3. by apply H3.
Qed.

(** C14.  The response of a send is the answer of the last provider contacted, the one it names; every earlier
    contact failed in a way that allows another; no contact follows a cancellation, a content filter or a
    failure after published output; a failing send had no successful contact; and no provider is contacted
    more often than the retry limit. *)
Theorem send_outcome_correct {R} cn primary (e : SendEnv R) q d :
  let '(_, s, r) := send_with_failover_observed cn primary e q d in
  (∀ p, Z.of_nat (times p (ss_contacted s)) <= attempts_per_provider cn q) ∧
  match r with
  | Ok o => ∃ pre reply, ss_contacted s = pre ++ [(served_by o, reply)] ∧ Forall (retriable q) pre ∧
      answer q (served_by o) reply = Ok (so_response o, so_model o)
  | Err _ => Forall (failed q) (ss_contacted s) ∧
      ∃ pre lst, ss_contacted s = pre ++ lst ∧ Forall (retriable q) pre ∧ (length lst <= 1)%nat
  end.
Proof.
  pose proof (send_sent cn primary e q d) as H.
  destruct (send_with_failover_observed cn primary e q d) as [[cn' s] r]. destruct H as [_ (new & Hnew & _ & Hn & He)].
  cbn [ss_contacted] in Hnew. rewrite app_nil_l in Hnew. subst new. split.
  - intros p. specialize (Hn p). unfold attempts_per_provider in *. lia.
  - destruct r as [o|err]; [done|]. destruct He as (pre & lst & Heq & Hpre & Hlen & Hf). split; [|by exists pre, lst].
    rewrite Heq. apply Forall_app. split; [|done]. eapply Forall_impl; [exact Hpre|]. intros c (err' & Ha & _). by exists err'.
Qed.

(** ** Attempts within the reservation *)

Definition budget_of (cn : AgentConnector) (p : string) : Z :=
  match providers cn !! p with Some a => Z.max (ad_max_attempts a) 1 | None => 1 end.

(** An adapter's session reports no more attempts than the adapter announces. *)
Definition honest {R} (cn : AgentConnector) (e : SendEnv R) : Prop :=
  ∀ p k enforces model emitted n r, se_reply e p k = Session enforces model emitted (Some n) r → 0 <= n <= budget_of cn p.

Lemma sat_add32_mono a b c d : a <= b → c <= d → sat_add32 a c <= sat_add32 b d.
Proof. unfold sat_add32. lia. Qed.

Lemma foldl_sat_mono (f : string → Z) ids a b :
  a <= b → foldl (λ t p, sat_add32 t (f p)) a ids <= foldl (λ t p, sat_add32 t (f p)) b ids.
Proof.
  revert a b. induction ids as [|p ids IH]; intros a b Hab; [done|]. cbn. apply IH. by apply sat_add32_mono.
Qed.

Lemma foldl_sat_grows (f : string → Z) ids a :
  (∀ p, 0 <= f p) → a <= u32_max → a <= foldl (λ t p, sat_add32 t (f p)) a ids.
Proof.
  intros Hf. revert a. induction ids as [|p ids IH]; intros a Ha; [done|]. cbn. specialize (Hf p).
  transitivity (sat_add32 a (f p)); [unfold sat_add32; lia|]. apply IH. unfold sat_add32. lia.
Qed.

Lemma one_attempt {R} (cn : AgentConnector) (e : SendEnv R) q degraded p s :
  honest cn e → sq_max_attempts q = Some 1 → 0 <= ss_attempts s <= u32_max →
  let s' := (send_one_provider cn e q degraded p s).1 in
  0 <= ss_attempts s' <= u32_max ∧ ss_attempts s' <= sat_add32 (ss_attempts s) (budget_of cn p).
Proof.
  intros Hh Hq Hs. unfold send_one_provider. rewrite Hq. change (Z.to_nat (Z.max (default _ (Some 1)) 1)) with 1%nat.
  cbn [attempts_loop]. cbn [Nat.ltb Nat.leb andb]. specialize (Hh p 0%nat).
  assert (1 <= budget_of cn p) by (unfold budget_of; case_match; lia).
  assert (∀ n, 0 <= n <= budget_of cn p → 0 <= sat_add32 (ss_attempts s) n <= u32_max ∧
    sat_add32 (ss_attempts s) n <= sat_add32 (ss_attempts s) (budget_of cn p)) as Hadd.
  { intros n Hn. split; [unfold sat_add32; lia|]. apply sat_add32_mono; lia. }
  destruct (se_reply e p 0) as [err|enforces model emitted att r].
  { destruct (is_transient err); apply Hadd; lia. }
  assert (0 <= default 1 att <= budget_of cn p) as Hatt.
  { destruct att as [n|]; cbn; [by eapply Hh|lia]. }
  repeat case_match; cbn [fst ss_attempts]; apply Hadd; try lia; exact Hatt.
Qed.

Lemma failover_attempts {R} (e : SendEnv R) q chain is_primary pt policy last_err cn s :
  honest cn e → sq_max_attempts q = Some 1 → 0 <= ss_attempts s <= u32_max →
  let s' := (failover_loop chain is_primary pt policy e q last_err cn s).1.2 in
  0 <= ss_attempts s' <= foldl (λ t p, sat_add32 t (budget_of cn p)) (ss_attempts s) chain.
Proof.
  intros Hh Hq. revert is_primary last_err cn s Hh.
  induction chain as [|p chain IH]; intros is_primary last_err cn s Hh Hs; [cbn; lia|].
  assert (Hb0 : ∀ p, 0 <= budget_of cn p) by (intros p'; unfold budget_of; case_match; lia).
  assert (Hnext : ∀ err cn1 s1, providers cn1 = providers cn → 0 <= ss_attempts s1 <= u32_max →
    ss_attempts s1 <= sat_add32 (ss_attempts s) (budget_of cn p) →
    0 <= ss_attempts (failover_loop chain false pt policy e q err cn1 s1).1.2 <=
      foldl (λ t p, sat_add32 t (budget_of cn p)) (sat_add32 (ss_attempts s) (budget_of cn p)) chain).
  { intros err cn1 s1 Hcn Hs1 Hle.
    assert (Hbud : ∀ p, budget_of cn1 p = budget_of cn p) by (intros p'; unfold budget_of; by rewrite Hcn).
    assert (Hh1 : honest cn1 e) by (intros p' k enf m em n r Hr; rewrite Hbud; by eapply Hh).
    destruct (IH false err cn1 s1 Hh1 Hs1) as [H1 H2]. split; [done|]. etrans; [exact H2|].
    etrans; [by apply foldl_sat_mono|]. apply Z.eq_le_incl. generalize (sat_add32 (ss_attempts s) (budget_of cn p)).
    clear -Hbud. induction chain as [|p' chain IH]; intros z; [done|]. cbn. by rewrite Hbud, IH. }
  assert (Hstay : ss_attempts s <= sat_add32 (ss_attempts s) (budget_of cn p)).
  { specialize (Hb0 p). unfold sat_add32. lia. }
  cbn [failover_loop foldl]. destruct (providers cn !! p) as [adapter|]; [|by apply Hnext].
  destruct (provider_is_compatible _ _ _ _ _); [|by apply Hnext]. cbn [negb].
  destruct (breaker_admits cn (se_checked_at e p) p) as [cn1 ok] eqn:Hb.
  assert (H1 : providers cn1 = providers cn) by (unfold breaker_admits in Hb; repeat case_match; by simplify_eq).
  destruct ok; [|by apply Hnext].
  assert (Hh1 : honest cn1 e) by (intros p' k enf m em n r Hr; unfold budget_of; rewrite H1; by eapply Hh).
  assert (Hbud : budget_of cn1 p = budget_of cn p) by (unfold budget_of; by rewrite H1).
  destruct (one_attempt cn1 e q (is_primary && negb (bool_decide (sq_tools q = [])) && negb (tool_calls adapter)) p s Hh1 Hq Hs) as [Ha1 Ha2].
  rewrite Hbud in Ha2. destruct (send_one_provider _ _ _ _ _ _) as [s1 [[x model]|err]]; cbn [fst] in Ha1, Ha2.
  - cbn [fst snd]. split; [lia|]. etrans; [exact Ha2|]. apply foldl_sat_grows; [done|unfold sat_add32; lia].
  - destruct (stops_failover err).
    + cbn [fst snd]. split; [lia|]. etrans; [exact Ha2|]. apply foldl_sat_grows; [done|unfold sat_add32; lia].
    + apply Hnext; [|done|done]. by destruct (is_transient err).
Qed.

Lemma failover_outcome {R} (e : SendEnv R) q chain is_primary pt policy last_err cn s :
  match failover_loop chain is_primary pt policy e q last_err cn s with
  | (_, s', Ok o) => so_attempts o = ss_attempts s'
  | _ => True
  end.
Proof.
  revert is_primary last_err cn s. induction chain as [|p chain IH]; intros is_primary last_err cn s; [done|].
  cbn [failover_loop]. destruct (providers cn !! p) as [adapter|]; [|apply IH].
  destruct (negb _); [apply IH|]. destruct (breaker_admits _ _ _) as [cn1 []]; [|apply IH].
  destruct (send_one_provider _ _ _ _ _ _) as [s1 [[x model]|err]]; [done|]. destruct (stops_failover err); [done|apply IH].
Qed.

Lemma send_outcome_attempts {R} cn primary (e : SendEnv R) q d :
  match send_with_failover_observed cn primary e q d with
  | (_, s, Ok o) => so_attempts o = ss_attempts s
  | _ => True
  end.
Proof.
  unfold send_with_failover_observed. destruct (se_cancelled e); [done|].
  destruct (validate_primary_tool_policy _ _ _); [|done]. apply failover_outcome.
Qed.

(**  The attempts a resilient session reports after a send are within the number for which the kernel
    reserves quota before it, as long as adapters keep to the attempts they announce: the reconciliation of the
    reservation is never refused for its attempts. *)
Theorem resilient_attempts_bounded {R} cn (e : SendEnv R) q rs :
  honest cn e →
  let '(_, rs', _) := resilient_send cn e q rs in 0 <= rs_last_attempts rs' <= max_provider_attempts cn rs.
Proof.
  intros Hh. unfold resilient_send. set (q1 := mkSend _ _ _ _ _ _). set (d := rs_degradation rs).
  assert (Hb : ∀ s : SendState R, s = (send_with_failover_observed cn (rs_primary rs) e q1 d).1.2 →
    0 <= ss_attempts s <= max_provider_attempts cn rs).
  { intros s ->. unfold max_provider_attempts, send_with_failover_observed.
    destruct (se_cancelled e); [cbn; lia|]. destruct (validate_primary_tool_policy _ _ _); [|cbn; lia].
    set (s0 := mkSendState 0 [] _).
    destruct (failover_attempts e q1 (failover_chain cn (rs_primary rs)) true
      match providers cn !! rs_primary rs with Some a => ad_type a | None => Cloud end (routing_policy cn (rs_primary rs))
      (ProviderUnavailable (rs_primary rs)) cn s0 Hh eq_refl) as [H1 H2]; [cbn; unfold u32_max; lia|].
    split; [exact H1|]. etrans; [exact H2|]. cbn [ss_attempts s0]. apply Z.le_max_r. }
  pose proof (send_outcome_attempts cn (rs_primary rs) e q1 d) as Ho.
  destruct (send_with_failover_observed cn (rs_primary rs) e q1 d) as [[cn' s] [o|err]]; cbn [rs_last_attempts].
  - rewrite Ho. by apply Hb.
  - by apply Hb.
Qed.

(** ** The circuit breaker *)

Inductive BreakerEvent := BkCheck (now : Z) | BkSuccess | BkFailure (now : Z).

Definition breaker_exec (cb : CircuitBreaker) (ev : BreakerEvent) : CircuitBreaker :=
  match ev with
  | BkCheck now => (is_available now cb).1
  | BkSuccess => record_success cb
  | BkFailure now => record_failure now cb
  end.

(** The failures since the last success, and the last failure. *)
Definition count_failure (n : Z) (ev : BreakerEvent) : Z :=
  match ev with BkCheck _ => n | BkSuccess => 0 | BkFailure _ => n + 1 end.
Definition recent_failures (evs : list BreakerEvent) : Z := foldl count_failure 0 evs.
Definition last_failed (evs : list BreakerEvent) : option Z :=
  foldl (λ o ev, match ev with BkFailure now => Some now | _ => o end) None evs.

(** How many of the checks at these times are let through, one after the other. *)
Fixpoint let_through (cb : CircuitBreaker) (nows : list Z) : Z :=
  match nows with
  | [] => 0
  | now :: nows => (if (is_available now cb).2 then 1 else 0) + let_through (is_available now cb).1 nows
  end.

Record breaker_ok (threshold cooldown n : Z) (last : option Z) (cb : CircuitBreaker) : Prop := {
  bo_config : failure_threshold cb = threshold ∧ cooldown_secs cb = cooldown;
  bo_count : consecutive_failures cb = n;
  bo_last : last_failure cb = last;
  bo_closed : cb_state cb = Closed ↔ n < threshold }.

Lemma breaker_exec_ok threshold cooldown n last cb ev :
  0 < threshold → 0 <= n < u32_max → breaker_ok threshold cooldown n last cb →
  breaker_ok threshold cooldown (count_failure n ev) (match ev with BkFailure now => Some now | _ => last end) (breaker_exec cb ev).
Proof.
  intros Ht Hn [[H1 H2] H3 H4 H5]. destruct ev as [now| |now]; cbn [breaker_exec count_failure].
  - unfold is_available. destruct (cb_state cb) eqn:Hs; [|destruct (cooled_down cb now)|]; split; cbn; try done; rewrite ?Hs; try done.
    split; [done|]. intros Hlt. by apply H5 in Hlt.
  - split; cbn; done.
  - assert (Hw : wrap32 (n + 1) = n + 1) by (unfold wrap32; apply Z.mod_small; lia).
    split; cbn; rewrite ?H3, ?Hw; try done. rewrite H1. destruct (threshold <=? n + 1) eqn:He.
    + apply Z.leb_le in He. split; [done|lia].
    + apply Z.leb_gt in He. rewrite H5. lia.
Qed.

Lemma recent_snoc evs ev : recent_failures (evs ++ [ev]) = count_failure (recent_failures evs) ev.
Proof. unfold recent_failures. by rewrite foldl_app. Qed.

Lemma recent_bounds evs : 0 <= recent_failures evs <= Z.of_nat (length evs).
Proof.
  induction evs as [|ev evs IH] using rev_ind; [done|]. rewrite recent_snoc, length_app. cbn [length].
  destruct ev; cbn [count_failure]; lia.
Qed.

Lemma breaker_run_ok threshold cooldown evs :
  0 < threshold → Z.of_nat (length evs) <= u32_max →
  breaker_ok threshold cooldown (recent_failures evs) (last_failed evs) (foldl breaker_exec (breaker_new threshold cooldown) evs).
Proof.
  intros Ht. induction evs as [|ev evs IH] using rev_ind; intros Hlen; [split; [done..|]; cbn; tauto|].
  rewrite length_app in Hlen. cbn [length] in Hlen. unfold last_failed. rewrite recent_snoc, !foldl_app. cbn [foldl].
  apply breaker_exec_ok; [done|pose proof (recent_bounds evs); lia|]. apply IH. lia.
Qed.

Lemma half_open_blocks cb nows : cb_state cb = HalfOpen → let_through cb nows = 0.
Proof. intros Hs. induction nows as [|now nows IH]; [done|]. cbn. unfold is_available. by rewrite Hs. Qed.


Lemma backoff_exact r attempt :
  0 < base_backoff r → 0 <= max_backoff r <= u64_max → 0 <= attempt → backoff_for r attempt = Z.min (base_backoff r * 2 ^ attempt) (max_backoff r).
Proof.
  intros Hb Hm Ha. unfold backoff_for. destruct (attempt <? 64) eqn:H64.
  - rewrite Z.shiftl_1_l. lia.
  - apply Z.ltb_ge in H64. assert (2 ^ 64 <= 2 ^ attempt) by (apply Z.pow_le_mono_r; lia).
    assert (u64_max < 2 ^ attempt) by (unfold u64_max in *; lia). nia.
Qed.

(** ** Witnesses *)

Definition demo_connector : AgentConnector :=
  set_backup "a" "b" (register_provider "b" (mkAdapter Cloud true ["eu"] 1) (register_provider "a" (mkAdapter Cloud true ["EU"] 2) connector_new)).

(** The primary fails twice inside its adapter, the backup answers. *)
Definition demo_send_env : SendEnv string :=
  mkSendEnv false (λ _ _, false)
    (λ p _, if bool_decide (p = "a") then Session true "m1" false (Some 2) (Err (Timeout "a" "slow"))
            else Session true "m2" false None (Ok "hello"))
    (λ _, 0) (λ _, 0).

Definition demo_send : SendRequest := mkSend [] ["search"] Streaming true true None.

Lemma demo_honest : honest demo_connector demo_send_env.
Proof.
  intros p k enforces model emitted n r. cbn. case_bool_decide as Hp; [|done]. intros [= _ _ _ <- _]. subst p. vm_compute. by split.
Qed.

Lemma resilient_attempts_bounded_witness :
  let rs := mkResilient "a" "m1" ("a", "m1") 0 (mkDegraded (Some 1) false None []) in
  rs_last_attempts (resilient_send demo_connector demo_send_env demo_send rs).1.2 = 3 ∧
  rs_last_attempts (resilient_send demo_connector demo_send_env demo_send rs).1.2 <= max_provider_attempts demo_connector rs.
Proof.
  cbv zeta. split; [vm_compute; reflexivity|].
  pose proof (resilient_attempts_bounded demo_connector demo_send_env demo_send
    (mkResilient "a" "m1" ("a", "m1") 0 (mkDegraded (Some 1) false None [])) demo_honest) as H.
  destruct (resilient_send _ _ _ _) as [[cn rs] r]. apply H.
Defined.


(** ** Divergences *)

(** A probe that is cancelled records neither success nor failure: the breaker stays half open and lets no
    later request through, whatever time passes. *)
Example cancelled_probe_blocks_provider :
  let tripped := mkBreaker 3 3 Open (Some 0) 30 in
  let cn := set_breakers {["b" := tripped]} (register_provider "b" (mkAdapter Cloud true [] 1) connector_new) in
  let e := mkSendEnv (R := string) false (λ _ _, false) (λ _ _, Session true "m" false None (Err (Cancelled "b"))) (λ _, 60000000000) (λ _, 0) in
  let cn' := (send_with_failover_observed cn "b" e (mkSend [] [] NonStreaming false false None) (mkDegraded None false None [])).1.1 in
  match circuit_breakers cn' !! "b" with
  | Some cb => cb_state cb = HalfOpen ∧ ∀ nows, let_through cb nows = 0
  | None => False
  end.
Proof. vm_compute circuit_breakers. cbn. split; [done|]. intros nows. by apply half_open_blocks. Qed.

(** A failure that counted before a success and trips after it opens the breaker with a zero count; the failed
    probe then stays below the threshold and the breaker stays half open for good. *)
Example racing_outcomes_block_provider :
  let '(cb, n) := failure_count (mkBreaker 3 2 Closed (Some 0) 30) in
  let cb := failure_trip 10 n (record_success cb) in
  let '(cb, probe) := is_available 40000000000 cb in
  let cb := record_failure 40000000001 cb in
  probe = true ∧ cb_state cb = HalfOpen ∧ ∀ nows, let_through cb nows = 0.
Proof. cbn. split_and!; try done. intros nows. by apply half_open_blocks. Qed.
