(* ===== verification/Authority.v ===== *)
(** * The replicated cluster authority: state, commands and their application

    Models the deterministic state machine of [cluster_consensus.rs] and the records and validators it
    takes from [cluster_control.rs]: membership with challenged joins, certificate rollouts, agent
    ownership leases, and the receipts that make commands idempotent.  A [DateTime<Utc>] is a number of
    nanoseconds.  A [BTreeMap] is a [gmap].  The texts of error messages are left out; the source's functions that return
    [Result<(), _>] for a check are the [bool] of their success. *)

From Stdlib Require Import Ascii.
From stdpp Require Import pretty.
From S2P Require Import Prelude.

#[local] Open Scope Z_scope.

(** ** Code outside the sources

    [Uuid::parse_str] followed by [to_string]; the SHA-256 digest; the Ed25519 verification of a public
    key, a message and a signature; and the last instant of the calendar library. *)

Class ClusterExt := {
  parse_uuid : string → option string;
  sha256 : string → string;
  ed25519_verify : string → string → string → bool;
  datetime_max : Z }.

(** ** Texts and bytes *)

Definition MAX_REASON_BYTES : Z := 1024.
Definition MAX_MEMBER_ENDPOINT_BYTES : Z := 2048.
Definition MAX_MEMBER_VERSION_BYTES : Z := 256.
Definition MIN_JOIN_CHALLENGE_TTL_SECONDS : Z := 5.
Definition MAX_JOIN_CHALLENGE_TTL_SECONDS : Z := 300.
Definition MIN_CERTIFICATE_ROLLOUT_SECONDS : Z := 5.
Definition MAX_CERTIFICATE_ROLLOUT_SECONDS : Z := 3600.
Definition MIN_OWNERSHIP_LEASE_TTL_SECONDS : Z := 5.
Definition MAX_OWNERSHIP_LEASE_TTL_SECONDS : Z := 300.

Definition slen (s : string) : Z := Z.of_nat (String.length s).

Definition validate_text (value : string) : bool :=
  negb (bool_decide (trim value = EmptyString) || (MAX_REASON_BYTES <? slen value) || string_contains "000" value).

Definition validate_reason (reason : string) : bool := validate_text reason.

(** [chars().any(char::is_control)]: U+0000 to U+001F and U+007F to U+009F in UTF-8. *)
Fixpoint has_control (s : string) : bool :=
  match s with
  | EmptyString => false
  | String c r =>
      let n := Z.of_N (N_of_ascii c) in
      (n <? 32) || (n =? 127) ||
      ((n =? 194) && match r with
                     | String d _ => (128 <=? Z.of_N (N_of_ascii d)) && (Z.of_N (N_of_ascii d) <=? 159)
                     | EmptyString => false
                     end) || has_control r
  end.

Definition validate_member_text (value : string) (max_bytes : Z) : bool :=
  negb (negb (bool_decide (trim value = value)) || bool_decide (value = EmptyString) ||
        (max_bytes <? slen value) || has_control value).

(** One hexadecimal digit, of either case. *)
Definition hex_digit (c : ascii) : option Z :=
  let n := Z.of_N (N_of_ascii c) in
  if (48 <=? n) && (n <=? 57) then Some (n - 48)
  else if (97 <=? n) && (n <=? 102) then Some (n - 87)
  else if (65 <=? n) && (n <=? 70) then Some (n - 55)
  else None.

(** [u8::from_str_radix(pair, 16)], which takes a leading plus sign. *)
Definition radix_pair (a b : ascii) : option Z :=
  if bool_decide (a = "+"%char) then hex_digit b
  else
    match hex_digit a, hex_digit b with
    | Some x, Some y => Some (16 * x + y)
    | _, _ => None
    end.

Definition byte_char (b : Z) : ascii := ascii_of_N (Z.to_N b).

Fixpoint hex_decode (value : string) : option string :=
  match value with
  | EmptyString => Some EmptyString
  | String a (String b r) =>
      match radix_pair a b, hex_decode r with
      | Some x, Some bytes => Some (String (byte_char x) bytes)
      | _, _ => None
      end
  | String _ EmptyString => None
  end.

Definition hex_char (x : Z) : ascii := byte_char (if x <? 10 then x + 48 else x + 87).

Fixpoint hex_encode (bytes : string) : string :=
  match bytes with
  | EmptyString => EmptyString
  | String c r =>
      let n := Z.of_N (N_of_ascii c) in String (hex_char (n / 16)) (String (hex_char (n mod 16)) (hex_encode r))
  end.

(** [hex_decode(value).filter(|bytes| bytes.len() == 32)]. *)
Definition decode_32 (value : string) : option string :=
  match hex_decode value with
  | Some bytes => if slen bytes =? 32 then Some bytes else None
  | None => None
  end.

(** [is_ascii_hexdigit] and not upper case. *)
Fixpoint lower_hex (s : string) : bool :=
  match s with
  | EmptyString => true
  | String c r =>
      let n := Z.of_N (N_of_ascii c) in
      ((48 <=? n) && (n <=? 57) || (97 <=? n) && (n <=? 102)) && lower_hex r
  end.

Definition valid_tls_fingerprint (fingerprint : string) : bool := (slen fingerprint =? 64) && lower_hex fingerprint.

(** ** Data *)

Record LogId := mkLogId { lg_term : Z; lg_node : Z; lg_index : Z }.

Inductive ClusterMemberState := MemberActive | MemberLeft | MemberRevoked.
Inductive ClusterOwnershipState := OwnActive | OwnReleased.
Inductive ClusterCertificateRolloutPhase := Prepared | Activated.

Record ClusterMemberRegistration := mkReg {
  rg_node_id : string; rg_fingerprint : string; rg_public_key : string; rg_tls : option string;
  rg_endpoint : string; rg_server_version : string; rg_min_protocol : Z; rg_protocol : Z }.

Record ClusterMember := mkMember {
  mb_node_id : string; mb_fingerprint : string; mb_public_key : string; mb_tls : option string;
  mb_endpoint : string; mb_server_version : string; mb_min_protocol : Z; mb_protocol : Z;
  mb_state : ClusterMemberState; mb_generation : Z; mb_joined_at : Z; mb_updated_at : Z; mb_reason : string }.

Record ClusterMembershipAudit := mkMAudit {
  ma_membership_generation : Z; ma_node_id : string; ma_member_generation : Z;
  ma_previous : option ClusterMemberState; ma_current : ClusterMemberState;
  ma_previous_tls : option string; ma_current_tls : option string;
  ma_actor : string; ma_reason : string; ma_changed_at : Z }.

Record ClusterCertificateRollout := mkRollout {
  ro_node_id : string; ro_trust_generation : Z; ro_member_generation : Z; ro_phase : ClusterCertificateRolloutPhase;
  ro_previous : string; ro_next : string; ro_overlap : Z; ro_prepare_expires_at : Z;
  ro_retire_after : option Z; ro_prepared_at : Z; ro_updated_at : Z; ro_reason : string }.

Record ClusterCertificateRolloutAudit := mkRAudit {
  ra_trust_generation : Z; ra_node_id : string; ra_member_generation : Z;
  ra_previous_phase : option ClusterCertificateRolloutPhase; ra_current_phase : option ClusterCertificateRolloutPhase;
  ra_previous : string; ra_next : string; ra_actor : string; ra_reason : string; ra_changed_at : Z }.

Record ClusterAgentOwnership := mkOwnership {
  ow_agent_id : string; ow_owner : string; ow_term : Z; ow_token : Z; ow_generation : Z;
  ow_state : ClusterOwnershipState; ow_expires_at : Z; ow_updated_at : Z; ow_reason : string }.

Record ClusterAgentOwnershipAudit := mkOAudit {
  oa_agent_id : string; oa_generation : Z; oa_previous_owner : option string; oa_owner : string; oa_term : Z;
  oa_token : Z; oa_operation : string; oa_actor : string; oa_reason : string; oa_changed_at : Z }.

Record ClusterJoinChallenge := mkJoin { jc_cluster_id : string; jc_challenge_hex : string; jc_expires_at : Z }.

Record AuthorityGenesisMember := mkSeed {
  sd_node_id : string; sd_fingerprint : string; sd_public_key : string; sd_tls : option string;
  sd_endpoint : string; sd_server_version : string; sd_min_protocol : Z; sd_protocol : Z }.

Record AuthorityGenesis := mkGenesis { gn_cluster_id : string; gn_members : list AuthorityGenesisMember }.

Record ReplicatedJoinChallenge := mkChallenge { ch_hex : string; ch_expires_at : Z; ch_consumed_at : option Z }.

Record ReplicatedControlPlaneState := mkControl {
  genesis : AuthorityGenesis;
  cluster_id : string;
  membership_generation : Z;
  members : gmap string ClusterMember;
  membership_audit : list ClusterMembershipAudit;
  tls_trust_generation : Z;
  certificate_rollouts : gmap string ClusterCertificateRollout;
  certificate_rollout_audit : list ClusterCertificateRolloutAudit;
  join_challenges : gmap string ReplicatedJoinChallenge;
  ownerships : gmap string ClusterAgentOwnership;
  ownership_audit : list ClusterAgentOwnershipAudit;
  logical_time : Z }.

Inductive AuthorityCommand :=
| Initialize (operation_id : string) (genesis : AuthorityGenesis) (proposed_at : Z)
| Barrier (operation_id : string) (expected_sequence : option Z)
| AdvanceTime (operation_id : string) (proposed_at : Z)
| IssueJoinChallenge (operation_id challenge_hex : string) (ttl_seconds : Z) (proposed_at : Z)
| RegisterMember (operation_id : string) (registration : ClusterMemberRegistration)
    (challenge_hex signature_hex : string) (expected_generation : option Z)
    (authority_min_protocol authority_protocol : Z) (actor reason : string) (proposed_at : Z)
| PrepareMemberCertificateRollout (operation_id : string) (registration : ClusterMemberRegistration)
    (challenge_hex signature_hex : string) (expected_generation : Z)
    (prepare_ttl_seconds minimum_overlap_seconds : Z) (actor reason : string) (proposed_at : Z)
| AbortMemberCertificateRollout (operation_id node_id : string) (expected_generation : Z) (actor reason : string)
    (proposed_at : Z)
| FinalizeMemberCertificateRollout (operation_id node_id : string) (expected_generation : Z) (actor reason : string)
    (proposed_at : Z)
| SetMemberState (operation_id node_id : string) (state : ClusterMemberState) (expected_generation : Z)
    (actor reason : string) (proposed_at : Z)
| ClaimOwnership (operation_id agent_id owner_node_id : string) (ttl_seconds : Z) (expected_fencing_token : option Z)
    (actor reason : string) (proposed_at : Z)
| RenewOwnership (operation_id agent_id owner_node_id : string) (fencing_token ttl_seconds : Z)
    (actor reason : string) (proposed_at : Z)
| ReleaseOwnership (operation_id agent_id owner_node_id : string) (fencing_token : Z) (actor reason : string)
    (proposed_at : Z).

Definition command_id (c : AuthorityCommand) : string :=
  match c with
  | Initialize id _ _ | Barrier id _ | AdvanceTime id _ | IssueJoinChallenge id _ _ _
  | RegisterMember id _ _ _ _ _ _ _ _ _ | PrepareMemberCertificateRollout id _ _ _ _ _ _ _ _ _
  | AbortMemberCertificateRollout id _ _ _ _ _ | FinalizeMemberCertificateRollout id _ _ _ _ _
  | SetMemberState id _ _ _ _ _ _ | ClaimOwnership id _ _ _ _ _ _ _ | RenewOwnership id _ _ _ _ _ _ _
  | ReleaseOwnership id _ _ _ _ _ _ => id
  end.

Inductive AuthorityRejection :=
| InvalidOperationId | OperationIdConflict | SequenceMismatch | ReceiptCapacityReached | SequenceExhausted
| NotInitialized | InvalidCommand | Conflict | CapacityReached.

Inductive AuthorityResponse :=
| MetadataApplied (sequence : Z) (log_id : LogId)
| BarrierCommitted (operation_id : string) (sequence : Z) (log_id : LogId) (replayed : bool)
| AuthorityTimeAdvanced (operation_id : string) (logical_time : Z) (log_id : LogId)
| ControlPlaneInitialized (operation_id : string) (sequence : Z) (log_id : LogId) (replayed : bool)
| JoinChallengeIssued (operation_id : string) (challenge : ClusterJoinChallenge) (sequence : Z) (log_id : LogId)
    (replayed : bool)
| MemberUpdated (operation_id : string) (member : ClusterMember) (sequence : Z) (log_id : LogId) (replayed : bool)
| CertificateRolloutUpdated (operation_id : string) (member : ClusterMember)
    (rollout : option ClusterCertificateRollout) (sequence : Z) (log_id : LogId) (replayed : bool)
| OwnershipUpdated (operation_id : string) (ownership : ClusterAgentOwnership) (sequence : Z) (log_id : LogId)
    (replayed : bool)
| Rejected (operation_id : string) (sequence : Z) (log_id : LogId) (reason : AuthorityRejection).

Record StoredAuthorityReceipt := mkReceipt { rc_command : AuthorityCommand; rc_response : AuthorityResponse }.

Record AuthorityState := mkAuthority {
  sequence : Z;
  receipts : gmap string StoredAuthorityReceipt;
  control_plane : option ReplicatedControlPlaneState }.

(** [AuthorityState::default()]. *)
Definition empty_authority : AuthorityState := mkAuthority 0 ∅ None.

Definition MAX_AUTHORITY_RECEIPTS : Z := 4096.

#[global] Instance LogId_eq_dec : EqDecision LogId.
Proof. solve_decision. Defined.
#[global] Instance ClusterMemberState_eq_dec : EqDecision ClusterMemberState.
Proof. solve_decision. Defined.
#[global] Instance ClusterOwnershipState_eq_dec : EqDecision ClusterOwnershipState.
Proof. solve_decision. Defined.
#[global] Instance RolloutPhase_eq_dec : EqDecision ClusterCertificateRolloutPhase.
Proof. solve_decision. Defined.
#[global] Instance Registration_eq_dec : EqDecision ClusterMemberRegistration.
Proof. solve_decision. Defined.
#[global] Instance Member_eq_dec : EqDecision ClusterMember.
Proof. solve_decision. Defined.
#[global] Instance Seed_eq_dec : EqDecision AuthorityGenesisMember.
Proof. solve_decision. Defined.
#[global] Instance Genesis_eq_dec : EqDecision AuthorityGenesis.
Proof. solve_decision. Defined.
#[global] Instance Command_eq_dec : EqDecision AuthorityCommand.
Proof. solve_decision. Defined.

Section authority.
Context `{ClusterExt}.

Definition sha256_hex (bytes : string) : string := hex_encode (sha256 bytes).

(** [now.checked_add_signed(..)] for a positive duration. *)
Definition add_nanos (now delta : Z) : option Z := if now + delta <=? datetime_max then Some (now + delta) else None.
Definition add_seconds (now seconds : Z) : option Z := add_nanos now (seconds * 1000000000).

Definition validate_member_registration (r : ClusterMemberRegistration) : bool :=
  match parse_uuid (rg_node_id r), decode_32 (rg_public_key r) with
  | Some _, Some public_key =>
      (slen (rg_fingerprint r) =? 64) && bool_decide (sha256_hex public_key = rg_fingerprint r) &&
      match rg_tls r with Some fingerprint => valid_tls_fingerprint fingerprint | None => true end &&
      validate_member_text (rg_endpoint r) MAX_MEMBER_ENDPOINT_BYTES &&
      validate_member_text (rg_server_version r) MAX_MEMBER_VERSION_BYTES &&
      negb ((rg_min_protocol r =? 0) || (rg_protocol r <? rg_min_protocol r))
  | _, _ => false
  end.

Definition validate_ownership_identity (agent_id owner_node_id : string) : bool :=
  match parse_uuid agent_id, parse_uuid owner_node_id with Some _, Some _ => true | _, _ => false end.

Definition in_window (lo hi x : Z) : bool := (lo <=? x) && (x <=? hi).

Definition validate_ownership_request (agent_id owner_node_id : string) (ttl_seconds : Z) (actor reason : string) : bool :=
  validate_ownership_identity agent_id owner_node_id &&
  in_window MIN_OWNERSHIP_LEASE_TTL_SECONDS MAX_OWNERSHIP_LEASE_TTL_SECONDS ttl_seconds &&
  validate_text actor && validate_reason reason.

Definition ownership_expiry (now ttl_seconds : Z) : option Z :=
  if ttl_seconds <=? 9223372036854775807 then add_seconds now ttl_seconds else None.

(** A field of the signed payload: its length in four bytes, then its bytes. *)
Definition payload_field (field : string) : option string :=
  let n := slen field in
  if n <=? u32_max then
    Some (String (byte_char (n / 16777216)) (String (byte_char (n / 65536 mod 256))
      (String (byte_char (n / 256 mod 256)) (String (byte_char (n mod 256)) field))))
  else None.

Fixpoint payload_fields (fields : list string) : option string :=
  match fields with
  | [] => Some EmptyString
  | f :: fs =>
      match payload_field f, payload_fields fs with
      | Some a, Some b => Some (a +:+ b)
      | _, _ => None
      end
  end.

Definition membership_join_payload (cluster_id challenge_hex : string) (r : ClusterMemberRegistration) : option string :=
  match parse_uuid cluster_id, validate_member_registration r, decode_32 challenge_hex with
  | Some _, true, Some challenge =>
      match payload_fields ([cluster_id; challenge; rg_node_id r; rg_fingerprint r; rg_public_key r; rg_endpoint r;
              rg_server_version r; pretty (rg_min_protocol r); pretty (rg_protocol r)] ++ option_list (rg_tls r)) with
      | Some fields => Some ("AIagentOS cluster membership join v1" +:+ fields)
      | None => None
      end
  | _, _, _ => None
  end.

Definition verify_challenge (public_key_hex payload signature : string) : bool :=
  match hex_decode public_key_hex with
  | Some public_key => ed25519_verify public_key payload signature
  | None => false
  end.

Definition canonical_operation_id (operation_id : string) : option string :=
  match parse_uuid operation_id with
  | Some canonical => if bool_decide (canonical = operation_id) then Some canonical else None
  | None => None
  end.

(** ** Updates of the state *)

Definition set_time (t : Z) (c : ReplicatedControlPlaneState) : ReplicatedControlPlaneState :=
  mkControl (genesis c) (cluster_id c) (membership_generation c) (members c) (membership_audit c)
    (tls_trust_generation c) (certificate_rollouts c) (certificate_rollout_audit c) (join_challenges c)
    (ownerships c) (ownership_audit c) t.
Definition set_challenges (m : gmap string ReplicatedJoinChallenge) (c : ReplicatedControlPlaneState) : ReplicatedControlPlaneState :=
  mkControl (genesis c) (cluster_id c) (membership_generation c) (members c) (membership_audit c)
    (tls_trust_generation c) (certificate_rollouts c) (certificate_rollout_audit c) m
    (ownerships c) (ownership_audit c) (logical_time c).
Definition set_rollouts (m : gmap string ClusterCertificateRollout) (c : ReplicatedControlPlaneState) : ReplicatedControlPlaneState :=
  mkControl (genesis c) (cluster_id c) (membership_generation c) (members c) (membership_audit c)
    (tls_trust_generation c) m (certificate_rollout_audit c) (join_challenges c)
    (ownerships c) (ownership_audit c) (logical_time c).

(** The record of [key], the generation and the audit entry that go with a membership change. *)
Definition push_membership (key : string) (m : ClusterMember) (a : ClusterMembershipAudit) (c : ReplicatedControlPlaneState)
    : ReplicatedControlPlaneState :=
  mkControl (genesis c) (cluster_id c) (ma_membership_generation a) (<[key := m]> (members c))
    (membership_audit c ++ [a]) (tls_trust_generation c) (certificate_rollouts c) (certificate_rollout_audit c)
    (join_challenges c) (ownerships c) (ownership_audit c) (logical_time c).

Definition push_rollout_audit (a : ClusterCertificateRolloutAudit) (c : ReplicatedControlPlaneState) : ReplicatedControlPlaneState :=
  mkControl (genesis c) (cluster_id c) (membership_generation c) (members c) (membership_audit c)
    (ra_trust_generation a) (certificate_rollouts c) (certificate_rollout_audit c ++ [a]) (join_challenges c)
    (ownerships c) (ownership_audit c) (logical_time c).

Definition push_ownership (o : ClusterAgentOwnership) (a : ClusterAgentOwnershipAudit) (c : ReplicatedControlPlaneState)
    : ReplicatedControlPlaneState :=
  mkControl (genesis c) (cluster_id c) (membership_generation c) (members c) (membership_audit c)
    (tls_trust_generation c) (certificate_rollouts c) (certificate_rollout_audit c) (join_challenges c)
    (<[oa_agent_id a := o]> (ownerships c)) (ownership_audit c ++ [a]) (logical_time c).

(** ** Application *)

Definition advance_authority_time (c : ReplicatedControlPlaneState) (proposed_at : Z)
    : result AuthorityRejection (ReplicatedControlPlaneState * Z) :=
  minimum ← ok_or InvalidCommand (add_nanos (logical_time c) 1000);
  let effective := Z.max proposed_at minimum in
  Ok (set_time effective c, effective).

Definition seed_registration (s : AuthorityGenesisMember) : ClusterMemberRegistration :=
  mkReg (sd_node_id s) (sd_fingerprint s) (sd_public_key s) (sd_tls s) (sd_endpoint s) (sd_server_version s)
    (sd_min_protocol s) (sd_protocol s).

Definition seed_member (at_ : Z) (s : AuthorityGenesisMember) : ClusterMember :=
  mkMember (sd_node_id s) (sd_fingerprint s) (sd_public_key s) (sd_tls s) (sd_endpoint s) (sd_server_version s)
    (sd_min_protocol s) (sd_protocol s) MemberActive 1 at_ at_ "replicated authority genesis".

(** The members, fingerprints, endpoints and TLS bindings of the seeds so far. *)
Record GenesisAcc := mkGenAcc {
  ga_members : gmap string ClusterMember; ga_fingerprints : gset string; ga_endpoints : gset string; ga_tls : gset string }.

Definition genesis_step (at_ : Z) (acc : GenesisAcc) (s : AuthorityGenesisMember) : result AuthorityRejection GenesisAcc :=
  _ ← ensure (validate_member_registration (seed_registration s)) InvalidCommand;
  _ ← ensure (bool_decide (sd_fingerprint s ∉ ga_fingerprints acc) && bool_decide (sd_endpoint s ∉ ga_endpoints acc) &&
        match sd_tls s with Some f => bool_decide (f ∉ ga_tls acc) | None => true end) InvalidCommand;
  _ ← ensure (bool_decide (ga_members acc !! sd_node_id s = None)) InvalidCommand;
  Ok (mkGenAcc (<[sd_node_id s := seed_member at_ s]> (ga_members acc)) ({[sd_fingerprint s]} ∪ ga_fingerprints acc)
        ({[sd_endpoint s]} ∪ ga_endpoints acc) (list_to_set (option_list (sd_tls s)) ∪ ga_tls acc)).

Definition genesis_audit (at_ : Z) (index : nat) (m : ClusterMember) : ClusterMembershipAudit :=
  mkMAudit (Z.of_nat index + 1) (mb_node_id m) 1 None MemberActive None (mb_tls m) "system:raft-genesis"
    "replicated authority genesis" at_.

Definition validate_and_build_genesis (g : AuthorityGenesis) (proposed_at : Z)
    : result AuthorityRejection ReplicatedControlPlaneState :=
  cluster ← ok_or InvalidCommand (parse_uuid (gn_cluster_id g));
  _ ← ensure (bool_decide (cluster = gn_cluster_id g)) InvalidCommand;
  _ ← ensure (negb (bool_decide (gn_members g = [])) && (Z.of_nat (length (gn_members g)) <=? 31)) InvalidCommand;
  acc ← try_fold (genesis_step proposed_at) (gn_members g) (mkGenAcc ∅ ∅ ∅ ∅);
  Ok (mkControl g (gn_cluster_id g) (Z.of_nat (size (ga_members acc))) (ga_members acc)
        (imap (genesis_audit proposed_at) (entries (ga_members acc)).*2) 0 ∅ [] ∅ ∅ [] proposed_at).

Definition validate_challenged_registration (c : ReplicatedControlPlaneState) (r : ClusterMemberRegistration)
    (challenge_hex signature_hex : string) (proposed_at : Z)
    : result AuthorityRejection (ReplicatedControlPlaneState * Z * string) :=
  _ ← ensure (validate_member_registration r) InvalidCommand;
  challenge ← ok_or InvalidCommand (decode_32 challenge_hex);
  signature ← ok_or InvalidCommand (hex_decode signature_hex);
  payload ← ok_or InvalidCommand (membership_join_payload (cluster_id c) challenge_hex r);
  _ ← ensure (verify_challenge (rg_public_key r) payload signature) Conflict;
  '(c, now) ← advance_authority_time c proposed_at;
  let challenge_hash := sha256_hex challenge in
  record ← ok_or Conflict (join_challenges c !! challenge_hash);
  _ ← ensure (bool_decide (ch_hex record = challenge_hex)) Conflict;
  _ ← ensure (bool_decide (ch_consumed_at record = None)) Conflict;
  _ ← ensure (negb (ch_expires_at record <=? now)) Conflict;
  Ok (c, now, challenge_hash).

(** The source unwraps the record, which the validation found. *)
Definition consume_join_challenge (c : ReplicatedControlPlaneState) (challenge_hash : string) (now : Z)
    : ReplicatedControlPlaneState :=
  set_challenges (alter (λ r, mkChallenge (ch_hex r) (ch_expires_at r) (Some now)) challenge_hash (join_challenges c)) c.

Definition require_membership_audit_capacity (c : ReplicatedControlPlaneState) : result AuthorityRejection unit :=
  ensure (negb (100000 <=? Z.of_nat (length (membership_audit c)))) CapacityReached.

Definition require_certificate_rollout_audit_capacity (c : ReplicatedControlPlaneState) : result AuthorityRejection unit :=
  ensure (negb (100000 <=? Z.of_nat (length (certificate_rollout_audit c)))) CapacityReached.

Definition append_member_revision (c : ReplicatedControlPlaneState) (previous : ClusterMember) (state : ClusterMemberState)
    (tls : option string) (actor reason : string) (now : Z)
    : result AuthorityRejection (ReplicatedControlPlaneState * ClusterMember) :=
  _ ← require_membership_audit_capacity c;
  generation ← ok_or Conflict (checked_add64 (mb_generation previous) 1);
  membership_generation ← ok_or Conflict (checked_add64 (membership_generation c) 1);
  let updated := mkMember (mb_node_id previous) (mb_fingerprint previous) (mb_public_key previous) tls
    (mb_endpoint previous) (mb_server_version previous) (mb_min_protocol previous) (mb_protocol previous)
    state generation (mb_joined_at previous) now reason in
  Ok (push_membership (mb_node_id previous) updated
        (mkMAudit membership_generation (mb_node_id previous) generation (Some (mb_state previous)) state
           (mb_tls previous) tls actor reason now) c, updated).

Definition append_certificate_rollout_audit (c : ReplicatedControlPlaneState) (node_id : string) (member_generation : Z)
    (previous_phase current_phase : option ClusterCertificateRolloutPhase) (previous next actor reason : string) (now : Z)
    : result AuthorityRejection (ReplicatedControlPlaneState * Z) :=
  _ ← require_certificate_rollout_audit_capacity c;
  trust_generation ← ok_or Conflict (checked_add64 (tls_trust_generation c) 1);
  Ok (push_rollout_audit (mkRAudit trust_generation node_id member_generation previous_phase current_phase previous next
        actor reason now) c, trust_generation).

Definition certificate_fingerprint_was_previously_authorized (c : ReplicatedControlPlaneState) (fingerprint : string) : bool :=
  existsb (λ a, bool_decide (ma_previous_tls a = Some fingerprint) || bool_decide (ma_current_tls a = Some fingerprint))
    (membership_audit c) ||
  existsb (λ a, bool_decide (ra_previous a = fingerprint) || bool_decide (ra_next a = fingerprint))
    (certificate_rollout_audit c).

(** The fields a certificate rollout may not change. *)
Definition same_registration (m : ClusterMember) (r : ClusterMemberRegistration) : bool :=
  bool_decide (mb_fingerprint m = rg_fingerprint r) && bool_decide (mb_public_key m = rg_public_key r) &&
  bool_decide (mb_endpoint m = rg_endpoint r) && bool_decide (mb_server_version m = rg_server_version r) &&
  (mb_min_protocol m =? rg_min_protocol r) && (mb_protocol m =? rg_protocol r).

Definition any_member (f : ClusterMember → bool) (c : ReplicatedControlPlaneState) : bool :=
  existsb f (entries (members c)).*2.

Definition apply_prepare_member_certificate_rollout (c : ReplicatedControlPlaneState) (r : ClusterMemberRegistration)
    (challenge_hex signature_hex : string) (expected_generation prepare_ttl_seconds minimum_overlap_seconds : Z)
    (actor reason : string) (proposed_at : Z)
    : result AuthorityRejection (ReplicatedControlPlaneState * (ClusterMember * ClusterCertificateRollout)) :=
  _ ← ensure (validate_text actor) InvalidCommand;
  _ ← ensure (validate_reason reason) InvalidCommand;
  _ ← ensure (in_window MIN_CERTIFICATE_ROLLOUT_SECONDS MAX_CERTIFICATE_ROLLOUT_SECONDS prepare_ttl_seconds &&
        in_window MIN_CERTIFICATE_ROLLOUT_SECONDS MAX_CERTIFICATE_ROLLOUT_SECONDS minimum_overlap_seconds) InvalidCommand;
  _ ← require_membership_audit_capacity c;
  _ ← require_certificate_rollout_audit_capacity c;
  '(c, now, challenge_hash) ← validate_challenged_registration c r challenge_hex signature_hex proposed_at;
  member ← ok_or Conflict (members c !! rg_node_id r);
  _ ← ensure (bool_decide (mb_state member = MemberActive)) Conflict;
  _ ← ensure (mb_generation member =? expected_generation) Conflict;
  _ ← ensure (bool_decide (certificate_rollouts c !! mb_node_id member = None)) Conflict;
  _ ← ensure (same_registration member r) Conflict;
  previous_fingerprint ← ok_or Conflict (mb_tls member);
  next_fingerprint ← ok_or InvalidCommand (rg_tls r);
  _ ← ensure (negb (bool_decide (previous_fingerprint = next_fingerprint))) Conflict;
  _ ← ensure (negb (certificate_fingerprint_was_previously_authorized c next_fingerprint ||
        any_member (λ m, bool_decide (mb_tls m = Some next_fingerprint)) c)) Conflict;
  prepare_expires_at ← ok_or InvalidCommand (add_seconds now prepare_ttl_seconds);
  '(c, updated) ← append_member_revision c member (mb_state member) (mb_tls member) actor reason now;
  '(c, trust_generation) ← append_certificate_rollout_audit c (mb_node_id member) (mb_generation updated) None
    (Some Prepared) previous_fingerprint next_fingerprint actor reason now;
  let rollout := mkRollout (mb_node_id member) trust_generation (mb_generation updated) Prepared previous_fingerprint
    next_fingerprint minimum_overlap_seconds prepare_expires_at None now now reason in
  let c := set_rollouts (<[mb_node_id member := rollout]> (certificate_rollouts c)) c in
  Ok (consume_join_challenge c challenge_hash now, (updated, rollout)).

Inductive CertificateRolloutFinish := FinishAbort | FinishFinalize.

(** The guards of the [match finish]. *)
Definition may_finish (finish : CertificateRolloutFinish) (rollout : ClusterCertificateRollout) (now : Z) : bool :=
  match finish with
  | FinishAbort => bool_decide (ro_phase rollout = Prepared)
  | FinishFinalize =>
      bool_decide (ro_phase rollout = Activated) &&
      match ro_retire_after rollout with Some deadline => deadline <=? now | None => false end
  end.

Definition apply_finish_member_certificate_rollout (c : ReplicatedControlPlaneState) (node_id : string)
    (expected_generation : Z) (finish : CertificateRolloutFinish) (actor reason : string) (proposed_at : Z)
    : result AuthorityRejection (ReplicatedControlPlaneState * ClusterMember) :=
  _ ← ok_or InvalidCommand (parse_uuid node_id);
  _ ← ensure (validate_text actor) InvalidCommand;
  _ ← ensure (validate_reason reason) InvalidCommand;
  _ ← require_membership_audit_capacity c;
  _ ← require_certificate_rollout_audit_capacity c;
  member ← ok_or Conflict (members c !! node_id);
  _ ← ensure (bool_decide (mb_state member = MemberActive)) Conflict;
  _ ← ensure (mb_generation member =? expected_generation) Conflict;
  rollout ← ok_or Conflict (certificate_rollouts c !! node_id);
  _ ← ensure (ro_member_generation rollout =? mb_generation member) Conflict;
  '(c, now) ← advance_authority_time c proposed_at;
  _ ← ensure (may_finish finish rollout now) Conflict;
  '(c, updated) ← append_member_revision c member (mb_state member) (mb_tls member) actor reason now;
  '(c, _) ← append_certificate_rollout_audit c node_id (mb_generation updated) (Some (ro_phase rollout)) None
    (ro_previous rollout) (ro_next rollout) actor reason now;
  Ok (set_rollouts (delete node_id (certificate_rollouts c)) c, updated).

(** The prepared rollout that a registration of a known member activates, if any. *)
Definition activates (member : ClusterMember) (r : ClusterMemberRegistration) (rollout : ClusterCertificateRollout) (now : Z) : bool :=
  bool_decide (mb_state member = MemberActive) && negb (bool_decide (mb_tls member = rg_tls r)) &&
  bool_decide (ro_phase rollout = Prepared) && (ro_member_generation rollout =? mb_generation member) &&
  bool_decide (rg_tls r = Some (ro_next rollout)) && (now <? ro_prepare_expires_at rollout).

Definition find_activation (c : ReplicatedControlPlaneState) (r : ClusterMemberRegistration) (existing : option ClusterMember)
    (now : Z) : result AuthorityRejection (option ClusterCertificateRollout) :=
  match existing with
  | None => Ok None
  | Some member =>
      match certificate_rollouts c !! mb_node_id member with
      | Some rollout =>
          if activates member r rollout now then
            _ ← ensure (same_registration member r && bool_decide (mb_tls member = Some (ro_previous rollout))) Conflict;
            _ ← require_certificate_rollout_audit_capacity c;
            Ok (Some rollout)
          else Err Conflict
      | None =>
          if bool_decide (mb_state member = MemberActive) && negb (bool_decide (mb_tls member = rg_tls r)) then Err Conflict
          else Ok None
      end
  end.

(** Another member has the identity, the endpoint or the TLS binding. *)
Definition taken_by (r : ClusterMemberRegistration) (m : ClusterMember) : bool :=
  negb (bool_decide (mb_node_id m = rg_node_id r)) &&
  (bool_decide (mb_fingerprint m = rg_fingerprint r) || bool_decide (mb_endpoint m = rg_endpoint r) ||
   match rg_tls r with Some f => bool_decide (mb_tls m = Some f) | None => false end).

(** The previous state and TLS binding, the generation and the time of joining. *)
Definition next_revision (r : ClusterMemberRegistration) (existing : option ClusterMember) (expected_generation : option Z) (now : Z)
    : result AuthorityRejection (option ClusterMemberState * option string * Z * Z) :=
  match existing with
  | Some member =>
      expected ← ok_or Conflict expected_generation;
      _ ← ensure (expected =? mb_generation member) Conflict;
      _ ← ensure (negb (bool_decide (mb_state member = MemberRevoked))) Conflict;
      _ ← ensure (bool_decide (mb_fingerprint member = rg_fingerprint r) &&
                  bool_decide (mb_public_key member = rg_public_key r)) Conflict;
      _ ← ensure (negb (negb (bool_decide (mb_tls member = None)) && bool_decide (rg_tls r = None))) Conflict;
      generation ← ok_or Conflict (checked_add64 (mb_generation member) 1);
      Ok (Some (mb_state member), mb_tls member, generation, mb_joined_at member)
  | None =>
      _ ← ensure (bool_decide (expected_generation = None)) Conflict;
      Ok (None, None, 1, now)
  end.

Definition activate (c : ReplicatedControlPlaneState) (member : ClusterMember) (rollout : ClusterCertificateRollout)
    (actor reason : string) (now : Z) : result AuthorityRejection ReplicatedControlPlaneState :=
  retire_after ← ok_or InvalidCommand (add_seconds now (ro_overlap rollout));
  '(c, trust_generation) ← append_certificate_rollout_audit c (mb_node_id member) (mb_generation member) (Some Prepared)
    (Some Activated) (ro_previous rollout) (ro_next rollout) actor reason now;
  let rollout := mkRollout (ro_node_id rollout) trust_generation (mb_generation member) Activated (ro_previous rollout)
    (ro_next rollout) (ro_overlap rollout) (ro_prepare_expires_at rollout) (Some retire_after) (ro_prepared_at rollout)
    now reason in
  Ok (set_rollouts (<[mb_node_id member := rollout]> (certificate_rollouts c)) c).

Definition apply_register_member (c : ReplicatedControlPlaneState) (r : ClusterMemberRegistration)
    (challenge_hex signature_hex : string) (expected_generation : option Z)
    (authority_min_protocol authority_protocol : Z) (actor reason : string) (proposed_at : Z)
    : result AuthorityRejection (ReplicatedControlPlaneState * ClusterMember) :=
  _ ← ensure (validate_text actor) InvalidCommand;
  _ ← ensure (validate_reason reason) InvalidCommand;
  _ ← ensure (negb ((authority_min_protocol =? 0) || (authority_protocol <? authority_min_protocol))) InvalidCommand;
  _ ← ensure (negb ((rg_protocol r <? authority_min_protocol) || (authority_protocol <? rg_min_protocol r))) Conflict;
  '(c, now, challenge_hash) ← validate_challenged_registration c r challenge_hex signature_hex proposed_at;
  _ ← ensure (negb (any_member (taken_by r) c)) Conflict;
  _ ← require_membership_audit_capacity c;
  let existing := members c !! rg_node_id r in
  activating_rollout ← find_activation c r existing now;
  '(previous, previous_tls, generation, joined_at) ← next_revision r existing expected_generation now;
  membership_generation ← ok_or Conflict (checked_add64 (membership_generation c) 1);
  let member := mkMember (rg_node_id r) (rg_fingerprint r) (rg_public_key r) (rg_tls r) (rg_endpoint r)
    (rg_server_version r) (rg_min_protocol r) (rg_protocol r) MemberActive generation joined_at now reason in
  let c := push_membership (mb_node_id member) member
    (mkMAudit membership_generation (mb_node_id member) generation previous MemberActive previous_tls (mb_tls member)
       actor reason now) c in
  c ← match activating_rollout with
      | Some rollout => activate c member rollout actor reason now
      | None => Ok c
      end;
  Ok (consume_join_challenge c challenge_hash now, member).

(** An ownership that has not been released and whose lease runs. *)
Definition lease_live (now : Z) (o : ClusterAgentOwnership) : bool :=
  bool_decide (ow_state o = OwnActive) && (now <? ow_expires_at o).

(** The release of one ownership of a revoked member. *)
Definition release_owned (node_id actor reason : string) (term now : Z) (c : ReplicatedControlPlaneState)
    (previous : ClusterAgentOwnership) : result AuthorityRejection ReplicatedControlPlaneState :=
  generation ← ok_or Conflict (checked_add64 (ow_generation previous) 1);
  Ok (push_ownership
        (mkOwnership (ow_agent_id previous) node_id term (ow_token previous) generation OwnReleased now now reason)
        (mkOAudit (ow_agent_id previous) generation (Some node_id) node_id term (ow_token previous) "release" actor
           reason now) c).

Definition apply_set_member_state (c : ReplicatedControlPlaneState) (node_id : string) (state : ClusterMemberState)
    (expected_generation : Z) (actor reason : string) (proposed_at authority_term : Z)
    : result AuthorityRejection (ReplicatedControlPlaneState * ClusterMember) :=
  _ ← ensure (negb (bool_decide (state = MemberActive))) InvalidCommand;
  _ ← ok_or InvalidCommand (parse_uuid node_id);
  _ ← ensure (validate_text actor) InvalidCommand;
  _ ← ensure (validate_reason reason) InvalidCommand;
  member ← ok_or Conflict (members c !! node_id);
  _ ← ensure (mb_generation member =? expected_generation) Conflict;
  _ ← ensure (negb (bool_decide (mb_state member = MemberRevoked))) Conflict;
  _ ← ensure (negb (bool_decide (mb_state member = state))) Conflict;
  _ ← require_membership_audit_capacity c;
  let rollout := certificate_rollouts c !! node_id in
  _ ← ensure (negb (bool_decide (state = MemberLeft) && negb (bool_decide (rollout = None)))) Conflict;
  _ ← (if bool_decide (state = MemberRevoked) && negb (bool_decide (rollout = None))
       then require_certificate_rollout_audit_capacity c else Ok tt);
  '(c, now) ← advance_authority_time c proposed_at;
  let active_owned := retain (λ o, bool_decide (ow_owner o = node_id) && lease_live now o) (entries (ownerships c)).*2 in
  _ ← ensure (negb (bool_decide (state = MemberLeft) && negb (bool_decide (active_owned = [])))) Conflict;
  c ← (if bool_decide (state = MemberRevoked) then
         _ ← ensure (Z.of_nat (length (ownership_audit c)) + Z.of_nat (length active_owned) <=? 100000) CapacityReached;
         try_fold (release_owned node_id actor reason authority_term now) active_owned c
       else Ok c);
  generation ← ok_or Conflict (checked_add64 (mb_generation member) 1);
  membership_generation ← ok_or Conflict (checked_add64 (membership_generation c) 1);
  let updated := mkMember (mb_node_id member) (mb_fingerprint member) (mb_public_key member) (mb_tls member)
    (mb_endpoint member) (mb_server_version member) (mb_min_protocol member) (mb_protocol member)
    state generation (mb_joined_at member) now reason in
  let c := push_membership node_id updated
    (mkMAudit membership_generation node_id generation (Some (mb_state member)) state (mb_tls member) (mb_tls member)
       actor reason now) c in
  c ← match rollout with
      | Some rollout =>
          '(c, _) ← append_certificate_rollout_audit c node_id (mb_generation updated) (Some (ro_phase rollout)) None
            (ro_previous rollout) (ro_next rollout) actor reason now;
          Ok (set_rollouts (delete node_id (certificate_rollouts c)) c)
      | None => Ok c
      end;
  Ok (c, updated).

Definition require_replicated_active_member (c : ReplicatedControlPlaneState) (node_id : string) : result AuthorityRejection unit :=
  match members c !! node_id with
  | Some m => ensure (bool_decide (mb_state m = MemberActive)) Conflict
  | None => Err Conflict
  end.

Definition require_ownership_audit_capacity (c : ReplicatedControlPlaneState) : result AuthorityRejection unit :=
  ensure (negb (100000 <=? Z.of_nat (length (ownership_audit c)))) CapacityReached.

Definition apply_claim_ownership (c : ReplicatedControlPlaneState) (agent_id owner_node_id : string) (ttl_seconds : Z)
    (expected_fencing_token : option Z) (actor reason : string) (proposed_at authority_term : Z)
    : result AuthorityRejection (ReplicatedControlPlaneState * ClusterAgentOwnership) :=
  _ ← ensure (validate_ownership_request agent_id owner_node_id ttl_seconds actor reason) InvalidCommand;
  _ ← require_replicated_active_member c owner_node_id;
  _ ← ensure (negb ((1000000 <=? Z.of_nat (size (ownerships c))) && bool_decide (ownerships c !! agent_id = None))) CapacityReached;
  _ ← require_ownership_audit_capacity c;
  '(c, now) ← advance_authority_time c proposed_at;
  '(fencing_token, generation, operation, previous_owner) ←
    match ownerships c !! agent_id with
    | None =>
        _ ← ensure (bool_decide (expected_fencing_token = None)) Conflict;
        Ok (1, 1, "claim", None)
    | Some previous =>
        _ ← ensure (bool_decide (expected_fencing_token = Some (ow_token previous))) Conflict;
        _ ← ensure (negb (lease_live now previous)) Conflict;
        fencing_token ← ok_or Conflict (checked_add64 (ow_token previous) 1);
        generation ← ok_or Conflict (checked_add64 (ow_generation previous) 1);
        Ok (fencing_token, generation, "transfer", Some (ow_owner previous))
    end;
  expires_at ← ok_or InvalidCommand (ownership_expiry now ttl_seconds);
  let ownership := mkOwnership agent_id owner_node_id authority_term fencing_token generation OwnActive expires_at now reason in
  Ok (push_ownership ownership (mkOAudit agent_id generation previous_owner owner_node_id authority_term fencing_token
        operation actor reason now) c, ownership).

Definition holds_lease (previous : ClusterAgentOwnership) (owner_node_id : string) (fencing_token : Z) : bool :=
  bool_decide (ow_state previous = OwnActive) && bool_decide (ow_owner previous = owner_node_id) &&
  (ow_token previous =? fencing_token).

Definition apply_renew_ownership (c : ReplicatedControlPlaneState) (agent_id owner_node_id : string)
    (fencing_token ttl_seconds : Z) (actor reason : string) (proposed_at authority_term : Z)
    : result AuthorityRejection (ReplicatedControlPlaneState * ClusterAgentOwnership) :=
  _ ← ensure (validate_ownership_request agent_id owner_node_id ttl_seconds actor reason) InvalidCommand;
  _ ← require_replicated_active_member c owner_node_id;
  _ ← require_ownership_audit_capacity c;
  previous ← ok_or Conflict (ownerships c !! agent_id);
  '(c, now) ← advance_authority_time c proposed_at;
  _ ← ensure (holds_lease previous owner_node_id fencing_token) Conflict;
  _ ← ensure (negb (ow_expires_at previous <=? now)) Conflict;
  generation ← ok_or Conflict (checked_add64 (ow_generation previous) 1);
  expires_at ← ok_or InvalidCommand (ownership_expiry now ttl_seconds);
  let ownership := mkOwnership (ow_agent_id previous) (ow_owner previous) authority_term (ow_token previous) generation
    (ow_state previous) expires_at now reason in
  Ok (push_ownership ownership (mkOAudit agent_id generation (Some owner_node_id) owner_node_id authority_term
        fencing_token "renew" actor reason now) c, ownership).

Definition apply_release_ownership (c : ReplicatedControlPlaneState) (agent_id owner_node_id : string) (fencing_token : Z)
    (actor reason : string) (proposed_at authority_term : Z)
    : result AuthorityRejection (ReplicatedControlPlaneState * ClusterAgentOwnership) :=
  _ ← ensure (validate_ownership_identity agent_id owner_node_id) InvalidCommand;
  _ ← ensure (validate_text actor) InvalidCommand;
  _ ← ensure (validate_reason reason) InvalidCommand;
  _ ← require_ownership_audit_capacity c;
  previous ← ok_or Conflict (ownerships c !! agent_id);
  _ ← ensure (holds_lease previous owner_node_id fencing_token) Conflict;
  '(c, now) ← advance_authority_time c proposed_at;
  generation ← ok_or Conflict (checked_add64 (ow_generation previous) 1);
  let ownership := mkOwnership (ow_agent_id previous) (ow_owner previous) authority_term (ow_token previous) generation
    OwnReleased now now reason in
  Ok (push_ownership ownership (mkOAudit agent_id generation (Some owner_node_id) owner_node_id authority_term
        fencing_token "release" actor reason now) c, ownership).

Definition issue_join_challenge (c : ReplicatedControlPlaneState) (challenge_hex : string) (ttl_seconds proposed_at : Z)
    : result AuthorityRejection (ReplicatedControlPlaneState * ClusterJoinChallenge) :=
  _ ← ensure (in_window MIN_JOIN_CHALLENGE_TTL_SECONDS MAX_JOIN_CHALLENGE_TTL_SECONDS ttl_seconds) InvalidCommand;
  challenge ← ok_or InvalidCommand (decode_32 challenge_hex);
  '(c, now) ← advance_authority_time c proposed_at;
  let kept := filter (λ p : string * ReplicatedJoinChallenge, now < ch_expires_at p.2 ∧ ch_consumed_at p.2 = None)
    (join_challenges c) in
  _ ← ensure (negb (4096 <=? Z.of_nat (size kept))) CapacityReached;
  let challenge_hash := sha256_hex challenge in
  _ ← ensure (bool_decide (kept !! challenge_hash = None)) Conflict;
  expires_at ← ok_or InvalidCommand (add_seconds now ttl_seconds);
  Ok (set_challenges (<[challenge_hash := mkChallenge challenge_hex expires_at None]> kept) c,
      mkJoin (cluster_id c) challenge_hex expires_at).

(** [let control = control_plane_mut(state)?; let mut next = control.clone(); ..; *control = next]: a
    failed operation leaves the state as it was. *)
Definition on_control {A : Type} (st : AuthorityState)
    (f : ReplicatedControlPlaneState → result AuthorityRejection (ReplicatedControlPlaneState * A))
    (respond : A → AuthorityResponse) : result AuthorityRejection (AuthorityState * AuthorityResponse) :=
  control ← ok_or NotInitialized (control_plane st);
  '(next, a) ← f control;
  Ok (mkAuthority (sequence st) (receipts st) (Some next), respond a).

(** [AdvanceTime] never comes here: it is handled before receipts are sequenced. *)
Definition apply_new_authority_command (st : AuthorityState) (command : AuthorityCommand) (seq : Z) (log_id : LogId)
    : result AuthorityRejection (AuthorityState * AuthorityResponse) :=
  let term := lg_term log_id in
  match command with
  | Initialize id g proposed_at =>
      _ ← ensure (match control_plane st with Some _ => false | None => true end) Conflict;
      c ← validate_and_build_genesis g proposed_at;
      Ok (mkAuthority (sequence st) (receipts st) (Some c), ControlPlaneInitialized id seq log_id false)
  | Barrier id _ => Ok (st, BarrierCommitted id seq log_id false)
  | AdvanceTime id _ => Err InvalidCommand
  | IssueJoinChallenge id challenge_hex ttl proposed_at =>
      on_control st (λ c, issue_join_challenge c challenge_hex ttl proposed_at)
        (λ ch, JoinChallengeIssued id ch seq log_id false)
  | RegisterMember id r challenge_hex signature_hex expected lo hi actor reason proposed_at =>
      on_control st (λ c, apply_register_member c r challenge_hex signature_hex expected lo hi actor reason proposed_at)
        (λ m, MemberUpdated id m seq log_id false)
  | PrepareMemberCertificateRollout id r challenge_hex signature_hex expected ttl overlap actor reason proposed_at =>
      on_control st (λ c, apply_prepare_member_certificate_rollout c r challenge_hex signature_hex expected ttl overlap
                            actor reason proposed_at)
        (λ '(m, ro), CertificateRolloutUpdated id m (Some ro) seq log_id false)
  | AbortMemberCertificateRollout id node expected actor reason proposed_at =>
      on_control st (λ c, apply_finish_member_certificate_rollout c node expected FinishAbort actor reason proposed_at)
        (λ m, CertificateRolloutUpdated id m None seq log_id false)
  | FinalizeMemberCertificateRollout id node expected actor reason proposed_at =>
      on_control st (λ c, apply_finish_member_certificate_rollout c node expected FinishFinalize actor reason proposed_at)
        (λ m, CertificateRolloutUpdated id m None seq log_id false)
  | SetMemberState id node state expected actor reason proposed_at =>
      on_control st (λ c, apply_set_member_state c node state expected actor reason proposed_at term)
        (λ m, MemberUpdated id m seq log_id false)
  | ClaimOwnership id agent owner ttl expected actor reason proposed_at =>
      on_control st (λ c, apply_claim_ownership c agent owner ttl expected actor reason proposed_at term)
        (λ o, OwnershipUpdated id o seq log_id false)
  | RenewOwnership id agent owner token ttl actor reason proposed_at =>
      on_control st (λ c, apply_renew_ownership c agent owner token ttl actor reason proposed_at term)
        (λ o, OwnershipUpdated id o seq log_id false)
  | ReleaseOwnership id agent owner token actor reason proposed_at =>
      on_control st (λ c, apply_release_ownership c agent owner token actor reason proposed_at term)
        (λ o, OwnershipUpdated id o seq log_id false)
  end.

(** [serde_json::to_value] without the field [proposed_at]: the commands up to their proposed time. *)
Definition semantic_value (c : AuthorityCommand) : AuthorityCommand :=
  match c with
  | Initialize id g _ => Initialize id g 0
  | Barrier id e => Barrier id e
  | AdvanceTime id _ => AdvanceTime id 0
  | IssueJoinChallenge id h ttl _ => IssueJoinChallenge id h ttl 0
  | RegisterMember id r h s e lo hi a w _ => RegisterMember id r h s e lo hi a w 0
  | PrepareMemberCertificateRollout id r h s e t o a w _ => PrepareMemberCertificateRollout id r h s e t o a w 0
  | AbortMemberCertificateRollout id n e a w _ => AbortMemberCertificateRollout id n e a w 0
  | FinalizeMemberCertificateRollout id n e a w _ => FinalizeMemberCertificateRollout id n e a w 0
  | SetMemberState id n s e a w _ => SetMemberState id n s e a w 0
  | ClaimOwnership id g o t e a w _ => ClaimOwnership id g o t e a w 0
  | RenewOwnership id g o f t a w _ => RenewOwnership id g o f t a w 0
  | ReleaseOwnership id g o f a w _ => ReleaseOwnership id g o f a w 0
  end.

Definition commands_are_same_retry (previous current : AuthorityCommand) : bool :=
  bool_decide (command_id previous = command_id current) && bool_decide (semantic_value previous = semantic_value current).

(** Only successful responses of sequenced commands are retained; the others do not occur here. *)
Definition replay_response (r : AuthorityResponse) : AuthorityResponse :=
  match r with
  | BarrierCommitted id s l _ => BarrierCommitted id s l true
  | ControlPlaneInitialized id s l _ => ControlPlaneInitialized id s l true
  | JoinChallengeIssued id c s l _ => JoinChallengeIssued id c s l true
  | MemberUpdated id m s l _ => MemberUpdated id m s l true
  | CertificateRolloutUpdated id m ro s l _ => CertificateRolloutUpdated id m ro s l true
  | OwnershipUpdated id o s l _ => OwnershipUpdated id o s l true
  | MetadataApplied _ _ | AuthorityTimeAdvanced _ _ _ | Rejected _ _ _ _ => r
  end.

(** The part of [apply_authority_command] after the clock: retries, capacity and sequencing. *)
Definition apply_sequenced_command (st : AuthorityState) (id : string) (command : AuthorityCommand) (log_id : LogId)
    : AuthorityState * AuthorityResponse :=
  match receipts st !! id with
  | Some receipt =>
      if commands_are_same_retry (rc_command receipt) command then (st, replay_response (rc_response receipt))
      else (st, Rejected id (sequence st) log_id OperationIdConflict)
  | None =>
      if match command with
         | Barrier _ (Some expected) => negb (expected =? sequence st)
         | _ => false
         end then (st, Rejected id (sequence st) log_id SequenceMismatch)
      else if MAX_AUTHORITY_RECEIPTS <=? Z.of_nat (size (receipts st)) then
        (st, Rejected id (sequence st) log_id ReceiptCapacityReached)
      else
        match checked_add64 (sequence st) 1 with
        | None => (st, Rejected id (sequence st) log_id SequenceExhausted)
        | Some seq =>
            match apply_new_authority_command st command seq log_id with
            | Err reason => (st, Rejected id (sequence st) log_id reason)
            | Ok (st', response) =>
                (mkAuthority seq (<[id := mkReceipt command response]> (receipts st')) (control_plane st'), response)
            end
        end
  end.

Definition apply_authority_command (st : AuthorityState) (command : AuthorityCommand) (log_id : LogId)
    : AuthorityState * AuthorityResponse :=
  match canonical_operation_id (command_id command) with
  | None => (st, Rejected (command_id command) (sequence st) log_id InvalidOperationId)
  | Some id =>
      match command with
      | AdvanceTime _ proposed_at =>
          match control_plane st with
          | None => (st, Rejected id (sequence st) log_id NotInitialized)
          | Some c =>
              let t := Z.max (logical_time c) proposed_at in
              (mkAuthority (sequence st) (receipts st) (Some (set_time t c)), AuthorityTimeAdvanced id t log_id)
          end
      | _ => apply_sequenced_command st id command log_id
      end
  end.

End authority.
