(* ===== verification/AuthorityCheck.v ===== *)
(** * The replicated cluster authority: validation of its state

    [validate_authority_state] and [validate_control_plane_state] of [cluster_consensus.rs], which run on
    every load and before every write of the durable state.  A fault names the message of the source. *)

From S2P Require Import Prelude Authority.

#[local] Open Scope Z_scope.

Inductive AuthorityFault :=
| TooManyReceipts | SequenceDiffers | ReceiptKeyDiffers | ReceiptNotSuccessful | ReceiptInconsistent
| InvalidGenesis | GenesisClusterDiffers | ClusterIdInvalid | GenerationDiffers | CapacityExceeded | NoGenesisAudit
| ChallengeInvalid | MembershipAuditInvalid | MembershipHistoryBroken | ForeignTlsBinding | MemberKeyDiffers
| MemberInvalid | MemberDuplicate | MemberTimeInvalid | MemberAuditDiffers | AuditOfUnknownMember
| TrustGenerationDiffers | RolloutAuditInvalid | MultipleActivations | EarlyAuthorization | RolloutInvalid
| RolloutAuditDiffers | OwnershipAuditInvalid | OwnershipHistoryBroken | OwnershipInvalid | LeaseTimesInvalid
| OwnershipAuditDiffers | AuditOfUnknownOwnership
| LogIdBeyondFrontier.

(** [iter().enumerate()]. *)
Definition enumerate {A : Type} (l : list A) : list (Z * A) := imap (λ i x, (Z.of_nat i, x)) l.

Definition is_some {A : Type} (o : option A) : bool := match o with Some _ => true | None => false end.

(** What the audit of the membership says: the node each TLS fingerprint belongs to, the latest revision of
    each node, every revision, and the first revision that bound a fingerprint. *)
Record MembershipEvidence := mkEvidence {
  me_owners : gmap string string;
  me_latest : gmap string (Z * ClusterMemberState * option string);
  me_revisions : gmap (string * Z) (ClusterMemberState * option string * Z);
  me_first : gmap string (string * Z * Z) }.

Definition no_evidence : MembershipEvidence := mkEvidence ∅ ∅ ∅ ∅.

Record RolloutHead := mkHead {
  hd_phase : option ClusterCertificateRolloutPhase; hd_previous : string; hd_next : string;
  hd_member_generation : Z; hd_trust_generation : Z; hd_changed_at : Z; hd_reason : string }.

#[global] Instance RolloutHead_eq_dec : EqDecision RolloutHead.
Proof. solve_decision. Defined.

(** What the audit of the rollouts adds: the candidates, their activations and the latest entry of each node. *)
Record RolloutEvidence := mkREvidence {
  re_owners : gmap string string;
  re_candidates : gset string;
  re_activations : gmap string (string * Z * Z);
  re_latest : gmap string RolloutHead }.

Section check.
Context `{ClusterExt}.

Definition is_uuid (s : string) : bool := is_some (parse_uuid s).

Definition check_challenge (started_at now : Z) (p : string * ReplicatedJoinChallenge) : result AuthorityFault unit :=
  let '(challenge_hash, challenge) := p in
  bytes ← ok_or ChallengeInvalid (decode_32 (ch_hex challenge));
  ensure (bool_decide (sha256_hex bytes = challenge_hash) && (started_at <? ch_expires_at challenge) &&
    match ch_consumed_at challenge with
    | Some consumed => (consumed <=? now) && (consumed <? ch_expires_at challenge)
    | None => true
    end) ChallengeInvalid.

(** One fingerprint of an audit entry: well-formed, and of no other node. *)
Definition claim_tls (node_id : string) (owners : gmap string string) (fingerprint : string)
    : result AuthorityFault (gmap string string) :=
  _ ← ensure (valid_tls_fingerprint fingerprint &&
        match owners !! fingerprint with Some owner => bool_decide (owner = node_id) | None => true end) ForeignTlsBinding;
  Ok (<[fingerprint := node_id]> owners).

Definition membership_transition (e : MembershipEvidence) (a : ClusterMembershipAudit) : bool :=
  match me_latest e !! ma_node_id a with
  | None =>
      (ma_member_generation a =? 1) && bool_decide (ma_previous a = None) && bool_decide (ma_current a = MemberActive) &&
      bool_decide (ma_previous_tls a = None)
  | Some (generation, state, tls) =>
      negb (bool_decide (state = MemberRevoked)) &&
      bool_decide (checked_add64 generation 1 = Some (ma_member_generation a)) &&
      bool_decide (ma_previous a = Some state) && bool_decide (ma_previous_tls a = tls) &&
      negb (is_some tls && negb (is_some (ma_current_tls a)))
  end.

Definition membership_step (now : Z) (e : MembershipEvidence) (p : Z * ClusterMembershipAudit)
    : result AuthorityFault MembershipEvidence :=
  let '(index, a) := p in
  _ ← ensure ((ma_membership_generation a =? index + 1) && negb (ma_member_generation a =? 0) && (ma_changed_at a <=? now) &&
        is_uuid (ma_node_id a) && validate_text (ma_actor a) && validate_reason (ma_reason a)) MembershipAuditInvalid;
  _ ← ensure (membership_transition e a) MembershipHistoryBroken;
  owners ← try_fold (claim_tls (ma_node_id a)) (option_list (ma_previous_tls a) ++ option_list (ma_current_tls a)) (me_owners e);
  Ok (mkEvidence owners
        (<[ma_node_id a := (ma_member_generation a, ma_current a, ma_current_tls a)]> (me_latest e))
        (<[(ma_node_id a, ma_member_generation a) := (ma_current a, ma_current_tls a, ma_changed_at a)]> (me_revisions e))
        match ma_current_tls a with
        | Some f =>
            match me_first e !! f with
            | Some _ => me_first e
            | None => <[f := (ma_node_id a, ma_member_generation a, ma_changed_at a)]> (me_first e)
            end
        | None => me_first e
        end).

Definition member_registration (m : ClusterMember) : ClusterMemberRegistration :=
  mkReg (mb_node_id m) (mb_fingerprint m) (mb_public_key m) (mb_tls m) (mb_endpoint m) (mb_server_version m)
    (mb_min_protocol m) (mb_protocol m).

(** The fingerprints, endpoints and TLS bindings seen so far. *)
Definition member_step (now : Z) (e : MembershipEvidence) (seen : gset string * gset string * gset string)
    (p : string * ClusterMember) : result AuthorityFault (gset string * gset string * gset string) :=
  let '(node_id, m) := p in
  let '(fingerprints, endpoints, tls) := seen in
  _ ← ensure (bool_decide (node_id = mb_node_id m)) MemberKeyDiffers;
  _ ← ensure (validate_member_registration (member_registration m)) MemberInvalid;
  _ ← ensure (bool_decide (mb_fingerprint m ∉ fingerprints) && bool_decide (mb_endpoint m ∉ endpoints) &&
        match mb_tls m with Some f => bool_decide (f ∉ tls) | None => true end) MemberDuplicate;
  _ ← ensure (negb (mb_generation m =? 0) && (mb_joined_at m <=? mb_updated_at m) && (mb_updated_at m <=? now)) MemberTimeInvalid;
  _ ← ensure (bool_decide (me_latest e !! node_id = Some (mb_generation m, mb_state m, mb_tls m))) MemberAuditDiffers;
  Ok ({[mb_fingerprint m]} ∪ fingerprints, {[mb_endpoint m]} ∪ endpoints, list_to_set (option_list (mb_tls m)) ∪ tls).

(** The candidates after a legal transition of a rollout. *)
Definition rollout_transition (re : RolloutEvidence) (a : ClusterCertificateRolloutAudit) : option (gset string) :=
  let same head := bool_decide (ra_previous a = hd_previous head) && bool_decide (ra_next a = hd_next head) in
  let prepare :=
    if bool_decide (ra_previous_phase a = None) && bool_decide (ra_current_phase a = Some Prepared) &&
       bool_decide (ra_next a ∉ re_candidates re)
    then Some ({[ra_next a]} ∪ re_candidates re) else None in
  match re_latest re !! ra_node_id a with
  | None => prepare
  | Some head =>
      match hd_phase head with
      | None => prepare
      | Some Prepared =>
          if bool_decide (ra_previous_phase a = Some Prepared) &&
             (bool_decide (ra_current_phase a = Some Activated) || bool_decide (ra_current_phase a = None)) && same head
          then Some (re_candidates re) else None
      | Some Activated =>
          if bool_decide (ra_previous_phase a = Some Activated) && bool_decide (ra_current_phase a = None) && same head
          then Some (re_candidates re) else None
      end
  end.

Definition expected_member_tls (a : ClusterCertificateRolloutAudit) : option string :=
  match ra_previous_phase a, ra_current_phase a with
  | _, Some Prepared | Some Prepared, None => Some (ra_previous a)
  | _, Some Activated | Some Activated, None => Some (ra_next a)
  | None, None => None
  end.

Definition revision_matches (e : MembershipEvidence) (a : ClusterCertificateRolloutAudit) : bool :=
  match me_revisions e !! (ra_node_id a, ra_member_generation a) with
  | Some (state, tls, changed_at) =>
      (bool_decide (state = MemberActive) || bool_decide (ra_current_phase a = None) && bool_decide (state = MemberRevoked)) &&
      bool_decide (tls = expected_member_tls a) && (changed_at =? ra_changed_at a)
  | None => false
  end.

Definition owned_by (owners : gmap string string) (node_id fingerprint : string) : bool :=
  match owners !! fingerprint with Some owner => bool_decide (owner = node_id) | None => true end.

Definition rollout_step (now : Z) (e : MembershipEvidence) (re : RolloutEvidence) (p : Z * ClusterCertificateRolloutAudit)
    : result AuthorityFault RolloutEvidence :=
  let '(index, a) := p in
  _ ← ensure ((ra_trust_generation a =? index + 1) && negb (ra_member_generation a =? 0) && (ra_changed_at a <=? now) &&
        is_uuid (ra_node_id a) && valid_tls_fingerprint (ra_previous a) && valid_tls_fingerprint (ra_next a) &&
        negb (bool_decide (ra_previous a = ra_next a)) && validate_text (ra_actor a) && validate_reason (ra_reason a))
        RolloutAuditInvalid;
  candidates ← ok_or RolloutAuditInvalid (rollout_transition re a);
  _ ← ensure (revision_matches e a && owned_by (re_owners re) (ra_node_id a) (ra_previous a) &&
        owned_by (re_owners re) (ra_node_id a) (ra_next a)) RolloutAuditInvalid;
  let activated := bool_decide (ra_current_phase a = Some Activated) in
  _ ← ensure (negb (activated && is_some (re_activations re !! ra_next a))) MultipleActivations;
  Ok (mkREvidence (<[ra_next a := ra_node_id a]> (<[ra_previous a := ra_node_id a]> (re_owners re))) candidates
        (if activated then <[ra_next a := (ra_node_id a, ra_member_generation a, ra_changed_at a)]> (re_activations re)
         else re_activations re)
        (<[ra_node_id a := mkHead (ra_current_phase a) (ra_previous a) (ra_next a) (ra_member_generation a)
                             (ra_trust_generation a) (ra_changed_at a) (ra_reason a)]> (re_latest re))).

(** A candidate was first bound by its activation. *)
Definition candidate_ok (e : MembershipEvidence) (re : RolloutEvidence) (candidate : string) : bool :=
  bool_decide (me_first e !! candidate = re_activations re !! candidate).

Definition prepare_window_is_valid (ro : ClusterCertificateRollout) : bool :=
  match add_seconds (ro_prepared_at ro) MIN_CERTIFICATE_ROLLOUT_SECONDS,
        add_seconds (ro_prepared_at ro) MAX_CERTIFICATE_ROLLOUT_SECONDS with
  | Some minimum, Some maximum => (minimum <=? ro_prepare_expires_at ro) && (ro_prepare_expires_at ro <=? maximum)
  | _, _ => false
  end.

Definition retirement_is_valid (member : option ClusterMember) (ro : ClusterCertificateRollout) : bool :=
  let bound f := bool_decide ((member ≫= mb_tls) = Some f) in
  match ro_phase ro with
  | Prepared =>
      bool_decide (ro_retire_after ro = None) && (ro_updated_at ro =? ro_prepared_at ro) && bound (ro_previous ro)
  | Activated =>
      is_some (ro_retire_after ro) && bool_decide (add_seconds (ro_updated_at ro) (ro_overlap ro) = ro_retire_after ro) &&
      bound (ro_next ro)
  end.

Definition rollout_head (ro : ClusterCertificateRollout) : RolloutHead :=
  mkHead (Some (ro_phase ro)) (ro_previous ro) (ro_next ro) (ro_member_generation ro) (ro_trust_generation ro)
    (ro_updated_at ro) (ro_reason ro).

Definition check_rollout (c : ReplicatedControlPlaneState) (re : RolloutEvidence) (p : string * ClusterCertificateRollout)
    : result AuthorityFault unit :=
  let '(node_id, ro) := p in
  let member := members c !! node_id in
  ensure (bool_decide (node_id = ro_node_id ro) &&
    match member with
    | Some m => bool_decide (mb_state m = MemberActive) && (mb_generation m =? ro_member_generation ro)
    | None => false
    end && negb (ro_trust_generation ro =? 0) &&
    in_window MIN_CERTIFICATE_ROLLOUT_SECONDS MAX_CERTIFICATE_ROLLOUT_SECONDS (ro_overlap ro) &&
    prepare_window_is_valid ro && (ro_prepared_at ro <=? ro_updated_at ro) && (ro_updated_at ro <=? logical_time c) &&
    valid_tls_fingerprint (ro_previous ro) && valid_tls_fingerprint (ro_next ro) &&
    negb (bool_decide (ro_previous ro = ro_next ro)) && validate_reason (ro_reason ro) && retirement_is_valid member ro &&
    bool_decide (re_latest re !! node_id = Some (rollout_head ro))) RolloutInvalid.

(** Generation, owner, term, token and state after an entry. *)
Abbreviation OwnershipHead := (Z * string * Z * Z * ClusterOwnershipState)%type (only parsing).

Definition ownership_state (operation : string) : option ClusterOwnershipState :=
  if bool_decide (operation = "claim") || bool_decide (operation = "transfer") || bool_decide (operation = "renew")
  then Some OwnActive
  else if bool_decide (operation = "release") then Some OwnReleased else None.

Definition ownership_transition (latest : gmap string OwnershipHead) (a : ClusterAgentOwnershipAudit) : bool :=
  match latest !! oa_agent_id a with
  | None =>
      bool_decide (oa_operation a = "claim") && (oa_generation a =? 1) && (oa_token a =? 1) &&
      bool_decide (oa_previous_owner a = None)
  | Some (generation, owner, term, token, state) =>
      bool_decide (checked_add64 generation 1 = Some (oa_generation a)) && bool_decide (oa_previous_owner a = Some owner) &&
      (term <=? oa_term a) &&
      if bool_decide (oa_operation a = "renew") || bool_decide (oa_operation a = "release") then
        bool_decide (state = OwnActive) && bool_decide (oa_owner a = owner) && (oa_token a =? token)
      else if bool_decide (oa_operation a = "transfer") then bool_decide (checked_add64 token 1 = Some (oa_token a))
      else false
  end.

Definition ownership_step (now : Z) (latest : gmap string OwnershipHead) (a : ClusterAgentOwnershipAudit)
    : result AuthorityFault (gmap string OwnershipHead) :=
  _ ← ensure (negb (oa_generation a =? 0) && negb (oa_term a =? 0) && negb (oa_token a =? 0) && (oa_changed_at a <=? now) &&
        validate_ownership_identity (oa_agent_id a) (oa_owner a) &&
        match oa_previous_owner a with Some owner => is_uuid owner | None => true end &&
        validate_text (oa_actor a) && validate_reason (oa_reason a)) OwnershipAuditInvalid;
  state ← ok_or OwnershipAuditInvalid (ownership_state (oa_operation a));
  _ ← ensure (ownership_transition latest a) OwnershipHistoryBroken;
  Ok (<[oa_agent_id a := (oa_generation a, oa_owner a, oa_term a, oa_token a, state)]> latest).

Definition check_ownership (now : Z) (latest : gmap string OwnershipHead) (p : string * ClusterAgentOwnership)
    : result AuthorityFault unit :=
  let '(agent_id, o) := p in
  _ ← ensure (bool_decide (agent_id = ow_agent_id o) && negb (ow_generation o =? 0) && negb (ow_term o =? 0) &&
        negb (ow_token o =? 0) && (ow_updated_at o <=? now)) OwnershipInvalid;
  _ ← ensure (match ow_state o with
              | OwnActive => ow_updated_at o <? ow_expires_at o
              | OwnReleased => ow_expires_at o =? ow_updated_at o
              end) LeaseTimesInvalid;
  _ ← ensure (validate_ownership_identity (ow_agent_id o) (ow_owner o)) OwnershipInvalid;
  ensure (bool_decide (latest !! agent_id = Some (ow_generation o, ow_owner o, ow_term o, ow_token o, ow_state o)))
    OwnershipAuditDiffers.

Definition within_capacity (c : ReplicatedControlPlaneState) : bool :=
  (Z.of_nat (size (join_challenges c)) <=? 4096) && (Z.of_nat (size (members c)) <=? 100000) &&
  (size (certificate_rollouts c) <=? size (members c))%nat && (Z.of_nat (size (ownerships c)) <=? 1000000) &&
  (Z.of_nat (length (membership_audit c)) <=? 100000) && (Z.of_nat (length (certificate_rollout_audit c)) <=? 100000) &&
  (Z.of_nat (length (ownership_audit c)) <=? 100000).

Definition validate_control_plane_state (c : ReplicatedControlPlaneState) : result AuthorityFault unit :=
  let now := logical_time c in
  _ ← map_err (λ _, InvalidGenesis) (validate_and_build_genesis (genesis c) now);
  _ ← ensure (bool_decide (gn_cluster_id (genesis c) = cluster_id c)) GenesisClusterDiffers;
  _ ← ensure (bool_decide (parse_uuid (cluster_id c) = Some (cluster_id c))) ClusterIdInvalid;
  _ ← ensure (membership_generation c =? Z.of_nat (length (membership_audit c))) GenerationDiffers;
  _ ← ensure (within_capacity c) CapacityExceeded;
  first ← ok_or NoGenesisAudit (head (membership_audit c));
  _ ← try_fold (λ _, check_challenge (ma_changed_at first) now) (entries (join_challenges c)) tt;
  e ← try_fold (membership_step now) (enumerate (membership_audit c)) no_evidence;
  _ ← try_fold (member_step now e) (entries (members c)) (∅, ∅, ∅);
  _ ← ensure (size (me_latest e) =? size (members c))%nat AuditOfUnknownMember;
  _ ← ensure (tls_trust_generation c =? Z.of_nat (length (certificate_rollout_audit c))) TrustGenerationDiffers;
  re ← try_fold (rollout_step now e) (enumerate (certificate_rollout_audit c)) (mkREvidence (me_owners e) ∅ ∅ ∅);
  _ ← ensure (forallb (candidate_ok e re) (elements (re_candidates re))) EarlyAuthorization;
  _ ← try_fold (λ _, check_rollout c re) (entries (certificate_rollouts c)) tt;
  _ ← ensure (forallb (λ p : string * RolloutHead,
        eqb (is_some (hd_phase p.2)) (is_some (certificate_rollouts c !! p.1))) (entries (re_latest re))) RolloutAuditDiffers;
  latest ← try_fold (ownership_step now) (ownership_audit c) ∅;
  _ ← try_fold (λ _, check_ownership now latest) (entries (ownerships c)) tt;
  ensure (size latest =? size (ownerships c))%nat AuditOfUnknownOwnership.

Definition successful_response_metadata (r : AuthorityResponse) : option (string * Z * LogId * bool) :=
  match r with
  | BarrierCommitted id s l b | ControlPlaneInitialized id s l b | JoinChallengeIssued id _ s l b
  | MemberUpdated id _ s l b | CertificateRolloutUpdated id _ _ s l b | OwnershipUpdated id _ s l b => Some (id, s, l, b)
  | MetadataApplied _ _ | AuthorityTimeAdvanced _ _ _ | Rejected _ _ _ _ => None
  end.

Definition response_matches_command (c : AuthorityCommand) (r : AuthorityResponse) : bool :=
  match c, r with
  | Initialize _ _ _, ControlPlaneInitialized _ _ _ _
  | Barrier _ _, BarrierCommitted _ _ _ _
  | AdvanceTime _ _, AuthorityTimeAdvanced _ _ _
  | IssueJoinChallenge _ _ _ _, JoinChallengeIssued _ _ _ _ _
  | RegisterMember _ _ _ _ _ _ _ _ _ _, MemberUpdated _ _ _ _ _
  | SetMemberState _ _ _ _ _ _ _, MemberUpdated _ _ _ _ _
  | PrepareMemberCertificateRollout _ _ _ _ _ _ _ _ _ _, CertificateRolloutUpdated _ _ _ _ _ _
  | AbortMemberCertificateRollout _ _ _ _ _ _, CertificateRolloutUpdated _ _ _ _ _ _
  | FinalizeMemberCertificateRollout _ _ _ _ _ _, CertificateRolloutUpdated _ _ _ _ _ _
  | ClaimOwnership _ _ _ _ _ _ _ _, OwnershipUpdated _ _ _ _ _
  | RenewOwnership _ _ _ _ _ _ _ _, OwnershipUpdated _ _ _ _ _
  | ReleaseOwnership _ _ _ _ _ _ _, OwnershipUpdated _ _ _ _ _ => true
  | _, _ => false
  end.

(** The sequences and log ids seen so far.  The subtraction cannot wrap where the check can succeed: a
    sequence of zero is refused. *)
Definition receipt_step (st : AuthorityState) (seen : list Z * list LogId) (p : string * StoredAuthorityReceipt)
    : result AuthorityFault (list Z * list LogId) :=
  let '(id, receipt) := p in
  _ ← ensure (bool_decide (id = command_id (rc_command receipt)) && is_some (canonical_operation_id id)) ReceiptKeyDiffers;
  '(response_id, seq, log_id, replayed) ← ok_or ReceiptNotSuccessful (successful_response_metadata (rc_response receipt));
  _ ← ensure (bool_decide (response_id = id) && negb replayed && negb (seq =? 0) && (seq <=? sequence st) &&
        match rc_command receipt with Barrier _ (Some expected) => expected =? seq - 1 | _ => true end &&
        response_matches_command (rc_command receipt) (rc_response receipt) &&
        bool_decide (seq ∉ seen.1) && bool_decide (log_id ∉ seen.2)) ReceiptInconsistent;
  Ok (seq :: seen.1, log_id :: seen.2).

Definition validate_authority_state (st : AuthorityState) : result AuthorityFault unit :=
  _ ← ensure (Z.of_nat (size (receipts st)) <=? MAX_AUTHORITY_RECEIPTS) TooManyReceipts;
  _ ← ensure (sequence st =? Z.of_nat (size (receipts st))) SequenceDiffers;
  _ ← try_fold (receipt_step st) (entries (receipts st)) ([], []);
  match control_plane st with Some c => validate_control_plane_state c | None => Ok tt end.

End check.
