(* ===== verification/AuthorityToy.v ===== *)
(** * The replicated cluster authority: a small cluster

    Concrete stand-ins for the code outside the sources, two founding members and the commands that
    the examples of the other files run: the first node rolls its certificate over from [tls_a] to [tls_b]. *)

From Stdlib Require Import Ascii.
From S2P Require Import Prelude Authority AuthorityCheck.

#[local] Open Scope Z_scope.

(** Identifiers begin with [u], the digest is the identity and every signature verifies. *)
#[export] Instance toy : ClusterExt := {|
  parse_uuid s := match s with String c _ => if (N_of_ascii c =? 117)%N then Some s else None | EmptyString => None end;
  sha256 s := s;
  ed25519_verify _ _ _ := true;
  datetime_max := 1000000000000000000000 |}.

(** 64 copies of a digit. *)
Definition digits (c : ascii) : string := String.string_of_list_ascii (repeat c 64).

Definition seed (node : string) (key tls : ascii) : AuthorityGenesisMember :=
  mkSeed node (digits key) (digits key) (Some (digits tls)) node "1.0" 1 1.

Definition toy_registration (node : string) (key tls : ascii) : ClusterMemberRegistration := seed_registration (seed node key tls).

Definition toy_challenge : string := digits "5".

Definition toy_genesis : AuthorityGenesis := mkGenesis "uc" [seed "una" "1" "a"; seed "unb" "2" "b"].

Definition second : Z := 1000000000.

Definition issue (id : string) (challenge : ascii) (at_ : Z) : AuthorityCommand := IssueJoinChallenge id (digits challenge) 60 (at_ * second).

Definition register (id : string) (node : string) (key tls challenge : ascii) (expected : option Z) (at_ : Z) : AuthorityCommand :=
  RegisterMember id (toy_registration node key tls) (digits challenge) "00" expected 1 1 "op" "join" (at_ * second).

(** The registration that activates the rollover, and another answer to its challenge. *)
Definition toy_activation : AuthorityCommand := register "u5" "una" "1" "c" "4" (Some 2) 5.
Definition toy_reuse : AuthorityCommand := register "u6" "unc" "6" "d" "4" None 6.
Definition toy_used : string := digits "4".

(** Initialises the cluster and rolls the certificate of the first node over. *)
Definition toy_rollover : list AuthorityCommand :=
  [Initialize "u1" toy_genesis second; issue "u2" "3" 2;
   PrepareMemberCertificateRollout "u3" (toy_registration "una" "1" "c") (digits "3") "00" 1 60 10 "op" "rotate" (3 * second);
   issue "u4" "4" 4; toy_activation;
   FinalizeMemberCertificateRollout "u6" "una" 3 "op" "done" (20 * second); issue "u7" "5" 21].

(** A third node joins with the certificate that the first one has retired, or with a new one. *)
Definition stale_registration : ClusterMemberRegistration := toy_registration "unc" "6" "a".
Definition join_stale : AuthorityCommand := register "u8" "unc" "6" "a" "5" None 22.
Definition join_fresh : AuthorityCommand := register "u8" "unc" "6" "d" "5" None 22.

Fixpoint toy_log (index : Z) (l : list AuthorityCommand) : list (AuthorityCommand * LogId) :=
  match l with [] => [] | c :: l => (c, mkLogId 1 1 index) :: toy_log (index + 1) l end.

Definition toy_run (st : AuthorityState) (l : list (AuthorityCommand * LogId)) : AuthorityState :=
  foldl (λ st p, (apply_authority_command st p.1 p.2).1) st l.

(** The authority after the rollover. *)
Definition toy_state : AuthorityState := toy_run empty_authority (toy_log 1 toy_rollover).

Definition toy_control : ReplicatedControlPlaneState :=
  match control_plane toy_state with Some c => c | None => mkControl toy_genesis "uc" 0 ∅ [] 0 ∅ [] ∅ ∅ [] 0 end.

(** The first node claims an agent for a minute; later, the second one tries to and then does. *)
Definition claim (id node : string) (expected : option Z) (at_ : Z) : AuthorityCommand :=
  ClaimOwnership id "ux" node 60 expected "op" "own" (at_ * second).
Definition toy_claim : list (AuthorityCommand * LogId) := toy_log 1 (toy_rollover ++ [claim "u8" "una" None 30]).
Definition toy_attempt : list (AuthorityCommand * LogId) := toy_log 9 [claim "u9" "unb" (Some 1) 40].
Definition toy_takeover : list (AuthorityCommand * LogId) := toy_log 9 [claim "u9" "unb" (Some 1) 90].
Definition toy_lease : ClusterAgentOwnership := mkOwnership "ux" "una" 1 1 1 OwnActive (90 * second) (30 * second) "own".

Definition control_of (st : AuthorityState) : ReplicatedControlPlaneState := default toy_control (control_plane st).
