(* ===== verification/AuthorityValid.v ===== *)
(** * The replicated cluster authority: what validation means

    Unfolds the validator of the state into the facts it establishes, and shows that the elementary updates
    of the state keep them. *)

From S2P Require Import Prelude Authority AuthorityCheck.

#[local] Open Scope Z_scope.

(** ** Loops and maps *)

Lemma try_fold_mono {E S A} (f g : S → A → result E S) l s s' :
  (∀ s x s', f s x = Ok s' → g s x = Ok s') → try_fold f l s = Ok s' → try_fold g l s = Ok s'.
Proof.
  intros H. revert s. induction l as [|x l IH]; intros s Hl; cbn in *; [done|].
  apply bind_Ok in Hl as (s1 & H1 & H2). rewrite (H _ _ _ H1). by apply IH.
Qed.

(** Induction over the prefixes a loop has run through. *)
Lemma try_fold_ind {E S A} (f : S → A → result E S) (P : list A → S → Prop) l s0 s :
  P [] s0 → (∀ l x s s', P l s → f s x = Ok s' → P (l ++ [x]) s') → try_fold f l s0 = Ok s → P l s.
Proof.
  intros H0 Hs. revert s. induction l as [|x l IH] using rev_ind; intros s Hl; [by injection Hl as <-|].
  rewrite try_fold_app in Hl. apply bind_Ok in Hl as (s1 & H1 & H2). cbn in H2.
  apply bind_Ok in H2 as (s2 & H2 & [= <-]). eauto.
Qed.

Lemma try_fold_snoc {E S A} (f : S → A → result E S) l x s0 s1 s2 :
  try_fold f l s0 = Ok s1 → f s1 x = Ok s2 → try_fold f (l ++ [x]) s0 = Ok s2.
Proof. intros H1 H2. rewrite try_fold_app, H1. cbn. by rewrite H2. Qed.

Lemma checked_add64_Some a b r : checked_add64 a b = Some r ↔ r = a + b ∧ a + b <= u64_max.
Proof. unfold checked_add64. destruct (a + b <=? u64_max) eqn:Hb; naive_solver lia. Qed.

Lemma enumerate_app {A} (l : list A) x : enumerate (l ++ [x]) = enumerate l ++ [(Z.of_nat (length l), x)].
Proof. unfold enumerate. rewrite imap_app. cbn. by rewrite Nat.add_0_r. Qed.

Lemma enumerate_snd {A} (l : list A) : (enumerate l).*2 = l.
Proof. induction l as [|x l IH] using rev_ind; [done|]. by rewrite enumerate_app, fmap_app, IH. Qed.

Lemma is_some_spec {A} (o : option A) : is_some o = true ↔ is_Some o.
Proof. destruct o; cbn; split; [by eexists|done|done|by intros [? [=]]]. Qed.

Lemma elem_of_option_list {A} (o : option A) x : x ∈ option_list o ↔ o = Some x.
Proof. destruct o; cbn; [rewrite list_elem_of_singleton|rewrite elem_of_nil]; naive_solver. Qed.

(** Two maps one of which has every key of the other have the same size exactly when they have the same keys. *)
Lemma same_keys {A B} (m1 : gmap string A) (m2 : gmap string B) :
  (∀ k, is_Some (m2 !! k) → is_Some (m1 !! k)) →
  size m1 = size m2 ↔ ∀ k, is_Some (m1 !! k) → is_Some (m2 !! k).
Proof.
  intros Hsub. rewrite <- (size_dom (D := gset string) m1), <- (size_dom (D := gset string) m2).
  assert (Hs : dom m2 ⊆ dom m1) by (intros k; rewrite !elem_of_dom; apply Hsub). split.
  - intros Heq k Hk. apply elem_of_dom. apply elem_of_dom in Hk.
    by rewrite (set_subseteq_size_eq (dom m2) (dom m1) Hs) by lia.
  - intros Hk. f_equal. apply set_eq. intros k. rewrite !elem_of_dom. split; [apply Hk|apply Hsub].
Qed.

(** The keys [f] gives the values are distinct, and none is in [s]. *)
Definition all_distinct {A} (f : A → option string) (l : list (string * A)) (s : gset string) : Prop :=
  NoDup (omap (λ p, f p.2) l) ∧ ∀ x, x ∈ omap (λ p, f p.2) l → x ∉ s.

Definition unused (s : gset string) (o : option string) : Prop := ∀ x, o = Some x → x ∉ s.

Lemma all_distinct_cons {A} (f : A → option string) p l s :
  all_distinct f (p :: l) s ↔ unused s (f p.2) ∧ all_distinct f l (list_to_set (option_list (f p.2)) ∪ s).
Proof.
  unfold all_distinct, unused. cbn [omap list_omap]. destruct (f p.2) as [y|]; cbn.
  - rewrite NoDup_cons. setoid_rewrite elem_of_cons. set_solver.
  - set_solver.
Qed.

Definition distinct_by {A B} (f : A → option B) (m : gmap string A) : Prop :=
  ∀ k1 k2 x1 x2 y, m !! k1 = Some x1 → m !! k2 = Some x2 → f x1 = Some y → f x2 = Some y → k1 = k2.

Lemma entries_distinct {A B} (f : A → option B) (m : gmap string A) : NoDup (omap (λ p, f p.2) (entries m)) ↔ distinct_by f m.
Proof.
  split.
  - intros Hnd k1 k2 x1 x2 y H1 H2 Hf1 Hf2. apply elem_of_entries in H1, H2.
    destruct (decide (k1 = k2)) as [|Hne]; [done|]. exfalso.
    apply list_elem_of_split in H1 as (l1 & l2 & Hl). rewrite Hl in Hnd, H2.
    rewrite omap_app in Hnd. cbn in Hnd. rewrite Hf1 in Hnd. apply NoDup_app in Hnd as (_ & Hd & Hnd).
    apply NoDup_cons in Hnd as [Hy _]. apply elem_of_app in H2 as [H2|H2].
    + apply (Hd y); [apply list_elem_of_omap; by exists (k2, x2)|]. apply elem_of_cons. by left.
    + apply elem_of_cons in H2 as [H2|H2]; [congruence|]. apply Hy, list_elem_of_omap. by exists (k2, x2).
  - intros H. pose proof (NoDup_fst_map_to_list m) as Hnd. rewrite <- entries_perm in Hnd.
    assert (Hin : ∀ k x, (k, x) ∈ entries m → m !! k = Some x) by (intros k x; apply elem_of_entries).
    revert Hnd Hin. generalize (entries m). intros l. induction l as [|[k x] l IH]; intros Hnd Hin; [constructor|].
    cbn in Hnd. apply NoDup_cons in Hnd as [Hk Hnd]. cbn [omap list_omap snd].
    assert (IH' : NoDup (omap (λ p, f p.2) l)) by (apply IH; [done|]; intros; apply Hin; by right).
    destruct (f x) as [y|] eqn:Hf; [|done]. apply NoDup_cons. split; [|done].
    intros ((k2, x2) & H2 & Hf2)%list_elem_of_omap. apply Hk.
    rewrite (H k k2 x x2 y); [|apply Hin; by left|apply Hin; by right|done|done].
    apply list_elem_of_fmap. by exists (k2, x2).
Qed.

Lemma all_distinct_map {A} (f : A → option string) (m : gmap string A) : all_distinct f (entries m) ∅ ↔ distinct_by f m.
Proof. unfold all_distinct. rewrite entries_distinct. set_solver. Qed.

Section valid.
Context `{ClusterExt}.
Implicit Types (c : ReplicatedControlPlaneState) (e : MembershipEvidence) (re : RolloutEvidence) (m : ClusterMember).

(** ** Members *)

Record member_ok (now : Z) e (k : string) m : Prop := {
  mo_key : k = mb_node_id m;
  mo_registration : validate_member_registration (member_registration m) = true;
  mo_generation : mb_generation m ≠ 0;
  mo_times : mb_joined_at m <= mb_updated_at m <= now;
  mo_latest : me_latest e !! k = Some (mb_generation m, mb_state m, mb_tls m) }.

Lemma member_step_Ok now e s k m s' :
  member_step now e s (k, m) = Ok s' ↔
  member_ok now e k m ∧ unused s.1.1 (Some (mb_fingerprint m)) ∧ unused s.1.2 (Some (mb_endpoint m)) ∧ unused s.2 (mb_tls m) ∧
  s' = (list_to_set (option_list (Some (mb_fingerprint m))) ∪ s.1.1, list_to_set (option_list (Some (mb_endpoint m))) ∪ s.1.2,
        list_to_set (option_list (mb_tls m)) ∪ s.2).
Proof.
  destruct s as [[fs es] ts]. unfold member_step. cbn [fst snd].
  assert (Hf : ∀ x : string, list_to_set (option_list (Some x)) = ({[x]} : gset string)) by (intros; set_solver).
  rewrite !Hf. split.
  - intros Hx. res_inv. bool_hyps. destruct (mb_tls m) as [f|] eqn:Ht; bool_hyps;
      (split; [split; try done; [by apply Z.eqb_neq|lia|by rewrite Ht]|]); unfold unused; naive_solver.
  - intros ([Hk Hr Hg Hti Hl] & H1 & H2 & H3 & ->). unfold unused in *. rewrite bool_decide_eq_true_2 by done. cbn.
    rewrite Hr. cbn. rewrite !bool_decide_eq_true_2 by auto. cbn.
    assert (match mb_tls m with Some f => bool_decide (f ∉ ts) | None => true end = true) as ->.
    { destruct (mb_tls m); [apply bool_decide_eq_true_2; auto|done]. }
    cbn. rewrite (proj2 (Z.eqb_neq _ _) Hg), (proj2 (Z.leb_le _ _)), (proj2 (Z.leb_le _ _)) by lia. cbn.
    done.
Qed.

Lemma member_loop_Ok now e l fs es ts :
  (∃ s', try_fold (member_step now e) l (fs, es, ts) = Ok s') ↔
  Forall (λ p, member_ok now e p.1 p.2) l ∧ all_distinct (Some ∘ mb_fingerprint) l fs ∧
  all_distinct (Some ∘ mb_endpoint) l es ∧ all_distinct mb_tls l ts.
Proof.
  revert fs es ts. induction l as [|[k m] l IH]; intros fs es ts.
  - cbn. split; [|by eexists]. intros _. split; [constructor|]. unfold all_distinct. cbn. repeat split; try constructor; set_solver.
  - cbn [try_fold]. rewrite Forall_cons, !all_distinct_cons. cbn [fst snd]. split.
    + intros (s' & (s1 & H1 & H2)%bind_Ok). apply member_step_Ok in H1 as (Hm & U1 & U2 & U3 & ->). cbn [fst snd] in *.
      destruct (IH (list_to_set (option_list (Some (mb_fingerprint m))) ∪ fs)
                   (list_to_set (option_list (Some (mb_endpoint m))) ∪ es)
                   (list_to_set (option_list (mb_tls m)) ∪ ts)) as [HI _]. destruct HI as (?&?&?&?); [by eexists|]. done.
    + intros ([Hm Hl] & [U1 D1] & [U2 D2] & [U3 D3]).
      destruct (IH (list_to_set (option_list (Some (mb_fingerprint m))) ∪ fs)
                   (list_to_set (option_list (Some (mb_endpoint m))) ∪ es)
                   (list_to_set (option_list (mb_tls m)) ∪ ts)) as [_ HI]. destruct HI as [s' Hs']; [done|].
      exists s'. apply bind_Ok. eexists. split; [|exact Hs']. apply member_step_Ok. done.
Qed.

Record members_ok (now : Z) e (ms : gmap string ClusterMember) : Prop := {
  ms_each : ∀ k m, ms !! k = Some m → member_ok now e k m;
  ms_fingerprints : distinct_by (Some ∘ mb_fingerprint) ms;
  ms_endpoints : distinct_by (Some ∘ mb_endpoint) ms;
  ms_tls : distinct_by mb_tls ms }.

Lemma members_loop_spec now e ms :
  (∃ s', try_fold (member_step now e) (entries ms) (∅, ∅, ∅) = Ok s') ↔ members_ok now e ms.
Proof.
  rewrite member_loop_Ok, !all_distinct_map, (entries_Forall (member_ok now e)). split.
  - intros (?&?&?&?). by split.
  - intros []. done.
Qed.

(** ** The audit of the membership *)

Definition claim_all (node : string) (fs : list string) (owners : gmap string string) : gmap string string :=
  foldl (λ o f, <[f := node]> o) owners fs.
#[local] Arguments claim_all : simpl never.

Lemma claim_all_lookup node fs owners f n :
  claim_all node fs owners !! f = Some n ↔ (f ∈ fs ∧ n = node) ∨ (owners !! f = Some n ∧ f ∉ fs).
Proof.
  revert owners. induction fs as [|g fs IH]; intros owners; [cbn; set_solver|].
  change (claim_all node (g :: fs) owners) with (claim_all node fs (<[g := node]> owners)). rewrite IH. destruct (decide (f = g)) as [->|Hne].
  - rewrite lookup_insert_eq, elem_of_cons. destruct (decide (g ∈ fs)); naive_solver.
  - rewrite lookup_insert_ne, elem_of_cons by done. naive_solver.
Qed.

Lemma owned_by_spec owners node f : owned_by owners node f = true ↔ ∀ n, owners !! f = Some n → n = node.
Proof. unfold owned_by. destruct (owners !! f); [rewrite bool_decide_eq_true|]; naive_solver. Qed.

Lemma claim_tls_eq node owners f :
  claim_tls node owners f =
  if valid_tls_fingerprint f && owned_by owners node f then Ok (<[f := node]> owners) else Err ForeignTlsBinding.
Proof. unfold claim_tls. fold (owned_by owners node f). by destruct (_ && _). Qed.

Lemma claim_loop_Ok node fs owners owners' :
  try_fold (claim_tls node) fs owners = Ok owners' ↔
  Forall (λ f, valid_tls_fingerprint f = true ∧ owned_by owners node f = true) fs ∧ owners' = claim_all node fs owners.
Proof.
  revert owners. induction fs as [|f fs IH]; intros owners; cbn [try_fold].
  { split; [intros [= <-]; by split; [constructor|]|by intros [_ ->]]. }
  rewrite Forall_cons, claim_tls_eq.
  assert (Hown : ∀ g, owned_by owners node f = true →
    owned_by (<[f := node]> owners) node g = true ↔ owned_by owners node g = true).
  { intros g Hf. rewrite !owned_by_spec. rewrite owned_by_spec in Hf. destruct (decide (g = f)) as [->|].
    - rewrite lookup_insert_eq. naive_solver.
    - by rewrite lookup_insert_ne. }
  destruct (valid_tls_fingerprint f && owned_by owners node f) eqn:Hb; cbn [mbind result_bind].
  - apply andb_true_iff in Hb as [Hv Ho]. rewrite IH, !Forall_forall. naive_solver.
  - split; [done|]. intros [[[Hv Ho] _] _]. rewrite Hv, Ho in Hb. done.
Qed.

Definition tls_of (a : ClusterMembershipAudit) : list string := option_list (ma_previous_tls a) ++ option_list (ma_current_tls a).

Lemma elem_of_tls_of a f : f ∈ tls_of a ↔ ma_previous_tls a = Some f ∨ ma_current_tls a = Some f.
Proof. unfold tls_of. rewrite elem_of_app, !elem_of_option_list. done. Qed.

Definition push_evidence e (a : ClusterMembershipAudit) : MembershipEvidence :=
  mkEvidence (claim_all (ma_node_id a) (tls_of a) (me_owners e))
    (<[ma_node_id a := (ma_member_generation a, ma_current a, ma_current_tls a)]> (me_latest e))
    (<[(ma_node_id a, ma_member_generation a) := (ma_current a, ma_current_tls a, ma_changed_at a)]> (me_revisions e))
    match ma_current_tls a with
    | Some f =>
        match me_first e !! f with
        | Some _ => me_first e
        | None => <[f := (ma_node_id a, ma_member_generation a, ma_changed_at a)]> (me_first e)
        end
    | None => me_first e
    end.

Record maudit_ok (now : Z) e (index : Z) (a : ClusterMembershipAudit) : Prop := {
  mk_index : ma_membership_generation a = index + 1;
  mk_generation : ma_member_generation a ≠ 0;
  mk_time : ma_changed_at a <= now;
  mk_node : is_uuid (ma_node_id a) = true;
  mk_actor : validate_text (ma_actor a) = true;
  mk_reason : validate_reason (ma_reason a) = true;
  mk_transition : membership_transition e a = true;
  mk_tls : ∀ f, f ∈ tls_of a → valid_tls_fingerprint f = true ∧ owned_by (me_owners e) (ma_node_id a) f = true }.

Lemma membership_step_Ok now e index a e' :
  membership_step now e (index, a) = Ok e' ↔ maudit_ok now e index a ∧ e' = push_evidence e a.
Proof.
  unfold membership_step. split.
  - intros Hx. res_inv. bool_hyps. match goal with H : try_fold _ _ _ = Ok _ |- _ => apply claim_loop_Ok in H as [Hf ->] end.
    split; [|done]. rewrite Forall_forall in Hf. split; try done; lia.
  - intros [[H1 H2 H3 H4 H5 H6 H7 H8] ->].
    rewrite (proj2 (Z.eqb_eq _ _) H1), (proj2 (Z.eqb_neq _ _) H2), (proj2 (Z.leb_le _ _) H3), H4, H5, H6. cbn.
    rewrite H7. cbn. fold (tls_of a).
    rewrite (proj2 (claim_loop_Ok _ (tls_of a) _ (claim_all (ma_node_id a) (tls_of a) (me_owners e)))); [done|].
    split; [by apply Forall_forall|done].
Qed.

Lemma maudit_ok_mono now now' e index a : now <= now' → maudit_ok now e index a → maudit_ok now' e index a.
Proof. intros Hn []. split; try done. lia. Qed.

Definition maudit_loop (now : Z) (l : list ClusterMembershipAudit) : result AuthorityFault MembershipEvidence :=
  try_fold (membership_step now) (enumerate l) no_evidence.

Lemma maudit_loop_mono now now' l e : now <= now' → maudit_loop now l = Ok e → maudit_loop now' l = Ok e.
Proof.
  intros Hn. apply try_fold_mono. intros s [i a] s' [Ha ->]%membership_step_Ok.
  apply membership_step_Ok. split; [|done]. by apply (maudit_ok_mono now).
Qed.

Lemma maudit_loop_snoc now l e a :
  maudit_loop now l = Ok e → maudit_ok now e (Z.of_nat (length l)) a → maudit_loop now (l ++ [a]) = Ok (push_evidence e a).
Proof.
  intros Hl Ha. unfold maudit_loop. rewrite enumerate_app. eapply try_fold_snoc; [done|]. by apply membership_step_Ok.
Qed.

(** What the evidence says of the entries it was gathered from. *)
Record evidence_ok (now : Z) (l : list ClusterMembershipAudit) e : Prop := {
  eo_owner : ∀ f n, me_owners e !! f = Some n ↔ ∃ a, a ∈ l ∧ ma_node_id a = n ∧ ma_current_tls a = Some f;
  eo_previous : ∀ a f, a ∈ l → ma_previous_tls a = Some f → ∃ b, b ∈ l ∧ ma_current_tls b = Some f;
  eo_latest : ∀ n g st tls, me_latest e !! n = Some (g, st, tls) →
    (∃ t, me_revisions e !! (n, g) = Some (st, tls, t)) ∧ ∃ a, a ∈ l ∧ ma_node_id a = n ∧ ma_current_tls a = tls;
  eo_revision : ∀ n g v, me_revisions e !! (n, g) = Some v → ∃ g' st tls, me_latest e !! n = Some (g', st, tls) ∧ g <= g';
  eo_first : ∀ f, is_Some (me_first e !! f) ↔ ∃ a, a ∈ l ∧ ma_current_tls a = Some f;
  eo_positive : ∀ n g st tls, me_latest e !! n = Some (g, st, tls) → 1 <= g;
  eo_size : (size (me_latest e) <= length l)%nat;
  eo_time : ∀ a, a ∈ l → ma_changed_at a <= now }.

Lemma transition_generation e a g st tls :
  membership_transition e a = true → me_latest e !! ma_node_id a = Some (g, st, tls) →
  ma_member_generation a = g + 1 ∧ ma_previous_tls a = tls.
Proof.
  unfold membership_transition. intros Ht Hl. rewrite Hl in Ht. bool_hyps. split; [|done].
  unfold checked_add64 in *. case_match; naive_solver.
Qed.

Lemma transition_first e a f :
  membership_transition e a = true → ma_previous_tls a = Some f →
  ∃ g st, me_latest e !! ma_node_id a = Some (g, st, Some f).
Proof.
  intros Ht Hf. unfold membership_transition in Ht. destruct (me_latest e !! ma_node_id a) as [[[g st] tls]|]; bool_hyps;
    [|congruence]. exists g, st. congruence.
Qed.

Lemma evidence_push_owner now l e i a f n :
  evidence_ok now l e → maudit_ok now e i a →
  claim_all (ma_node_id a) (tls_of a) (me_owners e) !! f = Some n ↔
  ∃ b, b ∈ l ++ [a] ∧ ma_node_id b = n ∧ ma_current_tls b = Some f.
Proof.
  intros He Ha. rewrite claim_all_lookup.
  rewrite elem_of_tls_of, (eo_owner now l e He). setoid_rewrite elem_of_app. setoid_rewrite list_elem_of_singleton.
  pose proof (elem_of_tls_of a f) as Hin.
  split.
  - intros [[[Hp|Hc] ->]|[(b & Hb & Hn & Hf) _]]; [|by exists a; naive_solver|naive_solver].
    destruct (transition_first e a f (mk_transition _ _ _ _ Ha) Hp) as (g & st & Hl).
    destruct (eo_latest now l e He _ _ _ _ Hl) as [_ (b & Hb & Hn & Hc)]. exists b. naive_solver.
  - intros (b & [Hb| ->] & <- & Hf); [|left; naive_solver].
    destruct (decide (f ∈ tls_of a)) as [Hx|Hx]; [|right; split; [by exists b|tauto]].
    left. split; [tauto|]. destruct (mk_tls _ _ _ _ Ha f Hx) as [_ Ho]. rewrite owned_by_spec in Ho.
    apply Ho, (eo_owner now l e He). by exists b.
Qed.

Lemma evidence_push now l e i a :
  evidence_ok now l e → maudit_ok now e i a → evidence_ok now (l ++ [a]) (push_evidence e a).
Proof.
  intros He Ha. pose proof (mk_transition _ _ _ _ Ha) as Ht. split; cbn.
  - intros f n. by apply (evidence_push_owner now l e i).
  - intros b f [Hb|Hb]%elem_of_app Hf.
    + destruct (eo_previous now l e He b f Hb Hf) as (d & Hd & ?). exists d. rewrite elem_of_app. naive_solver.
    + apply list_elem_of_singleton in Hb as ->. destruct (transition_first e a f Ht Hf) as (g & st & Hl).
      destruct (eo_latest now l e He _ _ _ _ Hl) as [_ (b & Hb & Hn & Hc)]. exists b. rewrite elem_of_app. naive_solver.
  - intros n g st tls Hl. destruct (decide (n = ma_node_id a)) as [->|Hne].
    + rewrite lookup_insert_eq in Hl. injection Hl as <- <- <-. rewrite lookup_insert_eq. split; [by eexists|].
      exists a. rewrite elem_of_app, list_elem_of_singleton. naive_solver.
    + rewrite lookup_insert_ne in Hl by done. rewrite lookup_insert_ne by congruence.
      destruct (eo_latest now l e He _ _ _ _ Hl) as [? (b & ? & ?)]. split; [done|]. exists b. rewrite elem_of_app. naive_solver.
  - intros n g v Hv. destruct (decide (n = ma_node_id a)) as [->|Hne].
    + rewrite lookup_insert_eq. eexists _, _, _. split; [done|]. destruct (decide (g = ma_member_generation a)) as [->|]; [done|].
      rewrite lookup_insert_ne in Hv by congruence. destruct (eo_revision now l e He _ _ _ Hv) as (g' & st & tls & Hl & ?).
      destruct (transition_generation e a g' st tls Ht Hl). lia.
    + rewrite lookup_insert_ne in Hv by congruence. rewrite lookup_insert_ne by done. by apply (eo_revision now l e He _ _ v).
  - intros f. setoid_rewrite elem_of_app. setoid_rewrite list_elem_of_singleton.
    assert (is_Some (match ma_current_tls a with
      | Some f => match me_first e !! f with Some _ => me_first e
                  | None => <[f := (ma_node_id a, ma_member_generation a, ma_changed_at a)]> (me_first e) end
      | None => me_first e end !! f) ↔ is_Some (me_first e !! f) ∨ ma_current_tls a = Some f) as ->.
    { destruct (ma_current_tls a) as [g|]; [|naive_solver]. destruct (me_first e !! g) eqn:Hg.
      - split; [tauto|]. intros [?|[= <-]]; [done|]. by rewrite Hg.
      - destruct (decide (f = g)) as [->|]; [rewrite lookup_insert_eq; naive_solver|].
        rewrite lookup_insert_ne by done. naive_solver. }
    rewrite (eo_first now l e He). naive_solver.
  - intros n g st tls. rewrite lookup_insert_Some. intros [[<- [= <- <- <-]]|[_ Hl]]; [|by apply (eo_positive now l e He _ _ _ _ Hl)].
    destruct (me_latest e !! ma_node_id a) as [[[g st] tls]|] eqn:Hl.
    + destruct (transition_generation e a g st tls Ht Hl) as [-> _]. pose proof (eo_positive now l e He _ _ _ _ Hl). lia.
    + unfold membership_transition in Ht. rewrite Hl in Ht. bool_hyps. lia.
  - rewrite length_app. cbn. pose proof (eo_size now l e He).
    destruct (me_latest e !! ma_node_id a) eqn:Hl; [rewrite map_size_insert_Some by done|rewrite map_size_insert_None by done]; lia.
  - intros b [Hb|Hb]%elem_of_app; [by apply (eo_time now l e He)|]. apply list_elem_of_singleton in Hb as ->.
    by apply (mk_time _ _ _ _ Ha).
Qed.

Lemma maudit_loop_evidence now l e : maudit_loop now l = Ok e → evidence_ok now l e.
Proof.
  intros Hl. assert (evidence_ok now ((enumerate l).*2) e) as Hx.
  { revert Hl. apply (try_fold_ind _ (λ l e, evidence_ok now l.*2 e)).
    - split; cbn; try done.
      + intros f n. rewrite lookup_empty. split; [done|]. by intros (a & ?%elem_of_nil & _).
      + by intros a f ?%elem_of_nil.
      + intros f. rewrite lookup_empty. split; [by intros [? ?]|]. by intros (a & ?%elem_of_nil & _).
      + by intros a ?%elem_of_nil.
    - intros k [i a] s s' Hk [Ha ->]%membership_step_Ok. rewrite fmap_app. by apply (evidence_push now _ s i). }
  by rewrite enumerate_snd in Hx.
Qed.

(** ** The audit of the certificate rollouts *)

Definition push_revidence re (a : ClusterCertificateRolloutAudit) (candidates : gset string) : RolloutEvidence :=
  mkREvidence (claim_all (ra_node_id a) [ra_previous a; ra_next a] (re_owners re)) candidates
    (if bool_decide (ra_current_phase a = Some Activated)
     then <[ra_next a := (ra_node_id a, ra_member_generation a, ra_changed_at a)]> (re_activations re)
     else re_activations re)
    (<[ra_node_id a := mkHead (ra_current_phase a) (ra_previous a) (ra_next a) (ra_member_generation a)
                         (ra_trust_generation a) (ra_changed_at a) (ra_reason a)]> (re_latest re)).

Record raudit_ok (now : Z) e re (index : Z) (a : ClusterCertificateRolloutAudit) : Prop := {
  rk_index : ra_trust_generation a = index + 1;
  rk_generation : ra_member_generation a ≠ 0;
  rk_time : ra_changed_at a <= now;
  rk_node : is_uuid (ra_node_id a) = true;
  rk_previous : valid_tls_fingerprint (ra_previous a) = true;
  rk_next : valid_tls_fingerprint (ra_next a) = true;
  rk_differ : ra_previous a ≠ ra_next a;
  rk_actor : validate_text (ra_actor a) = true;
  rk_reason : validate_reason (ra_reason a) = true;
  rk_revision : revision_matches e a = true;
  rk_owned : ∀ f, f ∈ [ra_previous a; ra_next a] → owned_by (re_owners re) (ra_node_id a) f = true;
  rk_once : ra_current_phase a = Some Activated → re_activations re !! ra_next a = None }.

Lemma rollout_step_Ok now e re index a re' :
  rollout_step now e re (index, a) = Ok re' ↔
  raudit_ok now e re index a ∧ ∃ candidates, rollout_transition re a = Some candidates ∧ re' = push_revidence re a candidates.
Proof.
  unfold rollout_step. split.
  - intros Hx. res_inv. bool_hyps. split; [|eexists; by split].
    split; try done; try lia.
    + intros f [->|[->|[]%elem_of_nil]%elem_of_cons]%elem_of_cons; done.
    + intros Ha. match goal with H : _ && is_some _ = false |- _ => rewrite (bool_decide_eq_true_2 _ Ha) in H; cbn in H end.
      destruct (re_activations re !! ra_next a); done.
  - intros [[H1 H2 H3 H4 H5 H6 H7 H8 H9 H10 H11 H12] (cs & Hc & ->)].
    rewrite (proj2 (Z.eqb_eq _ _) H1), (proj2 (Z.eqb_neq _ _) H2), (proj2 (Z.leb_le _ _) H3), H4, H5, H6, H8, H9.
    rewrite (bool_decide_eq_false_2 (ra_previous a = ra_next a)) by done. cbn. rewrite Hc. cbn.
    rewrite H10, !H11 by set_solver. cbn. unfold push_revidence. case_bool_decide as Ha; cbn; [|done].
    by rewrite (H12 Ha).
Qed.

Definition raudit_loop (now : Z) e (owners : gmap string string) (l : list ClusterCertificateRolloutAudit)
    : result AuthorityFault RolloutEvidence :=
  try_fold (rollout_step now e) (enumerate l) (mkREvidence owners ∅ ∅ ∅).

Lemma raudit_loop_mono now now' e o l re : now <= now' → raudit_loop now e o l = Ok re → raudit_loop now' e o l = Ok re.
Proof.
  intros Hn. apply try_fold_mono. intros s [i a] s' [Ha Hs]%rollout_step_Ok. apply rollout_step_Ok. split; [|done].
  destruct Ha. split; try done. lia.
Qed.

Lemma raudit_loop_snoc now e o l re a candidates :
  raudit_loop now e o l = Ok re → raudit_ok now e re (Z.of_nat (length l)) a → rollout_transition re a = Some candidates →
  raudit_loop now e o (l ++ [a]) = Ok (push_revidence re a candidates).
Proof.
  intros Hl Ha Hc. unfold raudit_loop. rewrite enumerate_app. eapply try_fold_snoc; [done|]. apply rollout_step_Ok. eauto.
Qed.

(** What the evidence says of the entries and of the owners it started from. *)
Record revidence_ok (owners : gmap string string) (l : list ClusterCertificateRolloutAudit) re : Prop := {
  rv_owner : ∀ f n, re_owners re !! f = Some n ↔
    owners !! f = Some n ∨ ∃ a, a ∈ l ∧ ra_node_id a = n ∧ f ∈ [ra_previous a; ra_next a];
  rv_candidate : ∀ f, f ∈ re_candidates re ↔ ∃ a, a ∈ l ∧ ra_next a = f;
  rv_activation : ∀ f, is_Some (re_activations re !! f) → f ∈ re_candidates re;
  rv_head : ∀ n h, re_latest re !! n = Some h →
    hd_next h ∈ re_candidates re ∧ (∀ f, f ∈ [hd_previous h; hd_next h] → re_owners re !! f = Some n) ∧
    (hd_phase h = Some Prepared → re_activations re !! hd_next h = None) }.

(** The three transitions. *)
Lemma rollout_transition_Some re a candidates :
  rollout_transition re a = Some candidates →
  (ra_current_phase a = Some Prepared ∧ ra_next a ∉ re_candidates re ∧ candidates = {[ra_next a]} ∪ re_candidates re) ∨
  (∃ h, re_latest re !! ra_node_id a = Some h ∧ is_Some (hd_phase h) ∧ hd_phase h = ra_previous_phase a ∧
     ra_previous a = hd_previous h ∧ ra_next a = hd_next h ∧ candidates = re_candidates re ∧
     ra_current_phase a ≠ Some Prepared ∧ (ra_current_phase a = Some Activated → hd_phase h = Some Prepared)).
Proof.
  unfold rollout_transition.
  assert (Hp : ∀ cs, (if bool_decide (ra_previous_phase a = None) && bool_decide (ra_current_phase a = Some Prepared) &&
       bool_decide (ra_next a ∉ re_candidates re) then Some ({[ra_next a]} ∪ re_candidates re) else None) = Some cs →
     ra_current_phase a = Some Prepared ∧ ra_next a ∉ re_candidates re ∧ cs = {[ra_next a]} ∪ re_candidates re).
  { intros cs Hx. destruct (_ && _) eqn:Hb; [|done]. injection Hx as <-. bool_hyps. done. }
  destruct (re_latest re !! ra_node_id a) as [h|]; [|by left; apply Hp].
  destruct (hd_phase h) as [[]|] eqn:Hh; [| |by left; apply Hp]; intros Hx; right; exists h;
    (match type of Hx with (if ?b then _ else _) = _ => destruct b eqn:Hb end; [|done]); bool_hyps; injection Hx as <-;
    rewrite Hh; split_and!; try done; try congruence.
  match goal with H : _ || _ = true |- _ => apply orb_true_iff in H as [H|H]; bool_hyps; congruence end.
Qed.

Lemma claim_all_kept node fs owners f n :
  (∀ f, f ∈ fs → owned_by owners node f = true) → owners !! f = Some n → claim_all node fs owners !! f = Some n.
Proof.
  intros Ho Hf. apply claim_all_lookup. destruct (decide (f ∈ fs)) as [Hin|]; [left|by right].
  split; [done|]. specialize (Ho f Hin). rewrite owned_by_spec in Ho. by apply Ho.
Qed.

Lemma revidence_push now e o l re i a candidates :
  revidence_ok o l re → raudit_ok now e re i a → rollout_transition re a = Some candidates →
  revidence_ok o (l ++ [a]) (push_revidence re a candidates).
Proof.
  intros Hr Ha Ht. pose proof (rk_owned _ _ _ _ _ Ha) as Hown. pose proof (rollout_transition_Some re a candidates Ht) as Hc.
  assert (Hsub : re_candidates re ⊆ candidates).
  { destruct Hc as [(_ & _ & ->)|(h & _ & _ & _ & _ & _ & -> & _)]; set_solver. }
  assert (Hnext : ra_next a ∈ candidates).
  { destruct Hc as [(_ & _ & ->)|(h & Hh & _ & _ & _ & -> & -> & _)]; [set_solver|]. by apply (rv_head o l re Hr _ _ Hh). }
  split; cbn.
  - intros f n. rewrite claim_all_lookup. setoid_rewrite elem_of_app. setoid_rewrite list_elem_of_singleton. split.
    + intros [[Hf ->]|[Hf _]]; [right; by exists a; naive_solver|]. apply (rv_owner o l re Hr) in Hf. naive_solver.
    + intros Hx. destruct (decide (f ∈ [ra_previous a; ra_next a])) as [Hin|Hin].
      * left. split; [done|]. specialize (Hown f Hin). rewrite owned_by_spec in Hown.
        destruct Hx as [Hf|(b & [Hb| ->] & <- & Hf)]; [| |done]; apply Hown, (rv_owner o l re Hr); [by left|right; by exists b].
      * right. split; [|done]. apply (rv_owner o l re Hr). destruct Hx as [Hf|(b & [Hb| ->] & Hn & Hf)]; [by left| |done].
        right. by exists b.
  - intros f. setoid_rewrite elem_of_app. setoid_rewrite list_elem_of_singleton. split.
    + intros Hf. destruct (decide (f = ra_next a)) as [->|Hne]; [by exists a; naive_solver|].
      assert (f ∈ re_candidates re) as Hf'.
      { destruct Hc as [(_ & _ & ->)|(h & _ & _ & _ & _ & _ & -> & _)]; set_solver. }
      apply (rv_candidate o l re Hr) in Hf'. naive_solver.
    + intros (b & [Hb| ->] & <-); [|done]. apply Hsub, (rv_candidate o l re Hr). by exists b.
  - intros f. case_bool_decide; [|intros Hf; apply Hsub, (rv_activation o l re Hr), Hf].
    destruct (decide (f = ra_next a)) as [->|]; [done|]. rewrite lookup_insert_ne by done.
    intros Hf. apply Hsub, (rv_activation o l re Hr), Hf.
  - intros n h Hh. destruct (decide (n = ra_node_id a)) as [->|Hne].
    + rewrite lookup_insert_eq in Hh. injection Hh as <-. cbn. split; [done|]. split.
      { intros f Hf. apply claim_all_lookup. by left. }
      intros Hp. rewrite bool_decide_eq_false_2 by congruence.
      destruct Hc as [(_ & Hn & _)|(h & _ & _ & _ & _ & _ & _ & Hno & _)]; [|done].
      destruct (re_activations re !! ra_next a) eqn:Hx; [|done]. destruct Hn. apply (rv_activation o l re Hr). by eexists.
    + rewrite lookup_insert_ne in Hh by done. destruct (rv_head o l re Hr n h Hh) as (H1 & H2 & H3).
      split; [by apply Hsub|]. split; [intros f Hf; by apply claim_all_kept, H2|]. intros Hp. case_bool_decide; [|by apply H3].
      rewrite lookup_insert_ne; [by apply H3|]. intros Heq. specialize (Hown (ra_next a)). rewrite owned_by_spec in Hown.
      apply Hne. apply Hown; [set_solver|]. rewrite Heq. apply H2. set_solver.
Qed.

Lemma raudit_loop_evidence now e o l re : raudit_loop now e o l = Ok re → revidence_ok o l re.
Proof.
  intros Hl. assert (revidence_ok o ((enumerate l).*2) re) as Hx.
  { revert Hl. apply (try_fold_ind _ (λ l re, revidence_ok o l.*2 re)).
    - split; cbn.
      + intros f n. split; [by left|]. intros [?|(a & ?%elem_of_nil & _)]; done.
      + intros f. split; [set_solver|]. by intros (a & ?%elem_of_nil & _).
      + intros f. rewrite lookup_empty. by intros [? ?].
      + intros n h. by rewrite lookup_empty.
    - intros k [i a] s s' Hk [Ha (cs & Hc & ->)]%rollout_step_Ok. rewrite fmap_app. by eapply revidence_push. }
  by rewrite enumerate_snd in Hx.
Qed.

Lemma raudit_owner_kept now e l re re' f n :
  try_fold (rollout_step now e) l re = Ok re' → re_owners re !! f = Some n → re_owners re' !! f = Some n.
Proof.
  revert re. induction l as [|[i a] l IH]; intros re Hl Hf; cbn [try_fold] in Hl; [by injection Hl as <-|].
  apply bind_Ok in Hl as (re1 & H1 & H2). apply (IH re1 H2). apply rollout_step_Ok in H1 as [Ha (cs & _ & ->)]. cbn.
  apply claim_all_kept; [apply Ha|done].
Qed.

(** More revisions and more owners leave the history of the rollouts valid, if the owners agree. *)
Lemma raudit_extend now e e' l re re' (o : gmap string string) :
  (∀ k v, me_revisions e !! k = Some v → me_revisions e' !! k = Some v) →
  (∀ f n n', o !! f = Some n → re_owners re' !! f = Some n' → n = n') →
  try_fold (rollout_step now e) l re = Ok re' →
  try_fold (rollout_step now e') l (mkREvidence (re_owners re ∪ o) (re_candidates re) (re_activations re) (re_latest re)) =
  Ok (mkREvidence (re_owners re' ∪ o) (re_candidates re') (re_activations re') (re_latest re')).
Proof.
  intros Hrev Ho. revert re. induction l as [|[i a] l IH]; intros re Hl; cbn [try_fold] in *; [by injection Hl as <-|].
  apply bind_Ok in Hl as (re1 & H1 & H2). specialize (IH re1 H2). apply rollout_step_Ok in H1 as [Ha (cs & Hc & ->)].
  apply bind_Ok. eexists. split; [|exact IH]. apply rollout_step_Ok.
  assert (Hfinal : ∀ f, f ∈ [ra_previous a; ra_next a] → re_owners re' !! f = Some (ra_node_id a)).
  { intros f Hf. apply (raudit_owner_kept now e l (push_revidence re a cs)); [done|]. cbn. apply claim_all_lookup. by left. }
  split.
  - destruct Ha as [K1 K2 K3 K4 K5 K6 K7 K8 K9 K10 K11 K12]. split; try done.
    + unfold revision_matches in *. destruct (me_revisions e !! _) as [v|] eqn:Hv; [|done]. by rewrite (Hrev _ _ Hv).
    + intros f Hf. cbn. apply owned_by_spec. intros n [Hn|[_ Hn]]%lookup_union_Some_raw.
      * specialize (K11 f Hf). rewrite owned_by_spec in K11. by apply K11.
      * by apply (Ho f n), Hfinal.
  - exists cs. split; [done|]. unfold push_revidence. cbn. f_equal. apply map_eq. intros f. apply option_eq. intros n.
    rewrite lookup_union_Some_raw. setoid_rewrite (claim_all_lookup (ra_node_id a) [ra_previous a; ra_next a]).
    rewrite lookup_union_Some_raw. rewrite (eq_None_not_Some (claim_all _ _ _ !! f)). unfold is_Some.
    setoid_rewrite claim_all_lookup. destruct (decide (f ∈ [ra_previous a; ra_next a])); [naive_solver|].
    destruct (re_owners re !! f) eqn:Hf; naive_solver.
Qed.

(** ** The audit of the ownerships *)

Abbreviation OwnershipHead := (Z * string * Z * Z * ClusterOwnershipState)%type (only parsing).

Record oaudit_ok (now : Z) (latest : gmap string OwnershipHead) (a : ClusterAgentOwnershipAudit) (state : ClusterOwnershipState) : Prop := {
  ok_generation : oa_generation a ≠ 0;
  ok_term : oa_term a ≠ 0;
  ok_token : oa_token a ≠ 0;
  ok_time : oa_changed_at a <= now;
  ok_identity : validate_ownership_identity (oa_agent_id a) (oa_owner a) = true;
  ok_previous : ∀ n, oa_previous_owner a = Some n → is_uuid n = true;
  ok_actor : validate_text (oa_actor a) = true;
  ok_reason : validate_reason (oa_reason a) = true;
  ok_state : ownership_state (oa_operation a) = Some state;
  ok_transition : ownership_transition latest a = true }.

Lemma ownership_step_Ok now latest a latest' :
  ownership_step now latest a = Ok latest' ↔
  ∃ state, oaudit_ok now latest a state ∧
    latest' = <[oa_agent_id a := (oa_generation a, oa_owner a, oa_term a, oa_token a, state)]> latest.
Proof.
  unfold ownership_step. split.
  - intros Hx. res_inv. bool_hyps. eexists. split; [|done]. split; try done; try lia.
    intros n Hn. by rewrite Hn in *.
  - intros (state & [H1 H2 H3 H4 H5 H6 H7 H8 H9 H10] & ->).
    rewrite (proj2 (Z.eqb_neq _ _) H1), (proj2 (Z.eqb_neq _ _) H2), (proj2 (Z.eqb_neq _ _) H3), (proj2 (Z.leb_le _ _) H4), H5, H7, H8.
    assert (match oa_previous_owner a with Some owner => is_uuid owner | None => true end = true) as ->.
    { destruct (oa_previous_owner a); [by apply H6|done]. }
    cbn. rewrite H9. cbn. rewrite H10. done.
Qed.

Definition oaudit_loop (now : Z) (l : list ClusterAgentOwnershipAudit) : result AuthorityFault (gmap string OwnershipHead) :=
  try_fold (ownership_step now) l ∅.

Lemma oaudit_loop_mono now now' l ol : now <= now' → oaudit_loop now l = Ok ol → oaudit_loop now' l = Ok ol.
Proof.
  intros Hn. apply try_fold_mono. intros s a s' (st & Ha & ->)%ownership_step_Ok. apply ownership_step_Ok.
  exists st. split; [|done]. destruct Ha. split; try done. lia.
Qed.

Lemma oaudit_loop_snoc now l ol a state :
  oaudit_loop now l = Ok ol → oaudit_ok now ol a state →
  oaudit_loop now (l ++ [a]) = Ok (<[oa_agent_id a := (oa_generation a, oa_owner a, oa_term a, oa_token a, state)]> ol).
Proof. intros Hl Ha. eapply try_fold_snoc; [done|]. apply ownership_step_Ok. by exists state. Qed.

Lemma oaudit_loop_size now l ol : oaudit_loop now l = Ok ol → (size ol <= length l)%nat.
Proof.
  apply (try_fold_ind _ (λ l (ol : gmap string OwnershipHead), (size ol <= length l)%nat)); [done|].
  intros k a s s' Hk (st & _ & ->)%ownership_step_Ok. rewrite length_app. cbn.
  destruct (s !! oa_agent_id a) eqn:Hs; [rewrite map_size_insert_Some by done|rewrite map_size_insert_None by done]; lia.
Qed.

Lemma oaudit_loop_positive now l ol n g owner term token st :
  oaudit_loop now l = Ok ol → ol !! n = Some (g, owner, term, token, st) → 1 <= g ∧ 1 <= token.
Proof.
  intros Hl. revert n g owner term token st. revert Hl. apply (try_fold_ind _ (λ _ (ol : gmap string OwnershipHead),
    ∀ n g owner term token st, ol !! n = Some (g, owner, term, token, st) → 1 <= g ∧ 1 <= token)).
  { intros n *. by rewrite lookup_empty. }
  intros k a s s' IH (st' & Ha & ->)%ownership_step_Ok n g owner term token st. rewrite lookup_insert_Some.
  intros [[<- [= <- <- <- <- <-]]|[_ Hl]]; [|by apply (IH _ _ _ _ _ _ Hl)].
  pose proof (ok_transition _ _ _ _ Ha) as Ht. unfold ownership_transition in Ht.
  destruct (s !! oa_agent_id a) as [[[[[g0 o0] te0] to0] s0]|] eqn:Hs; bool_hyps; [|lia].
  destruct (IH _ _ _ _ _ _ Hs).
  repeat match goal with H : checked_add64 _ 1 = Some _ |- _ => apply checked_add64_Some in H as [? _] end.
  case_match; bool_hyps; [lia|]. case_match; [|done]. bool_hyps.
  repeat match goal with H : checked_add64 _ 1 = Some _ |- _ => apply checked_add64_Some in H as [? _] end. lia.
Qed.

Record ownership_ok (now : Z) (latest : gmap string OwnershipHead) (k : string) (o : ClusterAgentOwnership) : Prop := {
  oo_key : k = ow_agent_id o;
  oo_generation : ow_generation o ≠ 0;
  oo_term : ow_term o ≠ 0;
  oo_token : ow_token o ≠ 0;
  oo_time : ow_updated_at o <= now;
  oo_lease : match ow_state o with OwnActive => ow_updated_at o < ow_expires_at o | OwnReleased => ow_expires_at o = ow_updated_at o end;
  oo_identity : validate_ownership_identity (ow_agent_id o) (ow_owner o) = true;
  oo_latest : latest !! k = Some (ow_generation o, ow_owner o, ow_term o, ow_token o, ow_state o) }.

Lemma check_ownership_Ok now latest k o : check_ownership now latest (k, o) = Ok tt ↔ ownership_ok now latest k o.
Proof.
  unfold check_ownership. split.
  - intros Hx. res_inv. bool_hyps. split; try done; try lia. destruct (ow_state o); lia.
  - intros [-> H2 H3 H4 H5 H6 H7 H8]. rewrite bool_decide_eq_true_2 by done.
    rewrite (proj2 (Z.eqb_neq _ _) H2), (proj2 (Z.eqb_neq _ _) H3), (proj2 (Z.eqb_neq _ _) H4), (proj2 (Z.leb_le _ _) H5).
    assert ((match ow_state o with OwnActive => ow_updated_at o <? ow_expires_at o | OwnReleased => ow_expires_at o =? ow_updated_at o end)
      = true) as -> by (destruct (ow_state o); lia).
    cbn. rewrite H7. cbn. by rewrite bool_decide_eq_true_2.
Qed.

(** ** Live rollouts *)

Record rollout_ok (now : Z) (ms : gmap string ClusterMember) re (k : string) (ro : ClusterCertificateRollout) : Prop := {
  rl_key : k = ro_node_id ro;
  rl_member : ∃ m, ms !! k = Some m ∧ mb_state m = MemberActive ∧ mb_generation m = ro_member_generation ro;
  rl_trust : ro_trust_generation ro ≠ 0;
  rl_overlap : in_window MIN_CERTIFICATE_ROLLOUT_SECONDS MAX_CERTIFICATE_ROLLOUT_SECONDS (ro_overlap ro) = true;
  rl_window : prepare_window_is_valid ro = true;
  rl_times : ro_prepared_at ro <= ro_updated_at ro <= now;
  rl_previous : valid_tls_fingerprint (ro_previous ro) = true;
  rl_next : valid_tls_fingerprint (ro_next ro) = true;
  rl_differ : ro_previous ro ≠ ro_next ro;
  rl_reason : validate_reason (ro_reason ro) = true;
  rl_retirement : retirement_is_valid (ms !! k) ro = true;
  rl_latest : re_latest re !! k = Some (rollout_head ro) }.

Lemma check_rollout_Ok c re k ro : check_rollout c re (k, ro) = Ok tt ↔ rollout_ok (logical_time c) (members c) re k ro.
Proof.
  unfold check_rollout. rewrite ensure_Ok. split.
  - destruct (members c !! k) as [m|] eqn:Hm; intros Hx; bool_hyps; [|done]. split; try done; try lia; [|by rewrite Hm].
    exists m. split_and!; try done. lia.
  - intros [-> (m & Hm & Hst & Hg) H3 H4 H5 H6 H7 H8 H9 H10 H11 H12]. rewrite Hm in *. rewrite H4, H5, H7, H8, H10, H11.
    rewrite !bool_decide_eq_true_2 by done. rewrite bool_decide_eq_false_2 by done. cbn.
    rewrite (proj2 (Z.eqb_eq _ _) Hg), (proj2 (Z.eqb_neq _ _) H3), !(proj2 (Z.leb_le _ _)) by lia. cbn.
    by rewrite bool_decide_eq_true_2.
Qed.

(** ** Validity *)

(** The facts about the audits, the members, the challenges and the ownerships. *)
Record audits_ok c e re (ol : gmap string OwnershipHead) : Prop := {
  ao_genesis : is_ok (validate_and_build_genesis (genesis c) (logical_time c)) = true;
  ao_cluster : gn_cluster_id (genesis c) = cluster_id c;
  ao_cluster_id : parse_uuid (cluster_id c) = Some (cluster_id c);
  ao_generation : membership_generation c = Z.of_nat (length (membership_audit c));
  ao_room : Z.of_nat (size (join_challenges c)) <= 4096 ∧ Z.of_nat (length (membership_audit c)) <= 100000 ∧
    Z.of_nat (length (certificate_rollout_audit c)) <= 100000 ∧ Z.of_nat (length (ownership_audit c)) <= 100000;
  ao_challenges : ∃ a, head (membership_audit c) = Some a ∧ ∀ k ch, join_challenges c !! k = Some ch →
    check_challenge (ma_changed_at a) (logical_time c) (k, ch) = Ok tt;
  ao_mloop : maudit_loop (logical_time c) (membership_audit c) = Ok e;
  ao_members : members_ok (logical_time c) e (members c);
  ao_known : ∀ n, is_Some (me_latest e !! n) → is_Some (members c !! n);
  ao_trust : tls_trust_generation c = Z.of_nat (length (certificate_rollout_audit c));
  ao_rloop : raudit_loop (logical_time c) e (me_owners e) (certificate_rollout_audit c) = Ok re;
  ao_oloop : oaudit_loop (logical_time c) (ownership_audit c) = Ok ol;
  ao_ownerships : ∀ k o, ownerships c !! k = Some o → ownership_ok (logical_time c) ol k o;
  ao_owned : ∀ k, is_Some (ol !! k) → is_Some (ownerships c !! k) }.

(** The facts about the unfinished rollouts. *)
Record live_ok c e re : Prop := {
  lv_candidates : ∀ f, f ∈ re_candidates re → me_first e !! f = re_activations re !! f;
  lv_rollouts : ∀ k ro, certificate_rollouts c !! k = Some ro → rollout_ok (logical_time c) (members c) re k ro;
  lv_latest : ∀ k h, re_latest re !! k = Some h → is_Some (hd_phase h) ↔ is_Some (certificate_rollouts c !! k) }.

Definition control_ok c : Prop := ∃ e re ol, audits_ok c e re ol ∧ live_ok c e re.

Lemma keys_size {A B} (m1 : gmap string A) (m2 : gmap string B) :
  (∀ k, is_Some (m1 !! k) → is_Some (m2 !! k)) → (size m1 <= size m2)%nat.
Proof.
  intros Hk. rewrite <- (size_dom (D := gset string) m1), <- (size_dom (D := gset string) m2).
  apply subseteq_size. intros k. rewrite !elem_of_dom. apply Hk.
Qed.

Lemma members_latest now e ms k : members_ok now e ms → is_Some (ms !! k) → is_Some (me_latest e !! k).
Proof. intros Hm [m Hk]. rewrite (mo_latest _ _ _ _ (ms_each _ _ _ Hm k m Hk)). by eexists. Qed.

Lemma ownerships_latest now (ol : gmap string OwnershipHead) (os : gmap string ClusterAgentOwnership) k :
  (∀ k o, os !! k = Some o → ownership_ok now ol k o) → is_Some (os !! k) → is_Some (ol !! k).
Proof. intros Ho [o Hk]. rewrite (oo_latest _ _ _ _ (Ho k o Hk)). by eexists. Qed.

Lemma audits_room c e re ol : audits_ok c e re ol → live_ok c e re → within_capacity c = true.
Proof.
  intros Ha Hl. destruct (ao_room _ _ _ _ Ha) as (H1 & H2 & H3 & H4).
  pose proof (eo_size _ _ _ (maudit_loop_evidence _ _ _ (ao_mloop _ _ _ _ Ha))) as H5.
  pose proof (oaudit_loop_size _ _ _ (ao_oloop _ _ _ _ Ha)) as H6.
  assert (size (members c) <= size (me_latest e))%nat as H7.
  { apply keys_size. intros k. apply (members_latest (logical_time c)), Ha. }
  assert (size (certificate_rollouts c) <= size (members c))%nat as H8.
  { apply keys_size. intros k [ro Hro]. destruct (rl_member _ _ _ _ _ (lv_rollouts _ _ _ Hl k ro Hro)) as (m & Hm & _). by eexists. }
  assert (size (ownerships c) <= size ol)%nat as H9.
  { apply keys_size. intros k. apply (ownerships_latest (logical_time c)), Ha. }
  unfold within_capacity. rewrite !andb_true_iff, !Z.leb_le, Nat.leb_le. lia.
Qed.

Lemma forallb_entries {A} (f : string → A → bool) (m : gmap string A) :
  forallb (λ p : string * A, f p.1 p.2) (entries m) = true ↔ ∀ k x, m !! k = Some x → f k x = true.
Proof.
  rewrite forallb_forall. split.
  - intros Hf k x Hx. apply (Hf (k, x)), list_elem_of_In, elem_of_entries, Hx.
  - intros Hf [k x] Hx. apply Hf, elem_of_entries, list_elem_of_In, Hx.
Qed.

Lemma unit_loop {A} (f : string * A → result AuthorityFault unit) (m : gmap string A) :
  (∃ u, try_fold (λ _, f) (entries m) tt = Ok u) ↔ ∀ k x, m !! k = Some x → f (k, x) = Ok tt.
Proof.
  assert (Hu : ∀ u, try_fold (λ _, f) (entries m) tt = Ok u ↔ try_fold (λ _, f) (entries m) tt = Ok tt) by (by intros []).
  setoid_rewrite Hu. rewrite <- (entries_Forall (λ k x, f (k, x) = Ok tt)).
  assert (Forall (λ p : string * A, f (p.1, p.2) = Ok tt) (entries m) ↔ Forall (λ p, f p = Ok tt) (entries m)) as ->.
  { split; intros Hf; eapply Forall_impl; try exact Hf; by intros [] ?. }
  rewrite <- try_fold_unit. naive_solver.
Qed.

Lemma candidates_check e re :
  forallb (candidate_ok e re) (elements (re_candidates re)) = true ↔
  ∀ f, f ∈ re_candidates re → me_first e !! f = re_activations re !! f.
Proof.
  rewrite forallb_forall. unfold candidate_ok. setoid_rewrite bool_decide_eq_true. setoid_rewrite <- list_elem_of_In.
  by setoid_rewrite elem_of_elements.
Qed.

Lemma latest_check re (ros : gmap string ClusterCertificateRollout) :
  forallb (λ p : string * RolloutHead, eqb (is_some (hd_phase p.2)) (is_some (ros !! p.1))) (entries (re_latest re)) = true ↔
  ∀ k h, re_latest re !! k = Some h → is_Some (hd_phase h) ↔ is_Some (ros !! k).
Proof.
  rewrite (forallb_entries (λ k h, eqb (is_some (hd_phase h)) (is_some (ros !! k)))).
  setoid_rewrite eqb_true_iff. setoid_rewrite <- is_some_spec.
  split; intros Hx k h Hh; specialize (Hx k h Hh); destruct (is_some _), (is_some _); naive_solver.
Qed.

Lemma validate_control_plane_state_spec c : validate_control_plane_state c = Ok tt ↔ control_ok c.
Proof.
  unfold validate_control_plane_state, control_ok. split.
  - intros (g & Hg & (u1 & H1%ensure_Ok & (u2 & H2%ensure_Ok & (u3 & H3%ensure_Ok & (u4 & H4%ensure_Ok & Hx)%bind_Ok)%bind_Ok)%bind_Ok)%bind_Ok)%bind_Ok.
    apply bind_Ok in Hx as (a & Ha%ok_or_Ok & (u5 & Hch & (e & He & (s & Hs & (u6 & H5%ensure_Ok & (u7 & H6%ensure_Ok & Hx)%bind_Ok)%bind_Ok)%bind_Ok)%bind_Ok)%bind_Ok).
    apply bind_Ok in Hx as (re & Hre & (u8 & H7%ensure_Ok & (u9 & Hro & (u10 & H8%ensure_Ok & (ol & Hol & (u11 & Hos & H9%ensure_Ok)%bind_Ok)%bind_Ok)%bind_Ok)%bind_Ok)%bind_Ok).
    assert (Hm : members_ok (logical_time c) e (members c)) by (apply members_loop_spec; by eexists).
    assert (Hos' : ∀ k o, ownerships c !! k = Some o → ownership_ok (logical_time c) ol k o).
    { intros k o Ho. apply check_ownership_Ok. by apply (proj1 (unit_loop _ _) (ex_intro _ _ Hos)). }
    exists e, re, ol. unfold within_capacity in H4. bool_hyps. split; split; try done.
    + unfold is_ok. destruct (validate_and_build_genesis _ _); done.
    + lia.
    + lia.
    + exists a. split; [done|]. apply (unit_loop _ _). by eexists.
    + apply same_keys; [|by apply Nat.eqb_eq]. intros k. by apply (members_latest (logical_time c)).
    + lia.
    + apply same_keys; [|by apply Nat.eqb_eq]. intros k. by apply (ownerships_latest (logical_time c)).
    + by apply candidates_check.
    + intros k ro Hk. apply check_rollout_Ok. by apply (proj1 (unit_loop _ _) (ex_intro _ _ Hro)).
    + by apply latest_check.
  - intros (e & re & ol & Ha & Hl). pose proof (audits_room _ _ _ _ Ha Hl) as Hroom.
    destruct Ha as [A1 A2 A3 A4 A5 (a & A6 & A6') A7 A8 A9 A10 A11 A12 A13 A14]. destruct Hl as [L1 L2 L3].
    destruct (validate_and_build_genesis _ _); [|done]. cbn.
    rewrite !bool_decide_eq_true_2 by done. cbn. rewrite (proj2 (Z.eqb_eq _ _) A4), Hroom, A6. cbn.
    destruct (proj2 (unit_loop _ _) A6') as [u ->]. cbn. unfold maudit_loop in A7. rewrite A7. cbn.
    destruct (proj2 (members_loop_spec _ _ _) A8) as [s ->]. cbn.
    rewrite (proj2 (Nat.eqb_eq _ _)); [|by apply same_keys; [intros k; apply (members_latest (logical_time c))|]]. cbn.
    rewrite (proj2 (Z.eqb_eq _ _) A10). cbn. unfold raudit_loop in A11. rewrite A11. cbn.
    rewrite (proj2 (candidates_check _ _) L1). cbn.
    destruct (proj2 (unit_loop (check_rollout c re) (certificate_rollouts c))) as [u' ->].
    { intros k ro Hk. by apply check_rollout_Ok, L2. }
    cbn. rewrite (proj2 (latest_check _ _) L3). cbn. unfold oaudit_loop in A12. rewrite A12. cbn.
    destruct (proj2 (unit_loop (check_ownership (logical_time c) ol) (ownerships c))) as [u'' ->].
    { intros k o Hk. by apply check_ownership_Ok, A13. }
    cbn. rewrite (proj2 (Nat.eqb_eq _ _)); [done|]. by apply same_keys; [intros k; apply (ownerships_latest (logical_time c))|].
Qed.

End valid.
