(* ===== verification/AuthorityApply.v ===== *)
(** * The replicated cluster authority: its operations keep the state valid, 1

    Revisions of members, finished rollouts, ownerships, revocations and challenges. *)

From S2P Require Import Prelude Authority AuthorityCheck AuthorityValid.

#[local] Open Scope Z_scope.

#[local] Arguments claim_all : simpl never.

(** ** Steps of the operations *)

Section steps.
Context `{ClusterExt}.
Implicit Types (c : ReplicatedControlPlaneState) (m : ClusterMember).

Definition revise m (state : ClusterMemberState) (reason : string) (now : Z) : ClusterMember :=
  mkMember (mb_node_id m) (mb_fingerprint m) (mb_public_key m) (mb_tls m) (mb_endpoint m) (mb_server_version m)
    (mb_min_protocol m) (mb_protocol m) state (mb_generation m + 1) (mb_joined_at m) now reason.

Definition revise_audit (g : Z) m (state : ClusterMemberState) (actor reason : string) (now : Z) : ClusterMembershipAudit :=
  mkMAudit g (mb_node_id m) (mb_generation m + 1) (Some (mb_state m)) state (mb_tls m) (mb_tls m) actor reason now.

Lemma advance_Ok c proposed c' now :
  advance_authority_time c proposed = Ok (c', now) → c' = set_time now c ∧ logical_time c < now ∧ now = Z.max proposed (logical_time c + 1000).
Proof. unfold advance_authority_time, add_nanos. intros Hx. destruct (_ <=? _); cbn in *; [|done]. injection Hx as <- <-. split_and!; [done|lia|lia]. Qed.

Lemma capacity_Ok {A} (l : list A) (e : AuthorityRejection) (u : unit) :
  ensure (negb (100000 <=? Z.of_nat (length l))) e = Ok u → Z.of_nat (length l) < 100000.
Proof. intros Hx%ensure_Ok. bool_hyps. lia. Qed.

Lemma append_member_revision_Ok c m state actor reason c' m' :
  append_member_revision c m state (mb_tls m) actor reason (logical_time c) = Ok (c', m') →
  c' = push_membership (mb_node_id m) (revise m state reason (logical_time c))
         (revise_audit (membership_generation c + 1) m state actor reason (logical_time c)) c ∧
  m' = revise m state reason (logical_time c) ∧ mb_generation m + 1 <= u64_max ∧ Z.of_nat (length (membership_audit c)) < 100000.
Proof.
  unfold append_member_revision, require_membership_audit_capacity. intros Hx. res_inv.
  repeat match goal with H : checked_add64 _ _ = Some _ |- _ => apply checked_add64_Some in H as [-> ?] end.
  split_and!; try done. lia.
Qed.

Lemma append_rollout_audit_Ok c k g p q previous next actor reason now c' tg :
  append_certificate_rollout_audit c k g p q previous next actor reason now = Ok (c', tg) →
  tg = tls_trust_generation c + 1 ∧ Z.of_nat (length (certificate_rollout_audit c)) < 100000 ∧
  c' = push_rollout_audit (mkRAudit tg k g p q previous next actor reason now) c.
Proof.
  unfold append_certificate_rollout_audit, require_certificate_rollout_audit_capacity. intros Hx. res_inv.
  repeat match goal with H : checked_add64 _ _ = Some _ |- _ => apply checked_add64_Some in H as [-> ?] end.
  split_and!; try done. lia.
Qed.

End steps.

(** Splits a successful operation into its steps. *)
Ltac run_inv :=
  repeat first
    [ progress res_inv
    | match goal with
      | H : (match ?x with (_, _) => _ end) = Ok _ |- _ => is_var x; destruct x
      | H : advance_authority_time _ _ = Ok _ |- _ => apply advance_Ok in H as (-> & ? & ?)
      | H : append_member_revision _ _ _ _ _ _ _ = Ok _ |- _ => apply append_member_revision_Ok in H as (-> & -> & ? & ?)
      | H : append_certificate_rollout_audit _ _ _ _ _ _ _ _ _ _ = Ok _ |- _ => apply append_rollout_audit_Ok in H as (-> & ? & ->)
      | H : checked_add64 _ _ = Some _ |- _ => apply checked_add64_Some in H as [-> ?]
      | H : (_, _) = (_, _) |- _ => injection H as H; subst
      end ].

Section apply.
Context `{ClusterExt}.
Implicit Types (c : ReplicatedControlPlaneState) (e : MembershipEvidence) (re : RolloutEvidence) (m : ClusterMember).

Abbreviation OwnershipHead := (Z * string * Z * Z * ClusterOwnershipState)%type (only parsing).
Implicit Type ol : gmap string OwnershipHead.

(** ** Time *)

Lemma genesis_step_time t t' acc acc' s r :
  (∀ k, ga_members acc !! k = None ↔ ga_members acc' !! k = None) → ga_fingerprints acc = ga_fingerprints acc' →
  ga_endpoints acc = ga_endpoints acc' → ga_tls acc = ga_tls acc' → genesis_step t acc s = Ok r →
  ∃ r', genesis_step t' acc' s = Ok r' ∧ (∀ k, ga_members r !! k = None ↔ ga_members r' !! k = None) ∧
    ga_fingerprints r = ga_fingerprints r' ∧ ga_endpoints r = ga_endpoints r' ∧ ga_tls r = ga_tls r'.
Proof.
  intros Hm Hf He Ht. unfold genesis_step. intros Hx. res_inv.
  match goal with H : bool_decide (ga_members acc !! _ = None) = true |- _ => apply bool_decide_eq_true, Hm in H; rename H into Hn end.
  match goal with H : validate_member_registration _ = true |- _ => rewrite H end. cbn.
  rewrite <- Hf, <- He, <- Ht. match goal with H : _ && _ = true |- _ => rewrite H end. cbn.
  rewrite bool_decide_eq_true_2 by done. cbn. eexists. split; [done|]. cbn. split_and!; try congruence.
  intros k. destruct (decide (k = sd_node_id s)) as [->|]; [by rewrite !lookup_insert_eq|]. by rewrite !lookup_insert_ne.
Qed.

Lemma genesis_loop_time t t' l acc acc' r :
  (∀ k, ga_members acc !! k = None ↔ ga_members acc' !! k = None) → ga_fingerprints acc = ga_fingerprints acc' →
  ga_endpoints acc = ga_endpoints acc' → ga_tls acc = ga_tls acc' → try_fold (genesis_step t) l acc = Ok r →
  ∃ r', try_fold (genesis_step t') l acc' = Ok r'.
Proof.
  revert acc acc'. induction l as [|s l IH]; intros acc acc' H1 H2 H3 H4 Hl; cbn [try_fold] in *; [by eexists|].
  apply bind_Ok in Hl as (r1 & Hr1 & Hl).
  destruct (genesis_step_time t t' acc acc' s r1 H1 H2 H3 H4 Hr1) as (r1' & -> & ? & ? & ? & ?). cbn. by eapply IH.
Qed.

Lemma genesis_time g t t' : is_ok (validate_and_build_genesis g t) = true → is_ok (validate_and_build_genesis g t') = true.
Proof.
  destruct (validate_and_build_genesis g t) as [c|] eqn:Hg; [|done]. intros _. unfold validate_and_build_genesis in *.
  res_inv. match goal with H : parse_uuid _ = Some _ |- _ => rewrite H end. cbn.
  match goal with H : bool_decide (_ = gn_cluster_id g) = true |- _ => rewrite H end. cbn.
  match goal with H : negb _ && _ = true |- _ => rewrite H end. cbn.
  match goal with H : try_fold (genesis_step t) _ _ = Ok _ |- _ => eapply (genesis_loop_time t t') in H as [r' ->]; done end.
Qed.

Lemma members_ok_mono now now' e ms : now <= now' → members_ok now e ms → members_ok now' e ms.
Proof. intros Hn [Heach ? ? ?]. split; try done. intros k m Hk. destruct (Heach k m Hk). split; try done. lia. Qed.

Lemma ownership_ok_mono now now' ol k o : now <= now' → ownership_ok now ol k o → ownership_ok now' ol k o.
Proof. intros Hn []. split; try done. lia. Qed.

Lemma rollout_ok_mono now now' ms re k ro : now <= now' → rollout_ok now ms re k ro → rollout_ok now' ms re k ro.
Proof. intros Hn []. split; try done. lia. Qed.

Lemma check_challenge_Ok started now k ch :
  check_challenge started now (k, ch) = Ok tt ↔
  ∃ bytes, decode_32 (ch_hex ch) = Some bytes ∧ sha256_hex bytes = k ∧ started < ch_expires_at ch ∧
    ∀ t, ch_consumed_at ch = Some t → t <= now ∧ t < ch_expires_at ch.
Proof.
  unfold check_challenge. destruct (decode_32 (ch_hex ch)) as [bytes|]; cbn.
  - rewrite ensure_Ok, !andb_true_iff, bool_decide_eq_true, Z.ltb_lt. split.
    + intros [[? ?] Ht]. exists bytes. split_and!; try done. intros t Hc. rewrite Hc in Ht. lia.
    + intros (b & [= <-] & ? & ? & Ht). split; [done|]. destruct (ch_consumed_at ch) as [t|]; [|done].
      destruct (Ht t eq_refl). lia.
  - split; [done|]. by intros (? & ? & _).
Qed.

Lemma audits_time c e re ol t : logical_time c <= t → audits_ok c e re ol → audits_ok (set_time t c) e re ol.
Proof.
  intros Ht [A1 A2 A3 A4 A5 (a & A6 & A6') A7 A8 A9 A10 A11 A12 A13 A14]. split; cbn; try done.
  - by apply (genesis_time _ (logical_time c)).
  - exists a. split; [done|]. intros k ch Hk. specialize (A6' k ch Hk). apply check_challenge_Ok in A6' as (b & ? & ? & ? & Hc).
    apply check_challenge_Ok. exists b. split_and!; try done. intros u Hu. destruct (Hc u Hu). lia.
  - by apply (maudit_loop_mono (logical_time c)).
  - by apply (members_ok_mono (logical_time c)).
  - by apply (raudit_loop_mono (logical_time c)).
  - by apply (oaudit_loop_mono (logical_time c)).
  - intros k o Hk. by apply (ownership_ok_mono (logical_time c)), A13.
Qed.

Lemma live_time c e re t : logical_time c <= t → live_ok c e re → live_ok (set_time t c) e re.
Proof. intros Ht []. split; cbn; try done. intros k ro Hk. by apply (rollout_ok_mono (logical_time c)); [|auto]. Qed.

(** ** Membership revisions *)

(** The evidence of the rollouts over the evidence [e'] of a longer audit of the membership. *)
Definition extend_revidence e' re : RolloutEvidence :=
  mkREvidence (re_owners re ∪ me_owners e') (re_candidates re) (re_activations re) (re_latest re).

(** The member that an audit entry leaves behind. *)
Definition records (m : ClusterMember) (a : ClusterMembershipAudit) : Prop :=
  mb_node_id m = ma_node_id a ∧ mb_generation m = ma_member_generation a ∧ mb_state m = ma_current a ∧
  mb_tls m = ma_current_tls a.

(** Nobody else has the member's identity, endpoint or TLS binding. *)
Definition unclaimed (ms : gmap string ClusterMember) (m : ClusterMember) : Prop :=
  ∀ k' m', ms !! k' = Some m' → k' ≠ mb_node_id m →
    mb_fingerprint m' ≠ mb_fingerprint m ∧ mb_endpoint m' ≠ mb_endpoint m ∧
    ∀ f, mb_tls m = Some f → mb_tls m' ≠ Some f.

Lemma distinct_insert {A B} (f : A → option B) (ms : gmap string A) k x :
  distinct_by f ms → (∀ k' x' y, ms !! k' = Some x' → k' ≠ k → f x = Some y → f x' ≠ Some y) → distinct_by f (<[k := x]> ms).
Proof.
  intros Hd Hx k1 k2 x1 x2 y. rewrite !lookup_insert_Some.
  intros [[<- <-]|[? H1]] [[<- <-]|[? H2]] F1 F2; try done.
  - by destruct (Hx k2 x2 y).
  - by destruct (Hx k1 x1 y).
  - by apply (Hd k1 k2 x1 x2 y).
Qed.

Lemma revision_fresh now l e i a :
  evidence_ok now l e → maudit_ok now e i a → me_revisions e !! (ma_node_id a, ma_member_generation a) = None.
Proof.
  intros He Ha. destruct (me_revisions e !! _) as [v|] eqn:Hv; [|done]. exfalso.
  destruct (eo_revision now l e He _ _ _ Hv) as (g & st & tls & Hl & Hg).
  destruct (transition_generation e a g st tls (mk_transition _ _ _ _ Ha) Hl). lia.
Qed.

Lemma members_push now l e i a m (ms : gmap string ClusterMember) :
  members_ok now e ms → maudit_ok now e i a → records m a → unclaimed ms m →
  validate_member_registration (member_registration m) = true → mb_joined_at m <= mb_updated_at m <= now →
  evidence_ok now l e → members_ok now (push_evidence e a) (<[ma_node_id a := m]> ms).
Proof.
  intros [Heach Hf Hend Ht] Ha (R1 & R2 & R3 & R4) Hun Hreg Htime He. split.
  - intros k m'. rewrite lookup_insert_Some. intros [[<- <-]|[Hne Hk]].
    + split; try done; [rewrite R2; apply Ha|]. cbn. rewrite lookup_insert_eq. congruence.
    + destruct (Heach k m' Hk). split; try done. cbn. by rewrite lookup_insert_ne.
  - apply distinct_insert; [done|]. cbn. intros k' m' y Hk Hne [= <-] [= Heq]. rewrite <- R1 in Hne. by destruct (Hun k' m' Hk Hne).
  - apply distinct_insert; [done|]. cbn. intros k' m' y Hk Hne [= <-] [= Heq]. rewrite <- R1 in Hne. by destruct (Hun k' m' Hk Hne) as (_ & ? & _).
  - apply distinct_insert; [done|]. intros k' m' y Hk Hne Hy. rewrite <- R1 in Hne. destruct (Hun k' m' Hk Hne) as (_ & _ & Hx). by apply Hx.
Qed.

Lemma owner_agree now e re (l : list ClusterCertificateRolloutAudit) f n :
  raudit_loop now e (me_owners e) l = Ok re → me_owners e !! f = Some n → re_owners re !! f = Some n.
Proof. intros Hl Hf. apply (rv_owner _ _ _ (raudit_loop_evidence _ _ _ _ _ Hl)). by left. Qed.

Lemma audits_push_membership c e re ol m a :
  audits_ok c e re ol → maudit_ok (logical_time c) e (Z.of_nat (length (membership_audit c))) a →
  records m a → unclaimed (members c) m → validate_member_registration (member_registration m) = true →
  mb_joined_at m <= mb_updated_at m <= logical_time c → Z.of_nat (length (membership_audit c)) < 100000 →
  (∀ f n, f ∈ tls_of a → re_owners re !! f = Some n → n = ma_node_id a) →
  audits_ok (push_membership (ma_node_id a) m a c) (push_evidence e a) (extend_revidence (push_evidence e a) re) ol.
Proof.
  intros [A1 A2 A3 A4 (A51 & A52 & A53 & A54) (a0 & A6 & A6') A7 A8 A9 A10 A11 A12 A13 A14] Ha Hrec Hun Hreg Htime Hroom Hown.
  pose proof (maudit_loop_evidence _ _ _ A7) as He.
  split; cbn; try done.
  - rewrite length_app. cbn. rewrite (mk_index _ _ _ _ Ha). lia.
  - rewrite length_app. cbn. lia.
  - exists a0. split; [|done]. destruct (membership_audit c); [done|]. exact A6.
  - by apply maudit_loop_snoc.
  - by apply (members_push _ (membership_audit c) _ (Z.of_nat (length (membership_audit c)))).
  - intros n. rewrite !lookup_insert_is_Some. intros [->|[? ?]]; [by left|right]. auto.
  - unfold raudit_loop in *. eapply (raudit_extend _ e (push_evidence e a) _ _ re (me_owners (push_evidence e a))) in A11.
    + assert (me_owners e ∪ me_owners (push_evidence e a) = me_owners (push_evidence e a)) as Heq; [|cbn [re_owners] in A11; rewrite Heq in A11; exact A11].
      apply map_subseteq_union. apply map_subseteq_spec. intros f n Hf. cbn. apply claim_all_kept; [|done].
      intros g Hg. by apply Ha.
    + intros k v Hv. cbn. rewrite lookup_insert_ne; [done|]. intros <-.
      by rewrite (revision_fresh _ _ _ _ _ He Ha) in Hv.
    + intros f n n'. cbn. rewrite claim_all_lookup. intros [[Hf ->]|[Hf _]] Hr.
      * symmetry. by apply (Hown f).
      * apply (owner_agree _ _ _ _ _ _ A11) in Hf. congruence.
Qed.

Lemma audits_push_rollout c e re ol a candidates :
  audits_ok c e re ol → raudit_ok (logical_time c) e re (Z.of_nat (length (certificate_rollout_audit c))) a →
  rollout_transition re a = Some candidates → Z.of_nat (length (certificate_rollout_audit c)) < 100000 →
  audits_ok (push_rollout_audit a c) e (push_revidence re a candidates) ol.
Proof.
  intros [A1 A2 A3 A4 (A51 & A52 & A53 & A54) A6 A7 A8 A9 A10 A11 A12 A13 A14] Ha Ht Hroom. split; cbn; try done.
  - rewrite length_app. cbn. lia.
  - rewrite length_app. cbn. rewrite (rk_index _ _ _ _ _ Ha). lia.
  - by apply raudit_loop_snoc.
Qed.

Lemma audits_rollouts c e re ol ros : audits_ok c e re ol → audits_ok (set_rollouts ros c) e re ol.
Proof. intros []. by split. Qed.

Lemma audits_challenges c e re ol chs :
  audits_ok c e re ol → Z.of_nat (size chs) <= 4096 →
  (∀ a k ch, head (membership_audit c) = Some a → chs !! k = Some ch → check_challenge (ma_changed_at a) (logical_time c) (k, ch) = Ok tt) →
  audits_ok (set_challenges chs c) e re ol.
Proof.
  intros [A1 A2 A3 A4 (A51 & A52 & A53 & A54) (a & A6 & A6') A7 A8 A9 A10 A11 A12 A13 A14] Hs Hc. split; cbn; try done.
  exists a. split; [done|]. intros k ch. by apply Hc.
Qed.

Lemma live_challenges c e re chs : live_ok c e re → live_ok (set_challenges chs c) e re.
Proof. intros []. by split. Qed.

(** The head that an ownership leaves behind. *)
Definition own_head (o : ClusterAgentOwnership) : OwnershipHead := (ow_generation o, ow_owner o, ow_term o, ow_token o, ow_state o).

(** The ownership that an audit entry leaves behind. *)
Definition owns (o : ClusterAgentOwnership) (a : ClusterAgentOwnershipAudit) : Prop :=
  ow_agent_id o = oa_agent_id a ∧ ow_owner o = oa_owner a ∧ ow_term o = oa_term a ∧ ow_token o = oa_token a ∧
  ow_generation o = oa_generation a ∧ ow_updated_at o = oa_changed_at a.

Lemma audits_push_ownership c e re ol o a :
  audits_ok c e re ol → oaudit_ok (logical_time c) ol a (ow_state o) → owns o a →
  match ow_state o with OwnActive => ow_updated_at o < ow_expires_at o | OwnReleased => ow_expires_at o = ow_updated_at o end →
  Z.of_nat (length (ownership_audit c)) < 100000 →
  audits_ok (push_ownership o a c) e re (<[oa_agent_id a := own_head o]> ol).
Proof.
  intros [A1 A2 A3 A4 (A51 & A52 & A53 & A54) A6 A7 A8 A9 A10 A11 A12 A13 A14] Ha (O1 & O2 & O3 & O4 & O5 & O6) Hlease Hroom.
  split; cbn; try done.
  - rewrite length_app. cbn. lia.
  - pose proof (oaudit_loop_snoc _ _ _ _ _ A12 Ha) as Hl. unfold own_head. by rewrite O2, O3, O4, O5.
  - intros k o'. rewrite lookup_insert_Some. intros [[<- <-]|[Hne Hk]].
    + destruct Ha as [K1 K2 K3 K4 K5 K6 K7 K8 K9 K10]. split; rewrite ?O1, ?O2, ?O3, ?O4, ?O5; try done.
      * congruence.
      * rewrite lookup_insert_eq. unfold own_head. by rewrite O2, O3, O4, O5.
    + destruct (A13 k o' Hk). split; try done. by rewrite lookup_insert_ne.
  - intros k. rewrite !lookup_insert_is_Some. intros [->|[? ?]]; [by left|right]. auto.
Qed.

Lemma live_push_ownership c e re o a : live_ok c e re → live_ok (push_ownership o a c) e re.
Proof. intros []. by split. Qed.

(** ** Revisions of a known member *)

Lemma member_tls_owner c e re ol k m f :
  audits_ok c e re ol → members c !! k = Some m → mb_tls m = Some f →
  me_owners e !! f = Some k ∧ is_Some (me_first e !! f) ∧ valid_tls_fingerprint f = true.
Proof.
  intros Ha Hm Hf. pose proof (ms_each _ _ _ (ao_members _ _ _ _ Ha) k m Hm) as Hok.
  pose proof (maudit_loop_evidence _ _ _ (ao_mloop _ _ _ _ Ha)) as He.
  destruct (eo_latest _ _ _ He _ _ _ _ (mo_latest _ _ _ _ Hok)) as [_ (a & Hin & Hn & Hc)]. rewrite Hf in Hc. split_and!.
  - apply (eo_owner _ _ _ He). by exists a.
  - apply (eo_first _ _ _ He). by exists a.
  - pose proof (mo_registration _ _ _ _ Hok) as Hr. unfold validate_member_registration in Hr. cbn in Hr. rewrite Hf in Hr.
    destruct (parse_uuid _); [|done]. destruct (decode_32 _); [|done]. bool_hyps. done.
Qed.

Lemma registration_node m : validate_member_registration (member_registration m) = true → is_uuid (mb_node_id m) = true.
Proof. unfold validate_member_registration, is_uuid. cbn. by destruct (parse_uuid _). Qed.

Lemma revise_maudit_ok c e re ol k m state actor reason now :
  audits_ok c e re ol → members c !! k = Some m → mb_state m ≠ MemberRevoked → mb_generation m + 1 <= u64_max →
  validate_text actor = true → validate_reason reason = true → now <= logical_time c →
  maudit_ok (logical_time c) e (Z.of_nat (length (membership_audit c)))
    (revise_audit (membership_generation c + 1) m state actor reason now).
Proof.
  intros Ha Hm Hst Hg Hac Hre Hnow. pose proof (ms_each _ _ _ (ao_members _ _ _ _ Ha) k m Hm) as Hok.
  pose proof (mo_key _ _ _ _ Hok) as Hk. split; cbn; try done.
  - by rewrite (ao_generation _ _ _ _ Ha).
  - pose proof (eo_positive _ _ _ (maudit_loop_evidence _ _ _ (ao_mloop _ _ _ _ Ha)) _ _ _ _ (mo_latest _ _ _ _ Hok)). lia.
  - by apply registration_node, Hok.
  - unfold membership_transition. cbn. rewrite <- Hk, (mo_latest _ _ _ _ Hok).
    rewrite (bool_decide_eq_false_2 (mb_state m = MemberRevoked)) by done.
    rewrite !bool_decide_eq_true_2; try done; [|by apply checked_add64_Some]. cbn. by destruct (mb_tls m).
  - intros f Hf%elem_of_tls_of. cbn in Hf. assert (mb_tls m = Some f) as Hf' by tauto.
    destruct (member_tls_owner c e re ol k m f Ha Hm Hf') as (Ho & _ & Hv). split; [done|]. apply owned_by_spec. intros n Hn. congruence.
Qed.

Lemma extend_same e' re : (∀ f n, me_owners e' !! f = Some n → re_owners re !! f = Some n) → extend_revidence e' re = re.
Proof.
  intros Hsub. unfold extend_revidence. destruct re as [o cs acts latest]. cbn in *. f_equal. apply map_eq. intros f.
  apply option_eq. intros n. rewrite lookup_union_Some_raw. naive_solver.
Qed.

Lemma revise_unclaimed now e (ms : gmap string ClusterMember) k m state reason t :
  members_ok now e ms → ms !! k = Some m → unclaimed ms (revise m state reason t).
Proof.
  intros Hm Hk k' m' Hk' Hne. cbn in *. rewrite <- (mo_key _ _ _ _ (ms_each _ _ _ Hm k m Hk)) in Hne. split_and!.
  - intros Hx. apply Hne. apply (ms_fingerprints _ _ _ Hm k' k m' m (mb_fingerprint m)); [done|done|cbn; by rewrite Hx|done].
  - intros Hx. apply Hne. apply (ms_endpoints _ _ _ Hm k' k m' m (mb_endpoint m)); [done|done|cbn; by rewrite Hx|done].
  - intros f Hf Hx. apply Hne. by apply (ms_tls _ _ _ Hm k' k m' m f).
Qed.

(** A revision that keeps the TLS binding keeps the audits valid and adds one revision to the evidence. *)
Lemma audits_revise c e re ol k m state actor reason :
  audits_ok c e re ol → members c !! k = Some m → mb_state m ≠ MemberRevoked → mb_generation m + 1 <= u64_max →
  validate_text actor = true → validate_reason reason = true → Z.of_nat (length (membership_audit c)) < 100000 →
  mb_updated_at m <= logical_time c →
  let a := revise_audit (membership_generation c + 1) m state actor reason (logical_time c) in
  let e' := push_evidence e a in
  audits_ok (push_membership k (revise m state reason (logical_time c)) a c) e' re ol ∧
  me_first e' = me_first e ∧
  me_revisions e' !! (k, mb_generation m + 1) = Some (state, mb_tls m, logical_time c).
Proof.
  intros Ha Hm Hst Hg Hac Hre Hroom Hup a e'.
  pose proof (ms_each _ _ _ (ao_members _ _ _ _ Ha) k m Hm) as Hok. pose proof (mo_key _ _ _ _ Hok) as Hk.
  pose proof (mo_times _ _ _ _ Hok) as Htimes.
  assert (Hown : ∀ f n, f ∈ tls_of a → re_owners re !! f = Some n → n = ma_node_id a).
  { intros f n Hf%elem_of_tls_of Hn. assert (mb_tls m = Some f) as Hf' by (cbn in Hf; tauto).
    destruct (member_tls_owner c e re ol k m f Ha Hm Hf') as (Ho & _).
    apply (owner_agree _ _ _ _ _ _ (ao_rloop _ _ _ _ Ha)) in Ho. cbn. congruence. }
  pose proof (revise_maudit_ok c e re ol k m state actor reason (logical_time c) Ha Hm Hst Hg Hac Hre) as Hma.
  assert (Hext : extend_revidence e' re = re).
  { apply extend_same. intros f n. cbn. rewrite claim_all_lookup. intros [[Hf ->]|[Hf _]].
    - apply elem_of_tls_of in Hf. assert (mb_tls m = Some f) as Hf' by (cbn in Hf; tauto).
      destruct (member_tls_owner c e re ol k m f Ha Hm Hf') as (Ho & _). rewrite <- Hk.
      by apply (owner_agree _ _ _ _ _ _ (ao_rloop _ _ _ _ Ha)).
    - by apply (owner_agree _ _ _ _ _ _ (ao_rloop _ _ _ _ Ha)). }
  split_and!.
  - rewrite <- Hext. rewrite Hk. apply (audits_push_membership c e re ol _ a); try done.
    + by apply Hma.
    + by eapply revise_unclaimed; [apply Ha|].
    + by apply Hok.
    + cbn. lia.
  - cbn. destruct (mb_tls m) as [f|] eqn:Hf; [|done].
    destruct (member_tls_owner c e re ol k m f Ha Hm Hf) as (_ & [v ->] & _). done.
  - cbn. rewrite <- Hk. by rewrite lookup_insert_eq.
Qed.

(** The members that other nodes' rollouts refer to are not touched. *)
Lemma rollout_ok_other now ms re re' k k' m ro :
  rollout_ok now ms re k' ro → k' ≠ k → re_latest re' !! k' = re_latest re !! k' → rollout_ok now (<[k := m]> ms) re' k' ro.
Proof.
  intros [H1 H2 H3 H4 H5 H6 H7 H8 H9 H10 H11 H12] Hne Hl. split; rewrite ?lookup_insert_ne by done; try done. congruence.
Qed.

(** ** Finishing a rollout *)

Definition finish_audit c (k : string) m (ro : ClusterCertificateRollout) (actor reason : string) : ClusterCertificateRolloutAudit :=
  mkRAudit (tls_trust_generation c + 1) k (mb_generation m + 1) (Some (ro_phase ro)) None (ro_previous ro) (ro_next ro)
    actor reason (logical_time c).

Lemma rollout_member_tls now ms re k ro m :
  rollout_ok now ms re k ro → ms !! k = Some m →
  mb_tls m = Some (match ro_phase ro with Prepared => ro_previous ro | Activated => ro_next ro end).
Proof.
  intros Hro Hm. pose proof (rl_retirement _ _ _ _ _ Hro) as Hr. unfold retirement_is_valid in Hr. rewrite Hm in Hr. cbn in Hr.
  destruct (ro_phase ro); bool_hyps; done.
Qed.

Lemma rollout_owners c e re ol k ro f :
  audits_ok c e re ol → rollout_ok (logical_time c) (members c) re k ro → f ∈ [ro_previous ro; ro_next ro] →
  re_owners re !! f = Some k.
Proof.
  intros Ha Hro Hf. pose proof (raudit_loop_evidence _ _ _ _ _ (ao_rloop _ _ _ _ Ha)) as Hev.
  by apply (rv_head _ _ _ Hev _ _ (rl_latest _ _ _ _ _ Hro)).
Qed.

Lemma finish_transition re k ro a :
  re_latest re !! k = Some (rollout_head ro) → ra_node_id a = k → ra_previous_phase a = Some (ro_phase ro) →
  ra_current_phase a = None → ra_previous a = ro_previous ro → ra_next a = ro_next ro →
  rollout_transition re a = Some (re_candidates re).
Proof.
  intros Hl <- H1 H2 H3 H4. unfold rollout_transition. rewrite Hl. cbn. rewrite H1, H2, H3, H4.
  destruct (ro_phase ro); cbn; repeat case_bool_decide; done.
Qed.

Lemma finish_audit_ok c e re ol k m ro actor reason state tls :
  audits_ok c e re ol → re_latest re !! k = Some (rollout_head ro) → is_uuid k = true → 1 <= mb_generation m →
  validate_text actor = true → validate_reason reason = true → valid_tls_fingerprint (ro_previous ro) = true →
  valid_tls_fingerprint (ro_next ro) = true → ro_previous ro ≠ ro_next ro →
  me_revisions e !! (k, mb_generation m + 1) = Some (state, tls, logical_time c) →
  state ≠ MemberLeft → tls = Some (match ro_phase ro with Prepared => ro_previous ro | Activated => ro_next ro end) →
  raudit_ok (logical_time c) e re (Z.of_nat (length (certificate_rollout_audit c))) (finish_audit c k m ro actor reason).
Proof.
  intros Ha Hl Hk Hg Hac Hre Hp Hn Hd Hrev Hst Htls. split; cbn; try done.
  - by rewrite (ao_trust _ _ _ _ Ha).
  - lia.
  - unfold revision_matches. cbn. rewrite Hrev, Htls.
    unfold expected_member_tls. cbn. destruct state, (ro_phase ro); cbn; rewrite ?Z.eqb_refl; repeat case_bool_decide; done.
  - intros f Hf. apply owned_by_spec. intros n Hn'.
    pose proof (raudit_loop_evidence _ _ _ _ _ (ao_rloop _ _ _ _ Ha)) as Hev.
    rewrite (proj1 (proj2 (rv_head _ _ _ Hev _ _ Hl)) f) in Hn' by exact Hf. by injection Hn'.
Qed.

(** Ends the rollout of [k], whose member is revised to [state] in the same step. *)
Lemma finish_control_ok c e re ol k m state ro actor reason :
  audits_ok c e re ol → live_ok c e re → members c !! k = Some m → mb_state m ≠ MemberRevoked → state ≠ MemberLeft →
  mb_generation m + 1 <= u64_max → validate_text actor = true → validate_reason reason = true →
  Z.of_nat (length (membership_audit c)) < 100000 → Z.of_nat (length (certificate_rollout_audit c)) < 100000 →
  certificate_rollouts c !! k = Some ro →
  control_ok (set_rollouts (delete k (certificate_rollouts c))
    (push_rollout_audit (finish_audit c k m ro actor reason)
      (push_membership k (revise m state reason (logical_time c))
         (revise_audit (membership_generation c + 1) m state actor reason (logical_time c)) c))).
Proof.
  intros Ha Hl Hm Hst Hleft Hg Hac Hre Hroom Hroom2 Hro.
  pose proof (ms_each _ _ _ (ao_members _ _ _ _ Ha) k m Hm) as Hok. pose proof (mo_times _ _ _ _ Hok) as Htimes.
  pose proof (lv_rollouts _ _ _ Hl k ro Hro) as Hrok.
  destruct (audits_revise c e re ol k m state actor reason) as (Ha1 & Hfirst & Hrev); try done; [lia|].
  set (e' := push_evidence e _) in *. set (c1 := push_membership _ _ _ c) in *.
  pose proof (eo_positive _ _ _ (maudit_loop_evidence _ _ _ (ao_mloop _ _ _ _ Ha)) _ _ _ _ (mo_latest _ _ _ _ Hok)) as Hpos.
  assert (Hra : raudit_ok (logical_time c1) e' re (Z.of_nat (length (certificate_rollout_audit c1))) (finish_audit c k m ro actor reason)).
  { apply (finish_audit_ok c1 e' re ol k m ro actor reason state (mb_tls m)); try done; try apply Hrok.
    - rewrite (mo_key _ _ _ _ Hok). by apply registration_node, Hok.
    - by apply (rollout_member_tls _ _ _ _ _ _ Hrok). }
  assert (Ht : rollout_transition re (finish_audit c k m ro actor reason) = Some (re_candidates re)).
  { apply (finish_transition re k ro); try done. apply Hrok. }
  exists e', (push_revidence re (finish_audit c k m ro actor reason) (re_candidates re)), ol. split.
  - apply audits_rollouts. by apply audits_push_rollout.
  - split.
    + intros f Hf. rewrite Hfirst. cbn. by apply Hl.
    + cbn. intros k' ro' [Hne Hk']%lookup_delete_Some. eapply rollout_ok_other; [by apply Hl|done|]. cbn. by rewrite lookup_insert_ne.
    + cbn. intros k' h. rewrite lookup_insert_Some. intros [[<- <-]|[Hne Hh]]; cbn.
      * rewrite lookup_delete_eq. split; by intros [? [=]].
      * rewrite lookup_delete_ne by done. by apply Hl.
Qed.

(** Revises a member that has no rollout. *)
Lemma revise_control_ok c e re ol k m state actor reason :
  audits_ok c e re ol → live_ok c e re → members c !! k = Some m → mb_state m ≠ MemberRevoked →
  mb_generation m + 1 <= u64_max → validate_text actor = true → validate_reason reason = true →
  Z.of_nat (length (membership_audit c)) < 100000 → certificate_rollouts c !! k = None →
  control_ok (push_membership k (revise m state reason (logical_time c))
    (revise_audit (membership_generation c + 1) m state actor reason (logical_time c)) c).
Proof.
  intros Ha Hl Hm Hst Hg Hac Hre Hroom Hro.
  pose proof (mo_times _ _ _ _ (ms_each _ _ _ (ao_members _ _ _ _ Ha) k m Hm)) as Htimes.
  destruct (audits_revise c e re ol k m state actor reason) as (Ha1 & Hfirst & Hrev); try done; [lia|].
  eexists _, re, ol. split; [exact Ha1|]. split.
  - intros f Hf. rewrite Hfirst. by apply Hl.
  - cbn. intros k' ro' Hk'. eapply rollout_ok_other; [by apply Hl| |done]. congruence.
  - by apply Hl.
Qed.

Lemma apply_finish_control_ok c node expected finish actor reason proposed c' m' :
  control_ok c → apply_finish_member_certificate_rollout c node expected finish actor reason proposed = Ok (c', m') → control_ok c'.
Proof.
  intros (e & re & ol & Ha & Hl) Hx. unfold apply_finish_member_certificate_rollout in Hx. run_inv. bool_hyps.
  match goal with H : members c !! node = Some ?m |- _ =>
    pose proof (mo_key _ _ _ _ (ms_each _ _ _ (ao_members _ _ _ _ Ha) node m H)); subst node end.
  match goal with H : members c !! _ = Some ?m, H' : certificate_rollouts c !! _ = Some ?ro, Ht : logical_time c < ?t |- _ =>
    apply (finish_control_ok (set_time t c) e re ol (mb_node_id m) m (mb_state m) ro actor reason) end;
    try done; [apply audits_time; [lia|done]|apply live_time; [lia|done]|congruence|congruence].
Qed.

(** ** Ownerships *)

(** The term of the log entry is a real one and no earlier than those of the ownerships. *)
Definition term_ok c (term : Z) : Prop := term ≠ 0 ∧ ∀ k o, ownerships c !! k = Some o → ow_term o <= term.

Lemma ownership_known c e re ol k o :
  audits_ok c e re ol → ownerships c !! k = Some o →
  k = ow_agent_id o ∧ ol !! k = Some (own_head o) ∧ 1 <= ow_generation o ∧ 1 <= ow_token o ∧ is_uuid (ow_owner o) = true.
Proof.
  intros Ha Ho. pose proof (ao_ownerships _ _ _ _ Ha k o Ho) as Hok. pose proof (oo_latest _ _ _ _ Hok) as Hl.
  destruct (oaudit_loop_positive _ _ _ _ _ _ _ _ _ (ao_oloop _ _ _ _ Ha) Hl). split_and!; try done; [apply Hok|].
  pose proof (oo_identity _ _ _ _ Hok) as Hi. unfold validate_ownership_identity in Hi. unfold is_uuid.
  destruct (parse_uuid (ow_agent_id o)), (parse_uuid (ow_owner o)); done.
Qed.

(** A renewal or a release of the lease [o]. *)
Lemma follow_audit_ok c e re ol k o term operation actor reason state :
  audits_ok c e re ol → ownerships c !! k = Some o → ow_state o = OwnActive → term_ok c term →
  ow_generation o + 1 <= u64_max → validate_text actor = true → validate_reason reason = true →
  operation = "renew" ∧ state = OwnActive ∨ operation = "release" ∧ state = OwnReleased →
  oaudit_ok (logical_time c) ol
    (mkOAudit k (ow_generation o + 1) (Some (ow_owner o)) (ow_owner o) term (ow_token o) operation actor reason (logical_time c)) state.
Proof.
  intros Ha Ho Hst [Ht0 Ht] Hg Hac Hre Hop. destruct (ownership_known c e re ol k o Ha Ho) as (Hk & Hl & Hg1 & Ht1 & Hu).
  split; cbn; try done; try lia.
  - rewrite Hk. apply (oo_identity _ _ _ _ (ao_ownerships _ _ _ _ Ha k o Ho)).
  - intros n [= <-]. done.
  - destruct Hop as [[-> ->]|[-> ->]]; done.
  - unfold ownership_transition. cbn. rewrite Hl. unfold own_head. cbn. rewrite Hst.
    rewrite (bool_decide_eq_true_2 (checked_add64 _ _ = _)) by (by apply checked_add64_Some).
    rewrite (bool_decide_eq_true_2 (Some (ow_owner o) = _)) by done. specialize (Ht k o Ho).
    rewrite (proj2 (Z.leb_le _ _) Ht). cbn [andb].
    rewrite (bool_decide_eq_true_2 (OwnActive = _)), (bool_decide_eq_true_2 (ow_owner o = _)), Z.eqb_refl by done.
    destruct Hop as [[-> _]|[-> _]]; done.
Qed.

Lemma expiry_Ok now ttl t : in_window MIN_OWNERSHIP_LEASE_TTL_SECONDS MAX_OWNERSHIP_LEASE_TTL_SECONDS ttl = true →
  ownership_expiry now ttl = Some t → now < t.
Proof.
  unfold in_window, ownership_expiry, add_seconds, add_nanos, MIN_OWNERSHIP_LEASE_TTL_SECONDS. intros Hw.
  case_match; [|done]. case_match; [|done]. intros [= <-]. lia.
Qed.

Lemma holds_lease_spec o owner token : holds_lease o owner token = true ↔ ow_state o = OwnActive ∧ ow_owner o = owner ∧ ow_token o = token.
Proof. unfold holds_lease. rewrite !andb_true_iff, !bool_decide_eq_true, Z.eqb_eq. tauto. Qed.

Lemma apply_renew_control_ok c agent owner token ttl actor reason proposed term c' o' :
  control_ok c → term_ok c term →
  apply_renew_ownership c agent owner token ttl actor reason proposed term = Ok (c', o') → control_ok c'.
Proof.
  intros (e & re & ol & Ha & Hl) Hterm Hx. unfold apply_renew_ownership, validate_ownership_request, require_ownership_audit_capacity in Hx.
  run_inv. bool_hyps. match goal with H : holds_lease ?o _ _ = true |- _ => apply holds_lease_spec in H as (Hst & <- & <-); rename o into o1 end.
  match goal with H : ownerships c !! agent = Some _, Ht : logical_time c < ?t |- _ => rename H into Ho; set (now := t) in * end.
  destruct (ownership_known c e re ol agent o1 Ha Ho) as (Hk & _). subst agent. eexists e, re, _. split.
  - apply (audits_push_ownership (set_time now c) e re ol); [apply audits_time; [lia|done]| | | |cbn; lia]; cbn; rewrite ?Hst.
    + apply (follow_audit_ok (set_time now c) e re ol (ow_agent_id o1) o1); try done; [apply audits_time; [lia|done]|by left].
    + done.
    + by eapply expiry_Ok.
  - apply live_push_ownership, live_time; [lia|done].
Qed.

Lemma apply_release_control_ok c agent owner token actor reason proposed term c' o' :
  control_ok c → term_ok c term →
  apply_release_ownership c agent owner token actor reason proposed term = Ok (c', o') → control_ok c'.
Proof.
  intros (e & re & ol & Ha & Hl) Hterm Hx. unfold apply_release_ownership, require_ownership_audit_capacity in Hx.
  run_inv. bool_hyps. match goal with H : holds_lease ?o _ _ = true |- _ => apply holds_lease_spec in H as (Hst & <- & <-); rename o into o1 end.
  match goal with H : ownerships c !! agent = Some _, Ht : logical_time c < ?t |- _ => rename H into Ho; set (now := t) in * end.
  destruct (ownership_known c e re ol agent o1 Ha Ho) as (Hk & _). subst agent. eexists e, re, _. split.
  - apply (audits_push_ownership (set_time now c) e re ol); [apply audits_time; [lia|done]| |done|done|cbn; lia].
    apply (follow_audit_ok (set_time now c) e re ol (ow_agent_id o1) o1); try done; [apply audits_time; [lia|done]|by right].
  - apply live_push_ownership, live_time; [lia|done].
Qed.

Lemma identity_uuid agent owner : validate_ownership_identity agent owner = true → is_uuid owner = true.
Proof. unfold validate_ownership_identity, is_uuid. by destruct (parse_uuid agent), (parse_uuid owner). Qed.

Lemma first_claim_ok c e re ol agent owner term actor reason :
  audits_ok c e re ol → ownerships c !! agent = None → term ≠ 0 → validate_ownership_identity agent owner = true →
  validate_text actor = true → validate_reason reason = true →
  oaudit_ok (logical_time c) ol (mkOAudit agent 1 None owner term 1 "claim" actor reason (logical_time c)) OwnActive.
Proof.
  intros Ha Ho Ht Hi Hac Hre. split; cbn; try done. unfold ownership_transition. cbn.
  destruct (ol !! agent) eqn:Hl; [|done]. destruct (ao_owned _ _ _ _ Ha agent) as [o Hx]; [by eexists|]. congruence.
Qed.

Lemma transfer_ok c e re ol agent o owner term actor reason :
  audits_ok c e re ol → ownerships c !! agent = Some o → term_ok c term → validate_ownership_identity agent owner = true →
  ow_token o + 1 <= u64_max → ow_generation o + 1 <= u64_max → validate_text actor = true → validate_reason reason = true →
  oaudit_ok (logical_time c) ol
    (mkOAudit agent (ow_generation o + 1) (Some (ow_owner o)) owner term (ow_token o + 1) "transfer" actor reason (logical_time c)) OwnActive.
Proof.
  intros Ha Ho [Ht0 Ht] Hi Htok Hgen Hac Hre. destruct (ownership_known c e re ol agent o Ha Ho) as (Hk & Hl & Hg1 & Ht1 & Hu).
  split; cbn; try done; try lia.
  - intros n [= <-]. done.
  - unfold ownership_transition. cbn. rewrite Hl. unfold own_head. cbn.
    rewrite !(bool_decide_eq_true_2 (checked_add64 _ _ = _)) by (by apply checked_add64_Some).
    rewrite (bool_decide_eq_true_2 (Some (ow_owner o) = _)) by done. specialize (Ht agent o Ho).
    rewrite (proj2 (Z.leb_le _ _) Ht). done.
Qed.

Lemma apply_claim_control_ok c agent owner ttl expected actor reason proposed term c' o' :
  control_ok c → term_ok c term →
  apply_claim_ownership c agent owner ttl expected actor reason proposed term = Ok (c', o') → control_ok c'.
Proof.
  intros (e & re & ol & Ha & Hl) Hterm Hx. unfold apply_claim_ownership, validate_ownership_request, require_ownership_audit_capacity in Hx.
  run_inv. bool_hyps.
  match goal with H : match ownerships (set_time ?t c) !! agent with _ => _ end = Ok _ |- _ => rename H into Hprev; set (now := t) in *; cbn in Hprev end.
  assert (Hat : audits_ok (set_time now c) e re ol) by (apply audits_time; [lia|done]).
  assert (Hlt : live_ok (set_time now c) e re) by (apply live_time; [lia|done]).
  destruct (ownerships c !! agent) as [o0|] eqn:Ho; run_inv; eexists e, re, _; (split; [|by apply live_push_ownership]);
    (apply (audits_push_ownership (set_time now c) e re ol); [done| |done|cbn; by eapply expiry_Ok|cbn; lia]).
  - by apply (transfer_ok (set_time now c) e re ol agent o0).
  - apply (first_claim_ok (set_time now c) e re ol); try done. apply Hterm.
Qed.

Definition with_ownerships (os : gmap string ClusterAgentOwnership) (l : list ClusterAgentOwnershipAudit) c : ReplicatedControlPlaneState :=
  mkControl (genesis c) (cluster_id c) (membership_generation c) (members c) (membership_audit c)
    (tls_trust_generation c) (certificate_rollouts c) (certificate_rollout_audit c) (join_challenges c) os l (logical_time c).

Lemma with_ownerships_same c : with_ownerships (ownerships c) (ownership_audit c) c = c.
Proof. by destruct c. Qed.

Lemma live_ownerships c e re os l : live_ok c e re → live_ok (with_ownerships os l c) e re.
Proof. intros []. by split. Qed.

(** The releases of a revocation. *)
Lemma release_loop_ok node actor reason term l c e re ol c' :
  audits_ok c e re ol → term_ok c term → validate_text actor = true → validate_reason reason = true →
  NoDup (ow_agent_id <$> l) → (∀ o, o ∈ l → ownerships c !! ow_agent_id o = Some o ∧ ow_state o = OwnActive ∧ ow_owner o = node) →
  Z.of_nat (length (ownership_audit c)) + Z.of_nat (length l) <= 100000 →
  try_fold (release_owned node actor reason term (logical_time c)) l c = Ok c' →
  (∃ ol', audits_ok c' e re ol') ∧ c' = with_ownerships (ownerships c') (ownership_audit c') c.
Proof.
  intros Ha Ht Hac Hre. revert c ol Ha Ht. induction l as [|o l IH]; intros c ol Ha Ht Hnd Hl Hroom Hx; cbn [try_fold] in Hx.
  { injection Hx as <-. split; [by exists ol|by rewrite with_ownerships_same]. }
  apply bind_Ok in Hx as (c1 & Hc1 & Hx). unfold release_owned in Hc1. run_inv.
  match goal with H : try_fold _ l (push_ownership ?o' ?a c) = Ok _ |- _ => set (c1 := push_ownership o' a c) in *; set (rel := o') in *; set (au := a) in * end.
  destruct (Hl o) as (Ho & Hst & Hown); [by left|]. cbn in Hnd. apply NoDup_cons in Hnd as [Hni Hnd]. cbn [length] in Hroom.
  assert (Ha1 : audits_ok c1 e re (<[ow_agent_id o := own_head rel]> ol)).
  { apply (audits_push_ownership c e re ol rel au); [done| |done|done|lia].
    unfold au. rewrite <- Hown. by apply (follow_audit_ok c e re ol (ow_agent_id o) o); try done; right. }
  destruct (IH c1 (<[ow_agent_id o := own_head rel]> ol)) as [Hok Heq]; try done.
  - destruct Ht as [Ht0 Ht]. split; [done|]. intros k o2. cbn. rewrite lookup_insert_Some. intros [[_ <-]|[_ Hk]]; [done|by eapply Ht].
  - intros o2 Ho2. destruct (Hl o2) as (? & ? & ?); [by right|]. split; [|done]. cbn. rewrite lookup_insert_ne; [done|].
    intros Heq. apply Hni. rewrite Heq. by apply list_elem_of_fmap_2.
  - cbn. rewrite length_app. cbn. lia.
Qed.

Lemma elem_of_values {A} (ms : gmap string A) x : x ∈ (entries ms).*2 ↔ ∃ k, ms !! k = Some x.
Proof.
  rewrite list_elem_of_fmap. split.
  - intros ([k y] & -> & Hy%elem_of_entries). by exists k.
  - intros [k Hk]. exists (k, x). split; [done|by apply elem_of_entries].
Qed.

(** A map whose keys are a field of its values lists each value once. *)
Lemma values_NoDup {A} (key : A → string) (ms : gmap string A) :
  (∀ k x, ms !! k = Some x → k = key x) → NoDup (key <$> (entries ms).*2).
Proof.
  intros Hk. assert (key <$> (entries ms).*2 = (entries ms).*1) as ->.
  { rewrite <- list_fmap_compose. apply list_fmap_ext. intros i [k x] Hx%list_elem_of_lookup_2%elem_of_entries. cbn. symmetry. by apply Hk. }
  rewrite entries_perm. apply NoDup_fst_map_to_list.
Qed.

Lemma release_all_ok c e re ol node actor reason term f c' :
  audits_ok c e re ol → live_ok c e re → term_ok c term → validate_text actor = true → validate_reason reason = true →
  let active := retain (λ o, bool_decide (ow_owner o = node) && lease_live f o) (entries (ownerships c)).*2 in
  Z.of_nat (length (ownership_audit c)) + Z.of_nat (length active) <= 100000 →
  try_fold (release_owned node actor reason term (logical_time c)) active c = Ok c' →
  ∃ ol', audits_ok c' e re ol' ∧ live_ok c' e re ∧ c' = with_ownerships (ownerships c') (ownership_audit c') c.
Proof.
  intros Ha Hl Ht Hac Hre active Hroom Hx.
  assert (Hkey : ∀ k o, ownerships c !! k = Some o → k = ow_agent_id o) by (intros k o Ho; by apply (ao_ownerships _ _ _ _ Ha)).
  destruct (release_loop_ok node actor reason term active c e re ol c') as [[ol' Ha'] Heq]; try done.
  - eapply sublist_NoDup; [by apply (values_NoDup ow_agent_id), Hkey|]. apply fmap_sublist, retain_sublist.
  - intros o [[k Ho]%elem_of_values Hf]%elem_of_retain. unfold lease_live in Hf. bool_hyps. by rewrite <- (Hkey k o Ho).
  - exists ol'. split_and!; [done| |done]. rewrite Heq. by apply live_ownerships.
Qed.

Lemma apply_set_state_control_ok c node state expected actor reason proposed term c' m' :
  control_ok c → term_ok c term →
  apply_set_member_state c node state expected actor reason proposed term = Ok (c', m') → control_ok c'.
Proof.
  intros (e & re & ol & Ha & Hl) Hterm Hx. unfold apply_set_member_state, require_membership_audit_capacity in Hx. run_inv. bool_hyps.
  match goal with H : (if bool_decide (state = MemberRevoked) then _ else Ok (set_time ?t c)) = Ok ?x |- _ =>
    rename H into Hrel; set (now := t) in *; rename x into c1 end.
  match goal with H : members c !! node = Some ?m |- _ => rename H into Hm; rename m into m1 end.
  assert (Hat : audits_ok (set_time now c) e re ol) by (apply audits_time; [lia|done]).
  assert (Hlt : live_ok (set_time now c) e re) by (apply live_time; [lia|done]).
  pose proof (mo_key _ _ _ _ (ms_each _ _ _ (ao_members _ _ _ _ Ha) node m1 Hm)) as ->.
  assert (∃ ol', audits_ok c1 e re ol' ∧ live_ok c1 e re ∧ c1 = with_ownerships (ownerships c1) (ownership_audit c1) (set_time now c)) as (ol' & Ha1 & Hl1 & Heq).
  { destruct (bool_decide (state = MemberRevoked)); run_inv.
    - bool_hyps. eapply (release_all_ok (set_time now c) e re ol (mb_node_id m1) actor reason term now); try done; cbn in *; lia.
    - exists ol. split_and!; [done|done|]. by rewrite with_ownerships_same. }
  assert (logical_time c1 = now ∧ members c1 = members c ∧ certificate_rollouts c1 = certificate_rollouts c ∧ membership_audit c1 = membership_audit c)
    as (Ht1 & Hm1 & Hro1 & Hau1) by (rewrite Heq; done).
  clear Hrel Heq. destruct (certificate_rollouts c !! mb_node_id m1) as [ro|] eqn:Hro.
  - rewrite <- Ht1 in *. run_inv. apply (finish_control_ok c1 e re ol' (mb_node_id m1) m1 state ro actor reason); try done; try congruence; cbn in *; try lia.
    + intros ->. done.
    + rewrite Hau1. lia.
  - run_inv. rewrite <- Ht1. apply (revise_control_ok c1 e re ol' (mb_node_id m1) m1 state actor reason); try done; try congruence.
    rewrite Hau1. lia.
Qed.

(** ** Challenges *)

(** The registration came with a challenge that was issued, has not been used and has not expired. *)
Definition challenge_open c (hash : string) (now : Z) : Prop :=
  ∃ ch, join_challenges c !! hash = Some ch ∧ ch_consumed_at ch = None ∧ now < ch_expires_at ch.

Lemma validate_challenged_Ok c r challenge signature proposed c' now hash :
  validate_challenged_registration c r challenge signature proposed = Ok (c', now, hash) →
  c' = set_time now c ∧ logical_time c < now ∧ now = Z.max proposed (logical_time c + 1000) ∧
  validate_member_registration r = true ∧ challenge_open c hash now.
Proof.
  unfold validate_challenged_registration, advance_authority_time, add_nanos. intros Hx. res_inv. bool_hyps.
  match goal with H : (if _ <=? datetime_max then _ else _) = Some _ |- _ => revert H end. case_match; [|done]. intros [= <-].
  split_and!; try done; [lia|]. eexists. split_and!; try done. lia.
Qed.

Lemma consume_control_ok c hash : control_ok c → challenge_open c hash (logical_time c) → control_ok (consume_join_challenge c hash (logical_time c)).
Proof.
  intros (e & re & ol & Ha & Hl) (ch & Hch & Hc & Hexp). exists e, re, ol. split; [|by apply live_challenges].
  destruct (ao_challenges _ _ _ _ Ha) as (a & Hhd & Hall). apply audits_challenges; [done| |].
  - pose proof (ao_room _ _ _ _ Ha) as (Hr & _). rewrite <- (size_dom (D := gset string)) in *. by rewrite dom_alter_L.
  - intros a' k ch' Ha'. assert (a' = a) as -> by congruence. rewrite lookup_alter_Some. intros [(-> & ch0 & Hk & ->)|[_ Hk]]; [|by apply Hall].
    assert (ch0 = ch) as -> by congruence. specialize (Hall k ch Hk). apply check_challenge_Ok in Hall as (b & ? & ? & ? & _).
    apply check_challenge_Ok. exists b. split_and!; try done. cbn. intros t [= <-]. lia.
Qed.

Lemma apply_issue_control_ok c challenge ttl proposed c' ch : control_ok c → issue_join_challenge c challenge ttl proposed = Ok (c', ch) → control_ok c'.
Proof.
  intros (e & re & ol & Ha & Hl) Hx. unfold issue_join_challenge in Hx. run_inv. bool_hyps.
  match goal with H : context [set_time ?t c] |- _ => set (now := t) in * end.
  assert (Hat : audits_ok (set_time now c) e re ol) by (apply audits_time; [lia|done]).
  exists e, re, ol. split; [|by apply live_challenges, live_time; [lia|]].
  destruct (ao_challenges _ _ _ _ Hat) as (a & Hhd & Hall). apply audits_challenges; [done| |].
  - rewrite map_size_insert_None by done. cbn in *. lia.
  - intros a' k ch' Ha'. assert (a' = a) as -> by congruence. rewrite lookup_insert_Some. intros [[<- <-]|[_ Hk]].
    + apply check_challenge_Ok. eexists. split_and!; try done. cbn.
      pose proof (eo_time _ _ _ (maudit_loop_evidence _ _ _ (ao_mloop _ _ _ _ Hat)) a) as Ht. cbn in Ht.
      specialize (Ht ltac:(by apply head_Some_elem_of)).
      match goal with H : in_window _ _ _ = true, H' : add_seconds _ _ = Some _ |- _ => revert H H' end.
      unfold in_window, add_seconds, add_nanos, MIN_JOIN_CHALLENGE_TTL_SECONDS. case_match; [|done]. intros ? [= <-]. lia.
    + apply Hall. by apply map_lookup_filter_Some in Hk as [? _].
Qed.

End apply.
