(* ===== verification/AuthorityJoin.v ===== *)
(** * The replicated cluster authority: its operations keep the state valid, 2

    Prepared rollouts, registrations with the activation of a rollout, and the genesis. *)

From S2P Require Import Prelude Authority AuthorityCheck AuthorityToy AuthorityValid AuthorityApply.

#[local] Open Scope Z_scope.

#[local] Arguments claim_all : simpl never.

Section join.
Context `{ClusterExt}.
Implicit Types (c : ReplicatedControlPlaneState) (e : MembershipEvidence) (re : RolloutEvidence) (m : ClusterMember).

Abbreviation OwnershipHead := (Z * string * Z * Z * ClusterOwnershipState)%type (only parsing).
Implicit Type ol : gmap string OwnershipHead.

(** ** Preparing a rollout *)

Lemma existsb_false {A} (f : A → bool) (l : list A) : existsb f l = false ↔ ∀ x, x ∈ l → f x = false.
Proof.
  rewrite <- not_true_iff_false, existsb_exists. split.
  - intros Hn x Hx. apply not_true_iff_false. intros Hf. apply Hn. exists x. by rewrite <- list_elem_of_In.
  - intros Hn (x & Hx%list_elem_of_In & Hf). by rewrite (Hn x Hx) in Hf.
Qed.

(** No entry of the audits names the fingerprint. *)
Lemma unmentioned c e re ol f :
  audits_ok c e re ol → certificate_fingerprint_was_previously_authorized c f = false →
  re_owners re !! f = None ∧ (f ∉ re_candidates re) ∧ me_first e !! f = None ∧ re_activations re !! f = None.
Proof.
  intros Ha Hx. unfold certificate_fingerprint_was_previously_authorized in Hx. bool_hyps.
  rewrite !existsb_false in *.
  pose proof (maudit_loop_evidence _ _ _ (ao_mloop _ _ _ _ Ha)) as He. pose proof (raudit_loop_evidence _ _ _ _ _ (ao_rloop _ _ _ _ Ha)) as Hr.
  match goal with H1 : ∀ a, a ∈ membership_audit c → _, H2 : ∀ a, a ∈ certificate_rollout_audit c → _ |- _ => rename H1 into Hm; rename H2 into Hra end.
  assert (Hm' : ∀ a, a ∈ membership_audit c → ma_current_tls a ≠ Some f) by (intros a Hin; specialize (Hm a Hin); bool_hyps; done).
  assert (Hr' : ∀ a, a ∈ certificate_rollout_audit c → f ∉ [ra_previous a; ra_next a]).
  { intros a Hin. specialize (Hra a Hin). bool_hyps. set_solver. }
  assert (Hcand : f ∉ re_candidates re).
  { rewrite (rv_candidate _ _ _ Hr). intros (a & Hin & <-). by apply (Hr' a Hin); right; left. }
  split_and!.
  - apply eq_None_not_Some. intros [n Hn]. apply (rv_owner _ _ _ Hr) in Hn as [Hn|(a & Hin & _ & Hf)]; [|by apply (Hr' a)].
    apply (eo_owner _ _ _ He) in Hn as (a & Hin & _ & Hc). by apply (Hm' a).
  - done.
  - apply eq_None_not_Some. rewrite (eo_first _ _ _ He). intros (a & Hin & Hc). by apply (Hm' a).
  - apply eq_None_not_Some. by intros Hact%(rv_activation _ _ _ Hr).
Qed.

Definition prepare_audit c (k : string) m (previous next actor reason : string) : ClusterCertificateRolloutAudit :=
  mkRAudit (tls_trust_generation c + 1) k (mb_generation m + 1) None (Some Prepared) previous next actor reason (logical_time c).

Lemma prepare_window now ttl expires (ro : ClusterCertificateRollout) :
  in_window MIN_CERTIFICATE_ROLLOUT_SECONDS MAX_CERTIFICATE_ROLLOUT_SECONDS ttl = true → add_seconds now ttl = Some expires →
  is_Some (add_seconds now MAX_CERTIFICATE_ROLLOUT_SECONDS) → ro_prepared_at ro = now → ro_prepare_expires_at ro = expires →
  prepare_window_is_valid ro = true.
Proof.
  unfold in_window, prepare_window_is_valid, add_seconds, add_nanos, MIN_CERTIFICATE_ROLLOUT_SECONDS, MAX_CERTIFICATE_ROLLOUT_SECONDS.
  intros Hw Ht [t Hm] -> ->. bool_hyps. destruct (now + ttl * 1000000000 <=? datetime_max) eqn:Hb1; [|done]. injection Ht as <-.
  destruct (now + 3600 * 1000000000 <=? datetime_max) eqn:Hb2; [|done]. rewrite (proj2 (Z.leb_le (now + 5 * 1000000000) _)) by lia.
  apply andb_true_iff. lia.
Qed.

(** Prepares a rollout of [k], whose member is revised in the same step. *)
Lemma prepare_control_ok c e re ol k m actor reason previous next ro :
  audits_ok c e re ol → live_ok c e re → members c !! k = Some m → mb_state m = MemberActive →
  mb_generation m + 1 <= u64_max → validate_text actor = true → validate_reason reason = true →
  Z.of_nat (length (membership_audit c)) < 100000 → Z.of_nat (length (certificate_rollout_audit c)) < 100000 →
  certificate_rollouts c !! k = None → mb_tls m = Some previous → valid_tls_fingerprint next = true → previous ≠ next →
  certificate_fingerprint_was_previously_authorized c next = false →
  ro = mkRollout k (tls_trust_generation c + 1) (mb_generation m + 1) Prepared previous next (ro_overlap ro)
         (ro_prepare_expires_at ro) None (logical_time c) (logical_time c) reason →
  in_window MIN_CERTIFICATE_ROLLOUT_SECONDS MAX_CERTIFICATE_ROLLOUT_SECONDS (ro_overlap ro) = true →
  prepare_window_is_valid ro = true →
  control_ok (set_rollouts (<[k := ro]> (certificate_rollouts c))
    (push_rollout_audit (prepare_audit c k m previous next actor reason)
      (push_membership k (revise m MemberActive reason (logical_time c))
         (revise_audit (membership_generation c + 1) m MemberActive actor reason (logical_time c)) c))).
Proof.
  intros Ha Hl Hm Hst Hg Hac Hre Hroom Hroom2 Hro Htls Hvn Hne Hnew Hroll Hov Hwin.
  pose proof (ms_each _ _ _ (ao_members _ _ _ _ Ha) k m Hm) as Hok. pose proof (mo_times _ _ _ _ Hok) as Htimes.
  destruct (unmentioned c e re ol next Ha Hnew) as (Hun1 & Hun2 & Hun3 & Hun4).
  destruct (member_tls_owner c e re ol k m previous Ha Hm Htls) as (Hpo & _ & Hvp).
  apply (owner_agree _ _ _ _ _ _ (ao_rloop _ _ _ _ Ha)) in Hpo.
  destruct (audits_revise c e re ol k m MemberActive actor reason) as (Ha1 & Hfirst & Hrev); try done; [congruence|lia|].
  set (e' := push_evidence e _) in *. clearbody e'. set (c1 := push_membership _ _ _ c) in *. set (pa := prepare_audit c k m previous next actor reason).
  pose proof (eo_positive _ _ _ (maudit_loop_evidence _ _ _ (ao_mloop _ _ _ _ Ha)) _ _ _ _ (mo_latest _ _ _ _ Hok)) as Hpos.
  pose proof (ao_trust _ _ _ _ Ha) as Htrust.
  assert (Hra : raudit_ok (logical_time c1) e' re (Z.of_nat (length (certificate_rollout_audit c1))) pa).
  { split; cbn; try done; try lia.
    - rewrite (mo_key _ _ _ _ Hok). by apply registration_node, Hok.
    - unfold revision_matches. cbn. rewrite Hrev, Htls. unfold expected_member_tls. cbn. rewrite Z.eqb_refl. by repeat case_bool_decide.
    - intros f Hf. apply owned_by_spec. intros n Hn. apply elem_of_cons in Hf as [->|Hf%list_elem_of_singleton]; congruence. }
  assert (Ht : rollout_transition re pa = Some ({[next]} ∪ re_candidates re)).
  { unfold rollout_transition. cbn. rewrite (bool_decide_eq_true_2 (next ∉ _)) by done.
    destruct (re_latest re !! k) as [h|] eqn:Hh; [|by repeat case_bool_decide]. destruct (hd_phase h) eqn:Hp; [|by repeat case_bool_decide].
    destruct (proj1 (lv_latest _ _ _ Hl k h Hh)) as [? Hx]; [by eexists|]. congruence. }
  exists e', (push_revidence re pa ({[next]} ∪ re_candidates re)), ol. split; [by apply audits_rollouts, audits_push_rollout|]. split.
  - intros f [->%elem_of_singleton|Hf]%elem_of_union; rewrite Hfirst; cbn; rewrite (bool_decide_eq_false_2 (Some Prepared = _)) by done; [congruence|by apply Hl].
  - cbn. intros k' ro'. rewrite lookup_insert_Some. intros [[<- <-]|[Hnk Hk']].
    + split; try done; rewrite Hroll; cbn; try done; try lia; rewrite ?lookup_insert_eq; [by eexists| |done].
      unfold retirement_is_valid. cbn. rewrite Z.eqb_refl, Htls. by repeat case_bool_decide.
    + eapply rollout_ok_other; [by apply Hl|done|]. cbn. by rewrite lookup_insert_ne.
  - cbn. intros k' h. rewrite lookup_insert_Some. intros [[<- <-]|[Hnk Hh]]; cbn.
    + rewrite lookup_insert_eq. by split; eexists.
    + rewrite lookup_insert_ne by done. by apply Hl.
Qed.

(** The instant at which the command takes effect leaves room for the longest rollout. *)
Definition time_room c (proposed : Z) : Prop :=
  is_Some (add_seconds (Z.max proposed (logical_time c + 1000)) MAX_CERTIFICATE_ROLLOUT_SECONDS).

Lemma registration_tls r f : validate_member_registration r = true → rg_tls r = Some f → valid_tls_fingerprint f = true.
Proof.
  unfold validate_member_registration. intros Hr Hf. rewrite Hf in Hr. destruct (parse_uuid _); [|done]. destruct (decode_32 _); [|done].
  by bool_hyps.
Qed.

Lemma apply_prepare_control_ok c r challenge signature expected ttl overlap actor reason proposed c' p :
  control_ok c → time_room c proposed →
  apply_prepare_member_certificate_rollout c r challenge signature expected ttl overlap actor reason proposed = Ok (c', p) → control_ok c'.
Proof.
  intros (e & re & ol & Ha & Hl) Hroom Hx. unfold apply_prepare_member_certificate_rollout, require_membership_audit_capacity,
    require_certificate_rollout_audit_capacity in Hx. run_inv.
  match goal with H : validate_challenged_registration _ _ _ _ _ = Ok _ |- _ => apply validate_challenged_Ok in H as (-> & Hlt & Hnow & Hreg & Hopen) end.
  match goal with H : logical_time c < ?t |- _ => set (now := t) in * end. cbn in *. bool_hyps.
  match goal with H : members c !! _ = Some ?m |- _ => rename H into Hm; rename m into m1 end.
  pose proof (mo_key _ _ _ _ (ms_each _ _ _ (ao_members _ _ _ _ Ha) _ m1 Hm)) as Hk. rewrite Hk in Hm.
  match goal with H : append_member_revision _ _ _ _ _ _ _ = Ok _ |- _ => apply (append_member_revision_Ok (set_time now c)) in H as (-> & -> & ? & ?) end.
  run_inv. apply consume_control_ok; [|by apply Hopen].
  match goal with H : mb_state m1 = MemberActive |- _ => rename H into Hst; rewrite Hst end.
  eapply (prepare_control_ok (set_time now c) e re ol (mb_node_id m1) m1 actor reason); try done; cbn in *; try lia.
  - apply audits_time; [lia|done].
  - apply live_time; [lia|done].
  - by eapply registration_tls.
  - eapply (prepare_window now ttl); [done|eassumption| |done|done]. rewrite Hnow. exact Hroom.
Qed.

(** ** Registering a member *)

(** What [apply_register_member] does not check of the TLS fingerprint that a registration brings: the audits
    never name it for another node, and a candidate that is not being activated has been bound before. *)
Definition tls_reusable c (r : ClusterMemberRegistration) : bool :=
  match rg_tls r with
  | None => true
  | Some f =>
      forallb (λ a, negb (bool_decide (ma_current_tls a = Some f)) || bool_decide (ma_node_id a = rg_node_id r)) (membership_audit c) &&
      forallb (λ a, negb (bool_decide (f ∈ [ra_previous a; ra_next a])) || bool_decide (ra_node_id a = rg_node_id r)) (certificate_rollout_audit c) &&
      (existsb (λ a, bool_decide (ma_current_tls a = Some f)) (membership_audit c) ||
       forallb (λ a, negb (bool_decide (ra_next a = f))) (certificate_rollout_audit c) ||
       match certificate_rollouts c !! rg_node_id r with Some ro => bool_decide (ro_next ro = f) | None => false end)
  end.

Lemma forallb_elem {A} (f : A → bool) (l : list A) : forallb f l = true ↔ ∀ x, x ∈ l → f x = true.
Proof. rewrite forallb_forall. by setoid_rewrite list_elem_of_In. Qed.

Lemma tls_reusable_owner c e re ol r f n :
  audits_ok c e re ol → tls_reusable c r = true → rg_tls r = Some f → re_owners re !! f = Some n → n = rg_node_id r.
Proof.
  intros Ha Hr Hf. unfold tls_reusable in Hr. rewrite Hf in Hr.
  apply andb_true_iff in Hr as [[Hm Hra]%andb_true_iff _]. rewrite forallb_elem in Hm. rewrite forallb_elem in Hra.
  pose proof (maudit_loop_evidence _ _ _ (ao_mloop _ _ _ _ Ha)) as He. pose proof (raudit_loop_evidence _ _ _ _ _ (ao_rloop _ _ _ _ Ha)) as Hev.
  rewrite (rv_owner _ _ _ Hev), (eo_owner _ _ _ He).
  intros [(a & Hin & <- & Hc)|(a & Hin & <- & Hc)].
  - specialize (Hm a Hin). by repeat case_bool_decide.
  - specialize (Hra a Hin). by repeat case_bool_decide.
Qed.

(** A candidate that is bound without being activated has been bound before. *)
Lemma tls_reusable_bound c e re ol r f :
  audits_ok c e re ol → tls_reusable c r = true → rg_tls r = Some f → certificate_rollouts c !! rg_node_id r = None →
  f ∈ re_candidates re → is_Some (me_first e !! f).
Proof.
  intros Ha Hr Hf Hro. unfold tls_reusable in Hr. rewrite Hf, Hro, orb_false_r in Hr.
  apply andb_true_iff in Hr as [_ [Hr|Hr]%orb_true_iff].
  - intros _. apply existsb_exists in Hr as (a & Hin%list_elem_of_In & Hc). bool_hyps.
    apply (eo_first _ _ _ (maudit_loop_evidence _ _ _ (ao_mloop _ _ _ _ Ha))). by exists a.
  - rewrite (rv_candidate _ _ _ (raudit_loop_evidence _ _ _ _ _ (ao_rloop _ _ _ _ Ha))). intros (a & Hin & Hn).
    rewrite forallb_elem in Hr. specialize (Hr a Hin). by repeat case_bool_decide.
Qed.

Lemma taken_by_unclaimed c e re ol r m :
  audits_ok c e re ol → any_member (taken_by r) c = false → mb_node_id m = rg_node_id r → mb_fingerprint m = rg_fingerprint r →
  mb_endpoint m = rg_endpoint r → mb_tls m = rg_tls r → unclaimed (members c) m.
Proof.
  intros Ha Hx Hn Hf He Ht k' m' Hk' Hne. unfold any_member in Hx. rewrite existsb_false in Hx.
  specialize (Hx m' (proj2 (elem_of_values _ _) (ex_intro _ k' Hk'))). unfold taken_by in Hx.
  rewrite <- (mo_key _ _ _ _ (ms_each _ _ _ (ao_members _ _ _ _ Ha) k' m' Hk')), <- Hn in Hx.
  rewrite (bool_decide_eq_false_2 (k' = mb_node_id m)) in Hx by done. cbn in Hx. bool_hyps. rewrite Hf, He, Ht. split_and!; try done.
  intros f Hrf. rewrite Hrf in *. by bool_hyps.
Qed.

Definition joined (r : ClusterMemberRegistration) (generation joined_at : Z) (reason : string) (now : Z) : ClusterMember :=
  mkMember (rg_node_id r) (rg_fingerprint r) (rg_public_key r) (rg_tls r) (rg_endpoint r) (rg_server_version r)
    (rg_min_protocol r) (rg_protocol r) MemberActive generation joined_at now reason.

Definition join_audit c (r : ClusterMemberRegistration) (generation : Z) (previous : option ClusterMemberState)
    (previous_tls : option string) (actor reason : string) : ClusterMembershipAudit :=
  mkMAudit (membership_generation c + 1) (rg_node_id r) generation previous MemberActive previous_tls (rg_tls r) actor reason
    (logical_time c).

Lemma next_revision_Ok r existing expected now previous previous_tls generation joined_at :
  next_revision r existing expected now = Ok (previous, previous_tls, generation, joined_at) →
  match existing with
  | None => previous = None ∧ previous_tls = None ∧ generation = 1 ∧ joined_at = now
  | Some m => previous = Some (mb_state m) ∧ previous_tls = mb_tls m ∧ generation = mb_generation m + 1 ∧
      mb_generation m + 1 <= u64_max ∧ joined_at = mb_joined_at m ∧ mb_state m ≠ MemberRevoked ∧
      is_some (mb_tls m) && negb (is_some (rg_tls r)) = false
  end.
Proof.
  unfold next_revision. destruct existing as [m|]; intros Hx; run_inv; bool_hyps; [|done].
  split_and!; try done. destruct (mb_tls m), (rg_tls r); cbn in *; done.
Qed.

Lemma join_transition c e re ol r expected previous previous_tls generation joined_at actor reason :
  audits_ok c e re ol → next_revision r (members c !! rg_node_id r) expected (logical_time c) = Ok (previous, previous_tls, generation, joined_at) →
  membership_transition e (join_audit c r generation previous previous_tls actor reason) = true ∧ generation ≠ 0 ∧ joined_at <= logical_time c ∧
  ∀ f, previous_tls = Some f → me_owners e !! f = Some (rg_node_id r) ∧ valid_tls_fingerprint f = true.
Proof.
  intros Ha Hx%next_revision_Ok. unfold membership_transition. cbn. destruct (members c !! rg_node_id r) as [m|] eqn:Hm.
  - destruct Hx as (-> & -> & -> & Hmax & -> & Hst & Htls). pose proof (ms_each _ _ _ (ao_members _ _ _ _ Ha) _ m Hm) as Hok.
    pose proof (eo_positive _ _ _ (maudit_loop_evidence _ _ _ (ao_mloop _ _ _ _ Ha)) _ _ _ _ (mo_latest _ _ _ _ Hok)).
    pose proof (mo_times _ _ _ _ Hok). rewrite (mo_latest _ _ _ _ Hok), Htls.
    rewrite (bool_decide_eq_false_2 (mb_state m = MemberRevoked)), !bool_decide_eq_true_2 by (by rewrite ?checked_add64_Some).
    split_and!; [done|lia|lia|]. intros f Hf. destruct (member_tls_owner c e re ol _ m f Ha Hm Hf) as (? & _ & ?). done.
  - destruct Hx as (-> & -> & -> & ->). destruct (me_latest e !! rg_node_id r) eqn:Hl.
    { destruct (ao_known _ _ _ _ Ha (rg_node_id r)) as [? Hx]; [by eexists|congruence]. }
    rewrite !bool_decide_eq_true_2 by done. split_and!; done || lia.
Qed.

Lemma audits_join c e re ol r expected previous previous_tls generation joined_at actor reason :
  audits_ok c e re ol → next_revision r (members c !! rg_node_id r) expected (logical_time c) = Ok (previous, previous_tls, generation, joined_at) →
  any_member (taken_by r) c = false → validate_member_registration r = true → validate_text actor = true → validate_reason reason = true →
  Z.of_nat (length (membership_audit c)) < 100000 → (∀ f n, rg_tls r = Some f → re_owners re !! f = Some n → n = rg_node_id r) →
  let a := join_audit c r generation previous previous_tls actor reason in
  let e' := push_evidence e a in
  audits_ok (push_membership (rg_node_id r) (joined r generation joined_at reason (logical_time c)) a c) e' (extend_revidence e' re) ol.
Proof.
  intros Ha Hx Htaken Hreg Hac Hre Hroom Hown a e'.
  destruct (join_transition c e re ol r expected previous previous_tls generation joined_at actor reason Ha Hx) as (Htr & Hg & Hj & Hprev).
  apply (audits_push_membership c e re ol _ a); try done.
  - split; cbn; try done.
    + by rewrite (ao_generation _ _ _ _ Ha).
    + unfold validate_member_registration, is_uuid in *. by destruct (parse_uuid (rg_node_id r)).
    + intros f [Hf|Hf]%elem_of_tls_of; cbn in Hf.
      * destruct (Hprev f Hf) as [Ho Hv]. split; [done|]. apply owned_by_spec. intros n Hn. congruence.
      * split; [by eapply registration_tls|]. apply owned_by_spec. intros n Hn. apply (Hown f n Hf).
        by apply (owner_agree _ _ _ _ _ _ (ao_rloop _ _ _ _ Ha)).
  - by eapply taken_by_unclaimed.
  - intros f n [Hf|Hf]%elem_of_tls_of Hn; cbn in *; [|by apply (Hown f)]. destruct (Hprev f Hf) as [Ho _].
    apply (owner_agree _ _ _ _ _ _ (ao_rloop _ _ _ _ Ha)) in Ho. congruence.
Qed.

(** The first bindings after a registration. *)
Lemma first_join e a f :
  me_first (push_evidence e a) !! f =
  match me_first e !! f with
  | Some v => Some v
  | None => if bool_decide (ma_current_tls a = Some f) then Some (ma_node_id a, ma_member_generation a, ma_changed_at a) else None
  end.
Proof.
  cbn. destruct (ma_current_tls a) as [g|] eqn:Hg; [|by destruct (me_first e !! f)].
  destruct (decide (g = f)) as [->|Hne].
  - rewrite bool_decide_eq_true_2 by done. destruct (me_first e !! f) eqn:Hf; [done|]. by rewrite lookup_insert_eq.
  - rewrite bool_decide_eq_false_2 by congruence. destruct (me_first e !! g); [by destruct (me_first e !! f)|].
    rewrite lookup_insert_ne by done. by destruct (me_first e !! f).
Qed.

(** A registration that activates nothing: the node has no unfinished rollout. *)
Lemma join_control_ok c e re ol r expected previous previous_tls generation joined_at actor reason :
  audits_ok c e re ol → live_ok c e re →
  next_revision r (members c !! rg_node_id r) expected (logical_time c) = Ok (previous, previous_tls, generation, joined_at) →
  any_member (taken_by r) c = false → validate_member_registration r = true → validate_text actor = true → validate_reason reason = true →
  Z.of_nat (length (membership_audit c)) < 100000 → tls_reusable c r = true → certificate_rollouts c !! rg_node_id r = None →
  control_ok (push_membership (rg_node_id r) (joined r generation joined_at reason (logical_time c))
    (join_audit c r generation previous previous_tls actor reason) c).
Proof.
  intros Ha Hl Hx Htaken Hreg Hac Hre Hroom Hreuse Hro.
  eexists _, _, ol. split; [eapply audits_join; try done; intros f n; by eapply tls_reusable_owner|]. split.
  - cbn [re_candidates re_activations extend_revidence]. intros f Hf. rewrite first_join. destruct (me_first e !! f) eqn:Hfirst.
    + rewrite <- Hfirst. by apply Hl.
    + case_bool_decide as Hc; [|rewrite <- Hfirst; by apply Hl].
      destruct (tls_reusable_bound c e re ol r f) as [? Hx']; try done. congruence.
  - cbn. intros k' ro' Hk'. eapply rollout_ok_other; [by apply Hl| |done]. congruence.
  - by apply Hl.
Qed.

Definition activate_audit c (r : ClusterMemberRegistration) (generation : Z) (ro : ClusterCertificateRollout) (actor reason : string)
    : ClusterCertificateRolloutAudit :=
  mkRAudit (tls_trust_generation c + 1) (rg_node_id r) generation (Some Prepared) (Some Activated) (ro_previous ro) (ro_next ro)
    actor reason (logical_time c).

Definition activated c generation (ro : ClusterCertificateRollout) (retire_after : Z) (reason : string) : ClusterCertificateRollout :=
  mkRollout (ro_node_id ro) (tls_trust_generation c + 1) generation Activated (ro_previous ro) (ro_next ro) (ro_overlap ro)
    (ro_prepare_expires_at ro) (Some retire_after) (ro_prepared_at ro) (logical_time c) reason.

Lemma activate_audit_ok c e re ol r generation ro actor reason :
  audits_ok c e re ol → re_latest re !! rg_node_id r = Some (rollout_head ro) → ro_phase ro = Prepared → generation ≠ 0 →
  is_uuid (rg_node_id r) = true → validate_text actor = true → validate_reason reason = true → valid_tls_fingerprint (ro_previous ro) = true →
  valid_tls_fingerprint (ro_next ro) = true → ro_previous ro ≠ ro_next ro →
  me_revisions e !! (rg_node_id r, generation) = Some (MemberActive, Some (ro_next ro), logical_time c) →
  raudit_ok (logical_time c) e re (Z.of_nat (length (certificate_rollout_audit c))) (activate_audit c r generation ro actor reason) ∧
  rollout_transition re (activate_audit c r generation ro actor reason) = Some (re_candidates re).
Proof.
  intros Ha Hh Hp Hg Hu Hac Hre Hvp Hvn Hd Hrev.
  destruct (rv_head _ _ _ (raudit_loop_evidence _ _ _ _ _ (ao_rloop _ _ _ _ Ha)) _ _ Hh) as (Hcand & Hown & Hact). split; [split|]; cbn; try done.
  - by rewrite (ao_trust _ _ _ _ Ha).
  - unfold revision_matches. cbn. rewrite Hrev. unfold expected_member_tls. cbn. rewrite Z.eqb_refl. by repeat case_bool_decide.
  - intros f Hf. apply owned_by_spec. intros n Hn. rewrite (Hown f) in Hn by done. by injection Hn.
  - intros _. apply Hact. cbn. by rewrite Hp.
  - unfold rollout_transition. cbn. rewrite Hh. cbn. rewrite Hp. by repeat case_bool_decide.
Qed.

(** A registration that activates the prepared rollout [ro] of its node. *)
Lemma activate_control_ok c e re ol r m expected previous previous_tls generation joined_at actor reason ro retire_after :
  audits_ok c e re ol → live_ok c e re →
  next_revision r (members c !! rg_node_id r) expected (logical_time c) = Ok (previous, previous_tls, generation, joined_at) →
  any_member (taken_by r) c = false → validate_member_registration r = true → validate_text actor = true → validate_reason reason = true →
  Z.of_nat (length (membership_audit c)) < 100000 → Z.of_nat (length (certificate_rollout_audit c)) < 100000 →
  certificate_rollouts c !! rg_node_id r = Some ro → ro_phase ro = Prepared → rg_tls r = Some (ro_next ro) →
  add_seconds (logical_time c) (ro_overlap ro) = Some retire_after → members c !! rg_node_id r = Some m →
  control_ok (set_rollouts (<[rg_node_id r := activated c generation ro retire_after reason]> (certificate_rollouts c))
    (push_rollout_audit (activate_audit c r generation ro actor reason)
      (push_membership (rg_node_id r) (joined r generation joined_at reason (logical_time c))
        (join_audit c r generation previous previous_tls actor reason) c))).
Proof.
  intros Ha Hl Hx Htaken Hreg Hac Hre Hroom Hroom2 Hro Hp Htls Hretire Hm.
  pose proof (lv_rollouts _ _ _ Hl _ _ Hro) as Hrok. pose proof (rl_latest _ _ _ _ _ Hrok) as Hh.
  destruct (rv_head _ _ _ (raudit_loop_evidence _ _ _ _ _ (ao_rloop _ _ _ _ Ha)) _ _ Hh) as (Hcand & Hown & Hact). cbn in Hcand, Hown, Hact.
  destruct (join_transition c e re ol r expected previous previous_tls generation joined_at actor reason Ha Hx) as (_ & Hg & _ & _).
  set (a := join_audit c r generation previous previous_tls actor reason) in *.
  assert (Ha1 : audits_ok (push_membership (rg_node_id r) (joined r generation joined_at reason (logical_time c)) a c) (push_evidence e a)
    (extend_revidence (push_evidence e a) re) ol).
  { eapply audits_join; try done. intros f n Hf. rewrite Htls in Hf. injection Hf as <-. rewrite (Hown (ro_next ro)) by set_solver. by intros [= <-]. }
  assert (Hrev : me_revisions (push_evidence e a) !! (rg_node_id r, generation) = Some (MemberActive, Some (ro_next ro), logical_time c)).
  { cbn. by rewrite lookup_insert_eq, Htls. }
  pose proof (first_join e a) as Hfirst. set (e' := push_evidence e a) in *. clearbody e'.
  set (c1 := push_membership _ _ a c) in *. set (re1 := extend_revidence e' re) in *.
  destruct (activate_audit_ok c1 e' re1 ol r generation ro actor reason) as [Hra Ht]; try done; try apply Hrok.
  { unfold validate_member_registration, is_uuid in *. by destruct (parse_uuid (rg_node_id r)). }
  eexists e', (push_revidence re1 _ (re_candidates re1)), ol. split; [by apply audits_rollouts, audits_push_rollout|].
  pose proof (rl_times _ _ _ _ _ Hrok) as Htimes. split.
  - intros f Hf. rewrite Hfirst. cbn. rewrite (bool_decide_eq_true_2 (Some Activated = _)) by done. cbn. rewrite Htls.
    assert (Hsame : me_first e !! f = re_activations re !! f) by (by apply Hl).
    destruct (decide (f = ro_next ro)) as [->|Hne].
    + rewrite lookup_insert_eq, Hsame, Hact by (by rewrite Hp). by rewrite bool_decide_eq_true_2.
    + rewrite lookup_insert_ne, <- Hsame, bool_decide_eq_false_2 by congruence. by destruct (me_first e !! f).
  - cbn. intros k' ro'. rewrite lookup_insert_Some. intros [[<- <-]|[Hnk Hk']].
    + destruct Hrok as [R1 R2 R3 R4 R5 R6 R7 R8 R9 R10 R11 R12]. pose proof (ao_trust _ _ _ _ Ha).
      split; cbn; try done; try lia; rewrite ?lookup_insert_eq; [by eexists| |done].
      unfold retirement_is_valid. cbn. rewrite Hretire, Htls. by repeat case_bool_decide.
    + eapply rollout_ok_other; [by apply Hl|done|]. cbn. by rewrite lookup_insert_ne.
  - cbn. intros k' h. rewrite lookup_insert_Some. intros [[<- <-]|[Hnk Hh']]; cbn.
    + rewrite lookup_insert_eq. by split; eexists.
    + rewrite lookup_insert_ne by done. by apply Hl.
Qed.

Lemma find_activation_Ok c r existing now act :
  find_activation c r existing now = Ok act →
  match act with
  | Some ro => ∃ m, existing = Some m ∧ certificate_rollouts c !! mb_node_id m = Some ro ∧ ro_phase ro = Prepared ∧ rg_tls r = Some (ro_next ro) ∧
      now < ro_prepare_expires_at ro ∧ Z.of_nat (length (certificate_rollout_audit c)) < 100000
  | None => ∀ m, existing = Some m → certificate_rollouts c !! mb_node_id m = None
  end.
Proof.
  unfold find_activation, require_certificate_rollout_audit_capacity. destruct existing as [m|]; [|by intros [= <-]].
  destruct (certificate_rollouts c !! mb_node_id m) as [ro|] eqn:Hro.
  - destruct (activates m r ro now) eqn:Hact; [|done]. intros Hx. res_inv. unfold activates in Hact. bool_hyps. exists m. split_and!; try done; lia.
  - destruct (_ && _); [done|]. intros [= <-] m' [= <-]. done.
Qed.

Lemma tls_reusable_time c t r : tls_reusable (set_time t c) r = tls_reusable c r.
Proof. done. Qed.

Lemma apply_register_control_ok c r challenge signature expected lo hi actor reason proposed c' m' :
  control_ok c → tls_reusable c r = true →
  apply_register_member c r challenge signature expected lo hi actor reason proposed = Ok (c', m') → control_ok c'.
Proof.
  intros (e & re & ol & Ha & Hl) Hreuse Hx. unfold apply_register_member, require_membership_audit_capacity in Hx. run_inv.
  match goal with H : validate_challenged_registration _ _ _ _ _ = Ok _ |- _ => apply validate_challenged_Ok in H as (-> & Hlt & Hnow & Hreg & Hopen) end.
  match goal with H : logical_time c < ?t |- _ => set (now := t) in * end.
  assert (Hat : audits_ok (set_time now c) e re ol) by (apply audits_time; [lia|done]).
  assert (Hlt' : live_ok (set_time now c) e re) by (apply live_time; [lia|done]).
  match goal with H : find_activation _ _ _ _ = Ok ?a |- _ => apply find_activation_Ok in H; rename H into Hact; rename a into act end.
  run_inv. bool_hyps. destruct act as [ro|].
  - destruct Hact as (m & Hm & Hro & Hp & Htls & Hexp & Hroom2).
    pose proof (mo_key _ _ _ _ (ms_each _ _ _ (ao_members _ _ _ _ Hat) _ m Hm)) as Hk. rewrite <- Hk in Hro.
    match goal with H : activate _ _ _ _ _ _ = Ok _ |- _ => unfold activate in H end. run_inv.
    apply consume_control_ok; [|by apply Hopen]. eapply (activate_control_ok (set_time now c) e re ol); try done. cbn in *. lia.
  - run_inv. apply consume_control_ok; [|by apply Hopen]. eapply (join_control_ok (set_time now c) e re ol); try done; [cbn in *; lia|].
    cbn in *. destruct (certificate_rollouts c !! rg_node_id r) as [ro|] eqn:Hro; [|done].
    destruct (rl_member _ _ _ _ _ (lv_rollouts _ _ _ Hl _ _ Hro)) as (m & Hm & _).
    rewrite (mo_key _ _ _ _ (ms_each _ _ _ (ao_members _ _ _ _ Ha) _ m Hm)) in Hro. by rewrite (Hact m Hm) in Hro.
Qed.

(** ** Genesis *)

(** A member as the genesis builds it. *)
Record founding (at_ : Z) m : Prop := {
  fo_registration : validate_member_registration (member_registration m) = true;
  fo_state : mb_state m = MemberActive;
  fo_generation : mb_generation m = 1;
  fo_joined : mb_joined_at m = at_;
  fo_updated : mb_updated_at m = at_ }.

Record genesis_acc_ok (at_ : Z) (n : nat) (acc : GenesisAcc) : Prop := {
  gk_founding : ∀ k m, ga_members acc !! k = Some m → founding at_ m ∧ k = mb_node_id m;
  gk_fingerprints : ∀ k m, ga_members acc !! k = Some m → mb_fingerprint m ∈ ga_fingerprints acc;
  gk_endpoints : ∀ k m, ga_members acc !! k = Some m → mb_endpoint m ∈ ga_endpoints acc;
  gk_tls : ∀ k m f, ga_members acc !! k = Some m → mb_tls m = Some f → f ∈ ga_tls acc;
  gk_distinct_fingerprints : distinct_by (Some ∘ mb_fingerprint) (ga_members acc);
  gk_distinct_endpoints : distinct_by (Some ∘ mb_endpoint) (ga_members acc);
  gk_distinct_tls : distinct_by mb_tls (ga_members acc);
  gk_size : size (ga_members acc) = n }.

Lemma genesis_step_ok at_ n acc s acc' : genesis_acc_ok at_ n acc → genesis_step at_ acc s = Ok acc' → genesis_acc_ok at_ (S n) acc'.
Proof.
  intros [G1 G2 G3 G4 G5 G6 G7 G8] Hx. unfold genesis_step in Hx. res_inv. bool_hyps. split; cbn.
  - intros k m. rewrite lookup_insert_Some. intros [[<- <-]|[_ Hk]]; [|by apply G1]. by split.
  - intros k m. rewrite lookup_insert_Some. intros [[<- <-]|[_ Hk]]; [set_solver|]. specialize (G2 k m Hk). set_solver.
  - intros k m. rewrite lookup_insert_Some. intros [[<- <-]|[_ Hk]]; [set_solver|]. specialize (G3 k m Hk). set_solver.
  - intros k m f. rewrite lookup_insert_Some. intros [[<- <-]|[_ Hk]] Hf.
    + cbn in Hf. rewrite Hf. set_solver.
    + specialize (G4 k m f Hk Hf). set_solver.
  - apply distinct_insert; [done|]. intros k' m' y Hk' _ [= <-] [= Heq]. specialize (G2 k' m' Hk'). congruence.
  - apply distinct_insert; [done|]. intros k' m' y Hk' _ [= <-] [= Heq]. specialize (G3 k' m' Hk'). congruence.
  - apply distinct_insert; [done|]. cbn. intros k' m' f Hk' _ Hf Hf'. specialize (G4 k' m' f Hk' Hf'). rewrite Hf in *. by bool_hyps.
  - rewrite map_size_insert_None by done. lia.
Qed.

Lemma genesis_loop_ok at_ l acc : try_fold (genesis_step at_) l (mkGenAcc ∅ ∅ ∅ ∅) = Ok acc → genesis_acc_ok at_ (length l) acc.
Proof.
  apply (try_fold_ind _ (λ l acc, genesis_acc_ok at_ (length l) acc)).
  - split; cbn; try done; intros k1 *; by rewrite lookup_empty.
  - intros k x s s' Hs Hx. rewrite length_app, Nat.add_1_r. by eapply genesis_step_ok.
Qed.

(** The audit of the founding members is valid. *)
Lemma genesis_audit_loop at_ l :
  Forall (founding at_) l → NoDup (mb_node_id <$> l) → NoDup (omap mb_tls l) →
  ∃ e, maudit_loop at_ (imap (genesis_audit at_) l) = Ok e ∧
    ∀ k g st tls, me_latest e !! k = Some (g, st, tls) ↔ ∃ m, m ∈ l ∧ k = mb_node_id m ∧ g = 1 ∧ st = MemberActive ∧ tls = mb_tls m.
Proof.
  induction l as [|m l IH] using rev_ind; intros Hf Hn Ht.
  { eexists. split; [done|]. cbn. intros k *. rewrite lookup_empty. set_solver. }
  apply Forall_app in Hf as [Hf Hm]. rewrite Forall_singleton in Hm. rewrite fmap_app in Hn. apply NoDup_app in Hn as (Hn & Hfresh & _).
  rewrite omap_app in Ht. apply NoDup_app in Ht as (Ht & Htls & _). destruct (IH Hf Hn Ht) as (e & He & Hl). clear IH.
  assert (Hnew : me_latest e !! mb_node_id m = None).
  { destruct (me_latest e !! mb_node_id m) as [[[g st] tls]|] eqn:Hx; [|done]. apply Hl in Hx as (m' & Hin & Heq & _). exfalso.
    apply (Hfresh (mb_node_id m)); [rewrite Heq; by apply list_elem_of_fmap_2|]. cbn. by left. }
  assert (Hok : maudit_ok at_ e (Z.of_nat (length (imap (genesis_audit at_) l))) (genesis_audit at_ (length l + 0) m)).
  { split; cbn; try done.
    - rewrite length_imap. lia.
    - by apply registration_node, Hm.
    - unfold membership_transition. cbn. rewrite Hnew. by rewrite !bool_decide_eq_true_2.
    - intros f Hx%elem_of_option_list.
      split; [by apply (registration_tls (member_registration m)); [apply Hm|]|]. apply owned_by_spec. intros n Hown.
      apply (eo_owner _ _ _ (maudit_loop_evidence _ _ _ He)) in Hown as (a & Ha & _ & Hcur). exfalso.
      apply elem_of_lookup_imap_1 in Ha as (i & m' & -> & Hi%list_elem_of_lookup_2). cbn in Hcur.
      apply (Htls f); [apply list_elem_of_omap; by exists m'|]. apply list_elem_of_omap. exists m. split; [by left|done]. }
  eexists. split; [rewrite imap_app; cbn; by apply maudit_loop_snoc|]. cbn. intros k g st tls.
  destruct (decide (k = mb_node_id m)) as [->|Hne].
  - rewrite lookup_insert_eq. split.
    + intros [= <- <- <-]. exists m. set_solver.
    + intros (m' & [Hin| ->%list_elem_of_singleton]%elem_of_app & Heq & -> & -> & ->); [|done]. exfalso.
      apply (Hfresh (mb_node_id m)); [rewrite Heq; by apply list_elem_of_fmap_2|]. cbn. by left.
  - rewrite lookup_insert_ne by done. rewrite Hl. split; intros (m' & Hin & Hx); exists m'; [set_solver|].
    apply elem_of_app in Hin as [Hin| ->%list_elem_of_singleton]; [done|]. by destruct Hx.
Qed.

Lemma entries_length {A} (ms : gmap string A) : length (entries ms) = size ms.
Proof. rewrite entries_perm. apply length_map_to_list. Qed.

Lemma omap_values {A B} (f : A → option B) (l : list (string * A)) : omap f l.*2 = omap (λ p, f p.2) l.
Proof. induction l as [|p l IH]; cbn; [done|]. destruct (f p.2); by rewrite <- IH. Qed.

Lemma genesis_control_ok g proposed c : validate_and_build_genesis g proposed = Ok c → control_ok c.
Proof.
  intros Hb. pose proof Hb as Hx. unfold validate_and_build_genesis in Hx. res_inv. bool_hyps.
  match goal with H : try_fold _ _ _ = Ok ?x |- _ => apply genesis_loop_ok in H as [G1 G2 G3 G4 G5 G6 G7 G8]; rename x into acc end.
  destruct (genesis_audit_loop proposed (entries (ga_members acc)).*2) as (e & He & Hl).
  - apply Forall_forall. intros m [k Hk]%elem_of_values. by apply (G1 k m).
  - apply (values_NoDup mb_node_id). intros k m Hk. by apply (G1 k m).
  - destruct (proj2 (all_distinct_map mb_tls (ga_members acc)) G7) as [Hnd _]. by rewrite omap_values.
  - assert (Hlen : length (imap (genesis_audit proposed) (entries (ga_members acc)).*2) = length (gn_members g)).
    { by rewrite length_imap, length_fmap, entries_length. }
    assert (Hfound : ∀ k m, ga_members acc !! k = Some m → member_ok proposed e k m).
    { intros k m Hk. destruct (G1 k m Hk) as [[F1 F2 F3 F4 F5] ->]. split; try done; [lia|lia|].
      apply Hl. exists m. split; [by apply elem_of_values; eexists|done]. }
    exists e, (mkREvidence (me_owners e) ∅ ∅ ∅), ∅. split; split; cbn; try done.
    + by rewrite Hb.
    + congruence.
    + rewrite Hlen. by rewrite G8.
    + rewrite Hlen, map_size_empty. lia.
    + destruct (imap _ _) as [|a l] eqn:Hi; [|by exists a; split; [|intros k ch; rewrite lookup_empty]].
      cbn in Hlen. by destruct (gn_members g).
    + intros n [[[gen st] tls] Hn]. apply Hl in Hn as (m & [k Hk]%elem_of_values & -> & _). destruct (G1 k m Hk) as [_ <-]. by eexists.
    + intros k. by rewrite !lookup_empty.
Qed.

(** ** The bindings that a registration may bring *)

Lemma raudit_activations now e o l re f :
  raudit_loop now e o l = Ok re → is_Some (re_activations re !! f) ↔ ∃ a, a ∈ l ∧ ra_next a = f ∧ ra_current_phase a = Some Activated.
Proof.
  intros Hl. assert (is_Some (re_activations re !! f) ↔ ∃ a, a ∈ (enumerate l).*2 ∧ ra_next a = f ∧ ra_current_phase a = Some Activated) as Hx;
    [|by rewrite enumerate_snd in Hx].
  revert Hl. apply (try_fold_ind _ (λ l re, is_Some (re_activations re !! f) ↔ ∃ a, a ∈ l.*2 ∧ ra_next a = f ∧ ra_current_phase a = Some Activated)).
  - cbn. rewrite lookup_empty. split; [by intros [? ?]|by intros (a & ?%elem_of_nil & _)].
  - intros k [i a] s s' IH [_ (cs & _ & ->)]%rollout_step_Ok. rewrite fmap_app. cbn. setoid_rewrite elem_of_app. setoid_rewrite list_elem_of_singleton.
    case_bool_decide as Ha; [rewrite lookup_insert_is_Some'|]; rewrite IH; split.
    + intros [Hf|(b & Hb & Hf)]; [exists a|exists b]; naive_solver.
    + intros (b & [Hb| ->] & Hf); [right; by exists b|left; naive_solver].
    + intros (b & Hb & Hf). exists b. naive_solver.
    + intros (b & [Hb| ->] & Hf); [by exists b|naive_solver].
Qed.

(** What a successful registration leaves of the audits. *)
Lemma apply_register_audits c r challenge signature expected lo hi actor reason proposed c' m' :
  apply_register_member c r challenge signature expected lo hi actor reason proposed = Ok (c', m') →
  (∃ a, membership_audit c' = membership_audit c ++ [a] ∧ ma_node_id a = rg_node_id r ∧ ma_current_tls a = rg_tls r) ∧
  certificate_rollout_audit c `prefix_of` certificate_rollout_audit c' ∧
  (certificate_rollout_audit c' = certificate_rollout_audit c ∨
   ∃ m ro, members c !! rg_node_id r = Some m ∧ certificate_rollouts c !! mb_node_id m = Some ro ∧ rg_tls r = Some (ro_next ro)).
Proof.
  intros Hx. unfold apply_register_member in Hx. run_inv.
  match goal with H : validate_challenged_registration _ _ _ _ _ = Ok _ |- _ => apply validate_challenged_Ok in H as (-> & _) end.
  match goal with H : find_activation _ _ _ _ = Ok ?a |- _ => apply find_activation_Ok in H; rename H into Hact; rename a into act end.
  run_inv. destruct act as [ro|].
  - destruct Hact as (m & Hm & Hro & _ & Htls & _). match goal with H : activate _ _ _ _ _ _ = Ok _ |- _ => unfold activate in H end. run_inv. cbn.
    split_and!; [by eexists|by eexists|right; by exists m, ro].
  - run_inv. cbn. split_and!; [by eexists|done|by left].
Qed.

Lemma apply_register_reusable c r challenge signature expected lo hi actor reason proposed c' m' :
  control_ok c → apply_register_member c r challenge signature expected lo hi actor reason proposed = Ok (c', m') →
  control_ok c' → tls_reusable c r = true.
Proof.
  intros (e & re & ol & Ha & Hl) Hx (e' & re' & ol' & Ha' & Hl').
  apply apply_register_audits in Hx as ((a & Hau & Hn & Hc) & [tail Htail] & Hact).
  unfold tls_reusable. destruct (rg_tls r) as [f|]; [|done].
  pose proof (maudit_loop_evidence _ _ _ (ao_mloop _ _ _ _ Ha')) as He. pose proof (raudit_loop_evidence _ _ _ _ _ (ao_rloop _ _ _ _ Ha')) as Hr.
  assert (Hin : a ∈ membership_audit c') by (rewrite Hau; set_solver).
  assert (Hown : me_owners e' !! f = Some (rg_node_id r)) by (apply (eo_owner _ _ _ He); by exists a).
  assert (Hrown : re_owners re' !! f = Some (rg_node_id r)) by (apply (rv_owner _ _ _ Hr); by left).
  rewrite !andb_true_iff, !forallb_elem, !orb_true_iff. split_and!.
  - intros b Hb. case_bool_decide as Hf; [|done]. apply bool_decide_eq_true. cbn.
    assert (me_owners e' !! f = Some (ma_node_id b)) as Hown'; [|congruence].
    apply (eo_owner _ _ _ He). exists b. rewrite Hau. set_solver.
  - intros b Hb. case_bool_decide as Hf; [|done]. apply bool_decide_eq_true. cbn.
    assert (re_owners re' !! f = Some (ra_node_id b)) as Hown'; [|congruence].
    apply (rv_owner _ _ _ Hr). right. exists b. rewrite Htail. set_solver.
  - destruct Hact as [Hsame|(m & ro & Hm & Hro & [= ->])].
    + left. destruct (forallb _ (certificate_rollout_audit c)) eqn:Hall; [by right|left].
      rewrite <- not_true_iff_false, forallb_elem in Hall.
      assert (Hcand : f ∈ re_candidates re').
      { apply dec_stable. rewrite (rv_candidate _ _ _ Hr), Hsame. intros Hno. apply Hall. intros b Hb.
        case_bool_decide; [|done]. exfalso. apply Hno. by exists b. }
      assert (Hfirst : is_Some (re_activations re' !! f)).
      { rewrite <- (lv_candidates _ _ _ Hl' f Hcand). apply (eo_first _ _ _ He). by exists a. }
      rewrite (raudit_activations _ _ _ _ _ _ (ao_rloop _ _ _ _ Ha')), Hsame, <- (raudit_activations _ _ _ _ _ _ (ao_rloop _ _ _ _ Ha)) in Hfirst.
      pose proof (rv_activation _ _ _ (raudit_loop_evidence _ _ _ _ _ (ao_rloop _ _ _ _ Ha)) f Hfirst) as Hc'.
      rewrite <- (lv_candidates _ _ _ Hl f Hc') in Hfirst.
      apply (eo_first _ _ _ (maudit_loop_evidence _ _ _ (ao_mloop _ _ _ _ Ha))) in Hfirst as (b & Hb & Hbf).
      apply existsb_exists. exists b. rewrite <- list_elem_of_In. split; [done|]. by apply bool_decide_eq_true.
    + right. rewrite <- (mo_key _ _ _ _ (ms_each _ _ _ (ao_members _ _ _ _ Ha) _ m Hm)) in Hro. rewrite Hro. by apply bool_decide_eq_true.
Qed.

(** C19. The registration that [apply_register_member] accepts leaves a state that the replicas accept exactly
    when the TLS fingerprint it brings is reusable: the audits name it for no other node, and it is not a
    rollout candidate that was never activated.  [apply_register_member] itself compares the fingerprint
    with the current bindings only, so it accepts registrations whose entry no replica can then apply. *)
Theorem register_valid_iff c r challenge signature expected lo hi actor reason proposed c' m' :
  validate_control_plane_state c = Ok tt →
  apply_register_member c r challenge signature expected lo hi actor reason proposed = Ok (c', m') →
  validate_control_plane_state c' = Ok tt ↔ tls_reusable c r = true.
Proof.
  rewrite !validate_control_plane_state_spec. intros Hc Hx. split.
  - by eapply apply_register_reusable.
  - intros Hr. by eapply apply_register_control_ok.
Qed.

End join.

(** After a rollover, a third node that brings the retired fingerprint is registered, and the state is refused. *)
Lemma register_valid_iff_witness :
  match apply_register_member toy_control stale_registration toy_challenge "00" None 1 1 "op" "join" (22 * second) with
  | Ok (c', _) => validate_control_plane_state toy_control = Ok tt ∧ validate_control_plane_state c' ≠ Ok tt
  | Err _ => False
  end.
Proof.
  assert (Hok : validate_control_plane_state toy_control = Ok tt) by (vm_compute; reflexivity).
  destruct (apply_register_member _ _ _ _ _ _ _ _ _ _) as [[c' m']|e] eqn:Hx; [|by vm_compute in Hx].
  split; [exact Hok|]. rewrite (register_valid_iff _ _ _ _ _ _ _ _ _ _ _ _ Hok Hx). by vm_compute.
Defined.
