(* ===== verification/AuthorityInv.v ===== *)
(** * The replicated cluster authority: commands *)

From S2P Require Import Prelude Authority AuthorityCheck AuthorityToy AuthorityValid AuthorityApply AuthorityJoin.

#[local] Open Scope Z_scope.

#[local] Arguments receipt_step : simpl never.

Section commands.
Context `{ClusterExt}.
Implicit Types (c : ReplicatedControlPlaneState) (st : AuthorityState) (rc : StoredAuthorityReceipt).

(** ** Receipts *)

(** The sequence number and the log id of a retained receipt. *)
Definition receipt_sequence rc : option Z := (λ x, x.1.1.2) <$> successful_response_metadata (rc_response rc).
Definition receipt_log_id rc : option LogId := (λ x, x.1.2) <$> successful_response_metadata (rc_response rc).

Record receipt_ok (last : Z) (id : string) rc : Prop := {
  ro_key : id = command_id (rc_command rc);
  ro_canonical : is_Some (canonical_operation_id id);
  ro_metadata : ∃ seq log_id, successful_response_metadata (rc_response rc) = Some (id, seq, log_id, false) ∧ seq ≠ 0 ∧ seq <= last ∧
    ∀ id' expected, rc_command rc = Barrier id' (Some expected) → expected = seq - 1;
  ro_matches : response_matches_command (rc_command rc) (rc_response rc) = true }.

Lemma receipt_step_Ok st seen id rc seen' :
  receipt_step st seen (id, rc) = Ok seen' ↔
  receipt_ok (sequence st) id rc ∧ ∃ seq log_id, receipt_sequence rc = Some seq ∧ receipt_log_id rc = Some log_id ∧
    (seq ∉ seen.1) ∧ (log_id ∉ seen.2) ∧ seen' = (seq :: seen.1, log_id :: seen.2).
Proof.
  unfold receipt_step, receipt_sequence, receipt_log_id. split.
  - intros Hx. res_inv. bool_hyps. match goal with H : successful_response_metadata _ = Some ?x |- _ => destruct x as [[[rid seq] log_id] b]; rename H into Hmeta end.
    res_inv. bool_hyps. subst rid. split; [split|].
    + done.
    + by apply is_some_spec.
    + destruct b; [done|]. exists seq, log_id. split_and!; [done|lia|lia|]. intros id' expected Hc. rewrite Hc in *. lia.
    + done.
    + rewrite Hmeta. cbn. exists seq, log_id. done.
  - intros [[-> Hcan (seq & log_id & Hmeta & Hz & Hle & Hbar) Hmatch] (seq' & log_id' & Hs & Hl & Hns & Hnl & ->)].
    rewrite Hmeta in *. cbn in Hs, Hl. injection Hs as <-. injection Hl as <-.
    rewrite (bool_decide_eq_true_2 (command_id _ = _)), (proj2 (is_some_spec _) Hcan) by done. cbn.
    rewrite (bool_decide_eq_true_2 (command_id _ = _)), (proj2 (Z.eqb_neq _ _) Hz), (proj2 (Z.leb_le _ _) Hle), Hmatch by done. cbn.
    rewrite (bool_decide_eq_true_2 (seq ∉ _)), (bool_decide_eq_true_2 (log_id ∉ _)) by done. cbn.
    assert (match rc_command rc with Barrier _ (Some expected) => expected =? seq - 1 | _ => true end = true) as ->; [|done].
    destruct (rc_command rc) as [|? [expected|]| | | | | | | | | |] eqn:Hc; try done. by rewrite (Hbar _ _ eq_refl), Z.eqb_refl.
Qed.

Lemma receipt_loop_Ok st l seen :
  (∃ seen', try_fold (receipt_step st) l seen = Ok seen') ↔
  Forall (λ p, receipt_ok (sequence st) p.1 p.2) l ∧
  NoDup (omap (λ p, receipt_sequence p.2) l) ∧ (∀ x, x ∈ omap (λ p, receipt_sequence p.2) l → x ∉ seen.1) ∧
  NoDup (omap (λ p, receipt_log_id p.2) l) ∧ (∀ x, x ∈ omap (λ p, receipt_log_id p.2) l → x ∉ seen.2).
Proof.
  revert seen. induction l as [|[id rc] l IH]; intros seen; cbn.
  { split; [|by eexists]. intros _. split_and!; [constructor|constructor|set_solver|constructor|set_solver]. }
  rewrite Forall_cons. split.
  - intros (seen' & (s1 & (Hok & seq & log_id & Hs & Hl & Hns & Hnl & ->)%receipt_step_Ok & Hx)%bind_Ok).
    destruct (proj1 (IH _) (ex_intro _ _ Hx)) as (Hf & H1 & H2 & H3 & H4). clear Hx. cbn in *. rewrite Hs, Hl. split_and!; try done.
    + apply NoDup_cons. split; [|done]. intros Hin. by apply (H2 seq Hin); left.
    + intros x [->|Hx]%elem_of_cons; [done|]. intros Hin. by apply (H2 x Hx); right.
    + apply NoDup_cons. split; [|done]. intros Hin. by apply (H4 log_id Hin); left.
    + intros x [->|Hx]%elem_of_cons; [done|]. intros Hin. by apply (H4 x Hx); right.
  - intros ((Hok & Hf) & H1 & H2 & H3 & H4). cbn in Hok. destruct (ro_metadata _ _ _ Hok) as (seq & log_id & Hmeta & _).
    assert (Hs : receipt_sequence rc = Some seq) by (unfold receipt_sequence; by rewrite Hmeta).
    assert (Hl : receipt_log_id rc = Some log_id) by (unfold receipt_log_id; by rewrite Hmeta).
    rewrite Hs in H1, H2. rewrite Hl in H3, H4. apply NoDup_cons in H1 as [H1 H1']. apply NoDup_cons in H3 as [H3 H3'].
    destruct (proj2 (IH (seq :: seen.1, log_id :: seen.2))) as [seen' Hx].
    { cbn. split_and!; try done; intros x Hx [->|Hin]%elem_of_cons; try done; [by apply (H2 x); [right|]|by apply (H4 x); [right|]]. }
    exists seen'. assert (receipt_step st seen (id, rc) = Ok (seq :: seen.1, log_id :: seen.2)) as ->; [|done].
    apply receipt_step_Ok. split; [done|]. exists seq, log_id. split_and!; try done; [apply H2|apply H4]; by left.
Qed.

Record authority_ok st : Prop := {
  au_size : Z.of_nat (size (receipts st)) <= MAX_AUTHORITY_RECEIPTS;
  au_sequence : sequence st = Z.of_nat (size (receipts st));
  au_receipts : ∀ id rc, receipts st !! id = Some rc → receipt_ok (sequence st) id rc;
  au_sequences : distinct_by receipt_sequence (receipts st);
  au_log_ids : distinct_by receipt_log_id (receipts st);
  au_control : ∀ c, control_plane st = Some c → control_ok c }.

Lemma validate_authority_state_spec st : validate_authority_state st = Ok tt ↔ authority_ok st.
Proof.
  unfold validate_authority_state. split.
  - intros (u1 & H1%ensure_Ok & (u2 & H2%ensure_Ok & (s & Hs & Hc)%bind_Ok)%bind_Ok)%bind_Ok.
    destruct (proj1 (receipt_loop_Ok _ _ _) (ex_intro _ _ Hs)) as (Hf & Hseq & _ & Hlog & _). split.
    + lia.
    + lia.
    + by apply (entries_Forall (receipt_ok (sequence st))).
    + by apply entries_distinct.
    + by apply entries_distinct.
    + intros c Hcp. rewrite Hcp in Hc. by apply validate_control_plane_state_spec.
  - intros [A1 A2 A3 A4 A5 A6]. rewrite (proj2 (Z.leb_le _ _) A1), (proj2 (Z.eqb_eq _ _) A2). cbn.
    destruct (proj2 (receipt_loop_Ok st (entries (receipts st)) ([], []))) as [s ->].
    { cbn. rewrite !entries_distinct, (entries_Forall (receipt_ok (sequence st))). split_and!; try done; set_solver. }
    cbn. destruct (control_plane st) as [c|]; [|done]. by apply validate_control_plane_state_spec, A6.
Qed.

(** ** Commands keep the state valid *)

Lemma on_control_Ok {A} st (f : ReplicatedControlPlaneState → result AuthorityRejection (ReplicatedControlPlaneState * A)) respond st' resp :
  on_control st f respond = Ok (st', resp) →
  ∃ c c' a, control_plane st = Some c ∧ f c = Ok (c', a) ∧ resp = respond a ∧ st' = mkAuthority (sequence st) (receipts st) (Some c').
Proof. unfold on_control. intros Hx. run_inv. naive_solver. Qed.

Lemma apply_new_shape st command seq log_id st' resp :
  apply_new_authority_command st command seq log_id = Ok (st', resp) →
  sequence st' = sequence st ∧ receipts st' = receipts st ∧
  successful_response_metadata resp = Some (command_id command, seq, log_id, false) ∧ response_matches_command command resp = true.
Proof.
  destruct command; cbn [apply_new_authority_command]; intros Hx; run_inv; try done;
    apply on_control_Ok in Hx as (c & c' & a & _ & _ & -> & ->); try destruct a; done.
Qed.

(** What the log owes the authority: a real term no earlier than the ownerships', a TLS binding that may be used,
    and an instant of the calendar. *)
Definition command_fits c (command : AuthorityCommand) (term : Z) : Prop :=
  term_ok c term ∧
  match command with
  | RegisterMember _ r _ _ _ _ _ _ _ _ => tls_reusable c r = true
  | PrepareMemberCertificateRollout _ _ _ _ _ _ _ _ _ proposed => time_room c proposed
  | _ => True
  end.

Lemma apply_new_control_ok st command seq log_id st' resp c' :
  (∀ c, control_plane st = Some c → control_ok c ∧ command_fits c command (lg_term log_id)) →
  apply_new_authority_command st command seq log_id = Ok (st', resp) → control_plane st' = Some c' → control_ok c'.
Proof.
  intros Hc. destruct command; cbn [apply_new_authority_command]; intros Hx;
    try (apply on_control_Ok in Hx as (c & c1 & a & Hcp & Hx & -> & ->); destruct (Hc c Hcp) as [Hok [Hterm Hfit]]; intros [= <-]).
  - run_inv. intros [= <-]. by eapply genesis_control_ok.
  - run_inv. intros Hcp. by apply Hc.
  - done.
  - by eapply apply_issue_control_ok.
  - by eapply apply_register_control_ok.
  - by eapply apply_prepare_control_ok.
  - by eapply apply_finish_control_ok.
  - by eapply apply_finish_control_ok.
  - by eapply apply_set_state_control_ok.
  - by eapply apply_claim_control_ok.
  - by eapply apply_renew_control_ok.
  - by eapply apply_release_control_ok.
Qed.

(** What a command does: nothing, a step of the clock, or a new receipt. *)
Variant command_effect st (command : AuthorityCommand) (log_id : LogId) : AuthorityState → AuthorityResponse → Prop :=
| EffectNone resp :
    successful_response_metadata resp = None ∨ is_Some (receipts st !! command_id command) → command_effect st command log_id st resp
| EffectTime id c proposed :
    command = AdvanceTime id proposed → control_plane st = Some c →
    command_effect st command log_id
      (mkAuthority (sequence st) (receipts st) (Some (set_time (Z.max (logical_time c) proposed) c)))
      (AuthorityTimeAdvanced id (Z.max (logical_time c) proposed) log_id)
| EffectReceipt st' resp :
    canonical_operation_id (command_id command) = Some (command_id command) → receipts st !! command_id command = None →
    Z.of_nat (size (receipts st)) < MAX_AUTHORITY_RECEIPTS →
    (∀ id expected, command = Barrier id (Some expected) → expected = sequence st) →
    apply_new_authority_command st command (sequence st + 1) log_id = Ok (st', resp) →
    command_effect st command log_id
      (mkAuthority (sequence st + 1) (<[command_id command := mkReceipt command resp]> (receipts st)) (control_plane st')) resp.

Lemma canonical_same id id' : canonical_operation_id id = Some id' → id' = id.
Proof. unfold canonical_operation_id. destruct (parse_uuid id); [|done]. case_bool_decide; [|done]. by intros [= <-]. Qed.

Lemma apply_sequenced_effect st command log_id :
  canonical_operation_id (command_id command) = Some (command_id command) →
  let r := apply_sequenced_command st (command_id command) command log_id in command_effect st command log_id r.1 r.2.
Proof.
  intros Hid. unfold apply_sequenced_command. destruct (receipts st !! command_id command) eqn:Hrc; [by destruct (commands_are_same_retry _ _); constructor; right; eexists|].
  destruct (match command with Barrier _ (Some expected) => _ | _ => _ end) eqn:Hbar; [by constructor; left|].
  destruct (MAX_AUTHORITY_RECEIPTS <=? _) eqn:Hsize; [by constructor; left|].
  destruct (checked_add64 (sequence st) 1) as [seq|] eqn:Hseq; [|by constructor; left]. apply checked_add64_Some in Hseq as [-> _].
  destruct (apply_new_authority_command _ _ _ _) as [[st' resp]|] eqn:Hx; [|by constructor; left]. cbn.
  destruct (apply_new_shape _ _ _ _ _ _ Hx) as (_ & -> & _). apply EffectReceipt; try done; [lia|].
  intros id expected ->. lia.
Qed.

Lemma apply_command_effect st command log_id :
  let r := apply_authority_command st command log_id in command_effect st command log_id r.1 r.2.
Proof.
  unfold apply_authority_command. destruct (canonical_operation_id (command_id command)) as [id|] eqn:Hid; [|by constructor; left].
  pose proof (canonical_same _ _ Hid) as ->.
  destruct command; try (by apply apply_sequenced_effect). destruct (control_plane st) eqn:Hc; [|by constructor; left]. by econstructor.
Qed.

Lemma receipt_ok_mono last last' id rc : last <= last' → receipt_ok last id rc → receipt_ok last' id rc.
Proof. intros Hle [R1 R2 (seq & log_id & R3 & R4 & R5 & R6) R7]. split; try done. exists seq, log_id. split_and!; try done. lia. Qed.

(** A command that fits leaves a valid state behind. *)
Lemma apply_command_ok st command log_id :
  authority_ok st → (∀ c, control_plane st = Some c → command_fits c command (lg_term log_id)) →
  (∀ id rc, receipts st !! id = Some rc → receipt_log_id rc ≠ Some log_id) →
  authority_ok (apply_authority_command st command log_id).1.
Proof.
  intros [A1 A2 A3 A4 A5 A6] Hfit Hfresh. destruct (apply_command_effect st command log_id) as [resp|id c proposed -> Hc|st' resp Hid Hnew Hsize Hbar Hx].
  - by split.
  - split; try done. cbn. intros c' [= <-]. destruct (A6 c Hc) as (e & re & ol & Ha & Hl).
    exists e, re, ol. split; [by apply audits_time; [lia|]|by apply live_time; [lia|]].
  - destruct (apply_new_shape _ _ _ _ _ _ Hx) as (_ & _ & Hmeta & Hmatch). split; cbn.
    + rewrite map_size_insert_None by done. lia.
    + rewrite map_size_insert_None by done. lia.
    + intros id rc. rewrite lookup_insert_Some. intros [[<- <-]|[_ Hrc]].
      * split; cbn; try done. exists (sequence st + 1), log_id. split_and!; [done|lia|lia|].
        intros id expected ->. rewrite (Hbar _ _ eq_refl). lia.
      * apply (receipt_ok_mono (sequence st)); [lia|]. by apply A3.
    + apply distinct_insert; [done|]. intros id rc seq Hrc _ Hseq. unfold receipt_sequence in Hseq at 1. cbn in Hseq. rewrite Hmeta in Hseq.
      injection Hseq as <-. destruct (ro_metadata _ _ _ (A3 id rc Hrc)) as (seq & l & Hm & _ & Hle & _). unfold receipt_sequence. rewrite Hm. cbn. intros [= ->]. lia.
    + apply distinct_insert; [done|]. intros id rc l Hrc _ Hl. unfold receipt_log_id in Hl at 1. cbn in Hl. rewrite Hmeta in Hl.
      injection Hl as <-. by apply (Hfresh id).
    + intros c' Hc'. eapply apply_new_control_ok; [|done|done]. intros c Hc. split; [by apply A6|by apply Hfit].
Qed.

(** ** Retries *)

(** The authority after a sequence of committed commands. *)
Definition run_commands st (l : list (AuthorityCommand * LogId)) : AuthorityState :=
  foldl (λ st p, (apply_authority_command st p.1 p.2).1) st l.

Lemma run_commands_ind (P : AuthorityState → Prop) st l :
  P st → (∀ st p, p ∈ l → P st → P (apply_authority_command st p.1 p.2).1) → P (run_commands st l).
Proof.
  intros H0 Hs. revert st H0. induction l as [|p l IH]; intros st H0; cbn; [done|].
  apply IH; [|by apply Hs; [left|]]. intros st' q Hq. apply Hs. by right.
Qed.

Lemma command_keeps_receipts st command log_id id rc :
  receipts st !! id = Some rc → receipts (apply_authority_command st command log_id).1 !! id = Some rc.
Proof.
  intros Hrc. destruct (apply_command_effect st command log_id) as [| |st' resp Hid Hnew Hsize Hbar Hx]; [done|done|].
  cbn. rewrite lookup_insert_ne; [done|]. intros <-. congruence.
Qed.


End commands.

