(* ===== verification/AuthorityLease.v ===== *)
(** * The replicated cluster authority: leases, fencing tokens, the clock and the challenges *)

From S2P Require Import Prelude Authority AuthorityCheck AuthorityToy AuthorityValid AuthorityApply AuthorityJoin AuthorityInv.

#[local] Open Scope Z_scope.

Section lease.
Context `{ClusterExt}.
Implicit Types (c : ReplicatedControlPlaneState) (st : AuthorityState) (o : ClusterAgentOwnership).

(** ** Effects of the operations *)

Definition active c (node : string) : Prop := ∃ m, members c !! node = Some m ∧ mb_state m = MemberActive.

(** The members that stay active. *)
Definition actives_kept c c' : Prop := ∀ node, active c node → active c' node.

(** Every ownership is filed under its agent. *)
Definition keyed c : Prop := ∀ k o, ownerships c !! k = Some o → k = ow_agent_id o.

Lemma active_insert c c' node m : members c' = <[node := m]> (members c) → mb_state m = MemberActive → actives_kept c c'.
Proof.
  intros Hm Hst k (m' & Hk & Hst'). unfold active. rewrite Hm. destruct (decide (k = node)) as [->|].
  - rewrite lookup_insert_eq. by eexists.
  - rewrite lookup_insert_ne by done. by eexists.
Qed.

Lemma register_effect c r challenge signature expected lo hi actor reason proposed c' m' :
  apply_register_member c r challenge signature expected lo hi actor reason proposed = Ok (c', m') →
  logical_time c < logical_time c' ∧ ownerships c' = ownerships c ∧ actives_kept c c'.
Proof.
  intros Hx. unfold apply_register_member in Hx. run_inv.
  match goal with H : validate_challenged_registration _ _ _ _ _ = Ok _ |- _ => apply validate_challenged_Ok in H as (-> & Hlt & _) end.
  match goal with H : match ?x with Some _ => _ | None => _ end = Ok _ |- _ => destruct x; [unfold activate in H|] end;
    run_inv; (split_and!; [done|done|by eapply active_insert]).
Qed.

Lemma prepare_effect c r challenge signature expected ttl overlap actor reason proposed c' p :
  apply_prepare_member_certificate_rollout c r challenge signature expected ttl overlap actor reason proposed = Ok (c', p) →
  logical_time c < logical_time c' ∧ ownerships c' = ownerships c ∧ actives_kept c c'.
Proof.
  intros Hx. unfold apply_prepare_member_certificate_rollout in Hx. run_inv.
  match goal with H : validate_challenged_registration _ _ _ _ _ = Ok _ |- _ => apply validate_challenged_Ok in H as (-> & Hlt & _) end.
  match goal with H : append_member_revision (set_time ?t c) _ _ _ _ _ _ = Ok _ |- _ => apply (append_member_revision_Ok (set_time t c)) in H as (-> & -> & _) end.
  run_inv. bool_hyps. split_and!; [done|done|]. eapply active_insert; [done|]. done.
Qed.

Lemma finish_effect c node expected finish actor reason proposed c' m' :
  apply_finish_member_certificate_rollout c node expected finish actor reason proposed = Ok (c', m') →
  logical_time c < logical_time c' ∧ ownerships c' = ownerships c ∧ actives_kept c c'.
Proof.
  intros Hx. unfold apply_finish_member_certificate_rollout in Hx. run_inv. bool_hyps. split_and!; [done|done|]. by eapply active_insert.
Qed.

Lemma issue_effect c challenge ttl proposed c' ch :
  issue_join_challenge c challenge ttl proposed = Ok (c', ch) →
  logical_time c < logical_time c' ∧ ownerships c' = ownerships c ∧ actives_kept c c'.
Proof. intros Hx. unfold issue_join_challenge in Hx. run_inv. split_and!; [done|done|by intros node]. Qed.

(** The same lease: its agent, owner and fencing token. *)
Definition same_lease o o' : Prop := ow_agent_id o' = ow_agent_id o ∧ ow_owner o' = ow_owner o ∧ ow_token o' = ow_token o.

(** What a revocation of [node] leaves of an ownership. *)
Definition revoked_ownership (node : string) (now : Z) o o' : Prop :=
  if bool_decide (ow_owner o = node) && lease_live now o then same_lease o o' ∧ ow_state o' = OwnReleased else o' = o.

(** How a command changes the ownerships. *)
Variant own_step (command : AuthorityCommand) c c' : Prop :=
| OwnKept : ownerships c' = ownerships c → actives_kept c c' → own_step command c c'
| OwnClaimed id agent owner ttl expected actor reason proposed o' :
    command = ClaimOwnership id agent owner ttl expected actor reason proposed →
    ownerships c' = <[agent := o']> (ownerships c) → members c' = members c →
    ow_agent_id o' = agent → ow_owner o' = owner → ow_state o' = OwnActive → logical_time c' < ow_expires_at o' → active c owner →
    match ownerships c !! agent with
    | None => ow_token o' = 1
    | Some o => ow_token o' = ow_token o + 1 ∧ lease_live (logical_time c') o = false
    end → own_step command c c'
| OwnRenewed id agent token ttl actor reason proposed o o' :
    command = RenewOwnership id agent (ow_owner o) token ttl actor reason proposed →
    ownerships c' = <[agent := o']> (ownerships c) → members c' = members c →
    ownerships c !! agent = Some o → ow_token o = token → lease_live (logical_time c') o = true → same_lease o o' → ow_state o' = OwnActive →
    logical_time c' < ow_expires_at o' → active c (ow_owner o) → own_step command c c'
| OwnReleasedBy id agent token actor reason proposed o o' :
    command = ReleaseOwnership id agent (ow_owner o) token actor reason proposed →
    ownerships c' = <[agent := o']> (ownerships c) → members c' = members c →
    ownerships c !! agent = Some o → ow_token o = token → ow_state o = OwnActive → same_lease o o' → ow_state o' = OwnReleased →
    own_step command c c'
| OwnStateSet id node state expected actor reason proposed m :
    command = SetMemberState id node state expected actor reason proposed → state ≠ MemberActive → mb_state m = state →
    members c' = <[node := m]> (members c) →
    (∀ a o, ownerships c !! a = Some o → ∃ o', ownerships c' !! a = Some o' ∧
      if bool_decide (state = MemberRevoked) then revoked_ownership node (logical_time c') o o'
      else o' = o ∧ (ow_owner o = node → lease_live (logical_time c') o = false)) →
    (∀ a, ownerships c !! a = None → ownerships c' !! a = None) → own_step command c c'.

Lemma claim_effect c id agent owner ttl expected actor reason proposed term c' o' :
  apply_claim_ownership c agent owner ttl expected actor reason proposed term = Ok (c', o') →
  logical_time c < logical_time c' ∧ own_step (ClaimOwnership id agent owner ttl expected actor reason proposed) c c'.
Proof.
  intros Hx. unfold apply_claim_ownership, validate_ownership_request, require_replicated_active_member in Hx. run_inv. bool_hyps.
  match goal with H : match ownerships (set_time ?t c) !! agent with _ => _ end = Ok _ |- _ => rename H into Hprev; set (now := t) in *; cbn in Hprev end.
  assert (Hact : active c owner).
  { destruct (members c !! owner) as [m|] eqn:Hm; [|done]. run_inv. bool_hyps. by exists m. }
  match goal with H : ownership_expiry _ _ = Some _ |- _ => apply expiry_Ok in H; [|done] end.
  destruct (ownerships c !! agent) as [o0|] eqn:Ho; run_inv; (split; [done|]).
  - eapply OwnClaimed; try done. rewrite Ho. cbn. bool_hyps. done.
  - eapply OwnClaimed; try done. by rewrite Ho.
Qed.

Lemma renew_effect c id agent owner token ttl actor reason proposed term c' o' :
  keyed c → apply_renew_ownership c agent owner token ttl actor reason proposed term = Ok (c', o') →
  logical_time c < logical_time c' ∧ own_step (RenewOwnership id agent owner token ttl actor reason proposed) c c'.
Proof.
  intros Hkey Hx. unfold apply_renew_ownership, validate_ownership_request, require_replicated_active_member in Hx. run_inv. bool_hyps.
  match goal with H : holds_lease ?x _ _ = true |- _ => apply holds_lease_spec in H as (Hst & <- & <-); rename x into o1 end.
  assert (Hact : active c (ow_owner o1)).
  { destruct (members c !! ow_owner o1) as [m|] eqn:Hm; [|done]. run_inv. bool_hyps. by exists m. }
  match goal with H : ownership_expiry _ _ = Some _ |- _ => apply expiry_Ok in H; [|done] end.
  match goal with H : ownerships c !! agent = Some o1 |- _ => pose proof (Hkey _ _ H) as Hk end.
  split; [done|]. eapply (OwnRenewed _ _ _ id agent); try done; cbn; try done.
  unfold lease_live. rewrite Hst, bool_decide_eq_true_2 by done. cbn. lia.
Qed.

Lemma release_effect c id agent owner token actor reason proposed term c' o' :
  keyed c → apply_release_ownership c agent owner token actor reason proposed term = Ok (c', o') →
  logical_time c < logical_time c' ∧ own_step (ReleaseOwnership id agent owner token actor reason proposed) c c'.
Proof.
  intros Hkey Hx. unfold apply_release_ownership in Hx. run_inv. bool_hyps.
  match goal with H : holds_lease ?x _ _ = true |- _ => apply holds_lease_spec in H as (Hst & <- & <-); rename x into o1 end.
  split; [done|]. by eapply (OwnReleasedBy _ _ _ id agent).
Qed.

(** The releases of a revocation change the ownerships of the list and nothing else. *)
Lemma release_loop_effect node actor reason term now l c c' :
  NoDup (ow_agent_id <$> l) → (∀ o, o ∈ l → ownerships c !! ow_agent_id o = Some o ∧ ow_owner o = node) →
  try_fold (release_owned node actor reason term now) l c = Ok c' →
  members c' = members c ∧ logical_time c' = logical_time c ∧
  (∀ o, o ∈ l → ∃ o', ownerships c' !! ow_agent_id o = Some o' ∧ same_lease o o' ∧ ow_state o' = OwnReleased) ∧
  (∀ a, a ∉ ow_agent_id <$> l → ownerships c' !! a = ownerships c !! a).
Proof.
  revert c. induction l as [|o l IH]; intros c Hnd Hl Hx; cbn [try_fold] in Hx.
  { injection Hx as <-. split_and!; try done. by intros o ?%elem_of_nil. }
  apply bind_Ok in Hx as (c1 & Hc1 & Hx). unfold release_owned in Hc1. run_inv. cbn in Hnd. apply NoDup_cons in Hnd as [Hni Hnd].
  match goal with H : try_fold _ l ?x = Ok _ |- _ => destruct (IH x) as (Hm & Ht & Hin & Hout); [done| |done|] end.
  - intros o2 Ho2. destruct (Hl o2) as [? ?]; [by right|]. split; [|done]. cbn. rewrite lookup_insert_ne; [done|].
    intros Heq. apply Hni. rewrite Heq. by apply list_elem_of_fmap_2.
  - destruct (Hl o) as [Ho Hown]; [by left|]. split_and!; [done|done| |].
    + intros o2 [->|Ho2]%elem_of_cons; [|by apply Hin]. rewrite Hout by done. cbn. rewrite lookup_insert_eq. eexists. split; [done|].
      by repeat split.
    + intros a [Ha1 Ha2]%not_elem_of_cons. rewrite Hout by done. cbn. by rewrite lookup_insert_ne.
Qed.

(** The live leases of a node. *)
Definition held_by c (node : string) (now : Z) : list ClusterAgentOwnership :=
  retain (λ o, bool_decide (ow_owner o = node) && lease_live now o) (entries (ownerships c)).*2.

Lemma elem_of_held_by c node now o :
  keyed c → o ∈ held_by c node now ↔ ownerships c !! ow_agent_id o = Some o ∧ ow_owner o = node ∧ lease_live now o = true.
Proof.
  intros Hok. unfold held_by. rewrite elem_of_retain, elem_of_values, andb_true_iff, bool_decide_eq_true.
  split; intros [Ho Hf]; (split; [|done]); [|by eexists]. destruct Ho as [k Hk]. by rewrite <- (Hok k o Hk).
Qed.

Lemma revoke_effect c node actor reason term now c1 :
  keyed c → try_fold (release_owned node actor reason term now) (held_by c node now) (set_time now c) = Ok c1 →
  members c1 = members c ∧ logical_time c1 = now ∧
  (∀ a o, ownerships c !! a = Some o → ∃ o', ownerships c1 !! a = Some o' ∧ revoked_ownership node now o o') ∧
  (∀ a, ownerships c !! a = None → ownerships c1 !! a = None).
Proof.
  intros Hkey Hx. pose proof Hkey as Hok. apply release_loop_effect in Hx as (E1 & E2 & E3 & E4).
  - split_and!; [done|done| |].
    + intros a o Ho. pose proof (Hok a o Ho) as Ha. unfold revoked_ownership. destruct (_ && _) eqn:Hf.
      * bool_hyps. destruct (E3 o) as (o' & Ho' & Hs); [apply elem_of_held_by; [done|]; by rewrite <- Ha|]. exists o'. by rewrite Ha.
      * exists o. split; [|done]. rewrite E4; [done|]. intros (o2 & -> & (Ho2 & Hown & Hlive)%elem_of_held_by)%list_elem_of_fmap; [|done].
        assert (o2 = o) as -> by (cbn in *; congruence). by rewrite bool_decide_eq_true_2, Hlive in Hf.
    + intros a Hn. rewrite E4; [done|]. intros (o2 & -> & (Ho2 & _)%elem_of_held_by)%list_elem_of_fmap; [|done]. cbn in *. congruence.
  - eapply sublist_NoDup; [by apply (values_NoDup ow_agent_id), Hok|]. apply fmap_sublist, retain_sublist.
  - intros o (Ho & Hown & _)%elem_of_held_by; [|done]. done.
Qed.

Lemma set_state_effect c id node state expected actor reason proposed term c' m' :
  keyed c → apply_set_member_state c node state expected actor reason proposed term = Ok (c', m') →
  logical_time c < logical_time c' ∧ own_step (SetMemberState id node state expected actor reason proposed) c c'.
Proof.
  intros Hkey Hx. unfold apply_set_member_state, require_membership_audit_capacity in Hx. run_inv. bool_hyps.
  match goal with H : (if bool_decide (state = MemberRevoked) then _ else Ok (set_time ?t c)) = Ok ?x |- _ =>
    rename H into Hrel; set (now := t) in *; rename x into c1 end.
  match goal with H : bool_decide (state = MemberLeft) && negb (bool_decide (retain _ _ = [])) = false |- _ => rename H into Hleft end.
  fold (held_by (set_time now c) node now) in *. change (held_by (set_time now c) node now) with (held_by c node now) in *.
  assert (members c1 = members c ∧ logical_time c1 = now ∧ (∀ a o, ownerships c !! a = Some o → ∃ o', ownerships c1 !! a = Some o' ∧
      if bool_decide (state = MemberRevoked) then revoked_ownership node now o o'
      else o' = o ∧ (ow_owner o = node → lease_live now o = false)) ∧
      (∀ a, ownerships c !! a = None → ownerships c1 !! a = None)) as (Hm1 & Ht1 & Ho1 & Hn1).
  { case_bool_decide as Hrev; run_inv; [by eapply revoke_effect|]. split_and!; try done. intros a o Ho. exists o. split_and!; [done|done|].
    intros Hown. assert (state = MemberLeft) as -> by (by destruct state). rewrite bool_decide_eq_true_2 in Hleft by done. cbn in Hleft. bool_hyps.
    destruct (lease_live now o) eqn:Hlive; [|done]. exfalso. assert (Hin : o ∈ held_by c node now).
    { apply elem_of_held_by; [done|]. by rewrite <- (Hkey a o Ho). }
    match goal with H : held_by c node now = [] |- _ => rewrite H in Hin end. by apply elem_of_nil in Hin. }
  clear Hrel. destruct (certificate_rollouts c !! node) as [ro|]; run_inv; cbn; (split; [congruence|]);
    (eapply OwnStateSet; [done|done| |cbn; by rewrite Hm1|..]; cbn; rewrite ?Ht1; done).
Qed.

(** ** Commands *)

Lemma keyed_step command c c' : own_step command c c' → keyed c → keyed c'.
Proof.
  intros Hs Hk a o'. destruct Hs as [Hs _|id agent owner ttl expected actor reason proposed o1 -> Hs _ <- _ _ _ _ _
    |id agent token ttl actor reason proposed o o1 -> Hs _ Ho _ _ [Heq _] _ _ _
    |id agent token actor reason proposed o o1 -> Hs _ Ho _ _ [Heq _] _|id node state expected actor reason proposed m -> _ _ _ Hs Hn].
  - rewrite Hs. apply Hk.
  - rewrite Hs, lookup_insert_Some. intros [[<- <-]|[_ Ho]]; [done|by apply Hk].
  - rewrite Hs, lookup_insert_Some. intros [[<- <-]|[_ Ho']]; [rewrite Heq|]; by apply Hk.
  - rewrite Hs, lookup_insert_Some. intros [[<- <-]|[_ Ho']]; [rewrite Heq|]; by apply Hk.
  - intros Ho'. destruct (ownerships c !! a) as [o|] eqn:Ho; [|by rewrite (Hn a Ho) in Ho'].
    destruct (Hs a o Ho) as (o2 & Ho2 & Hx). assert (o2 = o') as -> by congruence. rewrite (Hk a o Ho).
    case_bool_decide; [|by destruct Hx as [-> _]]. unfold revoked_ownership in Hx. destruct (_ && _); [|by subst].
    symmetry. by apply Hx.
Qed.

Lemma own_same command c t : own_step command c (set_time t c).
Proof. apply OwnKept; [done|by intros node]. Qed.

Lemma command_own st command log_id c :
  control_plane st = Some c → keyed c →
  ∃ c', control_plane (apply_authority_command st command log_id).1 = Some c' ∧ logical_time c <= logical_time c' ∧ own_step command c c'.
Proof.
  intros Hc Hk. destruct (apply_command_effect st command log_id) as [resp _|id c0 proposed -> Hc0|st' resp Hid Hnew Hsize Hbar Hx].
  - exists c. split_and!; [done|lia|by apply OwnKept; [|intros node]].
  - assert (c0 = c) as -> by congruence. eexists. split_and!; [done|cbn; lia|apply own_same].
  - cbn. destruct command; cbn [apply_new_authority_command] in Hx;
      try (apply on_control_Ok in Hx as (c0 & c1 & a & Hcp & Hx & -> & ->); assert (c0 = c) as -> by congruence; exists c1).
    + run_inv. by rewrite Hc in *.
    + run_inv. exists c. split_and!; [done|lia|by apply OwnKept; [|intros node]].
    + done.
    + apply issue_effect in Hx as (? & ? & ?). split_and!; [done|lia|by apply OwnKept].
    + apply register_effect in Hx as (? & ? & ?). split_and!; [done|lia|by apply OwnKept].
    + apply prepare_effect in Hx as (? & ? & ?). split_and!; [done|lia|by apply OwnKept].
    + apply finish_effect in Hx as (? & ? & ?). split_and!; [done|lia|by apply OwnKept].
    + apply finish_effect in Hx as (? & ? & ?). split_and!; [done|lia|by apply OwnKept].
    + eapply set_state_effect in Hx as [? ?]; [|done]. split_and!; [done|lia|done].
    + eapply claim_effect in Hx as [? ?]. split_and!; [done|lia|done].
    + eapply renew_effect in Hx as [? ?]; [|done]. split_and!; [done|lia|done].
    + eapply release_effect in Hx as [? ?]; [|done]. split_and!; [done|lia|done].
Qed.

(** ** Invariants of the reachable states *)

Lemma live_mono now now' o : now <= now' → lease_live now' o = true → lease_live now o = true.
Proof. unfold lease_live. intros Hle Hx. bool_hyps. rewrite bool_decide_eq_true_2 by done. cbn. lia. Qed.

(** Every lease that runs belongs to an active member. *)
Definition leases_held c : Prop := ∀ a o, ownerships c !! a = Some o → lease_live (logical_time c) o = true → active c (ow_owner o).

Lemma active_same c c' node : members c' = members c → active c node → active c' node.
Proof. unfold active. by intros ->. Qed.

Lemma leases_held_step command c c' : own_step command c c' → logical_time c <= logical_time c' → leases_held c → leases_held c'.
Proof.
  intros Hs Ht Hh a o' Ho' Hlive.
  destruct Hs as [Hs Hk|id agent owner ttl expected actor reason proposed o1 -> Hs Hm _ <- _ _ Hact _
    |id agent token ttl actor reason proposed o o1 -> Hs Hm Ho _ _ (_ & Heq & _) _ _ Hact
    |id agent token actor reason proposed o o1 -> Hs Hm Ho _ _ _ Hrel|id node state expected actor reason proposed m -> Hna Hst Hm Hs Hn].
  - rewrite Hs in Ho'. apply Hk, (Hh a); [done|]. by eapply live_mono.
  - rewrite Hs, lookup_insert_Some in Ho'. apply (active_same _ _ _ Hm). destruct Ho' as [[_ <-]|[_ Ho']]; [done|].
    apply (Hh a); [done|]. by eapply live_mono.
  - rewrite Hs, lookup_insert_Some in Ho'. apply (active_same _ _ _ Hm). destruct Ho' as [[_ <-]|[_ Ho']]; [by rewrite Heq|].
    apply (Hh a); [done|]. by eapply live_mono.
  - rewrite Hs, lookup_insert_Some in Ho'. apply (active_same _ _ _ Hm). destruct Ho' as [[_ <-]|[_ Ho']].
    { unfold lease_live in Hlive. rewrite Hrel in Hlive. by bool_hyps. }
    apply (Hh a); [done|]. by eapply live_mono.
  - destruct (ownerships c !! a) as [o|] eqn:Ho; [|by rewrite (Hn a Ho) in Ho'].
    destruct (Hs a o Ho) as (o2 & Ho2 & Hx). assert (o2 = o') as -> by congruence. clear Ho2.
    assert (o' = o ∧ ow_owner o ≠ node) as [-> Hne].
    { case_bool_decide as Hrev.
      - unfold revoked_ownership in Hx. destruct (_ && _) eqn:Hb; [|subst o'; split; [done|]].
        + destruct Hx as [_ Hrel]. unfold lease_live in Hlive. rewrite Hrel in Hlive. by bool_hyps.
        + intros Hown. by rewrite bool_decide_eq_true_2, Hlive in Hb.
      - destruct Hx as [-> Hx]. split; [done|]. intros Hown. by rewrite (Hx Hown) in Hlive. }
    destruct (Hh a o Ho) as (m' & Hm' & Hst'); [by eapply live_mono|]. exists m'. rewrite Hm, lookup_insert_ne by done. done.
Qed.

Definition leases_ok st : Prop := ∀ c, control_plane st = Some c → keyed c ∧ leases_held c.

Lemma leases_ok_step st command log_id : leases_ok st → leases_ok (apply_authority_command st command log_id).1.
Proof.
  intros Hok c' Hc'. destruct (control_plane st) as [c|] eqn:Hc.
  - destruct (Hok c Hc) as [Hk Hh]. destruct (command_own st command log_id c Hc Hk) as (c1 & Hc1 & Ht & Hs).
    assert (c1 = c') as -> by congruence. split; [by eapply keyed_step|by eapply leases_held_step].
  - destruct (apply_command_effect st command log_id) as [|id c0 proposed -> Hc0|st' resp Hid Hnew Hsize Hbar Hx]; [congruence|congruence|].
    cbn in Hc'. destruct command; cbn [apply_new_authority_command] in Hx;
      try (apply on_control_Ok in Hx as (c0 & c1 & a & Hcp & Hx & -> & ->); congruence); run_inv; [|congruence].
    cbn in Hc'. injection Hc' as ->. match goal with H : validate_and_build_genesis _ _ = Ok _ |- _ => unfold validate_and_build_genesis in H end.
    run_inv. split; intros a o; cbn; by rewrite lookup_empty.
Qed.

Lemma reachable_leases_ok l : leases_ok (run_commands empty_authority l).
Proof. apply run_commands_ind; [done|]. intros st p _. apply leases_ok_step. Qed.

(** C18. In every reachable state of the authority, whatever commands were committed, an ownership whose lease runs
    belongs to a member that is active: a member can leave only when none of its leases runs, and a
    revocation releases the leases of the revoked member. *)
Theorem leases_belong_to_members l c a o :
  control_plane (run_commands empty_authority l) = Some c → ownerships c !! a = Some o → lease_live (logical_time c) o = true →
  active c (ow_owner o).
Proof. intros Hc Ho Hlive. by apply (proj2 (reachable_leases_ok l c Hc) a). Qed.

(** ** Fencing tokens *)

(** [o'] is the lease [o], which once released stays released, or a later one with a larger token. *)
Definition fences o o' : Prop :=
  ow_token o <= ow_token o' ∧
  (ow_token o' = ow_token o → ow_owner o' = ow_owner o ∧ (ow_state o = OwnReleased → ow_state o' = OwnReleased)).

#[local] Instance fences_preorder : PreOrder fences.
Proof.
  split; [by intros o|]. intros o1 o2 o3 [H1 E1] [H2 E2]. split; [lia|]. intros Heq.
  destruct E1 as [? ?]; [lia|]. destruct E2 as [? ?]; [lia|]. split; [congruence|auto].
Qed.

Lemma same_lease_fences o o' : same_lease o o' → ow_state o = OwnActive → fences o o'.
Proof. intros (_ & Hown & Htok) Hst. split; [lia|]. intros _. split; [done|]. congruence. Qed.

Lemma fences_step command c c' a o : own_step command c c' → ownerships c !! a = Some o → ∃ o', ownerships c' !! a = Some o' ∧ fences o o'.
Proof.
  intros Hs Ho. destruct Hs as [Hs _|id agent owner ttl expected actor reason proposed o1 -> Hs _ _ _ _ _ _ Hprev
    |id agent token ttl actor reason proposed o0 o1 -> Hs _ Ho0 _ Hlive Hsame _ _ _
    |id agent token actor reason proposed o0 o1 -> Hs _ Ho0 _ Hst Hsame _|id node state expected actor reason proposed m -> _ _ _ Hs _].
  - exists o. by rewrite Hs.
  - rewrite Hs. destruct (decide (a = agent)) as [->|Hne]; [|by exists o; rewrite lookup_insert_ne].
    exists o1. rewrite lookup_insert_eq. rewrite Ho in Hprev. split; [done|]. split; lia.
  - rewrite Hs. destruct (decide (a = agent)) as [->|Hne]; [|by exists o; rewrite lookup_insert_ne].
    exists o1. rewrite lookup_insert_eq. assert (o0 = o) as -> by congruence. split; [done|].
    apply same_lease_fences; [done|]. unfold lease_live in Hlive. by bool_hyps.
  - rewrite Hs. destruct (decide (a = agent)) as [->|Hne]; [|by exists o; rewrite lookup_insert_ne].
    exists o1. rewrite lookup_insert_eq. assert (o0 = o) as -> by congruence. split; [done|]. by apply same_lease_fences.
  - destruct (Hs a o Ho) as (o' & Ho' & Hx). exists o'. split; [done|]. case_bool_decide; [|by destruct Hx as [-> _]].
    unfold revoked_ownership in Hx. destruct (_ && _) eqn:Hb; [|by subst]. destruct Hx as [Hsame _].
    apply same_lease_fences; [done|]. unfold lease_live in Hb. by bool_hyps.
Qed.

(** The ownership of an agent. *)
Definition ownership_of st (a : string) : option ClusterAgentOwnership := c ← control_plane st; ownerships c !! a.

Lemma ownership_of_Some st a o : ownership_of st a = Some o ↔ ∃ c, control_plane st = Some c ∧ ownerships c !! a = Some o.
Proof. unfold ownership_of. rewrite bind_Some. done. Qed.

Lemma run_commands_app st l1 l2 : run_commands st (l1 ++ l2) = run_commands (run_commands st l1) l2.
Proof. apply foldl_app. Qed.

(** C5. Between any two moments of the authority's history an agent that was owned stays recorded, its fencing
    token never decreases, and a token names one owner only: while the token is the same the owner is the same,
    and an ownership that was released stays released until a claim with a larger token. *)
Theorem fencing_tokens l1 l2 a o :
  ownership_of (run_commands empty_authority l1) a = Some o →
  ∃ o', ownership_of (run_commands empty_authority (l1 ++ l2)) a = Some o' ∧ ow_token o <= ow_token o' ∧
    (ow_token o' = ow_token o → ow_owner o' = ow_owner o ∧ (ow_state o = OwnReleased → ow_state o' = OwnReleased)).
Proof.
  intros Ho. rewrite run_commands_app. set (st := run_commands empty_authority l1) in *.
  assert (Hok : leases_ok st) by apply reachable_leases_ok. clearbody st.
  enough (leases_ok (run_commands st l2) ∧ ∃ o', ownership_of (run_commands st l2) a = Some o' ∧ fences o o') as [_ Hx] by exact Hx.
  apply (run_commands_ind (λ st', leases_ok st' ∧ ∃ o', ownership_of st' a = Some o' ∧ fences o o')); [split; [done|]; by exists o|].
  intros st' p _ [Hok' (o1 & (c & Hc & Ho1)%ownership_of_Some & Hf)]. split; [by apply leases_ok_step|].
  destruct (command_own st' p.1 p.2 c Hc (proj1 (Hok' c Hc))) as (c' & Hc' & _ & Hs).
  destruct (fences_step _ _ _ _ _ Hs Ho1) as (o2 & Ho2 & Hf2). exists o2. split; [apply ownership_of_Some; by exists c'|by etrans].
Qed.

(** ** Exclusive leases *)

(** The clock of the authority never goes back. *)
Lemma clock_mono st l c :
  leases_ok st → control_plane st = Some c → ∃ c', control_plane (run_commands st l) = Some c' ∧ logical_time c <= logical_time c'.
Proof.
  intros Hok Hc. enough (leases_ok (run_commands st l) ∧ ∃ c', control_plane (run_commands st l) = Some c' ∧ logical_time c <= logical_time c') by tauto.
  apply (run_commands_ind (λ s, leases_ok s ∧ ∃ c', control_plane s = Some c' ∧ logical_time c <= logical_time c')); [split; [done|]; by exists c|].
  intros s p _ [Hoks (c1 & Hc1 & Hle)]. split; [by apply leases_ok_step|].
  destruct (command_own s p.1 p.2 c1 Hc1 (proj1 (Hoks c1 Hc1))) as (c2 & Hc2 & Hle2 & _). exists c2. split; [done|lia].
Qed.

(** The command is about the lease: its holder renews or releases it, or is revoked. *)
Definition concerns o (command : AuthorityCommand) : bool :=
  match command with
  | RenewOwnership _ agent _ _ _ _ _ _ | ReleaseOwnership _ agent _ _ _ _ _ => bool_decide (agent = ow_agent_id o)
  | SetMemberState _ node MemberRevoked _ _ _ _ => bool_decide (node = ow_owner o)
  | _ => false
  end.

Lemma unconcerned_step command c c' o :
  own_step command c c' → ownerships c !! ow_agent_id o = Some o → ow_state o = OwnActive → logical_time c' < ow_expires_at o →
  concerns o command = false → ownerships c' !! ow_agent_id o = Some o.
Proof.
  intros Hs Ho Hst Ht Hc. assert (Hlive : lease_live (logical_time c') o = true).
  { unfold lease_live. rewrite bool_decide_eq_true_2 by done. cbn. lia. }
  destruct Hs as [Hs _|id agent owner ttl expected actor reason proposed o1 -> Hs _ _ _ _ _ _ Hprev
    |id agent token ttl actor reason proposed o0 o1 -> Hs _ Ho0 _ _ _ _ _ _
    |id agent token actor reason proposed o0 o1 -> Hs _ Ho0 _ _ _ _|id node state expected actor reason proposed m -> _ _ _ Hs _]; cbn in Hc.
  - by rewrite Hs.
  - rewrite Hs. destruct (decide (agent = ow_agent_id o)) as [->|Hne]; [|by rewrite lookup_insert_ne].
    rewrite Ho in Hprev. destruct Hprev. congruence.
  - bool_hyps. by rewrite Hs, lookup_insert_ne.
  - bool_hyps. by rewrite Hs, lookup_insert_ne.
  - destruct (Hs _ o Ho) as (o' & Ho' & Hx). rewrite Ho'. f_equal. case_bool_decide as Hrev; [|by destruct Hx].
    subst state. bool_hyps. unfold revoked_ownership in Hx. by rewrite bool_decide_eq_false_2 in Hx.
Qed.


(** ** Challenges *)

(** The challenge can still be answered. *)
Definition usable c (challenge_hex : string) : Prop :=
  ∃ bytes ch, decode_32 challenge_hex = Some bytes ∧ join_challenges c !! sha256_hex bytes = Some ch ∧ ch_hex ch = challenge_hex ∧
    ch_consumed_at ch = None.

Lemma challenged_usable c r challenge signature proposed c' now hash :
  validate_challenged_registration c r challenge signature proposed = Ok (c', now, hash) →
  usable c challenge ∧ c' = set_time now c ∧ ∃ bytes, decode_32 challenge = Some bytes ∧ hash = sha256_hex bytes.
Proof.
  intros Hx. pose proof (validate_challenged_Ok _ _ _ _ _ _ _ _ Hx) as (Hc & _). unfold validate_challenged_registration in Hx. run_inv. bool_hyps.
  split_and!; [by do 2 eexists|done|by eexists].
Qed.

(** Answering a challenge uses it up, and revives no other. *)
Lemma consume_usable c c' bytes challenge challenge' now :
  decode_32 challenge = Some bytes → join_challenges c' = join_challenges (consume_join_challenge c (sha256_hex bytes) now) →
  usable c' challenge' → usable c challenge' ∧ challenge' ≠ challenge.
Proof.
  intros Hb Hj (b & ch & Hb' & Hl & Hh & Hc). rewrite Hj in Hl. cbn in Hl. apply lookup_alter_Some in Hl as [(Heq & ch0 & Hl & ->)|[Hne Hl]]; [done|].
  split; [by exists b, ch|]. intros ->. congruence.
Qed.

Lemma release_loop_challenges node actor reason term now l c c' :
  try_fold (release_owned node actor reason term now) l c = Ok c' → join_challenges c' = join_challenges c.
Proof.
  apply (try_fold_ind _ (λ _ c', join_challenges c' = join_challenges c)); [done|].
  intros k o s s' IH Hx. unfold release_owned in Hx. run_inv. done.
Qed.

(** The command answers the challenge. *)
Definition answers (command : AuthorityCommand) : option string :=
  match command with
  | RegisterMember _ _ challenge _ _ _ _ _ _ _ | PrepareMemberCertificateRollout _ _ challenge _ _ _ _ _ _ _ => Some challenge
  | _ => None
  end.

Definition issues (command : AuthorityCommand) : option string :=
  match command with IssueJoinChallenge _ challenge _ _ => Some challenge | _ => None end.

Lemma register_challenges c r challenge signature expected lo hi actor reason proposed c' m' challenge' :
  apply_register_member c r challenge signature expected lo hi actor reason proposed = Ok (c', m') →
  usable c challenge ∧ (usable c' challenge' → usable c challenge' ∧ challenge' ≠ challenge).
Proof.
  intros Hx. unfold apply_register_member in Hx. run_inv.
  match goal with H : validate_challenged_registration _ _ _ _ _ = Ok _ |- _ => apply challenged_usable in H as (Hu & -> & bytes & Hb & ->) end.
  split; [done|]. match goal with H : match ?x with Some _ => _ | None => _ end = Ok _ |- _ => destruct x; [unfold activate in H|] end; run_inv;
    by eapply consume_usable.
Qed.

Lemma prepare_challenges c r challenge signature expected ttl overlap actor reason proposed c' p challenge' :
  apply_prepare_member_certificate_rollout c r challenge signature expected ttl overlap actor reason proposed = Ok (c', p) →
  usable c challenge ∧ (usable c' challenge' → usable c challenge' ∧ challenge' ≠ challenge).
Proof.
  intros Hx. unfold apply_prepare_member_certificate_rollout in Hx. run_inv.
  match goal with H : validate_challenged_registration _ _ _ _ _ = Ok _ |- _ => apply challenged_usable in H as (Hu & -> & bytes & Hb & ->) end.
  match goal with H : append_member_revision (set_time ?t c) _ _ _ _ _ _ = Ok _ |- _ => apply (append_member_revision_Ok (set_time t c)) in H as (-> & -> & _) end.
  run_inv. split; [done|]. by eapply consume_usable.
Qed.

Lemma issue_challenges c challenge ttl proposed c' ch challenge' :
  issue_join_challenge c challenge ttl proposed = Ok (c', ch) → usable c' challenge' → challenge' ≠ challenge → usable c challenge'.
Proof.
  intros Hx (b & ch' & Hb & Hl & Hh & Hc) Hne. unfold issue_join_challenge in Hx. run_inv. cbn in Hl.
  apply lookup_insert_Some in Hl as [[_ <-]|[_ Hl]]; [done|]. apply map_lookup_filter_Some in Hl as [Hl _]. by exists b, ch'.
Qed.

Lemma revoke_challenges (b x : bool) node actor reason term now l c c' :
  (if b then _ ← ensure x CapacityReached; try_fold (release_owned node actor reason term now) l c else Ok c) = Ok c' →
  join_challenges c' = join_challenges c.
Proof. destruct b; [|by intros [= <-]]. intros (u & _ & Hx)%bind_Ok. by apply release_loop_challenges in Hx. Qed.

Lemma set_state_challenges c node state expected actor reason proposed term c' m' :
  apply_set_member_state c node state expected actor reason proposed term = Ok (c', m') → join_challenges c' = join_challenges c.
Proof.
  intros Hx. unfold apply_set_member_state in Hx. run_inv.
  match goal with H : (if bool_decide (state = MemberRevoked) then _ else Ok (set_time ?t c)) = Ok ?x |- _ => apply revoke_challenges in H; rename H into Hc end.
  destruct (certificate_rollouts c !! node); run_inv; exact Hc.
Qed.

(** The challenges that a command leaves usable were usable before, or it issued them; those it answers are used up. *)
Lemma command_usable st command log_id c' challenge :
  control_plane (apply_authority_command st command log_id).1 = Some c' → usable c' challenge → issues command ≠ Some challenge →
  ∃ c, control_plane st = Some c ∧ usable c challenge ∧
    ((apply_authority_command st command log_id).1 = st ∨ answers command ≠ Some challenge).
Proof.
  intros Hc'. destruct (apply_command_effect st command log_id) as [resp _|id c0 proposed -> Hc0|st' resp Hid Hnew Hsize Hbar Hx]; intros Hu Hi.
  - exists c'. split_and!; [done|done|by left].
  - injection Hc' as <-. exists c0. split_and!; [done|done|by right].
  - cbn in Hc'. destruct command; cbn [apply_new_authority_command] in Hx;
      try (apply on_control_Ok in Hx as (c & c1 & a & Hcp & Hx & -> & ->); injection Hc' as <-; exists c; split; [done|]); cbn in Hi.
    + run_inv. injection Hc' as ->. match goal with H : validate_and_build_genesis _ _ = Ok _ |- _ => unfold validate_and_build_genesis in H end.
      run_inv. destruct Hu as (b & ch & _ & Hl & _). cbn in Hl. by rewrite lookup_empty in Hl.
    + run_inv. exists c'. split_and!; [done|done|by right].
    + done.
    + split; [|by right]. eapply issue_challenges; [done..|]. congruence.
    + apply (register_challenges _ _ _ _ _ _ _ _ _ _ _ _ challenge) in Hx as [_ Hx]. destruct (Hx Hu). split; [done|right; cbn; congruence].
    + destruct a. apply (prepare_challenges _ _ _ _ _ _ _ _ _ _ _ _ challenge) in Hx as [_ Hx]. destruct (Hx Hu). split; [done|right; cbn; congruence].
    + split; [|by right]. unfold apply_finish_member_certificate_rollout in Hx. run_inv. exact Hu.
    + split; [|by right]. unfold apply_finish_member_certificate_rollout in Hx. run_inv. exact Hu.
    + split; [|by right]. apply set_state_challenges in Hx. unfold usable in *. by rewrite Hx in Hu.
    + split; [|by right]. unfold apply_claim_ownership in Hx. run_inv. exact Hu.
    + split; [|by right]. unfold apply_renew_ownership in Hx. run_inv. exact Hu.
    + split; [|by right]. unfold apply_release_ownership in Hx. run_inv. exact Hu.
Qed.

Lemma spent_kept st l challenge :
  (∀ c, control_plane st = Some c → ¬ usable c challenge) → Forall (λ p, issues p.1 ≠ Some challenge) l →
  ∀ c, control_plane (run_commands st l) = Some c → ¬ usable c challenge.
Proof.
  intros H0 Hl. apply (run_commands_ind (λ s, ∀ c, control_plane s = Some c → ¬ usable c challenge)); [done|].
  intros s p Hp IH c Hc Hu. rewrite Forall_forall in Hl. destruct (command_usable s p.1 p.2 c challenge) as (c0 & Hc0 & Hu0 & _); [done|done|by apply Hl|].
  by apply (IH c0).
Qed.

(** The command of a used challenge changes nothing. *)
Lemma spent_refused st command log_id challenge :
  answers command = Some challenge → (∀ c, control_plane st = Some c → ¬ usable c challenge) →
  (apply_authority_command st command log_id).1 = st.
Proof.
  intros Ha Hsp. destruct (apply_command_effect st command log_id) as [resp _|id c0 proposed -> Hc0|st' resp Hid Hnew Hsize Hbar Hx]; [done|done|].
  exfalso. destruct command; try done; cbn [apply_new_authority_command] in Hx; cbn in Ha; injection Ha as <-;
    apply on_control_Ok in Hx as (c & c1 & a & Hcp & Hx & -> & ->); apply (Hsp c Hcp).
  - by apply (register_challenges _ _ _ _ _ _ _ _ _ _ _ _ EmptyString) in Hx as [Hx _].
  - destruct a. by apply (prepare_challenges _ _ _ _ _ _ _ _ _ _ _ _ EmptyString) in Hx as [Hx _].
Qed.

(** C16. A challenge admits one registration: once a registration or a rollout preparation that answers it has been
    accepted, every later command that answers the same challenge changes nothing, until the challenge is issued again. *)
Theorem challenges_are_single_use st command log_id l command' log_id' challenge :
  answers command = Some challenge → (apply_authority_command st command log_id).1 ≠ st →
  Forall (λ p, issues p.1 ≠ Some challenge) l → answers command' = Some challenge →
  let st' := run_commands (apply_authority_command st command log_id).1 l in
  (apply_authority_command st' command' log_id').1 = st'.
Proof.
  intros Ha Hne Hl Ha' st'. apply (spent_refused _ _ _ challenge); [done|]. apply spent_kept; [|done]. intros c Hc Hu.
  destruct (command_usable st command log_id c challenge) as (c0 & _ & _ & [?|?]); try done. by destruct command.
Qed.

End lease.

Lemma leases_belong_to_members_witness : active (control_of (run_commands empty_authority toy_claim)) "una".
Proof.
  apply (leases_belong_to_members toy_claim _ "ux" toy_lease); vm_compute; reflexivity.
Defined.

(** The second node takes the agent over when the lease of the first has expired. *)
Lemma fencing_tokens_witness :
  ∃ o', ownership_of (run_commands empty_authority (toy_claim ++ toy_takeover)) "ux" = Some o' ∧ 1 <= ow_token o' ∧ ow_owner o' = "unb".
Proof.
  destruct (fencing_tokens toy_claim toy_takeover "ux" toy_lease) as (o' & Ho' & Hle & _); [vm_compute; reflexivity|].
  exists o'. split; [exact Ho'|]. split; [exact Hle|]. vm_compute in Ho'. by injection Ho' as <-.
Defined.


(** The challenge of the registration that activates the rollover cannot be answered twice. *)
Lemma challenges_are_single_use_witness :
  let used := run_commands empty_authority (toy_log 1 (take 4 toy_rollover)) in
  let st' := (apply_authority_command used toy_activation (mkLogId 1 1 5)).1 in
  (apply_authority_command st' toy_reuse (mkLogId 1 1 6)).1 = st'.
Proof.
  apply (challenges_are_single_use (run_commands empty_authority (toy_log 1 (take 4 toy_rollover))) toy_activation (mkLogId 1 1 5) []
    toy_reuse (mkLogId 1 1 6) toy_used); [reflexivity| |constructor|reflexivity].
  intros Heq. apply (f_equal sequence) in Heq. vm_compute in Heq. discriminate.
Defined.
