(* ===== verification/RaftStore.v ===== *)
(** * The durable Raft store of the cluster authority

    [cluster_consensus.rs]: the log, the votes and the pointers of [ClusterRaftLogStore], the state machine
    and the snapshots of [ClusterRaftStateMachine].  The tables are a record; a column of JSON is the value that
    it encodes.  Openraft's votes and memberships are parameters, as is the encoding of a snapshot, which
    travels between replicas as bytes. *)

From stdpp Require Import pretty.
From S2P Require Import Prelude Authority AuthorityCheck.

#[local] Open Scope Z_scope.

(** ** Data *)

Record StoredMembership (M : Type) := mkStored { sm_log_id : option LogId; sm_membership : M }.
Arguments mkStored {M}. Arguments sm_log_id {M}. Arguments sm_membership {M}.

Record PersistentState (M : Type) := mkPersistent {
  last_applied : option LogId; membership : StoredMembership M; authority : AuthorityState; snapshot_sequence : Z }.
Arguments mkPersistent {M}. Arguments last_applied {M}. Arguments membership {M}. Arguments authority {M}. Arguments snapshot_sequence {M}.

Record SnapshotState (M : Type) := mkSnapshot {
  ss_last_applied : option LogId; ss_membership : StoredMembership M; ss_authority : AuthorityState }.
Arguments mkSnapshot {M}. Arguments ss_last_applied {M}. Arguments ss_membership {M}. Arguments ss_authority {M}.

Inductive EntryPayload (M : Type) := Blank | Normal (command : AuthorityCommand) | MembershipChange (membership : M).
Arguments Blank {M}. Arguments Normal {M}. Arguments MembershipChange {M}.

Record ClusterEntry (M : Type) := mkEntry { en_log_id : LogId; en_payload : EntryPayload M }.
Arguments mkEntry {M}. Arguments en_log_id {M}. Arguments en_payload {M}.

Record SnapshotMeta (M : Type) := mkMeta {
  me_last_log_id : option LogId; me_last_membership : StoredMembership M; me_snapshot_id : string }.
Arguments mkMeta {M}. Arguments me_last_log_id {M}. Arguments me_last_membership {M}. Arguments me_snapshot_id {M}.

(** The tables [cluster_raft_state], [cluster_raft_meta], [cluster_raft_log] and [cluster_raft_snapshot]. *)
Record RaftDb (M V : Type) := mkDb {
  db_state : option (PersistentState M);
  db_vote : option V;
  db_committed : option (option LogId);
  db_purged : option LogId;
  db_log : gmap Z (ClusterEntry M);
  db_snapshot : option (string * SnapshotMeta M * string) }.
Arguments mkDb {M V}. Arguments db_state {M V}. Arguments db_vote {M V}. Arguments db_committed {M V}.
Arguments db_purged {M V}. Arguments db_log {M V}. Arguments db_snapshot {M V}.

Inductive StoreFault :=
| StateInvalid (fault : AuthorityFault) | NonConsecutive | Reapplied | AppendGap | ConflictingEntry | MissingCommitted
| VoteRegresses | CommittedRegresses | TruncatesCommitted | PurgeRegresses | PurgeBeyondApplied | IndexMismatch | PurgedEntry
| LogHole | SnapshotIdInvalid | SnapshotUndecodable | SnapshotMetaDiffers | SnapshotRollsBack | SnapshotConflicts
| SnapshotSequenceExhausted | SnapshotBeyondApplied.

#[global] Instance ClusterCertificateRollout_eq_dec : EqDecision ClusterCertificateRollout.
Proof. solve_decision. Defined.
#[global] Instance ClusterCertificateRolloutAudit_eq_dec : EqDecision ClusterCertificateRolloutAudit.
Proof. solve_decision. Defined.
#[global] Instance ClusterMembershipAudit_eq_dec : EqDecision ClusterMembershipAudit.
Proof. solve_decision. Defined.
#[global] Instance ClusterAgentOwnership_eq_dec : EqDecision ClusterAgentOwnership.
Proof. solve_decision. Defined.
#[global] Instance ClusterAgentOwnershipAudit_eq_dec : EqDecision ClusterAgentOwnershipAudit.
Proof. solve_decision. Defined.
#[global] Instance ClusterJoinChallenge_eq_dec : EqDecision ClusterJoinChallenge.
Proof. solve_decision. Defined.
#[global] Instance ReplicatedJoinChallenge_eq_dec : EqDecision ReplicatedJoinChallenge.
Proof. solve_decision. Defined.
#[global] Instance AuthorityRejection_eq_dec : EqDecision AuthorityRejection.
Proof. solve_decision. Defined.
#[global] Instance AuthorityResponse_eq_dec : EqDecision AuthorityResponse.
Proof. solve_decision. Defined.
#[global] Instance StoredAuthorityReceipt_eq_dec : EqDecision StoredAuthorityReceipt.
Proof. solve_decision. Defined.
#[global] Instance ReplicatedControlPlaneState_eq_dec : EqDecision ReplicatedControlPlaneState.
Proof. solve_decision. Defined.
#[global] Instance AuthorityState_eq_dec : EqDecision AuthorityState.
Proof. solve_decision. Defined.
#[global] Instance StoredMembership_eq_dec `{EqDecision M} : EqDecision (StoredMembership M).
Proof. solve_decision. Defined.
#[global] Instance SnapshotState_eq_dec `{EqDecision M} : EqDecision (SnapshotState M).
Proof. solve_decision. Defined.
#[global] Instance EntryPayload_eq_dec `{EqDecision M} : EqDecision (EntryPayload M).
Proof. solve_decision. Defined.
#[global] Instance ClusterEntry_eq_dec `{EqDecision M} : EqDecision (ClusterEntry M).
Proof. solve_decision. Defined.

(** ** Indexes

    The log's key is the big-endian encoding of the index, and the queries order by it. *)

Definition index_blob (index : Z) : list Z :=
  [index / 2 ^ 56; index / 2 ^ 48 mod 256; index / 2 ^ 40 mod 256; index / 2 ^ 32 mod 256; index / 2 ^ 24 mod 256;
   index / 2 ^ 16 mod 256; index / 2 ^ 8 mod 256; index mod 256].

Definition decode_index (bytes : list Z) : option Z :=
  if (length bytes =? 8)%nat then Some (foldl (λ acc b, acc * 256 + b) 0 bytes) else None.

(** [u64::saturating_add(1)]. *)
Definition saturating_succ (index : Z) : Z := Z.min (index + 1) u64_max.

(** [entries.windows(2)]: each index follows the one before. *)
Fixpoint consecutive {M : Type} (entries : list (ClusterEntry M)) : bool :=
  match entries with
  | a :: ((b :: _) as rest) => (lg_index (en_log_id b) =? saturating_succ (lg_index (en_log_id a))) && consecutive rest
  | _ => true
  end.

(** Rows ordered by the key. *)
Definition row_le {M : Type} (a b : Z * ClusterEntry M) : Prop := a.1 <= b.1.

#[global] Instance row_le_dec {M : Type} : RelDecision (@row_le M).
Proof. intros a b. unfold row_le. apply _. Defined.

Definition log_rows {M : Type} (log : gmap Z (ClusterEntry M)) : list (Z * ClusterEntry M) := merge_sort row_le (map_to_list log).

Definition validate_log_id_at_or_before (candidate : LogId) (frontier : option LogId) : bool :=
  match frontier with
  | None => false
  | Some frontier =>
      negb ((lg_index frontier <? lg_index candidate) ||
            (lg_index candidate =? lg_index frontier) && negb (bool_decide (candidate = frontier)))
  end.

(** A pointer that goes back, or to another entry of the same index. *)
Definition regresses (current next : LogId) : bool :=
  (lg_index next <? lg_index current) || (lg_index next =? lg_index current) && negb (bool_decide (next = current)).

Definition MAX_SNAPSHOT_ID_BYTES : Z := 255.

Section store.
Context `{ClusterExt} {M V : Type} `{EqDecision M}.
(** Openraft: [Membership::default()], [Vote::partial_cmp] below or equal, and [Display] of a leader id. *)
Context (no_membership : M) (vote_le : V → V → bool) (leader_text : Z → Z → string).
(** [serde_json] on a snapshot. *)
Context (encode_snapshot : SnapshotState M → string) (decode_snapshot : string → option (SnapshotState M)).
Implicit Types (db : RaftDb M V) (s : PersistentState M).

(** [PersistentState::default()]. *)
Definition default_state : PersistentState M := mkPersistent None (mkStored None no_membership) empty_authority 0.

(** The [expect] on the metadata of a receipt cannot fail: the state has been validated. *)
Definition check_receipt_frontier s (p : string * StoredAuthorityReceipt) : result AuthorityFault unit :=
  match successful_response_metadata (rc_response p.2) with
  | Some (_, _, log_id, _) => ensure (validate_log_id_at_or_before log_id (last_applied s)) LogIdBeyondFrontier
  | None => Err ReceiptNotSuccessful
  end.

Definition validate_persistent_state s : result AuthorityFault unit :=
  _ ← validate_authority_state (authority s);
  _ ← match sm_log_id (membership s) with
      | Some log_id => ensure (validate_log_id_at_or_before log_id (last_applied s)) LogIdBeyondFrontier
      | None => Ok tt
      end;
  try_fold (λ _, check_receipt_frontier s) (entries (receipts (authority s))) tt.

Definition load_persistent_state db : result StoreFault (PersistentState M) :=
  match db_state db with
  | None => Ok default_state
  | Some s => _ ← map_err StateInvalid (validate_persistent_state s); Ok s
  end.

Definition write_persistent_state (s : PersistentState M) db : result StoreFault (RaftDb M V) :=
  _ ← map_err StateInvalid (validate_persistent_state s);
  Ok (mkDb (Some s) (db_vote db) (db_committed db) (db_purged db) (db_log db) (db_snapshot db)).

(** ** The state machine *)

Definition apply_entry (s : PersistentState M) (entry : ClusterEntry M) : PersistentState M * AuthorityResponse :=
  let log_id := en_log_id entry in
  match en_payload entry with
  | Blank => (mkPersistent (Some log_id) (membership s) (authority s) (snapshot_sequence s),
              MetadataApplied (sequence (authority s)) log_id)
  | MembershipChange m =>
      (mkPersistent (Some log_id) (mkStored (Some log_id) m) (authority s) (snapshot_sequence s),
       MetadataApplied (sequence (authority s)) log_id)
  | Normal command =>
      let '(a, response) := apply_authority_command (authority s) command log_id in
      (mkPersistent (Some log_id) (membership s) a (snapshot_sequence s), response)
  end.

Fixpoint apply_entries (s : PersistentState M) (entries : list (ClusterEntry M)) : PersistentState M * list AuthorityResponse :=
  match entries with
  | [] => (s, [])
  | entry :: rest =>
      let '(s, response) := apply_entry s entry in
      let '(s, responses) := apply_entries s rest in
      (s, response :: responses)
  end.

Definition apply db (entries : list (ClusterEntry M)) : result StoreFault (RaftDb M V * list AuthorityResponse) :=
  _ ← ensure (consecutive entries) NonConsecutive;
  s ← load_persistent_state db;
  _ ← ensure (match last_applied s, head entries with
              | Some previous, Some first => negb (lg_index (en_log_id first) <=? lg_index previous)
              | _, _ => true
              end) Reapplied;
  let '(s, responses) := apply_entries s entries in
  db ← write_persistent_state s db;
  Ok (db, responses).

Definition applied_state db : result StoreFault (option LogId * StoredMembership M) :=
  s ← load_persistent_state db; Ok (last_applied s, membership s).

(** ** The log *)

Definition committed_of db : option LogId := match db_committed db with Some c => c | None => None end.

(** The index of the last row. *)
Definition last_stored_index db : option Z := fst <$> last (log_rows (db_log db)).

Definition max_index (a b : option Z) : option Z :=
  match a, b with Some a, Some b => Some (Z.max a b) | Some a, None => Some a | None, b => b end.

Definition durable_frontier db s : option Z :=
  max_index (last_stored_index db) (max_index (lg_index <$> last_applied s) (lg_index <$> db_purged db)).

Definition set_log (log : gmap Z (ClusterEntry M)) db : RaftDb M V :=
  mkDb (db_state db) (db_vote db) (db_committed db) (db_purged db) log (db_snapshot db).

Definition append_entry (committed : option LogId) (log : gmap Z (ClusterEntry M)) (entry : ClusterEntry M)
    : result StoreFault (gmap Z (ClusterEntry M)) :=
  let index := lg_index (en_log_id entry) in
  let existing := log !! index in
  _ ← ensure (match existing with Some current => bool_decide (current = entry) | None => true end) ConflictingEntry;
  _ ← ensure (match committed with
              | Some c => negb ((index <=? lg_index c) && bool_decide (existing = None))
              | None => true
              end) MissingCommitted;
  Ok (<[index := entry]> log).

Definition append_entries db (entries : list (ClusterEntry M)) : result StoreFault (RaftDb M V) :=
  _ ← ensure (consecutive entries) NonConsecutive;
  s ← load_persistent_state db;
  _ ← ensure (match durable_frontier db s, head entries with
              | Some frontier, Some first => negb (saturating_succ frontier <? lg_index (en_log_id first))
              | _, _ => true
              end) AppendGap;
  log ← try_fold (append_entry (committed_of db)) entries (db_log db);
  Ok (set_log log db).

Inductive Bound := Included (index : Z) | Excluded (index : Z) | Unbounded.

(** The rows of a range, each checked against its key. *)
Definition check_row (acc : list (ClusterEntry M)) (row : Z * ClusterEntry M) : result StoreFault (list (ClusterEntry M)) :=
  _ ← ensure (lg_index (en_log_id row.2) =? row.1) IndexMismatch; Ok (acc ++ [row.2]).

Definition read_log_entries db (start_bound end_bound : Bound) : result StoreFault (list (ClusterEntry M)) :=
  match match start_bound with
        | Included index => Some index
        | Excluded index => checked_add64 index 1
        | Unbounded => Some 0
        end with
  | None => Ok []
  | Some start =>
      let stop := match end_bound with
                  | Included index => checked_add64 index 1
                  | Excluded index => Some index
                  | Unbounded => None
                  end in
      if match stop with Some stop => stop <=? start | None => false end then Ok []
      else try_fold check_row
             (retain (λ row, (start <=? row.1) && match stop with Some stop => row.1 <? stop | None => true end)
                (log_rows (db_log db))) []
  end.

(** The last purged and the last log id. *)
Definition get_log_state db : result StoreFault (option LogId * option LogId) :=
  match last (log_rows (db_log db)) with
  | Some (index, entry) =>
      _ ← ensure (lg_index (en_log_id entry) =? index) IndexMismatch;
      Ok (db_purged db, Some (en_log_id entry))
  | None => Ok (db_purged db, db_purged db)
  end.

Definition save_vote db (vote : V) : result StoreFault (RaftDb M V) :=
  _ ← ensure (match db_vote db with Some current => vote_le current vote | None => true end) VoteRegresses;
  Ok (mkDb (db_state db) (Some vote) (db_committed db) (db_purged db) (db_log db) (db_snapshot db)).

Definition read_vote db : option V := db_vote db.

Definition save_committed db (committed : option LogId) : result StoreFault (RaftDb M V) :=
  _ ← ensure (match committed_of db, committed with
              | Some _, None => false
              | Some current, Some next => negb (regresses current next)
              | None, _ => true
              end) CommittedRegresses;
  Ok (mkDb (db_state db) (db_vote db) (Some committed) (db_purged db) (db_log db) (db_snapshot db)).

Definition read_committed db : option LogId := committed_of db.

Definition truncate db (log_id : LogId) : result StoreFault (RaftDb M V) :=
  _ ← ensure (match committed_of db with Some c => negb (lg_index log_id <=? lg_index c) | None => true end) TruncatesCommitted;
  Ok (set_log (filter (λ row : Z * ClusterEntry M, row.1 < lg_index log_id) (db_log db)) db).

Definition purge db (log_id : LogId) : result StoreFault (RaftDb M V) :=
  _ ← ensure (match db_purged db with Some current => negb (regresses current log_id) | None => true end) PurgeRegresses;
  Ok (mkDb (db_state db) (db_vote db) (db_committed db) (Some log_id)
        (filter (λ row : Z * ClusterEntry M, lg_index log_id < row.1) (db_log db)) (db_snapshot db)).

(** ** Snapshots *)

(** [SnapshotState::from]. *)
Definition snapshot_of s : SnapshotState M := mkSnapshot (last_applied s) (membership s) (authority s).

Definition validate_snapshot_data (meta : SnapshotMeta M) (data : string) : result StoreFault (SnapshotState M) :=
  let length := slen (me_snapshot_id meta) in
  _ ← ensure (negb ((length =? 0) || (MAX_SNAPSHOT_ID_BYTES <? length))) SnapshotIdInvalid;
  state ← ok_or SnapshotUndecodable (decode_snapshot data);
  _ ← map_err StateInvalid (validate_authority_state (ss_authority state));
  _ ← map_err StateInvalid (validate_persistent_state
        (mkPersistent (ss_last_applied state) (ss_membership state) (ss_authority state) 0));
  _ ← ensure (bool_decide (ss_last_applied state = me_last_log_id meta) &&
              bool_decide (ss_membership state = me_last_membership meta)) SnapshotMetaDiffers;
  Ok state.

Definition read_snapshot_record db : result StoreFault (option (SnapshotMeta M * string)) :=
  match db_snapshot db with
  | None => Ok None
  | Some (snapshot_id, meta, data) =>
      _ ← ensure (bool_decide (snapshot_id = me_snapshot_id meta)) SnapshotIdInvalid;
      _ ← validate_snapshot_data meta data;
      Ok (Some (meta, data))
  end.

Definition write_snapshot_record (meta : SnapshotMeta M) (data : string) db : result StoreFault (RaftDb M V) :=
  _ ← validate_snapshot_data meta data;
  Ok (mkDb (db_state db) (db_vote db) (db_committed db) (db_purged db) (db_log db) (Some (me_snapshot_id meta, meta, data))).

Definition install_snapshot db (meta : SnapshotMeta M) (data : string) : result StoreFault (RaftDb M V) :=
  installed ← validate_snapshot_data meta data;
  current ← load_persistent_state db;
  _ ← ensure (match last_applied current, ss_last_applied installed with
              | Some current, Some installed => negb (regresses current installed)
              | Some _, None => false
              | None, _ => true
              end) SnapshotRollsBack;
  _ ← ensure (negb (bool_decide (last_applied current = ss_last_applied installed) &&
                    negb (bool_decide (snapshot_of current = installed)))) SnapshotConflicts;
  db ← write_persistent_state
         (mkPersistent (ss_last_applied installed) (ss_membership installed) (ss_authority installed) (snapshot_sequence current)) db;
  write_snapshot_record meta data db.

Definition get_current_snapshot db : result StoreFault (option (SnapshotMeta M * string)) := read_snapshot_record db.

(** The builder keeps the state it was created with. *)
Definition get_snapshot_builder db : result StoreFault (PersistentState M) := load_persistent_state db.

Definition snapshot_id_of (last : option LogId) (seq : Z) : string :=
  match last with
  | Some l => leader_text (lg_term l) (lg_node l) +:+ "-" +:+ pretty (lg_index l) +:+ "-" +:+ pretty seq
  | None => "empty-" +:+ pretty seq
  end.

Definition index_or_zero (l : option LogId) : Z := match l with Some l => lg_index l | None => 0 end.

Definition build_snapshot (frozen : result StoreFault (PersistentState M)) db
    : result StoreFault (RaftDb M V * (SnapshotMeta M * string)) :=
  frozen ← frozen;
  let data := encode_snapshot (snapshot_of frozen) in
  current ← load_persistent_state db;
  seq ← ok_or SnapshotSequenceExhausted (checked_add64 (snapshot_sequence current) 1);
  let meta := mkMeta (last_applied frozen) (membership frozen) (snapshot_id_of (last_applied frozen) seq) in
  db ← write_persistent_state (mkPersistent (last_applied current) (membership current) (authority current) seq) db;
  let replace_current := match db_snapshot db with
                         | Some (_, existing, _) => index_or_zero (me_last_log_id existing) <=? index_or_zero (me_last_log_id meta)
                         | None => true
                         end in
  db ← (if replace_current then write_snapshot_record meta data db else Ok db);
  Ok (db, (meta, data)).

(** ** Opening the store *)

(** One row of the scan: the index of the row before. *)
Definition check_log_row (last_purged : option LogId) (previous : option Z) (row : Z * ClusterEntry M)
    : result StoreFault (option Z) :=
  let '(index, entry) := row in
  _ ← ensure (lg_index (en_log_id entry) =? index) IndexMismatch;
  _ ← ensure (match last_purged with Some purged => negb (index <=? lg_index purged) | None => true end) PurgedEntry;
  _ ← ensure (match previous with Some previous => index =? previous + 1 | None => true end) LogHole;
  Ok (Some index).

Definition validate_store db : result StoreFault unit :=
  s ← load_persistent_state db;
  _ ← ensure (match db_purged db with Some purged => validate_log_id_at_or_before purged (last_applied s) | None => true end)
        PurgeBeyondApplied;
  _ ← try_fold (check_log_row (db_purged db)) (log_rows (db_log db)) None;
  snapshot ← read_snapshot_record db;
  ensure (match snapshot with
          | Some (meta, _) =>
              match me_last_log_id meta with
              | Some log_id => validate_log_id_at_or_before log_id (last_applied s)
              | None => bool_decide (last_applied s = None)
              end
          | None => true
          end) SnapshotBeyondApplied.

(** ** The view *)

Record ClusterMembershipSnapshot := mkMembershipSnapshot {
  cs_cluster_id : string; cs_generation : Z; cs_authority_time : option Z; cs_tls_trust_generation : Z;
  cs_certificate_rollouts : list ClusterCertificateRollout; cs_members : list ClusterMember }.

Record ReplicatedAuthorityView := mkView {
  vw_genesis : AuthorityGenesis; vw_membership : ClusterMembershipSnapshot;
  vw_membership_audit : list ClusterMembershipAudit; vw_certificate_rollout_audit : list ClusterCertificateRolloutAudit;
  vw_ownerships : list ClusterAgentOwnership; vw_ownership_audit : list ClusterAgentOwnershipAudit; vw_logical_time : Z }.

Definition read_replicated_authority_view db : result StoreFault (option ReplicatedAuthorityView) :=
  s ← load_persistent_state db;
  match control_plane (authority s) with
  | None => Ok None
  | Some c =>
      Ok (Some (mkView (genesis c)
        (mkMembershipSnapshot (cluster_id c) (membership_generation c) (Some (logical_time c)) (tls_trust_generation c)
           (entries (certificate_rollouts c)).*2 (entries (members c)).*2)
        (membership_audit c) (certificate_rollout_audit c) (entries (ownerships c)).*2 (ownership_audit c) (logical_time c)))
  end.

Definition read_cluster_raft_membership db : result StoreFault (StoredMembership M) :=
  s ← load_persistent_state db; Ok (membership s).

End store.
