(* ===== verification/RaftApply.v ===== *)
(** * The durable Raft store: the state machine applies every well-formed log *)

From S2P Require Import Prelude Authority AuthorityCheck AuthorityToy AuthorityValid AuthorityApply AuthorityJoin AuthorityInv RaftStore.

#[local] Open Scope Z_scope.

(** ** Times and terms *)

(** The time that the proposer put on a command. *)
Definition proposed_time (command : AuthorityCommand) : option Z :=
  match command with
  | Initialize _ _ t | AdvanceTime _ t | IssueJoinChallenge _ _ _ t | RegisterMember _ _ _ _ _ _ _ _ _ t
  | PrepareMemberCertificateRollout _ _ _ _ _ _ _ _ _ t | AbortMemberCertificateRollout _ _ _ _ _ t
  | FinalizeMemberCertificateRollout _ _ _ _ _ t | SetMemberState _ _ _ _ _ _ t | ClaimOwnership _ _ _ _ _ _ _ t
  | RenewOwnership _ _ _ _ _ _ _ t | ReleaseOwnership _ _ _ _ _ _ t => Some t
  | Barrier _ _ => None
  end.

Section bounds.
Context `{ClusterExt}.
Implicit Types (c : ReplicatedControlPlaneState) (st : AuthorityState).

(** The clock moves to the proposed time or by a microsecond, and the ownerships that change carry the term. *)
Definition advances (proposed term : Z) c c' : Prop :=
  logical_time c' = Z.max proposed (logical_time c + 1000) ∧
  ∀ k o, ownerships c' !! k = Some o → ow_term o = term ∨ ownerships c !! k = Some o.

Lemma advances_same proposed term c c' :
  logical_time c' = Z.max proposed (logical_time c + 1000) → ownerships c' = ownerships c → advances proposed term c c'.
Proof. intros Ht Ho. split; [done|]. intros k o. rewrite Ho. by right. Qed.

Lemma advances_insert proposed term c c' a o :
  logical_time c' = Z.max proposed (logical_time c + 1000) → ownerships c' = <[a := o]> (ownerships c) → ow_term o = term →
  advances proposed term c c'.
Proof.
  intros Ht Ho Hterm. split; [done|]. intros k o'. rewrite Ho, lookup_insert_Some. intros [[_ <-]|[_ ?]]; [by left|by right].
Qed.

Lemma register_advances c r challenge signature expected lo hi actor reason proposed term c' m' :
  apply_register_member c r challenge signature expected lo hi actor reason proposed = Ok (c', m') → advances proposed term c c'.
Proof.
  intros Hx. unfold apply_register_member in Hx. run_inv.
  match goal with H : validate_challenged_registration _ _ _ _ _ = Ok _ |- _ => apply validate_challenged_Ok in H as (-> & _ & Hnow & _) end.
  match goal with H : match ?x with Some _ => _ | None => _ end = Ok _ |- _ => destruct x; [unfold activate in H|] end;
    run_inv; by apply advances_same.
Qed.

Lemma prepare_advances c r challenge signature expected ttl overlap actor reason proposed term c' p :
  apply_prepare_member_certificate_rollout c r challenge signature expected ttl overlap actor reason proposed = Ok (c', p) →
  advances proposed term c c'.
Proof.
  intros Hx. unfold apply_prepare_member_certificate_rollout in Hx. run_inv.
  match goal with H : validate_challenged_registration _ _ _ _ _ = Ok _ |- _ => apply validate_challenged_Ok in H as (-> & _ & Hnow & _) end.
  match goal with H : append_member_revision (set_time ?t c) _ _ _ _ _ _ = Ok _ |- _ => apply (append_member_revision_Ok (set_time t c)) in H as (-> & -> & _) end.
  run_inv. by apply advances_same.
Qed.

Lemma finish_advances c node expected finish actor reason proposed term c' m' :
  apply_finish_member_certificate_rollout c node expected finish actor reason proposed = Ok (c', m') → advances proposed term c c'.
Proof. intros Hx. unfold apply_finish_member_certificate_rollout in Hx. run_inv. by apply advances_same. Qed.

Lemma issue_advances c challenge ttl proposed term c' ch :
  issue_join_challenge c challenge ttl proposed = Ok (c', ch) → advances proposed term c c'.
Proof. intros Hx. unfold issue_join_challenge in Hx. run_inv. by apply advances_same. Qed.

Lemma claim_advances c agent owner ttl expected actor reason proposed term c' o' :
  apply_claim_ownership c agent owner ttl expected actor reason proposed term = Ok (c', o') → advances proposed term c c'.
Proof. intros Hx. unfold apply_claim_ownership in Hx. run_inv. by eapply advances_insert. Qed.

Lemma renew_advances c agent owner token ttl actor reason proposed term c' o' :
  apply_renew_ownership c agent owner token ttl actor reason proposed term = Ok (c', o') → advances proposed term c c'.
Proof. intros Hx. unfold apply_renew_ownership in Hx. run_inv. by eapply advances_insert. Qed.

Lemma release_advances c agent owner token actor reason proposed term c' o' :
  apply_release_ownership c agent owner token actor reason proposed term = Ok (c', o') → advances proposed term c c'.
Proof. intros Hx. unfold apply_release_ownership in Hx. run_inv. by eapply advances_insert. Qed.

Lemma release_loop_terms node actor reason term now l c c' :
  try_fold (release_owned node actor reason term now) l c = Ok c' →
  logical_time c' = logical_time c ∧ ∀ k o, ownerships c' !! k = Some o → ow_term o = term ∨ ownerships c !! k = Some o.
Proof.
  apply (try_fold_ind _ (λ _ c', logical_time c' = logical_time c ∧ ∀ k o, ownerships c' !! k = Some o → ow_term o = term ∨ ownerships c !! k = Some o)).
  { split; [done|]. by right. }
  intros l' o0 s s' [IHt IH] Hx. unfold release_owned in Hx. run_inv. split; [done|]. intros k o. cbn. rewrite lookup_insert_Some.
  intros [[_ <-]|[_ Ho]]; [by left|by apply IH].
Qed.

Lemma set_state_advances c node state expected actor reason proposed term c' m' :
  apply_set_member_state c node state expected actor reason proposed term = Ok (c', m') → advances proposed term c c'.
Proof.
  intros Hx. unfold apply_set_member_state in Hx. run_inv.
  match goal with H : (if bool_decide (state = MemberRevoked) then _ else Ok (set_time ?t c)) = Ok ?x |- _ =>
    assert (logical_time x = t ∧ ∀ k o, ownerships x !! k = Some o → ow_term o = term ∨ ownerships c !! k = Some o) as [Ht Hterm];
    [destruct (bool_decide (state = MemberRevoked)); [apply bind_Ok in H as (? & _ & H); by apply release_loop_terms in H|
       injection H as <-; split; [done|by right]]|] end.
  destruct (certificate_rollouts c !! node); run_inv; (split; [cbn; congruence|exact Hterm]).
Qed.

(** What a receipt changes of the control plane. *)
Lemma apply_new_advances st command seq log_id st' resp c' :
  apply_new_authority_command st command seq log_id = Ok (st', resp) → control_plane st' = Some c' →
  (∃ c t, control_plane st = Some c ∧ proposed_time command = Some t ∧ advances t (lg_term log_id) c c') ∨
  control_plane st = Some c' ∨ proposed_time command = Some (logical_time c') ∧ ownerships c' = ∅.
Proof.
  destruct command; cbn [apply_new_authority_command]; intros Hx Hc';
    try (apply on_control_Ok in Hx as (c & c1 & a & Hcp & Hx & -> & ->); injection Hc' as <-; left; eexists c, _; split; [done|]; split; [done|]).
  - run_inv. right; right. injection Hc' as ->. match goal with H : validate_and_build_genesis _ _ = Ok _ |- _ => unfold validate_and_build_genesis in H end.
    run_inv. done.
  - run_inv. by right; left.
  - done.
  - by eapply issue_advances.
  - by eapply register_advances.
  - destruct a. by eapply prepare_advances.
  - by eapply finish_advances.
  - by eapply finish_advances.
  - by eapply set_state_advances.
  - by eapply claim_advances.
  - by eapply renew_advances.
  - by eapply release_advances.
Qed.

(** The clock stays within a microsecond per receipt of the horizon of the proposed times. *)
Definition clock_ok (horizon : Z) st : Prop := 0 <= sequence st ∧ ∀ c, control_plane st = Some c → logical_time c <= horizon + 1000 * sequence st.

Lemma clock_ok_step horizon st command log_id :
  clock_ok horizon st → (∀ t, proposed_time command = Some t → t <= horizon) → clock_ok horizon (apply_authority_command st command log_id).1.
Proof.
  intros [Hseq Hc] Ht. destruct (apply_command_effect st command log_id) as [resp _|id c0 proposed -> Hc0|st' resp Hid Hnew Hsize Hbar Hx]; [done| |].
  - split; [done|]. intros c [= <-]. cbn. specialize (Hc c0 Hc0). specialize (Ht proposed eq_refl). lia.
  - split; [cbn; lia|]. cbn. intros c' Hc'. destruct (apply_new_advances _ _ _ _ _ _ _ Hx Hc') as [(c & t & Hcp & Hp & Hadv & _)|[Hcp|[Hp _]]].
    + specialize (Hc c Hcp). specialize (Ht t Hp). lia.
    + specialize (Hc c' Hcp). lia.
    + specialize (Ht _ Hp). lia.
Qed.

(** No ownership carries a term beyond [last]. *)
Definition terms_ok (last : Z) st : Prop := ∀ c k o, control_plane st = Some c → ownerships c !! k = Some o → ow_term o <= last.

Lemma terms_ok_step last st command log_id :
  terms_ok last st → last <= lg_term log_id → terms_ok (lg_term log_id) (apply_authority_command st command log_id).1.
Proof.
  intros Hok Hle. destruct (apply_command_effect st command log_id) as [resp _|id c0 proposed -> Hc0|st' resp Hid Hnew Hsize Hbar Hx]; intros c' k o Hc' Ho.
  - specialize (Hok c' k o Hc' Ho). lia.
  - injection Hc' as <-. specialize (Hok c0 k o Hc0 Ho). lia.
  - cbn in Hc'. destruct (apply_new_advances _ _ _ _ _ _ _ Hx Hc') as [(c & t & Hcp & Hp & _ & Hterm)|[Hcp|[_ He]]].
    + destruct (Hterm k o Ho) as [->|Ho']; [lia|]. specialize (Hok c k o Hcp Ho'). lia.
    + specialize (Hok c' k o Hcp Ho). lia.
    + by rewrite He, lookup_empty in Ho.
Qed.

End bounds.

(** ** Entries *)

Section entries.
Context `{ClusterExt} {M V : Type} `{EqDecision M} (no_membership : M).
Implicit Types (s : PersistentState M) (db : RaftDb M V).

Lemma at_or_before_Some candidate frontier :
  validate_log_id_at_or_before candidate (Some frontier) = true ↔
  lg_index candidate < lg_index frontier ∨ candidate = frontier.
Proof.
  unfold validate_log_id_at_or_before. rewrite negb_true_iff, orb_false_iff, andb_false_iff, Z.ltb_ge, Z.eqb_neq, negb_false_iff, bool_decide_eq_true.
  split; [intros [? [?| ->]]; [left; lia|by right]|intros [?| ->]; [split; [lia|left; lia]|split; [lia|by right]]].
Qed.

Lemma at_or_before_mono candidate frontier later :
  validate_log_id_at_or_before candidate frontier = true → (∀ f, frontier = Some f → lg_index f < lg_index later) →
  validate_log_id_at_or_before candidate (Some later) = true.
Proof.
  destruct frontier as [f|]; [|done]. intros Hx%at_or_before_Some Hl. apply at_or_before_Some. specialize (Hl f eq_refl).
  destruct Hx as [?| ->]; left; lia.
Qed.

Record persistent_ok s : Prop := {
  ps_authority : authority_ok (authority s);
  ps_membership : ∀ l, sm_log_id (membership s) = Some l → validate_log_id_at_or_before l (last_applied s) = true;
  ps_receipts : ∀ id rc l, receipts (authority s) !! id = Some rc → receipt_log_id rc = Some l →
    validate_log_id_at_or_before l (last_applied s) = true }.

Lemma check_receipt_frontier_Ok s id rc :
  is_Some (receipt_log_id rc) →
  check_receipt_frontier s (id, rc) = Ok tt ↔ ∀ l, receipt_log_id rc = Some l → validate_log_id_at_or_before l (last_applied s) = true.
Proof.
  unfold check_receipt_frontier, receipt_log_id. cbn. intros [l Hl]. destruct (successful_response_metadata _) as [[[[id' seq] l'] b]|]; [|done].
  cbn. rewrite ensure_Ok. split; [by intros Hx l0 [= <-]|by intros Hx; apply Hx].
Qed.

Lemma validate_persistent_state_spec s : validate_persistent_state s = Ok tt ↔ persistent_ok s.
Proof.
  unfold validate_persistent_state. split.
  - intros ([] & Ha%validate_authority_state_spec & (u & Hm & Hr)%bind_Ok)%bind_Ok. split; [done| |].
    + intros l Hl. rewrite Hl in Hm. by apply ensure_Ok in Hm.
    + intros id rc l Hrc Hl. rewrite try_fold_unit, (entries_Forall (λ id rc, check_receipt_frontier s (id, rc) = Ok tt)) in Hr.
      specialize (Hr id rc Hrc). eapply check_receipt_frontier_Ok in Hr; [done|by eexists|done].
  - intros [A1 A2 A3]. rewrite (proj2 (validate_authority_state_spec _) A1). cbn.
    assert (match sm_log_id (membership s) with Some l => ensure (validate_log_id_at_or_before l (last_applied s)) LogIdBeyondFrontier | None => Ok tt end = Ok tt) as ->.
    { destruct (sm_log_id (membership s)) as [l|]; [|done]. by rewrite (A2 l eq_refl). }
    cbn. rewrite try_fold_unit. apply (entries_Forall (λ id rc, check_receipt_frontier s (id, rc) = Ok tt)). intros id rc Hrc.
    apply check_receipt_frontier_Ok; [|by intros l; apply (A3 id)].
    destruct (ro_metadata _ _ _ (au_receipts _ A1 id rc Hrc)) as (seq & l & Hmeta & _). unfold receipt_log_id. rewrite Hmeta. by eexists.
Qed.

(** ** The contract of the log *)

(** Raft: terms are positive and never decrease, indexes grow. *)
Definition entry_follows s (e : ClusterEntry M) : bool :=
  (0 <? lg_term (en_log_id e)) &&
  match last_applied s with
  | Some p => (lg_index p <? lg_index (en_log_id e)) && (lg_term p <=? lg_term (en_log_id e))
  | None => true
  end.

Definition entry_timely (horizon : Z) (e : ClusterEntry M) : bool :=
  match en_payload e with
  | Normal command => match proposed_time command with Some t => t <=? horizon | None => true end
  | _ => true
  end.

(** A registration brings a TLS fingerprint that may be used. *)
Definition entry_bindable s (e : ClusterEntry M) : bool :=
  match en_payload e, control_plane (authority s) with
  | Normal (RegisterMember _ r _ _ _ _ _ _ _ _), Some c => tls_reusable c r
  | _, _ => true
  end.

Fixpoint log_ok (horizon : Z) s (l : list (ClusterEntry M)) : bool :=
  match l with
  | [] => true
  | e :: rest => entry_follows s e && entry_timely horizon e && entry_bindable s e && log_ok horizon (apply_entry s e).1 rest
  end.

Record machine_ok (horizon : Z) s : Prop := {
  mc_valid : persistent_ok s;
  mc_clock : clock_ok horizon (authority s);
  mc_terms : match last_applied s with Some l => terms_ok (lg_term l) (authority s) | None => terms_ok 0 (authority s) end }.

Lemma persistent_ok_later s l m a q :
  persistent_ok s → (∀ p, last_applied s = Some p → lg_index p < lg_index l) → authority_ok a →
  (∀ l', sm_log_id m = Some l' → l' = l ∨ sm_log_id (membership s) = Some l') →
  (∀ id rc l', receipts a !! id = Some rc → receipt_log_id rc = Some l' → l' = l ∨ receipts (authority s) !! id = Some rc) →
  persistent_ok (mkPersistent (Some l) m a q).
Proof.
  intros [A1 A2 A3] Hl Ha Hm Hr. split; cbn [authority membership last_applied]; [done| |].
  - intros l' Hl'. destruct (Hm l' Hl') as [->|Hx]; [apply at_or_before_Some; by right|]. eapply at_or_before_mono; [by apply A2|done].
  - intros id rc l' Hrc Hl'. destruct (Hr id rc l' Hrc Hl') as [->|Hx]; [apply at_or_before_Some; by right|].
    eapply at_or_before_mono; [by eapply A3|done].
Qed.

(** The log ids of the receipts after a command. *)
Lemma command_log_ids st command log_id id rc l :
  receipts (apply_authority_command st command log_id).1 !! id = Some rc → receipt_log_id rc = Some l → l = log_id ∨ receipts st !! id = Some rc.
Proof.
  destruct (apply_command_effect st command log_id) as [resp _|id' c0 proposed -> Hc0|st' resp Hid Hnew Hsize Hbar Hx]; [by right|by right|].
  cbn. rewrite lookup_insert_Some. intros [[_ <-]|[_ Hrc]] Hl; [left|by right].
  destruct (apply_new_shape _ _ _ _ _ _ Hx) as (_ & _ & Hmeta & _). unfold receipt_log_id in Hl. cbn in Hl. rewrite Hmeta in Hl. by injection Hl.
Qed.

Lemma machine_command_fits horizon s e command c :
  horizon + 1000 * (MAX_AUTHORITY_RECEIPTS + 1) + MAX_CERTIFICATE_ROLLOUT_SECONDS * 1000000000 <= datetime_max →
  machine_ok horizon s → entry_follows s e = true → entry_timely horizon e = true → entry_bindable s e = true →
  en_payload e = Normal command → control_plane (authority s) = Some c → command_fits c command (lg_term (en_log_id e)).
Proof.
  intros Hhor [Hv [Hseq Hclock] Hterms] Hf Ht Hb Hp Hc. unfold entry_follows, entry_timely, entry_bindable in *. rewrite Hp in *. rewrite Hc in Hb. bool_hyps.
  specialize (Hclock c Hc). pose proof (au_size _ (ps_authority _ Hv)) as Hsize. rewrite <- (au_sequence _ (ps_authority _ Hv)) in Hsize. split.
  - split; [lia|]. intros k o Ho. destruct (last_applied s) as [p|]; bool_hyps; [specialize (Hterms c k o Hc Ho)|specialize (Hterms c k o Hc Ho)]; lia.
  - destruct command; try done. cbn in Ht. unfold time_room, add_seconds, add_nanos.
    match goal with |- is_Some (if ?b then _ else _) => assert (b = true) as -> end; [|by eexists].
    unfold MAX_CERTIFICATE_ROLLOUT_SECONDS, MAX_AUTHORITY_RECEIPTS in *. lia.
Qed.

Lemma follows_index s e p : entry_follows s e = true → last_applied s = Some p → lg_index p < lg_index (en_log_id e) ∧ lg_term p <= lg_term (en_log_id e).
Proof. unfold entry_follows. intros Hf Hp. rewrite Hp in Hf. bool_hyps. lia. Qed.

Lemma entry_machine_ok horizon s e :
  horizon + 1000 * (MAX_AUTHORITY_RECEIPTS + 1) + MAX_CERTIFICATE_ROLLOUT_SECONDS * 1000000000 <= datetime_max →
  machine_ok horizon s → entry_follows s e = true → entry_timely horizon e = true → entry_bindable s e = true →
  machine_ok horizon (apply_entry s e).1.
Proof.
  intros Hhor Hok Hf Ht Hb. pose proof Hok as [Hv Hclock Hterms]. pose proof (follows_index s e) as Hidx.
  assert (Hterms' : terms_ok (lg_term (en_log_id e)) (authority s)).
  { unfold entry_follows in Hf. bool_hyps. destruct (last_applied s) as [p|]; bool_hyps; intros c k o Hc Ho; specialize (Hterms c k o Hc Ho); lia. }
  unfold apply_entry. destruct (en_payload e) as [|command|m] eqn:Hp.
  - split; cbn; try done. apply (persistent_ok_later s); try done; [by intros p Hq; apply Hidx|apply Hv|by right|by right].
  - destruct (apply_authority_command (authority s) command (en_log_id e)) as [a resp] eqn:Hx. cbn.
    assert (a = (apply_authority_command (authority s) command (en_log_id e)).1) as -> by (by rewrite Hx). split; cbn.
    + apply (persistent_ok_later s); try done.
      * by intros p Hq; apply Hidx.
      * apply apply_command_ok; [apply Hv|intros c Hc; by eapply machine_command_fits|]. intros id rc Hrc Hl.
        pose proof (ps_receipts _ Hv id rc _ Hrc Hl) as Hbef. destruct (last_applied s) as [p|]; [|done].
        destruct (Hidx p Hf eq_refl). apply at_or_before_Some in Hbef as [?|<-]; lia.
      * by right.
      * intros id rc l. apply command_log_ids.
    + apply clock_ok_step; [done|]. intros t Hpt. unfold entry_timely in Ht. rewrite Hp, Hpt in Ht. lia.
    + destruct (last_applied s) as [p|] eqn:Hl.
      * apply (terms_ok_step (lg_term p)); [done|]. by apply (Hidx p).
      * apply (terms_ok_step 0); [done|]. unfold entry_follows in Hf. bool_hyps. lia.
  - split; cbn; try done. apply (persistent_ok_later s); try done; [by intros p Hq; apply Hidx|apply Hv| |by right]. intros l' [= <-]. by left.
Qed.

Lemma entries_machine_ok horizon s l :
  horizon + 1000 * (MAX_AUTHORITY_RECEIPTS + 1) + MAX_CERTIFICATE_ROLLOUT_SECONDS * 1000000000 <= datetime_max →
  machine_ok horizon s → log_ok horizon s l = true → machine_ok horizon (apply_entries s l).1.
Proof.
  intros Hhor. revert s. induction l as [|e l IH]; intros s Hok Hl; cbn in *; [done|]. bool_hyps.
  pose proof (entry_machine_ok horizon s e Hhor Hok) as He. destruct (apply_entry s e) as [s1 resp]. cbn in *.
  specialize (IH s1). destruct (apply_entries s1 l) as [s2 resps]. cbn in *. auto.
Qed.

(** ** Batches *)

Definition empty_db : RaftDb M V := mkDb None None None None ∅ None.

Definition run_batches db (batches : list (list (ClusterEntry M))) : result StoreFault (RaftDb M V) :=
  try_fold (λ db l, '(db, _) ← apply no_membership db l; Ok db) batches db.

Lemma default_machine_ok horizon : machine_ok horizon (default_state no_membership).
Proof.
  split; [split; [split|..]|..]; cbn; try done; try (intros k *; by rewrite lookup_empty); try (intros id rc l; by rewrite lookup_empty).
Qed.

Lemma write_load s db : persistent_ok s → ∃ db', write_persistent_state s db = Ok db' ∧ load_persistent_state no_membership db' = Ok s.
Proof.
  intros Hs%validate_persistent_state_spec. unfold write_persistent_state. rewrite Hs. cbn. eexists. split; [done|].
  unfold load_persistent_state. cbn. by rewrite Hs.
Qed.

Lemma apply_entries_app s l1 l2 : (apply_entries s (l1 ++ l2)).1 = (apply_entries (apply_entries s l1).1 l2).1.
Proof.
  revert s. induction l1 as [|e l1 IH]; intros s; cbn; [done|]. destruct (apply_entry s e) as [s1 r1].
  specialize (IH s1). destruct (apply_entries s1 (l1 ++ l2)), (apply_entries s1 l1). done.
Qed.

Lemma log_ok_app horizon s l1 l2 : log_ok horizon s (l1 ++ l2) = log_ok horizon s l1 && log_ok horizon (apply_entries s l1).1 l2.
Proof.
  revert s. induction l1 as [|e l1 IH]; intros s; cbn; [done|]. rewrite IH. destruct (apply_entry s e) as [s1 r1]. cbn.
  destruct (apply_entries s1 l1). by rewrite !andb_assoc.
Qed.

Lemma apply_machine_ok horizon db s l :
  horizon + 1000 * (MAX_AUTHORITY_RECEIPTS + 1) + MAX_CERTIFICATE_ROLLOUT_SECONDS * 1000000000 <= datetime_max →
  load_persistent_state no_membership db = Ok s → machine_ok horizon s → consecutive l = true → log_ok horizon s l = true →
  ∃ db' resps, apply no_membership db l = Ok (db', resps) ∧ load_persistent_state no_membership db' = Ok (apply_entries s l).1 ∧
    machine_ok horizon (apply_entries s l).1.
Proof.
  intros Hhor Hload Hok Hcons Hl. pose proof (entries_machine_ok horizon s l Hhor Hok Hl) as Hok'.
  unfold apply. rewrite Hcons, Hload. cbn.
  assert (match last_applied s, head l with Some previous, Some first => negb (lg_index (en_log_id first) <=? lg_index previous) | _, _ => true end = true) as ->.
  { destruct (last_applied s) as [p|] eqn:Hp; [|done]. destruct l as [|e l]; [done|]. cbn in Hl |- *. bool_hyps.
    destruct (follows_index s e p); [done|done|]. lia. }
  cbn. destruct (apply_entries s l) as [s' resps]. cbn in *. destruct (write_load s' db (mc_valid _ _ Hok')) as (db' & -> & Hload').
  cbn. by exists db', resps.
Qed.


Lemma loaded_control_ok db s c : load_persistent_state no_membership db = Ok s → control_plane (authority s) = Some c → control_ok c.
Proof.
  unfold load_persistent_state. destruct (db_state db) as [s0|]; [|by intros [= <-]].
  destruct (validate_persistent_state s0) as [[]|] eqn:Hv; [|done]. intros [= <-] Hc. apply validate_persistent_state_spec in Hv.
  by eapply au_control; [apply ps_authority|].
Qed.

(** The hypothesis on TLS fingerprints is necessary: a committed registration that [apply_register_member] accepts
    although its fingerprint is not reusable cannot be applied by any replica. The application fails when
    the new state is validated and nothing is written, so it fails again on every later attempt. *)
Theorem stale_binding_wedges db s c l id r challenge signature expected lo hi actor reason proposed :
  let command := RegisterMember id r challenge signature expected lo hi actor reason proposed in
  load_persistent_state no_membership db = Ok s → control_plane (authority s) = Some c →
  (∀ p, last_applied s = Some p → lg_index p < lg_index l) →
  (apply_authority_command (authority s) command l).1 ≠ authority s → entry_bindable s (mkEntry l (Normal command)) = false →
  ∃ fault, apply no_membership db [mkEntry l (Normal command)] = Err (StateInvalid fault).
Proof.
  intros command Hload Hc Hl Hne Hr. unfold entry_bindable in Hr. cbn in Hr. rewrite Hc in Hr. assert (Hok : control_ok c) by (by eapply loaded_control_ok). unfold apply. rewrite Hload. cbn.
  assert (match last_applied s with Some p => negb (lg_index l <=? lg_index p) | None => true end = true) as ->.
  { destruct (last_applied s) as [p|]; [|done]. specialize (Hl p eq_refl). lia. }
  cbn. unfold apply_entry. cbn [en_payload]. destruct (apply_authority_command (authority s) command l) as [a resp] eqn:Hx. cbn in Hne |- *.
  unfold write_persistent_state. destruct (validate_persistent_state _) as [[]|fault] eqn:Hv; [|by exists fault]. exfalso.
  apply validate_persistent_state_spec in Hv as [Hv _ _]. cbn in Hv. pose proof (apply_command_effect (authority s) command l) as Heff.
  rewrite Hx in Heff. cbn in Heff. destruct Heff as [resp _|id' c0 proposed' Hcmd _|st' resp Hid Hnew Hsize Hbar Hn]; [done|done|].
  cbn [apply_new_authority_command command] in Hn. apply on_control_Ok in Hn as (c0 & c1 & m & Hcp & Hreg & -> & ->).
  assert (c0 = c) as -> by congruence. pose proof (apply_register_reusable _ _ _ _ _ _ _ _ _ _ _ _ Hok Hreg) as Hre.
  rewrite Hre in Hr; [done|]. by apply (au_control _ Hv).
Qed.

End entries.

(** ** The small cluster *)

Definition toy_entries (l : list (AuthorityCommand * LogId)) : list (ClusterEntry unit) := (λ p, mkEntry p.2 (Normal p.1)) <$> l.

(** A blank entry, then the rollover and the registration of a third node, in three batches. *)
Definition toy_batches : list (list (ClusterEntry unit)) :=
  [[mkEntry (mkLogId 1 1 0) Blank]; toy_entries (toy_log 1 (take 3 toy_rollover)); toy_entries (toy_log 4 (drop 3 toy_rollover ++ [join_fresh]))].

Definition run_toy (batches : list (list (ClusterEntry unit))) : RaftDb unit unit :=
  match run_batches tt empty_db batches with Ok db => db | Err _ => empty_db end.


(** The same log with the retired fingerprint of the first node. *)
Lemma stale_binding_wedges_witness :
  ∃ fault, apply tt (run_toy [toy_entries (toy_log 1 toy_rollover)]) [mkEntry (mkLogId 1 1 8) (Normal join_stale)] = Err (StateInvalid fault).
Proof.
  apply (stale_binding_wedges tt (run_toy [toy_entries (toy_log 1 toy_rollover)])
    (default (default_state tt) (db_state (run_toy [toy_entries (toy_log 1 toy_rollover)]))) toy_control);
    [vm_compute; reflexivity|vm_compute; reflexivity| | |vm_compute; reflexivity].
  - intros p Hp. vm_compute in Hp. injection Hp as <-. by vm_compute.
  - intros Heq. apply (f_equal sequence) in Heq. vm_compute in Heq. discriminate.
Defined.
