(* ===== verification/RaftLog.v ===== *)
(** * The durable Raft store: pointers, committed entries and snapshots *)

From S2P Require Import Prelude Authority AuthorityCheck AuthorityToy AuthorityValid AuthorityInv RaftStore RaftApply.

#[local] Open Scope Z_scope.

(** ** Pointers *)

(** A pointer moves forward, or stays. *)
Definition pointer_le (a b : option LogId) : Prop :=
  match a, b with
  | None, _ => True
  | Some a, Some b => lg_index a < lg_index b ∨ a = b
  | Some _, None => False
  end.

#[global] Instance pointer_le_preorder : PreOrder pointer_le.
Proof.
  split.
  - intros [a|]; [by right|done].
  - intros [a|] [b|] [c|]; cbn; try done. intros [?| ->] [?| ->]; auto; left; lia.
Qed.

Lemma regresses_spec a b : regresses a b = false ↔ lg_index a < lg_index b ∨ a = b.
Proof.
  unfold regresses. rewrite orb_false_iff, Z.ltb_ge, andb_false_iff, Z.eqb_neq, negb_false_iff, bool_decide_eq_true. split.
  - intros [? [?|?]]; [left; lia|by right].
  - intros [?| ->]; [split; [lia|left; lia]|split; [lia|by right]].
Qed.

Section log.
Context `{ClusterExt} {M V : Type} `{EqDecision M}.
Context (no_membership : M) (vote_le : V → V → bool) (leader_text : Z → Z → string).
Context (encode_snapshot : SnapshotState M → string) (decode_snapshot : string → option (SnapshotState M)).
Implicit Types (db : RaftDb M V) (s : PersistentState M).

(** ** Operations *)

Inductive StoreOp :=
| OpApply (l : list (ClusterEntry M)) | OpAppend (l : list (ClusterEntry M)) | OpVote (vote : V)
| OpCommitted (committed : option LogId) | OpTruncate (log_id : LogId) | OpPurge (log_id : LogId)
| OpInstall (meta : SnapshotMeta M) (data : string) | OpBuild (frozen : result StoreFault (PersistentState M)).

Definition run_op db (op : StoreOp) : result StoreFault (RaftDb M V) :=
  match op with
  | OpApply l => '(db, _) ← apply no_membership db l; Ok db
  | OpAppend l => append_entries no_membership db l
  | OpVote vote => save_vote vote_le db vote
  | OpCommitted committed => save_committed db committed
  | OpTruncate log_id => truncate db log_id
  | OpPurge log_id => purge db log_id
  | OpInstall meta data => install_snapshot no_membership decode_snapshot db meta data
  | OpBuild frozen => '(db, _) ← build_snapshot no_membership leader_text encode_snapshot decode_snapshot frozen db; Ok db
  end.

(** A transaction that fails is rolled back. *)
Definition exec db (op : StoreOp) : RaftDb M V := match run_op db op with Ok db' => db' | Err _ => db end.

Definition exec_all db (ops : list StoreOp) : RaftDb M V := foldl exec db ops.

Lemma exec_all_ind (P : RaftDb M V → Prop) db ops :
  P db → (∀ db op db', op ∈ ops → P db → run_op db op = Ok db' → P db') → P (exec_all db ops).
Proof.
  intros H0 Hs. revert db H0. induction ops as [|op ops IH]; intros db H0; cbn; [done|].
  apply IH; [intros db1 op1 db2 Hin; apply Hs; by right|]. unfold exec. destruct (run_op db op) as [db'|] eqn:Hx; [|done].
  by eapply Hs; [left|..].
Qed.

Definition applied_of db : option LogId := s ← db_state db; last_applied s.

(** What an operation can do to the state. *)
Lemma load_Ok db s : load_persistent_state no_membership db = Ok s →
  last_applied s = applied_of db ∧ (db_state db = Some s ∨ db_state db = None ∧ s = default_state no_membership).
Proof.
  unfold load_persistent_state, applied_of. destruct (db_state db) as [s0|]; [|intros [= <-]; split; [done|by right]].
  destruct (validate_persistent_state s0); [|done]. intros [= <-]. split; [done|by left].
Qed.

Lemma write_Ok s db db' : write_persistent_state s db = Ok db' →
  persistent_ok s ∧ db' = mkDb (Some s) (db_vote db) (db_committed db) (db_purged db) (db_log db) (db_snapshot db).
Proof.
  unfold write_persistent_state. destruct (validate_persistent_state s) as [[]|] eqn:Hv; [|done]. intros [= <-].
  split; [by apply validate_persistent_state_spec|done].
Qed.

Lemma apply_entries_last s l : last_applied (apply_entries s l).1 = match last l with Some e => Some (en_log_id e) | None => last_applied s end.
Proof.
  revert s. induction l as [|e l IH]; intros s; cbn; [done|]. pose proof (IH (apply_entry s e).1) as Hx.
  assert (Hl : last_applied (apply_entry s e).1 = Some (en_log_id e)).
  { unfold apply_entry. destruct (en_payload e); try done. by destruct (apply_authority_command _ _ _). }
  destruct (apply_entry s e) as [s1 r1]. cbn in *. destruct (apply_entries s1 l) as [s2 rs]. cbn in *. rewrite Hx.
  destruct l as [|e' l]; [done|]. cbn [last]. destruct (last (e' :: l)) eqn:Hlast; [done|]. by apply last_None in Hlast.
Qed.

Lemma consecutive_last l e e' :
  consecutive (e :: l) = true → Forall (λ x : ClusterEntry M, lg_index (en_log_id x) <= u64_max) (e :: l) → last (e :: l) = Some e' →
  lg_index (en_log_id e) <= lg_index (en_log_id e').
Proof.
  revert e. induction l as [|b l IH]; intros e Hc Hr Hl; [injection Hl as <-; lia|].
  cbn [consecutive] in Hc. apply andb_true_iff in Hc as [Hb Hc]. apply Forall_cons in Hr as [He Hr].
  specialize (IH b Hc Hr Hl). unfold saturating_succ in Hb. lia.
Qed.

Definition op_typed (op : StoreOp) : Prop :=
  match op with OpApply l => Forall (λ e, lg_index (en_log_id e) <= u64_max) l | _ => True end.

Lemma apply_pointer db l db' rs :
  apply no_membership db l = Ok (db', rs) → Forall (λ e, lg_index (en_log_id e) <= u64_max) l →
  pointer_le (applied_of db) (applied_of db') ∧ db_vote db' = db_vote db ∧ db_committed db' = db_committed db ∧
  db_purged db' = db_purged db ∧ db_log db' = db_log db.
Proof.
  unfold apply. intros (u1 & Hc%ensure_Ok & (s & Hs & (u2 & Hf%ensure_Ok & Hx)%bind_Ok)%bind_Ok)%bind_Ok Hr.
  pose proof (apply_entries_last s l) as Hlast. destruct (apply_entries s l) as [s' rs']. cbn in *.
  apply bind_Ok in Hx as (db1 & [_ ->]%write_Ok & [= <- <-]). split_and!; try done.
  apply load_Ok in Hs as [Heq _]. rewrite <- Heq. unfold applied_of. cbn. rewrite Hlast.
  destruct l as [|e l]; [done|]. destruct (last (e :: l)) as [e'|] eqn:Hl; [|by apply last_None in Hl].
  pose proof (consecutive_last l e e' Hc Hr Hl). destruct (last_applied s) as [p|]; [|done]. cbn in Hf |- *. left. lia.
Qed.

Lemma snapshot_data_Ok (meta : SnapshotMeta M) data (state : SnapshotState M) :
  validate_snapshot_data decode_snapshot meta data = Ok state →
  decode_snapshot data = Some state ∧ ss_last_applied state = me_last_log_id meta ∧ ss_membership state = me_last_membership meta ∧
  persistent_ok (mkPersistent (ss_last_applied state) (ss_membership state) (ss_authority state) 0).
Proof.
  unfold validate_snapshot_data. intros (u1 & _ & (st & Hd%ok_or_Ok & (u2 & _ & (u3 & Hv & (u4 & Hm%ensure_Ok & [= <-])%bind_Ok)%bind_Ok)%bind_Ok)%bind_Ok)%bind_Ok.
  bool_hyps. destruct (validate_persistent_state _) as [[]|] eqn:Hp; [|done]. split_and!; try done. by apply validate_persistent_state_spec.
Qed.

(** The durable pointers of a store only move forward. *)
Record moves_on db db' : Prop := {
  mv_committed : pointer_le (committed_of db) (committed_of db');
  mv_purged : pointer_le (db_purged db) (db_purged db');
  mv_applied : pointer_le (applied_of db) (applied_of db');
  mv_vote : match db_vote db, db_vote db' with Some a, Some b => vote_le a b = true | Some _, None => False | None, _ => True end }.

Lemma install_Ok db meta data db' :
  install_snapshot no_membership decode_snapshot db meta data = Ok db' →
  ∃ s state, load_persistent_state no_membership db = Ok s ∧ validate_snapshot_data decode_snapshot meta data = Ok state ∧
    pointer_le (last_applied s) (ss_last_applied state) ∧ (last_applied s = ss_last_applied state → snapshot_of s = state) ∧
    db' = mkDb (Some (mkPersistent (ss_last_applied state) (ss_membership state) (ss_authority state) (snapshot_sequence s)))
            (db_vote db) (db_committed db) (db_purged db) (db_log db) (Some (me_snapshot_id meta, meta, data)).
Proof.
  unfold install_snapshot, write_snapshot_record.
  intros (state & Hd & (s & Hs & (u1 & Hr%ensure_Ok & (u2 & Hc%ensure_Ok & (db1 & [_ ->]%write_Ok & (st2 & _ & [= <-])%bind_Ok)%bind_Ok)%bind_Ok)%bind_Ok)%bind_Ok)%bind_Ok.
  exists s, state. split_and!; try done.
  - destruct (last_applied s) as [a|], (ss_last_applied state) as [b|]; try done. bool_hyps. by apply regresses_spec.
  - intros Heq. rewrite (bool_decide_eq_true_2 _ Heq) in Hc. cbn in Hc. by bool_hyps.
Qed.

Lemma build_Ok frozen db db' meta data :
  build_snapshot no_membership leader_text encode_snapshot decode_snapshot frozen db = Ok (db', (meta, data)) →
  ∃ f s, frozen = Ok f ∧ load_persistent_state no_membership db = Ok s ∧ data = encode_snapshot (snapshot_of f) ∧
    me_last_log_id meta = last_applied f ∧ me_last_membership meta = membership f ∧
    db_state db' = Some (mkPersistent (last_applied s) (membership s) (authority s) (snapshot_sequence s + 1)) ∧
    persistent_ok (mkPersistent (last_applied s) (membership s) (authority s) (snapshot_sequence s + 1)) ∧
    db_vote db' = db_vote db ∧ db_committed db' = db_committed db ∧ db_purged db' = db_purged db ∧ db_log db' = db_log db ∧
    (db_snapshot db' = db_snapshot db ∨ db_snapshot db' = Some (me_snapshot_id meta, meta, data) ∧ is_ok (validate_snapshot_data decode_snapshot meta data) = true).
Proof.
  unfold build_snapshot. intros (f & Hf & (s & Hs & (seq & Hq%ok_or_Ok & (db1 & [Hok ->]%write_Ok & Hx)%bind_Ok)%bind_Ok)%bind_Ok)%bind_Ok.
  apply checked_add64_Some in Hq as [-> _]. exists f, s. cbn in Hx.
  match type of Hx with context [if ?b then _ else _] => destruct b end.
  - apply bind_Ok in Hx as (db2 & Hw & [= <- <- <-]). unfold write_snapshot_record in Hw.
    destruct (validate_snapshot_data _ _ _) eqn:Hv; [|done]. injection Hw as <-. split_and!; try done. by right.
  - injection Hx as <- <- <-. split_and!; try done. by left.
Qed.

Lemma op_moves_on db op db' :
  PreOrder (λ a b, vote_le a b = true) → op_typed op → run_op db op = Ok db' → moves_on db db'.
Proof.
  intros Hpre Hty. assert (Hvote : match db_vote db with Some a => vote_le a a = true | None => True end).
  { destruct (db_vote db) as [a|]; [|done]. apply (@PreOrder_Reflexive _ _ Hpre a). }
  assert (Hrefl : ∀ p, pointer_le p p) by (intros; reflexivity).
  destruct op as [l|l|vote|committed|log_id|log_id|meta data|frozen]; cbn [run_op]; intros Hx.
  - apply bind_Ok in Hx as ([db1 rs] & Hx & [= <-]). destruct (apply_pointer _ _ _ _ Hx Hty) as (Ha & Hv & Hc & Hp & _).
    split; unfold committed_of; rewrite ?Hv, ?Hc, ?Hp; try done. by destruct (db_vote db).
  - unfold append_entries in Hx. res_inv. split; try apply Hrefl. cbn. by destruct (db_vote db).
  - unfold save_vote in Hx. res_inv. split; try apply Hrefl. cbn. by destruct (db_vote db).
  - unfold save_committed in Hx. res_inv. split; try apply Hrefl; cbn; [|by destruct (db_vote db)].
    destruct (committed_of db) as [a|], committed as [b|]; try done. bool_hyps. by apply regresses_spec.
  - unfold truncate in Hx. res_inv. split; try apply Hrefl. cbn. by destruct (db_vote db).
  - unfold purge in Hx. res_inv. split; try apply Hrefl; cbn; [|by destruct (db_vote db)].
    destruct (db_purged db) as [a|]; [|done]. bool_hyps. by apply regresses_spec.
  - apply install_Ok in Hx as (s & state & [Hs _]%load_Ok & _ & Hp & _ & ->). split; try apply Hrefl; cbn; [by rewrite <- Hs|by destruct (db_vote db)].
  - apply bind_Ok in Hx as ([db1 [meta data]] & Hx & [= <-]).
    apply build_Ok in Hx as (f & s & _ & [Hs _]%load_Ok & _ & _ & _ & Hst & _ & Hv & Hc & Hp & _ & _).
    split; unfold committed_of, applied_of; rewrite ?Hst, ?Hv, ?Hc, ?Hp; try apply Hrefl; [|by destruct (db_vote db)].
    cbn. rewrite Hs. apply Hrefl.
Qed.

Lemma moves_on_preorder : PreOrder (λ a b, vote_le a b = true) → PreOrder moves_on.
Proof.
  intros Hv. split.
  - intros db. split; try reflexivity. destruct (db_vote db) as [a|]; [|done]. apply (@PreOrder_Reflexive _ _ Hv a).
  - intros db1 db2 db3 [A1 A2 A3 A4] [B1 B2 B3 B4]. split; try by etrans. destruct (db_vote db1) as [a|], (db_vote db2) as [b|], (db_vote db3) as [c|]; try done.
    apply (@PreOrder_Transitive _ _ Hv a b c); done.
Qed.

(** C17. Whatever operations openraft performs on the durable store, in any order and with any arguments, the
    committed pointer, the purged pointer, the applied pointer of the state machine and the vote never move
    backwards, nor to another entry of the same index: an operation that would is refused. *)
Theorem pointers_never_regress db ops :
  PreOrder (λ a b, vote_le a b = true) → Forall op_typed ops → moves_on db (exec_all db ops).
Proof.
  intros Hpre Hty. pose proof (moves_on_preorder Hpre) as Hm. apply exec_all_ind; [reflexivity|]. intros db1 op db2 Hin H1 Hx. etrans; [done|].
  apply (op_moves_on _ op); [done| |done]. rewrite Forall_forall in Hty. by apply Hty.
Qed.

(** ** Committed entries *)

Lemma append_keeps committed (l : list (ClusterEntry M)) log log' i e :
  try_fold (append_entry committed) l log = Ok log' → log !! i = Some e → log' !! i = Some e.
Proof.
  intros Hx Hi. revert Hx. apply (try_fold_ind _ (λ _ log', log' !! i = Some e)); [done|]. intros k x s s' IH Hx.
  unfold append_entry in Hx. res_inv. destruct (decide (lg_index (en_log_id x) = i)) as [Heq|]; [|by rewrite lookup_insert_ne].
  rewrite Heq, lookup_insert_eq. rewrite Heq, IH in *. bool_hyps. congruence.
Qed.

(** The entry is in the log, or was purged. *)
Definition kept (i : Z) (e : ClusterEntry M) db : Prop :=
  db_log db !! i = Some e ∨ ∃ p, db_purged db = Some p ∧ i <= lg_index p.

Lemma op_keeps db op db' c i e :
  op_typed op → run_op db op = Ok db' → committed_of db = Some c → i <= lg_index c → kept i e db → kept i e db'.
Proof.
  intros Hty Hx Hc Hi. destruct op as [l|l|vote|committed|log_id|log_id|meta data|frozen]; cbn [run_op] in Hx.
  - apply bind_Ok in Hx as ([db1 rs] & Hx & [= <-]). destruct (apply_pointer _ _ _ _ Hx Hty) as (_ & _ & _ & Hp & Hl). unfold kept. by rewrite Hp, Hl.
  - unfold append_entries in Hx. res_inv. intros [Hl|Hp]; [left|by right]. by eapply append_keeps.
  - unfold save_vote in Hx. by res_inv.
  - unfold save_committed in Hx. by res_inv.
  - unfold truncate in Hx. rewrite Hc in Hx. res_inv. bool_hyps. intros [Hl|Hp]; [left|by right]. cbn. apply map_lookup_filter_Some. split; [done|cbn; lia].
  - unfold purge in Hx. res_inv. intros [Hl|(p & Hp & Hle)].
    + destruct (decide (i <= lg_index log_id)); [right; by exists log_id|left]. cbn. apply map_lookup_filter_Some. split; [done|cbn; lia].
    + right. exists log_id. split; [done|]. rewrite Hp in *. bool_hyps.
      match goal with H : regresses p log_id = false |- _ => apply regresses_spec in H as [?|?] end; [lia|subst; lia].
  - by apply install_Ok in Hx as (s & state & _ & _ & _ & _ & ->).
  - apply bind_Ok in Hx as ([db1 [meta data]] & Hx & [= <-]).
    apply build_Ok in Hx as (f & s & _ & _ & _ & _ & _ & _ & _ & _ & _ & Hp & Hl & _). unfold kept. by rewrite Hp, Hl.
Qed.

(** C9. An entry at or below the committed pointer is never lost or replaced: after any operations it is still in
    the log as it was, or at or below the purged pointer. *)
Theorem committed_entries_are_durable db ops c i e :
  PreOrder (λ a b, vote_le a b = true) → Forall op_typed ops → committed_of db = Some c → i <= lg_index c → db_log db !! i = Some e →
  kept i e (exec_all db ops).
Proof.
  intros Hpre Hty Hc Hi He. enough (kept i e (exec_all db ops) ∧ moves_on db (exec_all db ops)) by tauto. pose proof (moves_on_preorder Hpre) as Hm.
  apply (exec_all_ind (λ db', kept i e db' ∧ moves_on db db')); [split; [by left|reflexivity]|].
  intros db1 op db2 Hin [Hk Hmv] Hx. rewrite Forall_forall in Hty. pose proof (mv_committed _ _ Hmv) as Hp. rewrite Hc in Hp.
  destruct (committed_of db1) as [c1|] eqn:Hc1; [|done]. split; [|etrans; [done|]; apply (op_moves_on _ op); auto].
  eapply op_keeps; [by apply Hty|done|done| |done]. destruct Hp as [?| ->]; lia.
Qed.

(** ** Snapshots *)

Lemma loaded_ok db s : load_persistent_state no_membership db = Ok s → persistent_ok s.
Proof.
  unfold load_persistent_state. destruct (db_state db) as [s0|]; [|intros [= <-]; apply (mc_valid 0), default_machine_ok].
  destruct (validate_persistent_state s0) as [[]|] eqn:Hv; [|done]. intros [= <-]. by apply validate_persistent_state_spec.
Qed.

Lemma view_of_load db s :
  load_persistent_state no_membership db = Ok s → read_replicated_authority_view no_membership db =
  read_replicated_authority_view no_membership (mkDb (V := V) (Some s) None None None ∅ None).
Proof.
  intros Hs. pose proof (loaded_ok _ _ Hs) as Hv%validate_persistent_state_spec. unfold read_replicated_authority_view. rewrite Hs.
  unfold load_persistent_state. cbn. by rewrite Hv.
Qed.

Lemma persistent_ok_sequence s q : persistent_ok s → persistent_ok (mkPersistent (last_applied s) (membership s) (authority s) q).
Proof. intros [A1 A2 A3]. by split. Qed.

(** C12. A snapshot carries the state: when a replica builds a snapshot of the state it had frozen, any replica that is not
    ahead of it installs the snapshot, and then has exactly the frozen state, its applied position and its
    membership, and shows the same view of the authority. *)
Theorem snapshots_transfer_state db0 f db db' meta data db1 s1 :
  get_snapshot_builder no_membership db0 = Ok f →
  build_snapshot no_membership leader_text encode_snapshot decode_snapshot (Ok f) db = Ok (db', (meta, data)) →
  decode_snapshot (encode_snapshot (snapshot_of f)) = Some (snapshot_of f) → 0 < slen (me_snapshot_id meta) <= MAX_SNAPSHOT_ID_BYTES →
  load_persistent_state no_membership db1 = Ok s1 → pointer_le (last_applied s1) (last_applied f) →
  (last_applied s1 = last_applied f → snapshot_of s1 = snapshot_of f) →
  ∃ db2 s2, install_snapshot no_membership decode_snapshot db1 meta data = Ok db2 ∧ load_persistent_state no_membership db2 = Ok s2 ∧
    snapshot_of s2 = snapshot_of f ∧
    read_replicated_authority_view no_membership db2 = read_replicated_authority_view no_membership db0.
Proof.
  intros Hf Hb Hdec Hid Hs1 Hp Hsame. pose proof (loaded_ok _ _ Hf) as Hok.
  apply build_Ok in Hb as (f' & s & [= <-] & _ & -> & Hl & Hm & _).
  assert (Hv : validate_snapshot_data decode_snapshot meta (encode_snapshot (snapshot_of f)) = Ok (snapshot_of f)).
  { unfold validate_snapshot_data, MAX_SNAPSHOT_ID_BYTES in *. rewrite Hdec.
    rewrite (proj2 (Z.eqb_neq _ 0)), (proj2 (Z.ltb_ge 255 _)) by lia. cbn.
    rewrite (proj2 (validate_authority_state_spec _)) by apply Hok. cbn.
    pose proof (persistent_ok_sequence f 0 Hok) as Hz%validate_persistent_state_spec. rewrite Hz. cbn. rewrite Hl, Hm. by rewrite !bool_decide_eq_true_2. }
  pose proof (persistent_ok_sequence f (snapshot_sequence s1) Hok) as Hq.
  unfold install_snapshot. rewrite Hv, Hs1. cbn.
  assert (match last_applied s1, last_applied f with
          | Some current, Some installed => negb (regresses current installed) | Some _, None => false | None, _ => true end = true) as ->.
  { cbn. destruct (last_applied s1) as [a|]; [|done]. destruct (last_applied f) as [b|]; [|done]. rewrite (proj2 (regresses_spec a b)); done. }
  assert (negb (bool_decide (last_applied s1 = last_applied f) && negb (bool_decide (snapshot_of s1 = snapshot_of f))) = true) as ->.
  { cbn. case_bool_decide as Heq; [|done]. by rewrite (bool_decide_eq_true_2 _ (Hsame Heq)). }
  cbn. destruct (write_load no_membership _ db1 Hq) as (db2 & Hw & Hload). cbn in Hw, Hload. rewrite Hw. cbn. unfold write_snapshot_record. rewrite Hv. cbn.
  apply write_Ok in Hw as [_ ->]. do 2 eexists. split; [done|]. split; [exact Hload|]. split; [done|].
  rewrite (view_of_load db0 f Hf). erewrite view_of_load by exact Hload. unfold read_replicated_authority_view, load_persistent_state. cbn.
  pose proof (proj2 (validate_persistent_state_spec _) Hq) as ->. by rewrite (proj2 (validate_persistent_state_spec _) Hok).
Qed.

End log.

(** ** Concrete stores *)

#[local] Instance leb_preorder : PreOrder (λ a b : Z, (a <=? b) = true).
Proof. split; [intros a; lia|intros a b c; lia]. Qed.

Definition toy_leader (term node : Z) : string := "leader".
Definition toy_encode (s : SnapshotState unit) : string := "snapshot".

(** Two blank entries, the first committed, and a vote. *)
Definition toy_store : RaftDb unit Z :=
  mkDb None (Some 2) (Some (Some (mkLogId 1 1 0))) None
    (<[0 := mkEntry (mkLogId 1 1 0) Blank]> (<[1 := mkEntry (mkLogId 1 1 1) Blank]> ∅)) None.

(** Attempts to vote for an older term, to uncommit, and to cut the log at the committed entry and after it. *)
Definition toy_ops : list (StoreOp (M := unit) (V := Z)) :=
  [OpVote 1; OpCommitted None; OpTruncate (mkLogId 1 1 0); OpTruncate (mkLogId 1 1 1)].

Lemma pointers_never_regress_witness :
  let db := exec_all tt Z.leb toy_leader toy_encode (λ _, None) toy_store toy_ops in
  db_vote db = Some 2 ∧ committed_of db = Some (mkLogId 1 1 0).
Proof.
  destruct (pointers_never_regress tt Z.leb toy_leader toy_encode (λ _, None) toy_store toy_ops) as [Hc _ _ Hv];
    [apply _|repeat constructor|]. split; vm_compute; reflexivity.
Defined.

Lemma committed_entries_are_durable_witness :
  kept 0 (mkEntry (mkLogId 1 1 0) Blank) (exec_all tt Z.leb toy_leader toy_encode (λ _, None) toy_store toy_ops).
Proof.
  apply (committed_entries_are_durable tt Z.leb toy_leader toy_encode (λ _, None) toy_store toy_ops (mkLogId 1 1 0));
    [apply _|repeat constructor|reflexivity|by vm_compute|reflexivity].
Defined.

(** The replica of the small cluster, and its snapshot. *)
Definition toy_frozen : PersistentState unit := default (default_state tt) (db_state (run_toy toy_batches)).
Definition toy_decode (data : string) : option (SnapshotState unit) := Some (snapshot_of toy_frozen).
Definition toy_snapshot : result StoreFault (RaftDb unit unit * (SnapshotMeta unit * string)) :=
  build_snapshot tt toy_leader toy_encode toy_decode (Ok toy_frozen) (run_toy toy_batches).

Lemma toy_snapshot_id :
  match toy_snapshot with Ok (_, (m, _)) => (0 <? slen (me_snapshot_id m)) && (slen (me_snapshot_id m) <=? 255) | Err _ => true end = true.
Proof. vm_compute. reflexivity. Qed.

Lemma snapshots_transfer_state_witness :
  match toy_snapshot with
  | Ok (_, (meta, data)) =>
      ∃ db2 : RaftDb unit unit, install_snapshot tt toy_decode empty_db meta data = Ok db2 ∧
        read_replicated_authority_view tt db2 = read_replicated_authority_view tt (run_toy toy_batches)
  | Err _ => False
  end.
Proof.
  destruct toy_snapshot as [[db' [meta data]]|] eqn:Hb; [|vm_compute in Hb; discriminate].
  destruct (snapshots_transfer_state tt toy_leader toy_encode toy_decode (run_toy toy_batches) toy_frozen (run_toy toy_batches) db' meta data
    (empty_db : RaftDb unit unit) (default_state tt)) as (db2 & s2 & Hi & _ & _ & Hview);
    [vm_compute; reflexivity|exact Hb|reflexivity| |reflexivity|exact I|vm_compute; discriminate|exists db2; split; assumption].
  pose proof toy_snapshot_id as Hid. rewrite Hb in Hid. bool_hyps. unfold MAX_SNAPSHOT_ID_BYTES. lia.
Defined.
