(* ===== verification/RaftOpen.v ===== *)
(** * The durable Raft store: it can always be opened again *)

From S2P Require Import Prelude Authority AuthorityCheck AuthorityToy AuthorityValid AuthorityInv RaftStore RaftApply RaftLog.

#[local] Open Scope Z_scope.

(** ** Indexes *)

(** Byte strings of one length as SQLite compares them. *)
Fixpoint bytes_lt (a b : list Z) : bool :=
  match a, b with
  | x :: a, y :: b => (x <? y) || (x =? y) && bytes_lt a b
  | _, _ => false
  end.

Lemma byte_split n k : 0 <= n → 0 <= k → n / 2 ^ k = 256 * (n / 2 ^ (k + 8)) + n / 2 ^ k mod 256.
Proof.
  intros Hn Hk. rewrite Z.pow_add_r, <- Z.div_div by lia. change (2 ^ 8) with 256. apply Z.div_mod. lia.
Qed.

(** The digits of an index from the most significant one. *)
Lemma index_digits i : 0 <= i →
  i / 2 ^ 48 = 256 * (i / 2 ^ 56) + i / 2 ^ 48 mod 256 ∧ i / 2 ^ 40 = 256 * (i / 2 ^ 48) + i / 2 ^ 40 mod 256 ∧
  i / 2 ^ 32 = 256 * (i / 2 ^ 40) + i / 2 ^ 32 mod 256 ∧ i / 2 ^ 24 = 256 * (i / 2 ^ 32) + i / 2 ^ 24 mod 256 ∧
  i / 2 ^ 16 = 256 * (i / 2 ^ 24) + i / 2 ^ 16 mod 256 ∧ i / 2 ^ 8 = 256 * (i / 2 ^ 16) + i / 2 ^ 8 mod 256 ∧
  i = 256 * (i / 2 ^ 8) + i mod 256.
Proof.
  intros Hi. split_and!; [apply (byte_split i 48)|apply (byte_split i 40)|apply (byte_split i 32)|apply (byte_split i 24)|apply (byte_split i 16)
    |apply (byte_split i 8)|change (2 ^ 8) with 256; apply Z.div_mod]; lia.
Qed.

Definition digit (b : Z) : Prop := 0 <= b < 256.

Lemma value_shift l acc : foldl (λ acc b, acc * 256 + b) acc l = acc * 256 ^ Z.of_nat (length l) + foldl (λ acc b, acc * 256 + b) 0 l.
Proof.
  revert acc. induction l as [|b l IH]; intros acc; cbn [foldl length]; [lia|]. rewrite IH, (IH (0 * 256 + b)), Nat2Z.inj_succ, Z.pow_succ_r by lia. lia.
Qed.

Lemma value_bound l : Forall digit l → 0 <= foldl (λ acc b, acc * 256 + b) 0 l < 256 ^ Z.of_nat (length l).
Proof.
  induction 1 as [|b l Hb _ IH]; cbn [foldl length]; [lia|]. rewrite value_shift, Nat2Z.inj_succ, Z.pow_succ_r by lia. unfold digit in Hb. nia.
Qed.

(** The byte order is the order of the values. *)
Lemma bytes_lt_value a b :
  length a = length b → Forall digit a → Forall digit b →
  bytes_lt a b = (foldl (λ acc b, acc * 256 + b) 0 a <? foldl (λ acc b, acc * 256 + b) 0 b).
Proof.
  revert b. induction a as [|x a IH]; intros [|y b] Hl Ha Hb; try done. injection Hl as Hl. apply Forall_cons in Ha as [Hx Ha]. apply Forall_cons in Hb as [Hy Hb].
  cbn [bytes_lt foldl]. rewrite (IH b Hl Ha Hb), (value_shift a (0 * 256 + x)), (value_shift b (0 * 256 + y)), <- Hl.
  pose proof (value_bound a Ha) as Va. pose proof (value_bound b Hb) as Vb. rewrite <- Hl in Vb. unfold digit in *.
  set (P := 256 ^ Z.of_nat (length a)) in *. assert (Hmul : ∀ u v, u < v → (u + 1) * P <= v * P) by (intros; apply Z.mul_le_mono_nonneg_r; lia).
  apply eq_iff_eq_true. rewrite orb_true_iff, andb_true_iff, !Z.ltb_lt, Z.eqb_eq. split.
  - intros [Hlt|[-> ?]]; [specialize (Hmul x y Hlt)|]; lia.
  - intros Hlt. destruct (Z.lt_total x y) as [?|[->|Hgt]]; [by left|right; split; [done|lia]|]. specialize (Hmul y x Hgt). lia.
Qed.

Lemma index_blob_digits i : 0 <= i <= u64_max → Forall digit (index_blob i).
Proof.
  intros Hi. unfold index_blob, digit, u64_max in *. repeat (apply Forall_cons; split); try apply Forall_nil; try done; try (apply Z.mod_pos_bound; lia).
  split; [apply Z.div_pos; lia|]. apply Z.div_lt_upper_bound; lia.
Qed.

Lemma value_index_blob i : 0 <= i → foldl (λ acc b, acc * 256 + b) 0 (index_blob i) = i.
Proof. intros Hi. destruct (index_digits i Hi) as (I1 & I2 & I3 & I4 & I5 & I6 & I7). unfold index_blob. cbn [foldl]. lia. Qed.

(** The eight-byte key of a log index loses nothing and keeps the order: decoding gives the index back, and the byte
    order in which the database sorts and cuts the log is the order of the indexes. *)
Theorem index_blob_faithful i j :
  0 <= i <= u64_max → 0 <= j <= u64_max →
  decode_index (index_blob i) = Some i ∧ bytes_lt (index_blob i) (index_blob j) = (i <? j).
Proof.
  intros Hi Hj. split; [unfold decode_index; cbn [length index_blob Nat.eqb]; rewrite value_index_blob by lia; done|].
  rewrite bytes_lt_value by (done || by apply index_blob_digits). by rewrite !value_index_blob by lia.
Qed.

Lemma index_blob_faithful_witness : bytes_lt (index_blob 255) (index_blob 256) = true.
Proof. apply (index_blob_faithful 255 256); vm_compute; split; discriminate. Defined.

(** ** Rows *)

Section rows.
Context {M : Type}.
Implicit Types (log : gmap Z (ClusterEntry M)).

Lemma elem_of_log_rows log i e : (i, e) ∈ log_rows log ↔ log !! i = Some e.
Proof. unfold log_rows. rewrite merge_sort_Permutation. apply elem_of_map_to_list. Qed.

#[local] Instance row_le_total : Total (@row_le M).
Proof. intros a b. unfold row_le. lia. Qed.

#[local] Instance row_le_trans : Transitive (@row_le M).
Proof. intros a b c. unfold row_le. lia. Qed.

Lemma log_rows_sorted log : StronglySorted row_le (log_rows log).
Proof. apply StronglySorted_merge_sort; apply _. Qed.

Lemma log_rows_keys log : NoDup (log_rows log).*1.
Proof. unfold log_rows. rewrite merge_sort_Permutation. apply NoDup_fst_map_to_list. Qed.

(** The indexes of the log form an interval. *)
Definition contiguous log : Prop := ∀ i j k, is_Some (log !! i) → is_Some (log !! j) → i <= k <= j → is_Some (log !! k).

Lemma contiguous_insert log i e :
  contiguous log → log = ∅ ∨ is_Some (log !! (i - 1)) ∨ is_Some (log !! i) → contiguous (<[i := e]> log).
Proof.
  intros Hc Hi a b k. rewrite !lookup_insert_is_Some'.
  destruct Hi as [->|[Hp|Hp]].
  - rewrite !lookup_empty. intros [?|[? [=]]] [?|[? [=]]] Hk. left. lia.
  - destruct (decide (i = k)); [by left|]. intros [Ha|Ha] [Hb|Hb] Hk; right; [lia| | |by apply (Hc a b)].
    + apply (Hc (i - 1) b); [done|done|lia].
    + apply (Hc a (i - 1)); [done|done|lia].
  - intros [Ha|Ha] [Hb|Hb] Hk; right; [apply (Hc i i)|apply (Hc i b)|apply (Hc a i)|apply (Hc a b)]; done || lia.
Qed.

Lemma contiguous_filter log (P : Z * ClusterEntry M → Prop) `{∀ row, Decision (P row)} :
  contiguous log → (∀ i j k a b c, P (i, a) → P (j, b) → i <= k <= j → P (k, c)) → contiguous (filter P log).
Proof.
  intros Hc HP i j k [e He] [e' He'] Hk. apply map_lookup_filter_Some in He as [He Pi], He' as [He' Pj].
  destruct (Hc i j k) as [e'' Hx]; [by eexists|by eexists|done|]. exists e''. apply map_lookup_filter_Some. split; [done|]. by apply (HP i j k e e' e'').
Qed.

(** The scan of the rows succeeds. *)
Lemma scan_rows (purged : option LogId) (rows : list (Z * ClusterEntry M)) (previous : option Z) :
  StronglySorted row_le rows → NoDup rows.*1 →
  (∀ i e, (i, e) ∈ rows → lg_index (en_log_id e) = i ∧ ∀ p, purged = Some p → lg_index p < i) →
  (∀ p i k, previous = Some p → i ∈ rows.*1 → p < i ∧ (p < k <= i → k ∈ rows.*1)) →
  (∀ i j k, i ∈ rows.*1 → j ∈ rows.*1 → i <= k <= j → k ∈ rows.*1) →
  ∃ r, try_fold (check_log_row purged) rows previous = Ok r.
Proof.
  revert previous. induction rows as [|[i e] rows IH]; intros previous Hs Hnd Hrow Hprev Hcont; [by eexists|].
  apply StronglySorted_inv in Hs as [Hs Hmin]. rewrite Forall_forall in Hmin. cbn in Hnd. apply NoDup_cons in Hnd as [Hni Hnd].
  assert (Hgt : ∀ j, j ∈ rows.*1 → i < j).
  { intros j Hj. pose proof Hj as ([j' e'] & -> & Hin)%list_elem_of_fmap. specialize (Hmin _ Hin). unfold row_le in Hmin. cbn in *.
    assert (i ≠ j') by (by intros ->). lia. }
  destruct (IH (Some i)) as [r Hr]; try done.
  - intros i' e' Hin. apply Hrow. by right.
  - intros p j k [= <-] Hj. specialize (Hgt j Hj). split; [done|]. intros Hk.
    assert (k ∈ ((i, e) :: rows).*1) as [->|?]%elem_of_cons; [|cbn in *; lia|done]. apply (Hcont i j k); [by left|by right|lia].
  - intros a b k Ha Hb Hk. specialize (Hgt a Ha). assert (k ∈ ((i, e) :: rows).*1) as [->|?]%elem_of_cons; [|cbn in *; lia|done].
    apply (Hcont a b k); [by right|by right|done].
  - exists r. cbn. destruct (Hrow i e) as [Hkey Habove]; [by left|]. rewrite (proj2 (Z.eqb_eq _ _) Hkey). cbn.
    assert (match purged with Some p => negb (i <=? lg_index p) | None => true end = true) as ->.
    { destruct purged as [p|]; [|done]. specialize (Habove p eq_refl). lia. }
    cbn. assert (match previous with Some p => i =? p + 1 | None => true end = true) as ->; [|done].
    destruct previous as [p|]; [|done]. destruct (Hprev p i (p + 1) eq_refl) as [Hlt Hk]; [by left|].
    specialize (Hk ltac:(lia)). cbn in Hk. apply elem_of_cons in Hk as [?|Hk%Hgt]; lia.
Qed.

Lemma elem_of_row_keys log i : i ∈ (log_rows log).*1 ↔ is_Some (log !! i).
Proof.
  rewrite list_elem_of_fmap. split.
  - intros ([j e] & -> & Hin%elem_of_log_rows). by eexists.
  - intros [e He]. exists (i, e). split; [done|]. by apply elem_of_log_rows.
Qed.

End rows.

(** ** Stores *)

Section open.
Context `{ClusterExt} {M V : Type} `{EqDecision M}.
Context (no_membership : M) (vote_le : V → V → bool) (leader_text : Z → Z → string).
Context (encode_snapshot : SnapshotState M → string) (decode_snapshot : string → option (SnapshotState M)).
Implicit Types (db : RaftDb M V).

Abbreviation run := (run_op no_membership vote_le leader_text encode_snapshot decode_snapshot).
Abbreviation exec_op := (exec no_membership vote_le leader_text encode_snapshot decode_snapshot).
Abbreviation reached := (exec_all no_membership vote_le leader_text encode_snapshot decode_snapshot).

Record store_ok db : Prop := {
  so_state : ∀ s, db_state db = Some s → persistent_ok s;
  so_purged : ∀ p, db_purged db = Some p → validate_log_id_at_or_before p (applied_of db) = true;
  so_keyed : ∀ i e, db_log db !! i = Some e → lg_index (en_log_id e) = i;
  so_above : ∀ i p, is_Some (db_log db !! i) → db_purged db = Some p → lg_index p < i;
  so_contiguous : contiguous (db_log db);
  so_snapshot : ∀ id meta data, db_snapshot db = Some (id, meta, data) →
    id = me_snapshot_id meta ∧ is_ok (validate_snapshot_data decode_snapshot meta data) = true ∧
    ∃ l, me_last_log_id meta = Some l ∧ validate_log_id_at_or_before l (applied_of db) = true }.

Lemma load_ok db : store_ok db → ∃ s, load_persistent_state no_membership db = Ok s ∧ last_applied s = applied_of db.
Proof.
  intros Hok. unfold load_persistent_state, applied_of. destruct (db_state db) as [s|] eqn:Hs; [|by eexists].
  pose proof (so_state _ Hok s Hs) as ->%validate_persistent_state_spec. by eexists.
Qed.

Lemma store_opens db : store_ok db → validate_store no_membership decode_snapshot db = Ok tt.
Proof.
  intros Hok. destruct (load_ok db Hok) as (s & Hs & Hl). unfold validate_store. rewrite Hs. cbn. rewrite Hl.
  assert (match db_purged db with Some p => validate_log_id_at_or_before p (applied_of db) | None => true end = true) as ->.
  { destruct (db_purged db) as [p|] eqn:Hp; [|done]. by apply Hok. }
  cbn. destruct (scan_rows (db_purged db) (log_rows (db_log db)) None) as [r ->]; try done; [apply log_rows_sorted|apply log_rows_keys| | |].
  { intros i e He%elem_of_log_rows. split; [by apply Hok|]. intros p Hp. eapply so_above; [done|by eexists|done]. }
  { intros i j k. rewrite !elem_of_row_keys. apply Hok. }
  cbn. unfold read_snapshot_record. destruct (db_snapshot db) as [[[id meta] data]|] eqn:Hsn; [|done].
  destruct (so_snapshot _ Hok id meta data Hsn) as (-> & Hv & l & Hml & Hb). rewrite (bool_decide_eq_true_2 (me_snapshot_id meta = me_snapshot_id meta)) by done. cbn.
  destruct (validate_snapshot_data decode_snapshot meta data); [|done]. cbn. by rewrite Hml, Hb.
Qed.

Lemma empty_store_ok : store_ok empty_db.
Proof. split; cbn; try done; intros i j k [e He]; by rewrite lookup_empty in He. Qed.

(** What openraft owes the store: entries are appended after the purged ones and next to the others, only applied
    entries are purged, and snapshots are of applied entries. *)
Definition contract db (op : StoreOp (M := M) (V := V)) : Prop :=
  match op with
  | OpApply l => Forall (λ e, lg_index (en_log_id e) <= u64_max) l
  | OpAppend l =>
      Forall (λ e : ClusterEntry M, lg_index (en_log_id e) < u64_max ∧ ∀ p, db_purged db = Some p → lg_index p < lg_index (en_log_id e)) l ∧
      ∀ e, head l = Some e → db_log db = ∅ ∨ is_Some (db_log db !! (lg_index (en_log_id e) - 1)) ∨ is_Some (db_log db !! lg_index (en_log_id e))
  | OpPurge log_id => validate_log_id_at_or_before log_id (applied_of db) = true
  | OpInstall meta _ => is_Some (me_last_log_id meta)
  | OpBuild frozen => ∀ s, frozen = Ok s → ∃ l, last_applied s = Some l ∧ validate_log_id_at_or_before l (applied_of db) = true
  | OpVote _ | OpCommitted _ | OpTruncate _ => True
  end.

Fixpoint contract_all db (ops : list (StoreOp (M := M) (V := V))) : Prop :=
  match ops with [] => True | op :: ops => contract db op ∧ contract_all (exec_op db op) ops end.

(** Positions stay at or before a pointer that moves on. *)
Lemma before_pointer l p q : validate_log_id_at_or_before l p = true → pointer_le p q → validate_log_id_at_or_before l q = true.
Proof.
  destruct p as [p|]; [|done]. destruct q as [q|]; [|done]. cbn [pointer_le]. rewrite !at_or_before_Some. intros [?| ->] [?| ->]; auto. left. lia.
Qed.

Lemma append_contiguous committed l (log log' : gmap Z (ClusterEntry M)) :
  consecutive l = true → Forall (λ e, lg_index (en_log_id e) < u64_max) l → contiguous log →
  (∀ e, head l = Some e → log = ∅ ∨ is_Some (log !! (lg_index (en_log_id e) - 1)) ∨ is_Some (log !! lg_index (en_log_id e))) →
  try_fold (append_entry committed) l log = Ok log' → contiguous log'.
Proof.
  revert log. induction l as [|e l IH]; intros log Hc Hr Hlog Hnext Hx; cbn [try_fold] in Hx; [by injection Hx as <-|].
  apply bind_Ok in Hx as (log1 & H1 & Hx). unfold append_entry in H1. res_inv. apply Forall_cons in Hr as [He Hr].
  eapply (IH (<[lg_index (en_log_id e) := e]> log)); try done.
  - destruct l; [done|]. cbn [consecutive] in Hc. by apply andb_true_iff in Hc as [_ ?].
  - apply contiguous_insert; [done|by apply Hnext].
  - intros b Hb. right; left. destruct l as [|b' l]; [done|]. injection Hb as ->. cbn [consecutive] in Hc. apply andb_true_iff in Hc as [Hb _].
    unfold saturating_succ in Hb. assert (lg_index (en_log_id b) - 1 = lg_index (en_log_id e)) as -> by lia. rewrite lookup_insert_eq. by eexists.
Qed.

(** The rows that an append adds. *)
Lemma append_rows committed l (log log' : gmap Z (ClusterEntry M)) i e :
  try_fold (append_entry committed) l log = Ok log' → log' !! i = Some e → log !! i = Some e ∨ e ∈ l ∧ lg_index (en_log_id e) = i.
Proof.
  intros Hx. revert i e. revert Hx. apply (try_fold_ind _ (λ l log', ∀ i e, log' !! i = Some e → log !! i = Some e ∨ e ∈ l ∧ lg_index (en_log_id e) = i)).
  { intros i e. by left. }
  intros k x s s' IH Hx i e. unfold append_entry in Hx. res_inv. rewrite lookup_insert_Some, elem_of_app. intros [[<- <-]|[_ Hi]]; [right; set_solver|].
  destruct (IH i e Hi) as [?|[? ?]]; auto.
Qed.

(** Only the state and the snapshot change. *)
Lemma store_ok_same db db' :
  store_ok db → db_purged db' = db_purged db → db_log db' = db_log db → pointer_le (applied_of db) (applied_of db') →
  (∀ s, db_state db' = Some s → persistent_ok s) →
  (∀ id meta data, db_snapshot db' = Some (id, meta, data) → db_snapshot db = Some (id, meta, data) ∨
    id = me_snapshot_id meta ∧ is_ok (validate_snapshot_data decode_snapshot meta data) = true ∧
    ∃ l, me_last_log_id meta = Some l ∧ validate_log_id_at_or_before l (applied_of db') = true) →
  store_ok db'.
Proof.
  intros [A1 A2 A3 A4 A5 A6] Hp Hl Ha Hs Hsn. split; rewrite ?Hp, ?Hl; try done.
  - intros p Hpp. eapply before_pointer; [by apply A2|done].
  - intros id meta data [Hx|Hx]%Hsn; [|done]. destruct (A6 _ _ _ Hx) as (? & ? & l & ? & ?). split_and!; try done.
    exists l. split; [done|]. by eapply before_pointer.
Qed.

Lemma append_store_ok db l db' : store_ok db → contract db (OpAppend l) → run db (OpAppend l) = Ok db' → store_ok db'.
Proof.
  intros Hok [Hr Hh] (u1 & Hc%ensure_Ok & (s & _ & (u2 & _ & (log & Hx & [= <-])%bind_Ok)%bind_Ok)%bind_Ok)%bind_Ok.
  destruct Hok as [A1 A2 A3 A4 A5 A6]. rewrite Forall_forall in Hr. split; cbn; try done.
  - intros i e [?|[_ ?]]%(append_rows _ _ _ _ _ _ Hx); [by apply A3|done].
  - intros i p [e [?|[Hin Hi]]%(append_rows _ _ _ _ _ _ Hx)] Hp; [apply A4; [by eexists|done]|]. rewrite <- Hi. by apply (Hr e Hin).
  - eapply append_contiguous; try done. apply Forall_forall. intros e Hin. by apply Hr.
Qed.

Lemma purge_store_ok db log_id db' : store_ok db → contract db (OpPurge log_id) → run db (OpPurge log_id) = Ok db' → store_ok db'.
Proof.
  intros [A1 A2 A3 A4 A5 A6] Hb Hx. cbn in Hx. unfold purge in Hx. res_inv. split; cbn; try done.
  - by intros p [= <-].
  - intros i e [? _]%map_lookup_filter_Some. by apply A3.
  - intros i p [e [_ ?]%map_lookup_filter_Some] [= <-]. done.
  - apply contiguous_filter; [done|]. cbn. lia.
Qed.

Lemma truncate_store_ok db log_id db' : store_ok db → run db (OpTruncate log_id) = Ok db' → store_ok db'.
Proof.
  intros [A1 A2 A3 A4 A5 A6] Hx. cbn in Hx. unfold truncate in Hx. res_inv. split; cbn; try done.
  - intros i e [? _]%map_lookup_filter_Some. by apply A3.
  - intros i p [e [? _]%map_lookup_filter_Some] Hp. apply A4; [by eexists|done].
  - apply contiguous_filter; [done|]. cbn. lia.
Qed.

Lemma apply_Ok db l db' rs : apply no_membership db l = Ok (db', rs) →
  ∃ s, persistent_ok s ∧ db' = mkDb (Some s) (db_vote db) (db_committed db) (db_purged db) (db_log db) (db_snapshot db).
Proof.
  unfold apply. intros (u1 & _ & (s & _ & (u2 & _ & Hx)%bind_Ok)%bind_Ok)%bind_Ok. destruct (apply_entries s l) as [s' rs'].
  apply bind_Ok in Hx as (db1 & [Hs ->]%write_Ok & [= <- _]). by exists s'.
Qed.

Lemma apply_applied db l db' rs : apply no_membership db l = Ok (db', rs) →
  applied_of db' = match last l with Some e => Some (en_log_id e) | None => applied_of db end.
Proof.
  unfold apply. intros (u1 & _ & (s & [Hs _]%load_Ok & (u2 & _ & Hx)%bind_Ok)%bind_Ok)%bind_Ok. pose proof (apply_entries_last s l) as Hl.
  destruct (apply_entries s l) as [s' rs']. apply bind_Ok in Hx as (db1 & [_ ->]%write_Ok & [= <- _]). unfold applied_of at 1. cbn in *. by rewrite Hl, Hs.
Qed.

Lemma apply_store_ok db l db' : store_ok db → contract db (OpApply l) → run db (OpApply l) = Ok db' → store_ok db'.
Proof.
  intros Hok Hr Hx. cbn in Hx. apply bind_Ok in Hx as ([db1 rs] & Hx & [= <-]).
  destruct (apply_pointer _ _ _ _ _ Hx Hr) as (Ha & _). destruct (apply_Ok _ _ _ _ Hx) as (s & Hs & ->).
  apply (store_ok_same db); cbn; try done; [by intros ? [= <-]|by left].
Qed.

Lemma install_state db meta data db' :
  install_snapshot no_membership decode_snapshot db meta data = Ok db' → ∀ s, db_state db' = Some s → persistent_ok s.
Proof.
  unfold install_snapshot, write_snapshot_record.
  intros (state & _ & (s & _ & (u1 & _ & (u2 & _ & (db1 & [Hs ->]%write_Ok & (st & _ & [= <-])%bind_Ok)%bind_Ok)%bind_Ok)%bind_Ok)%bind_Ok)%bind_Ok.
  by intros s' [= <-].
Qed.

Lemma install_store_ok db meta data db' :
  store_ok db → contract db (OpInstall meta data) → run db (OpInstall meta data) = Ok db' → store_ok db'.
Proof.
  intros Hok [l Hl] Hx. cbn in Hx. pose proof Hx as (s & state & [Hs _]%load_Ok & Hd & Hp & _ & ->)%install_Ok.
  pose proof (snapshot_data_Ok _ _ _ _ Hd) as (_ & Hla & _ & _). apply (store_ok_same db); cbn; try done.
  - by rewrite <- Hs.
  - by apply (install_state _ _ _ _ Hx).
  - intros id m d [= <- <- <-]. right. split_and!; [done|by rewrite Hd|]. exists l. split; [done|]. unfold applied_of. cbn. rewrite Hla, Hl.
    apply at_or_before_Some. by right.
Qed.

Lemma build_store_ok db frozen db' : store_ok db → contract db (OpBuild frozen) → run db (OpBuild frozen) = Ok db' → store_ok db'.
Proof.
  intros Hok Hb Hx. cbn in Hx. apply bind_Ok in Hx as ([db1 [meta data]] & Hx & [= <-]).
  apply build_Ok in Hx as (f & s & Hf & [Hs _]%load_Ok & _ & Hl & _ & Hst & Hpo & _ & _ & Hp & Hlog & Hsn).
  assert (Ha : applied_of db1 = applied_of db) by (unfold applied_of at 1; rewrite Hst; done).
  apply (store_ok_same db); try done; rewrite ?Ha; [reflexivity|rewrite Hst; by intros ? [= <-]|].
  intros id m d Hx. destruct Hsn as [Hsn|[Hsn Hv]]; rewrite Hsn in Hx; [by left|]. injection Hx as <- <- <-. right. split_and!; try done.
  rewrite Hl. by apply Hb.
Qed.

Lemma op_store_ok db op db' : store_ok db → contract db op → run db op = Ok db' → store_ok db'.
Proof.
  intros Hok Hc Hx. destruct op as [l|l|vote|committed|log_id|log_id|meta data|frozen].
  - by eapply apply_store_ok.
  - by eapply append_store_ok.
  - cbn in Hx. unfold save_vote in Hx. res_inv. apply (store_ok_same db); try done; [apply Hok|by left].
  - cbn in Hx. unfold save_committed in Hx. res_inv. apply (store_ok_same db); try done; [apply Hok|by left].
  - by eapply truncate_store_ok.
  - by eapply purge_store_ok.
  - by eapply install_store_ok.
  - by eapply build_store_ok.
Qed.

(** C8. Restart safety of the durable Raft store: whatever operations openraft performs within its contract on a store
    that starts empty, successful or refused, the store that a restart finds passes every check of the open (the state and
    its authority are valid, no purge is beyond the applied entries, the log rows are keyed, above the purged ones and
    without a hole, and the current snapshot decodes, matches its metadata and is of applied entries). *)
Theorem store_reopens ops : contract_all empty_db ops → validate_store no_membership decode_snapshot (reached empty_db ops) = Ok tt.
Proof.
  intros Hc. apply store_opens. pose proof empty_store_ok as Hok. revert Hc Hok. generalize (empty_db (M := M) (V := V)).
  induction ops as [|op ops IH]; intros db Hc Hok; [done|]. destruct Hc as [Hop Hc]. apply (IH (exec_op db op) Hc).
  unfold exec. destruct (run_op _ _ _ _ _ db op) as [db'|] eqn:Hx; [|done]. by eapply op_store_ok.
Qed.

(** A snapshot of nothing poisons the store: a snapshot may be built before anything was applied and is then the
    current one, but once an entry is applied the store no longer passes the checks of its open, so the node cannot be
    restarted until a later snapshot replaces it. *)
Theorem empty_snapshot_refused f db1 meta data l db2 rs :
  last_applied f = None → build_snapshot no_membership leader_text encode_snapshot decode_snapshot (Ok f) (empty_db (V := V)) = Ok (db1, (meta, data)) →
  l ≠ [] → apply no_membership db1 l = Ok (db2, rs) → validate_store no_membership decode_snapshot db2 = Err SnapshotBeyondApplied.
Proof.
  intros Hf Hb Hl Ha. pose proof (apply_applied _ _ _ _ Ha) as Hlast. apply apply_Ok in Ha as (s & Hs & ->).
  pose proof Hb as (f' & s' & [= <-] & _ & _ & Hm & _ & _ & _ & _ & _ & Hp & Hlog & Hsn)%build_Ok.
  assert (Hnew : db_snapshot db1 = Some (me_snapshot_id meta, meta, data) ∧ is_ok (validate_snapshot_data decode_snapshot meta data) = true).
  { destruct Hsn as [Hsn|?]; [|done]. unfold build_snapshot in Hb. res_inv.
    match goal with Hw : write_persistent_state _ _ = Ok _ |- _ => apply write_Ok in Hw as [_ ->] end.
    cbn in *. unfold write_snapshot_record in *. res_inv. done. }
  destruct Hnew as [Hnew Hv]. unfold validate_store, load_persistent_state. cbn. rewrite (proj2 (validate_persistent_state_spec _) Hs). cbn.
  rewrite Hp, Hlog. cbn. unfold read_snapshot_record. cbn. rewrite Hnew, (bool_decide_eq_true_2 (me_snapshot_id meta = me_snapshot_id meta)) by done. cbn.
  destruct (validate_snapshot_data decode_snapshot meta data); [|done]. cbn. rewrite Hm, Hf.
  unfold applied_of in Hlast. cbn in Hlast. rewrite Hlast. destruct (last l) eqn:He; [done|]. by apply last_None in He.
Qed.

End open.

(** ** The life of a small store *)

Definition blank (index : Z) : ClusterEntry unit := mkEntry (mkLogId 1 1 index) Blank.
Definition blank_frozen : PersistentState unit := (apply_entries (default_state tt) [blank 0; blank 1]).1.
Definition blank_decode (data : string) : option (SnapshotState unit) := Some (snapshot_of blank_frozen).

(** Entries are appended, committed and applied, a snapshot is built, the log purged, and another tail written. *)
Definition store_life : list (StoreOp (M := unit) (V := Z)) :=
  [OpVote 1; OpAppend [blank 0; blank 1; blank 2]; OpCommitted (Some (mkLogId 1 1 1)); OpApply [blank 0; blank 1];
   OpBuild (Ok blank_frozen); OpPurge (mkLogId 1 1 0); OpTruncate (mkLogId 1 1 2); OpAppend [blank 2; blank 3]].

Lemma store_reopens_witness :
  let db := exec_all tt Z.leb toy_leader toy_encode blank_decode empty_db store_life in
  validate_store tt blank_decode db = Ok tt ∧ db_purged db = Some (mkLogId 1 1 0) ∧ (log_rows (db_log db)).*1 = [1; 2; 3] ∧ is_Some (db_snapshot db).
Proof.
  split; [|split; [|split]; [vm_compute; reflexivity|vm_compute; reflexivity|eexists; vm_compute; reflexivity]].
  apply (store_reopens tt Z.leb toy_leader toy_encode blank_decode store_life).
  refine (conj I (conj (conj _ _) (conj I (conj _ (conj _ (conj _ (conj I (conj (conj _ _) I)))))))).
  - repeat constructor; intros; discriminate.
  - intros e _. by left.
  - repeat constructor; discriminate.
  - intros s [= <-]. eexists. split; vm_compute; reflexivity.
  - vm_compute. reflexivity.
  - repeat constructor; intros p Hp; vm_compute in Hp; injection Hp as <-; reflexivity.
  - intros e [= <-]. right. left. eexists. vm_compute. reflexivity.
Defined.

Definition empty_decode (data : string) : option (SnapshotState unit) := Some (snapshot_of (default_state tt)).
Definition empty_built : result StoreFault (RaftDb unit Z * (SnapshotMeta unit * string)) :=
  build_snapshot tt toy_leader toy_encode empty_decode (Ok (default_state tt)) empty_db.
Definition empty_run : result StoreFault (RaftDb unit Z) :=
  '(db1, _) ← empty_built; '(db2, _) ← apply tt db1 [blank 0]; Ok db2.

Lemma empty_snapshot_refused_witness :
  match empty_run with Ok db => validate_store tt empty_decode db = Err SnapshotBeyondApplied | Err _ => False end.
Proof.
  destruct empty_run as [db2|] eqn:Hr; [|vm_compute in Hr; discriminate].
  apply bind_Ok in Hr as ([db1 [meta data]] & Hb & ([db2' rs] & Ha & [= <-])%bind_Ok).
  exact (empty_snapshot_refused tt toy_leader toy_encode empty_decode (default_state tt) db1 meta data [blank 0] db2' rs eq_refl Hb ltac:(discriminate) Ha).
Defined.
